(** * SPW Trigger Set Formatter: a shallow embedding of [App.jsx] and of the
    product explorer, with the properties of their pure logic.

    The JavaScript runtime pieces the program relies on ([String.prototype.trim],
    [JSON.parse], [JSON.stringify], [Number], [String], truthiness, object
    spread) are modelled first; the functions of the repository follow, under
    the names they have in the source.

    Modelling boundaries, stated once:
    - a JavaScript string is a list of code units restricted to one byte
      ([list ascii]); a JSON escape of a code unit above 255 is outside the model;
    - a finite JavaScript number is an exact decimal [mant * 10 ^ expo]
      (no rounding to binary64); [NaN] and the infinities are separate values;
    - an object is an association list in property order, one entry per key;
      the special ordering of array-index keys is not modelled. *)

From Stdlib Require Import String Ascii List ZArith Bool Lia Arith.
Import ListNotations.
Open Scope string_scope.
Open Scope list_scope.
Open Scope Z_scope.

(* ===================================================================== *)
(** * Strings *)
(* ===================================================================== *)

Definition str := list ascii.

(** String literals of the source are written [lit "..."]. *)
Definition lit (s : string) : str := list_ascii_of_string s.
Arguments lit : simpl never.
Arguments Ascii.eqb : simpl never.

Definition code (c : ascii) : Z := Z.of_N (N_of_ascii c).
Definition chr (n : Z) : ascii := ascii_of_N (Z.to_N n).

Definition NL : ascii := chr 10.
Definition QUOTE : ascii := chr 34.
Definition COMMA : ascii := chr 44.
Definition BACKSLASH : ascii := chr 92.

Fixpoint eqb_str (a b : str) : bool :=
  match a, b with
  | [], [] => true
  | x :: a', y :: b' => Ascii.eqb x y && eqb_str a' b'
  | _, _ => false
  end.

Definition is_empty (s : str) : bool :=
  match s with [] => true | _ => false end.

(** White space of [String.prototype.trim] among the one-byte code units:
    TAB, LF, VT, FF, CR, SPACE and NBSP. *)
Definition is_js_space (c : ascii) : bool :=
  let n := code c in
  ((9 <=? n) && (n <=? 13)) || (n =? 32) || (n =? 160).

Fixpoint trim_start (s : str) : str :=
  match s with
  | c :: r => if is_js_space c then trim_start r else s
  | [] => []
  end.

Definition trim_end (s : str) : str := rev (trim_start (rev s)).

Definition trim (s : str) : str := trim_end (trim_start s).

(** [s.includes(c)] for a one-character needle. *)
Definition includes_char (c : ascii) (s : str) : bool :=
  existsb (Ascii.eqb c) s.

(** [(s.match(/[...]/g) || []).length] for a character class [p]. *)
Definition count_chars (p : ascii -> bool) (s : str) : Z :=
  Z.of_nat (length (filter p s)).

(** [s.split(/\n+/)]: the pieces between maximal runs of line feeds. *)
Fixpoint split_nl (s : str) : list str :=
  match s with
  | [] => [[]]
  | c :: r =>
      if Ascii.eqb c NL then
        match r with
        | c' :: _ => if Ascii.eqb c' NL then split_nl r else [] :: split_nl r
        | [] => [] :: split_nl r
        end
      else
        match split_nl r with
        | p :: ps => (c :: p) :: ps
        | [] => [[c]]
        end
  end.

(** [xs.join(sep)] on strings. *)
Fixpoint join (sep : str) (xs : list str) : str :=
  match xs with
  | [] => []
  | [x] => x
  | x :: r => x ++ sep ++ join sep r
  end.

(** [s.replaceAll] of every double quote by two of them. *)
Fixpoint double_quotes (s : str) : str :=
  match s with
  | [] => []
  | c :: r => if Ascii.eqb c QUOTE then QUOTE :: QUOTE :: double_quotes r
              else c :: double_quotes r
  end.

(* ===================================================================== *)
(** * Numbers *)
(* ===================================================================== *)

(** A finite number [mant * 10 ^ expo]; canonical when [mant] is not a
    multiple of ten, zero being [Dec 0 0]. *)
Record dec := Dec { mant : Z; expo : Z }.

Inductive jsnum :=
| NaN
| Inf (neg : bool)
| Fin (d : dec).

Fixpoint strip10 (fuel : nat) (m e : Z) : dec :=
  match fuel with
  | O => Dec m e
  | S f => if m mod 10 =? 0 then strip10 f (m / 10) (e + 1) else Dec m e
  end.

Definition normalize (m e : Z) : dec :=
  if m =? 0 then Dec 0 0
  else strip10 (S (Z.to_nat (Z.log2 (Z.abs m)))) m e.

Definition canonical (d : dec) : Prop :=
  (mant d = 0 /\ expo d = 0) \/ (mant d mod 10 <> 0).

Definition num_of_Z (n : Z) : jsnum := Fin (normalize n 0).

(** Both mantissas brought to the smaller exponent. *)
Definition align (a b : dec) : Z * Z * Z :=
  let e := Z.min (expo a) (expo b) in
  (mant a * 10 ^ (expo a - e), mant b * 10 ^ (expo b - e), e).

Definition dec_leb (a b : dec) : bool :=
  let '(x, y, _) := align a b in x <=? y.

Definition dec_add (a b : dec) : dec :=
  let '(x, y, e) := align a b in normalize (x + y) e.

(** [a <= b] and [a >= b] of JavaScript: false as soon as one side is NaN. *)
Definition num_le (a b : jsnum) : bool :=
  match a, b with
  | NaN, _ | _, NaN => false
  | Inf true, _ => true
  | _, Inf false => true
  | Inf false, _ => false
  | _, Inf true => false
  | Fin x, Fin y => dec_leb x y
  end.

Definition num_ge (a b : jsnum) : bool := num_le b a.

Definition num_add (a b : jsnum) : jsnum :=
  match a, b with
  | NaN, _ | _, NaN => NaN
  | Inf s, Inf t => if Bool.eqb s t then Inf s else NaN
  | Inf s, _ | _, Inf s => Inf s
  | Fin x, Fin y => Fin (dec_add x y)
  end.

Definition is_NaN (a : jsnum) : bool :=
  match a with NaN => true | _ => false end.

(** [Number.isFinite]. *)
Definition is_finite (a : jsnum) : bool :=
  match a with Fin _ => true | _ => false end.

(** [Math.min(...xs)] and [Math.max(...xs)]. *)
Definition min2 (a b : jsnum) : jsnum :=
  if is_NaN a || is_NaN b then NaN else if num_le a b then a else b.
Definition max2 (a b : jsnum) : jsnum :=
  if is_NaN a || is_NaN b then NaN else if num_le a b then b else a.
Definition Math_min (xs : list jsnum) : jsnum := fold_left min2 xs (Inf false).
Definition Math_max (xs : list jsnum) : jsnum := fold_left max2 xs (Inf true).

(** ** Decimal digits *)

Definition is_digit (c : ascii) : bool :=
  let n := code c in (48 <=? n) && (n <=? 57).

Definition digit_val (c : ascii) : Z := code c - 48.
Definition digit_char (d : Z) : ascii := chr (48 + d).

Definition digits_val (ds : str) : Z :=
  fold_left (fun acc c => acc * 10 + digit_val c) ds 0.

Fixpoint digits_fuel (fuel : nat) (n : Z) : str :=
  match fuel with
  | O => []
  | S f => if n <? 10 then [digit_char n]
           else digits_fuel f (n / 10) ++ [digit_char (n mod 10)]
  end.

(** The decimal digits of a natural number, most significant first. *)
Definition digits_of (n : Z) : str :=
  digits_fuel (S (Z.to_nat (Z.log2 n))) n.

Definition zeros (n : Z) : str := repeat (chr 48) (Z.to_nat n).

Fixpoint span (p : ascii -> bool) (s : str) : str * str :=
  match s with
  | c :: r => if p c then let '(a, b) := span p r in (c :: a, b) else ([], s)
  | [] => ([], [])
  end.

(** ** Number to string ([Number::toString], radix 10) *)

(** The digits [ds] with the decimal point after the [n]-th of them: plain
    up to twenty-one integer digits or six leading zeros of a fraction,
    exponent notation beyond. *)
Definition dec_body (ds : str) (n : Z) : str :=
  let k := Z.of_nat (length ds) in
  if (k <=? n) && (n <=? 21) then ds ++ zeros (n - k)
  else if (0 <? n) && (n <=? 21) then
    firstn (Z.to_nat n) ds ++ lit "." ++ skipn (Z.to_nat n) ds
  else if (-6 <? n) && (n <=? 0) then lit "0." ++ zeros (- n) ++ ds
  else
    let x := n - 1 in
    let es := (if x <? 0 then lit "-" else lit "+") ++ digits_of (Z.abs x) in
    match ds with
    | [d0] => [d0] ++ lit "e" ++ es
    | d0 :: tl => [d0] ++ lit "." ++ tl ++ lit "e" ++ es
    | [] => []
    end.

Definition dec_to_string (d : dec) : str :=
  let m := mant d in
  if m =? 0 then lit "0" else
  let ds := digits_of (Z.abs m) in
  (if m <? 0 then lit "-" else []) ++
  dec_body ds (Z.of_nat (length ds) + expo d).

Definition num_to_string (a : jsnum) : str :=
  match a with
  | NaN => lit "NaN"
  | Inf false => lit "Infinity"
  | Inf true => lit "-Infinity"
  | Fin d => dec_to_string d
  end.

(** ** String to number *)

(** A decimal literal already cut in its parts: sign, integer digits,
    fraction digits, sign and digits of the exponent. *)
Definition dec_of_parts (neg : bool) (ip fp : str) (eneg : bool) (ep : str) : dec :=
  let m := digits_val (ip ++ fp) in
  let x := digits_val ep in
  normalize (if neg then - m else m)
            ((if eneg then - x else x) - Z.of_nat (length fp)).

(** The optional [e]/[E] part of a literal: its sign, its digits and the
    rest, or [None] when the exponent marker is not followed by digits. *)
Definition read_exponent (s : str) : option (bool * str * str) :=
  match s with
  | c :: r =>
      if Ascii.eqb c (chr 101) || Ascii.eqb c (chr 69) then
        let '(eneg, r1) :=
          match r with
          | c1 :: r' => if Ascii.eqb c1 (chr 45) then (true, r')
                        else if Ascii.eqb c1 (chr 43) then (false, r')
                        else (false, r)
          | [] => (false, r)
          end in
        let '(ep, r2) := span is_digit r1 in
        if is_empty ep then None else Some (eneg, ep, r2)
      else Some (false, [], s)
  | [] => Some (false, [], [])
  end.

(** Plain decimal literal of [StringToNumber]: optional sign, digits with an
    optional fraction (or a fraction alone), optional exponent, nothing after. *)
Definition read_decimal (s : str) : option dec :=
  let '(neg, r) :=
    match s with
    | c :: r' => if Ascii.eqb c (chr 45) then (true, r')
                 else if Ascii.eqb c (chr 43) then (false, r')
                 else (false, s)
    | [] => (false, s)
    end in
  let '(ip, r1) := span is_digit r in
  let '(fp, r2) :=
    match r1 with
    | c :: r' => if Ascii.eqb c (chr 46) then span is_digit r' else ([], r1)
    | [] => ([], r1)
    end in
  if is_empty ip && is_empty fp then None
  else match read_exponent r2 with
       | Some (eneg, ep, []) => Some (dec_of_parts neg ip fp eneg ep)
       | _ => None
       end.

(** Value of a digit in a radix up to sixteen, if it is one. *)
Definition radix_digit (radix : Z) (c : ascii) : option Z :=
  let n := code c in
  let v := if (48 <=? n) && (n <=? 57) then n - 48
           else if (97 <=? n) && (n <=? 102) then n - 87
           else if (65 <=? n) && (n <=? 70) then n - 55
           else 16 in
  if v <? radix then Some v else None.

Fixpoint read_radix (radix : Z) (acc : Z) (s : str) : option Z :=
  match s with
  | [] => Some acc
  | c :: r => match radix_digit radix c with
              | Some v => read_radix radix (acc * radix + v) r
              | None => None
              end
  end.

(** [0x], [0o] and [0b] literals of [StringToNumber]. *)
Definition read_prefixed (s : str) : option Z :=
  match s with
  | z :: p :: (d :: _) as ds =>
      if Ascii.eqb z (chr 48) then
        let n := code p in
        if (n =? 120) || (n =? 88) then read_radix 16 0 ds
        else if (n =? 111) || (n =? 79) then read_radix 8 0 ds
        else if (n =? 98) || (n =? 66) then read_radix 2 0 ds
        else None
      else None
  | _ => None
  end.

(** [Number(s)] on a string. *)
Definition string_to_number (s : str) : jsnum :=
  let t := trim s in
  if is_empty t then Fin (Dec 0 0)
  else if eqb_str t (lit "Infinity") || eqb_str t (lit "+Infinity") then Inf false
  else if eqb_str t (lit "-Infinity") then Inf true
  else match read_prefixed t with
       | Some n => Fin (normalize n 0)
       | None => match read_decimal t with
                 | Some d => Fin d
                 | None => NaN
                 end
       end.

(* ===================================================================== *)
(** * Values *)
(* ===================================================================== *)

Unset Elimination Schemes.
Inductive value :=
| VUndef
| VNull
| VBool (b : bool)
| VNum (n : jsnum)
| VStr (s : str)
| VArr (l : list value)
| VObj (o : list (str * value)).
Set Elimination Schemes.

Definition object := list (str * value).

Fixpoint lookup (k : str) (o : object) : option value :=
  match o with
  | [] => None
  | (k', v) :: r => if eqb_str k k' then Some v else lookup k r
  end.

(** Defining property [k]: an existing entry keeps its place and takes the
    new value, a new key goes last. *)
Fixpoint set_prop (k : str) (v : value) (o : object) : object :=
  match o with
  | [] => [(k, v)]
  | (k', v') :: r => if eqb_str k k' then (k', v) :: r
                     else (k', v') :: set_prop k v r
  end.

Definition set_props (o : object) (kvs : list (str * value)) : object :=
  fold_left (fun acc kv => set_prop (fst kv) (snd kv) acc) kvs o.

(** Truthiness ([Boolean(v)], [v || w], [if (v)]). *)
Definition truthy (v : value) : bool :=
  match v with
  | VUndef | VNull => false
  | VBool b => b
  | VNum NaN => false
  | VNum (Fin d) => negb (mant d =? 0)
  | VNum (Inf _) => true
  | VStr s => negb (is_empty s)
  | VArr _ | VObj _ => true
  end.

Definition nullish (v : value) : bool :=
  match v with VUndef | VNull => true | _ => false end.

(** [a || b] and [a ?? b]. *)
Definition or_else (a b : value) : value := if truthy a then a else b.
Definition coalesce (a b : value) : value := if nullish a then b else a.

(** [v.k] for the property names the program reads (none of them is an
    index or [length], so only objects have them). Reading a property of
    [null] or [undefined] is a TypeError: [None]. *)
Definition get (v : value) (k : str) : option value :=
  match v with
  | VUndef | VNull => None
  | VObj o => Some (match lookup k o with Some x => x | None => VUndef end)
  | _ => Some VUndef
  end.

(** [v?.k]. *)
Definition get_opt (v : value) (k : str) : value :=
  match get v k with Some x => x | None => VUndef end.

(** [xs.map(f)] where [f] may throw. *)
Fixpoint traverse {A B} (f : A -> option B) (xs : list A) : option (list B) :=
  match xs with
  | [] => Some []
  | x :: r => match f x with
              | None => None
              | Some y => match traverse f r with
                          | Some ys => Some (y :: ys)
                          | None => None
                          end
              end
  end.

(** [xs.filter(p)] and [xs.some(p)] for a test that may throw; [some] stops
    at the first element that passes. *)
Fixpoint filter_opt {A} (p : A -> option bool) (xs : list A) : option (list A) :=
  match xs with
  | [] => Some []
  | x :: r =>
      match p x with
      | None => None
      | Some b => match filter_opt p r with
                  | None => None
                  | Some ys => Some (if b then x :: ys else ys)
                  end
      end
  end.

Fixpoint some_opt {A} (p : A -> option bool) (xs : list A) : option bool :=
  match xs with
  | [] => Some false
  | x :: r => match p x with
              | None => None
              | Some true => Some true
              | Some false => some_opt p r
              end
  end.

(** [String(v)]; [None] is a TypeError. An array is joined with commas,
    its [null] and [undefined] elements written as nothing. An object is
    turned into a primitive by its [toString] and, failing that, by its
    [valueOf]: the inherited [toString] gives [[object Object]], but an own
    property [toString] of a parsed object is not a function, and then no
    [valueOf], own or inherited, gives a primitive either. *)
Fixpoint to_String (v : value) : option str :=
  match v with
  | VUndef => Some (lit "undefined")
  | VNull => Some (lit "null")
  | VBool true => Some (lit "true")
  | VBool false => Some (lit "false")
  | VNum n => Some (num_to_string n)
  | VStr s => Some s
  | VArr l =>
      match traverse (fun x => if nullish x then Some [] else to_String x) l with
      | Some ts => Some (join [COMMA] ts)
      | None => None
      end
  | VObj o =>
      match lookup (lit "toString") o with
      | Some _ => None
      | None => Some (lit "[object Object]")
      end
  end.

(** [Number(v)]; [None] is a TypeError. An object or an array is turned
    into a primitive by its [valueOf], which gives none, and then by its
    [toString], as for [String(v)]. *)
Definition to_Number (v : value) : option jsnum :=
  match v with
  | VUndef => Some NaN
  | VNull => Some (Fin (Dec 0 0))
  | VBool true => Some (Fin (Dec 1 0))
  | VBool false => Some (Fin (Dec 0 0))
  | VNum n => Some n
  | VStr s => Some (string_to_number s)
  | VArr _ | VObj _ =>
      match to_String v with
      | Some s => Some (string_to_number s)
      | None => None
      end
  end.

(** Own enumerable properties copied by [{...v}]: those of an object, the
    indexed elements of an array or of a string, none for the rest. *)
Definition index_key (i : nat) : str := digits_of (Z.of_nat i).

Fixpoint indexed {A} (f : A -> value) (i : nat) (xs : list A) : object :=
  match xs with
  | [] => []
  | x :: r => (index_key i, f x) :: indexed f (S i) r
  end.

Definition spread_props (v : value) : object :=
  match v with
  | VObj o => o
  | VArr l => indexed (fun x => x) 0 l
  | VStr s => indexed (fun c => VStr [c]) 0 s
  | _ => []
  end.

(* ===================================================================== *)
(** * JSON *)
(* ===================================================================== *)

Module JSON.

(** ** [JSON.stringify] (no indentation) *)

Definition hex_char (n : Z) : ascii :=
  if n <? 10 then chr (48 + n) else chr (87 + n).

(** [QuoteJSONString], one code unit at a time. *)
Definition escape_char (c : ascii) : str :=
  let n := code c in
  if n =? 34 then [BACKSLASH; QUOTE]
  else if n =? 92 then [BACKSLASH; BACKSLASH]
  else if n =? 8 then [BACKSLASH; chr 98]
  else if n =? 9 then [BACKSLASH; chr 116]
  else if n =? 10 then [BACKSLASH; chr 110]
  else if n =? 12 then [BACKSLASH; chr 102]
  else if n =? 13 then [BACKSLASH; chr 114]
  else if n <? 32 then
    [BACKSLASH; chr 117; chr 48; chr 48; hex_char (n / 16); hex_char (n mod 16)]
  else [c].

Definition quote (s : str) : str :=
  QUOTE :: flat_map escape_char s ++ [QUOTE].

(** [None] is the [undefined] that [JSON.stringify] returns for a value with
    no JSON text. Inside an array such a value is written [null], inside an
    object its property is left out; a number that is not finite is [null]. *)
Fixpoint stringify (v : value) : option str :=
  match v with
  | VUndef => None
  | VNull => Some (lit "null")
  | VBool true => Some (lit "true")
  | VBool false => Some (lit "false")
  | VNum (Fin d) => Some (dec_to_string d)
  | VNum _ => Some (lit "null")
  | VStr s => Some (quote s)
  | VArr l =>
      Some (lit "[" ++
            join [COMMA]
              (map (fun x => match stringify x with
                             | Some t => t
                             | None => lit "null"
                             end) l) ++
            lit "]")
  | VObj o =>
      Some (lit "{" ++
            join [COMMA]
              (flat_map (fun kv => match stringify (snd kv) with
                                   | Some t => [quote (fst kv) ++ lit ":" ++ t]
                                   | None => []
                                   end) o) ++
            lit "}")
  end.

(** ** [JSON.parse] *)

(** JSON white space: TAB, LF, CR, SPACE. *)
Definition is_ws (c : ascii) : bool :=
  let n := code c in (n =? 9) || (n =? 10) || (n =? 13) || (n =? 32).

Fixpoint skip_ws (s : str) : str :=
  match s with
  | c :: r => if is_ws c then skip_ws r else s
  | [] => []
  end.

Definition hex_val (c : ascii) : option Z := radix_digit 16 c.

(** The character an escape letter stands for. *)
Definition unescape (e : ascii) : option ascii :=
  let n := code e in
  if n =? 34 then Some QUOTE
  else if n =? 92 then Some BACKSLASH
  else if n =? 47 then Some (chr 47)
  else if n =? 98 then Some (chr 8)
  else if n =? 102 then Some (chr 12)
  else if n =? 110 then Some (chr 10)
  else if n =? 114 then Some (chr 13)
  else if n =? 116 then Some (chr 9)
  else None.

Definition cons_fst (c : ascii) (x : option (str * str)) : option (str * str) :=
  match x with Some (a, r) => Some (c :: a, r) | None => None end.

(** The characters of a string literal after its opening quote, up to the
    closing one, and what follows. *)
Fixpoint parse_string (s : str) : option (str * str) :=
  match s with
  | [] => None
  | c :: r =>
      if Ascii.eqb c QUOTE then Some ([], r)
      else if Ascii.eqb c BACKSLASH then
        match r with
        | [] => None
        | e :: r1 =>
            match unescape e with
            | Some ch => cons_fst ch (parse_string r1)
            | None =>
                if Ascii.eqb e (chr 117) then
                  match r1 with
                  | h1 :: h2 :: h3 :: h4 :: r2 =>
                      match hex_val h1, hex_val h2, hex_val h3, hex_val h4 with
                      | Some a, Some b, Some c3, Some d =>
                          if (a =? 0) && (b =? 0)
                          then cons_fst (chr (c3 * 16 + d)) (parse_string r2)
                          else None
                      | _, _, _, _ => None
                      end
                  | _ => None
                  end
                else None
            end
        end
      else if code c <? 32 then None
      else cons_fst c (parse_string r)
  end.

(** The optional fraction of a number token: its digits and the rest. *)
Definition parse_fraction (s : str) : option (str * str) :=
  match s with
  | c :: r =>
      if Ascii.eqb c (chr 46) then
        let '(fp, r2) := span is_digit r in
        if is_empty fp then None else Some (fp, r2)
      else Some ([], s)
  | [] => Some ([], s)
  end.

(** A number token after its sign: int frac? exp?, with no leading zero. *)
Definition parse_unsigned (neg : bool) (s : str) : option (dec * str) :=
  let '(ip, r1) := span is_digit s in
  match ip with
  | [] => None
  | d0 :: tl =>
      if Ascii.eqb d0 (chr 48) && negb (is_empty tl) then None
      else
        match parse_fraction r1 with
        | None => None
        | Some (fp, r2) =>
            match read_exponent r2 with
            | Some (eneg, ep, r3) => Some (dec_of_parts neg ip fp eneg ep, r3)
            | None => None
            end
        end
  end.

Definition parse_number (s : str) : option (dec * str) :=
  match s with
  | c :: r => if Ascii.eqb c (chr 45) then parse_unsigned true r
              else parse_unsigned false s
  | [] => None
  end.

Fixpoint strip_prefix (p s : str) : option str :=
  match p, s with
  | [], _ => Some s
  | a :: p', b :: s' => if Ascii.eqb a b then strip_prefix p' s' else None
  | _ :: _, [] => None
  end.

Fixpoint parse_value (fuel : nat) (s : str) : option (value * str) :=
  match fuel with
  | O => None
  | S f =>
      match skip_ws s with
      | [] => None
      | c :: r =>
          let n := code c in
          if n =? 123 then
            match skip_ws r with
            | c1 :: r1 =>
                if code c1 =? 125 then Some (VObj [], r1)
                else match parse_members f r with
                     | Some (kvs, r2) => Some (VObj (set_props [] kvs), r2)
                     | None => None
                     end
            | [] => None
            end
          else if n =? 91 then
            match skip_ws r with
            | c1 :: r1 =>
                if code c1 =? 93 then Some (VArr [], r1)
                else match parse_elements f r with
                     | Some (vs, r2) => Some (VArr vs, r2)
                     | None => None
                     end
            | [] => None
            end
          else if n =? 34 then
            match parse_string r with
            | Some (t, r1) => Some (VStr t, r1)
            | None => None
            end
          else if n =? 116 then
            match strip_prefix (lit "true") (c :: r) with
            | Some r1 => Some (VBool true, r1)
            | None => None
            end
          else if n =? 102 then
            match strip_prefix (lit "false") (c :: r) with
            | Some r1 => Some (VBool false, r1)
            | None => None
            end
          else if n =? 110 then
            match strip_prefix (lit "null") (c :: r) with
            | Some r1 => Some (VNull, r1)
            | None => None
            end
          else
            match parse_number (c :: r) with
            | Some (d, r1) => Some (VNum (Fin d), r1)
            | None => None
            end
      end
  end

with parse_elements (fuel : nat) (s : str) : option (list value * str) :=
  match fuel with
  | O => None
  | S f =>
      match parse_value f s with
      | None => None
      | Some (v, r) =>
          match skip_ws r with
          | c :: r1 =>
              if code c =? 44 then
                match parse_elements f r1 with
                | Some (vs, r2) => Some (v :: vs, r2)
                | None => None
                end
              else if code c =? 93 then Some ([v], r1)
              else None
          | [] => None
          end
      end
  end

with parse_members (fuel : nat) (s : str) : option (list (str * value) * str) :=
  match fuel with
  | O => None
  | S f =>
      match skip_ws s with
      | q :: r =>
          if code q =? 34 then
            match parse_string r with
            | None => None
            | Some (k, r1) =>
                match skip_ws r1 with
                | c :: r2 =>
                    if code c =? 58 then
                      match parse_value f r2 with
                      | None => None
                      | Some (v, r3) =>
                          match skip_ws r3 with
                          | c' :: r4 =>
                              if code c' =? 44 then
                                match parse_members f r4 with
                                | Some (kvs, r5) => Some ((k, v) :: kvs, r5)
                                | None => None
                                end
                              else if code c' =? 125 then Some ([(k, v)], r4)
                              else None
                          | [] => None
                          end
                      end
                    else None
                | [] => None
                end
            end
          else None
      | [] => None
      end
  end.

(** [JSON.parse(s)]; [None] stands for the SyntaxError it throws. *)
Definition parse (s : str) : option value :=
  match parse_value (2 * length s + 2) s with
  | Some (v, r) => if is_empty (skip_ws r) then Some v else None
  | None => None
  end.

End JSON.

(* ===================================================================== *)
(** * App.jsx: the parsing engine *)
(* ===================================================================== *)

Definition is_open_bracket (c : ascii) : bool :=
  (code c =? 123) || (code c =? 91).
Definition is_close_bracket (c : ascii) : bool :=
  (code c =? 125) || (code c =? 93).

(** The two variables the NDJSON loop updates: [out] and [buffer]. *)
Record ndstate := NdState { out : list value; buffer : str }.

(** The closure [flush] of [parsePossiblyMany]. *)
Definition flush (st : ndstate) : ndstate :=
  let snippet := trim (buffer st) in
  if is_empty snippet then st
  else match JSON.parse snippet with
       | Some parsed => NdState (out st ++ [parsed]) []
       | None => NdState (out st) []
       end.

(** One turn of [for (const line of lines)]. *)
Definition feed (st : ndstate) (line : str) : ndstate :=
  let buffer' :=
    buffer st ++ (if is_empty (buffer st) then [] else [NL]) ++ line in
  let st' := NdState (out st) buffer' in
  let open := count_chars is_open_bracket buffer' in
  let close := count_chars is_close_bracket buffer' in
  if (0 <? open) && (open =? close) then flush st' else st'.

(** [txt.split(/\n+/).map((line) => line.trim()).filter(Boolean)]. *)
Definition ndjson_lines (txt : str) : list str :=
  filter (fun l => negb (is_empty l)) (map trim (split_nl txt)).

Definition parse_ndjson (txt : str) : list value :=
  out (flush (fold_left feed (ndjson_lines txt) (NdState [] []))).

Definition parsePossiblyMany (raw : str) : list value :=
  if is_empty raw || is_empty (trim raw) then []
  else
    let txt := trim raw in
    match JSON.parse txt with
    | Some (VArr l) => l
    | Some obj => [obj]
    | None => parse_ndjson txt
    end.

(* ===================================================================== *)
(** * App.jsx: the built-in example *)
(* ===================================================================== *)

Definition vstr (s : string) : value := VStr (lit s).
Definition vnum (n : Z) : value := VNum (num_of_Z n).
Definition vobj (kvs : list (string * value)) : value :=
  VObj (map (fun kv => (lit (fst kv), snd kv)) kvs).

Definition tinyExample : list value :=
  [vobj
     [("triggerProduct",
       vobj
         [("type", vstr "products");
          ("selectedTriggerProducts",
           VArr
             [vobj
                [("product_id", vstr "123");
                 ("product_title", vstr "Sample Product");
                 ("product_description", vstr "Short description");
                 ("product_handle", vstr "sample-product");
                 ("product_image",
                  vstr "https://via.placeholder.com/400x300.png?text=Image");
                 ("product_vendor", vstr "Vendor");
                 ("product_collections",
                  VArr
                    [vobj [("id", vstr "gid://shopify/Collection/1");
                           ("title", vstr "Collection A")];
                     vobj [("id", vstr "gid://shopify/Collection/2");
                           ("title", vstr "Collection B")]]);
                 ("product_tags", VArr [vstr "tag-one"; vstr "tag-two"]);
                 ("product_url",
                  vstr "https://example.com/products/sample-product");
                 ("product_variants",
                  VArr
                    [vobj [("variant_id", vstr "v1");
                           ("variant_title", vstr "Small");
                           ("variant_available", VBool true);
                           ("variant_price", vstr "19.99");
                           ("inventory_quantity", vnum 12)];
                     vobj [("variant_id", vstr "v2");
                           ("variant_title", vstr "Large");
                           ("variant_available", VBool false);
                           ("variant_price", vstr "24.99");
                           ("inventory_quantity", vnum 0)]])]])]);
      ("triggerUpsell",
       vobj
         [("type", vstr "products");
          ("selectedUpsellProducts",
           VArr
             [vobj
                [("product_id", vstr "u1");
                 ("product_title", vstr "Upsell Sample");
                 ("product_variants",
                  VArr
                    [vobj [("variant_id", vstr "uv1");
                           ("variant_title", vstr "One Size");
                           ("variant_available", VBool true);
                           ("variant_price", vstr "9.99");
                           ("inventory_quantity", vnum 100)]])]])])]].

(* ===================================================================== *)
(** * App.jsx: the component state and its two loading handlers *)
(* ===================================================================== *)

(** The part of the state of [App] that parsing touches. *)
Record app_state := AppState { raw : str; sets : list value; error : str }.

Definition setError (msg : str) (st : app_state) : app_state :=
  AppState (raw st) (sets st) msg.
Definition setSets (f : list value -> list value) (st : app_state) : app_state :=
  AppState (raw st) (f (sets st)) (error st).

(** [onFiles(files)]; [texts] are the contents that [file.text()] resolves
    to, [None] is a missing file list. *)
Definition onFiles (files : option (list str)) (st : app_state) : app_state :=
  match files with
  | None => st
  | Some texts =>
      let st1 := setError [] st in
      let parsedChunks := flat_map parsePossiblyMany texts in
      if (length parsedChunks =? 0)%nat
      then setError (lit "No valid JSON objects found in selected files.") st1
      else setSets (fun prev => prev ++ parsedChunks) st1
  end.

(** [handleParse()]: the [throw] inside its [try] lands in its own [catch]. *)
Definition handleParse (st : app_state) : app_state :=
  let st1 := setError [] st in
  let chunks :=
    if negb (is_empty (trim (raw st1))) then parsePossiblyMany (raw st1)
    else tinyExample in
  if (length chunks =? 0)%nat
  then setError (lit "Could not parse any JSON objects.") st1
  else setSets (fun _ => chunks) st1.

(* ===================================================================== *)
(** * App.jsx: flattening to variant rows *)
(* ===================================================================== *)

(** What [(v || []).forEach] iterates over; a truthy value that is not an
    array has no [forEach], calling it is a TypeError ([None]). *)
Definition or_empty_array (v : value) : option (list value) :=
  if truthy v then match v with VArr l => Some l | _ => None end
  else Some [].

(** [xs.forEach(f)] over code that pushes to [rows] and may throw. *)
Fixpoint forEach {A} (f : A -> list object -> option (list object))
    (xs : list A) (rows : list object) : option (list object) :=
  match xs with
  | [] => Some rows
  | x :: r => match f x rows with
              | Some rows' => forEach f r rows'
              | None => None
              end
  end.

(** The object literal pushed for one variant. *)
Definition variant_row (idx : Z) (type : str) (product variant : value) : object :=
  set_props
    [(lit "set_index", vnum idx);
     (lit "trigger_type", VStr type);
     (lit "product_id", get_opt product (lit "product_id"));
     (lit "product_title", get_opt product (lit "product_title"));
     (lit "product_vendor", get_opt product (lit "product_vendor"));
     (lit "product_url", get_opt product (lit "product_url"));
     (lit "product_handle", get_opt product (lit "product_handle"));
     (lit "product_image", get_opt product (lit "product_image"));
     (lit "product_collections",
      or_else (get_opt product (lit "product_collections")) (VArr []));
     (lit "product_tags",
      or_else (get_opt product (lit "product_tags")) (VArr []));
     (lit "product_description",
      or_else (get_opt product (lit "product_description")) (VStr []))]
    (spread_props variant).

(** The closure [add] of [flatVariants]. *)
Definition add (idx : Z) (arr : value) (type : str) (rows : list object)
  : option (list object) :=
  match or_empty_array arr with
  | None => None
  | Some products =>
      forEach
        (fun product rows1 =>
           match get product (lit "product_variants") with
           | None => None
           | Some pv =>
               match or_empty_array pv with
               | None => None
               | Some variants =>
                   forEach
                     (fun variant rows2 =>
                        Some (rows2 ++ [variant_row idx type product variant]))
                     variants rows1
               end
           end)
        products rows
  end.

(** The body of [sets.forEach((setObj, idx) => ...)]. *)
Definition flatten_set (idx : Z) (setObj : value) (rows : list object)
  : option (list object) :=
  match
    add idx
      (get_opt (get_opt setObj (lit "triggerProduct"))
         (lit "selectedTriggerProducts"))
      (lit "product") rows
  with
  | None => None
  | Some rows1 =>
      add idx
        (get_opt (get_opt setObj (lit "triggerUpsell"))
           (lit "selectedUpsellProducts"))
        (lit "upsell") rows1
  end.

Fixpoint flatten_from (idx : Z) (ss : list value) (rows : list object)
  : option (list object) :=
  match ss with
  | [] => Some rows
  | setObj :: r => match flatten_set idx setObj rows with
                   | Some rows' => flatten_from (idx + 1) r rows'
                   | None => None
                   end
  end.

Definition flatVariants (ss : list value) : option (list object) :=
  flatten_from 0 ss [].

(* ===================================================================== *)
(** * App.jsx: price range, pagination, CSV cells *)
(* ===================================================================== *)

(** [row.k] on a row object. *)
Definition field (row : object) (k : string) : value :=
  match lookup (lit k) row with Some v => v | None => VUndef end.

Definition is_empty_string (v : value) : bool :=
  match v with VStr [] => true | _ => false end.

(** The local [toNum] of [filtered]; [None] when [Number] throws. *)
Definition toNum (v : value) : option jsnum :=
  if nullish v || is_empty_string v then Some NaN else to_Number v.

(** The two price lines of [filtered]; [minPrice] and [maxPrice] are the
    texts of the two inputs. [None] when [toNum] throws on a row. *)
Definition price_range (minPrice maxPrice : str) (rows : list object)
  : option (list object) :=
  let rows1 :=
    if negb (is_empty minPrice)
    then filter_opt
           (fun row => match toNum (field row "variant_price") with
                       | Some p => Some (num_ge p (string_to_number minPrice))
                       | None => None
                       end) rows
    else Some rows in
  match rows1 with
  | None => None
  | Some rows1 =>
      if negb (is_empty maxPrice)
      then filter_opt
             (fun row => match toNum (field row "variant_price") with
                         | Some p => Some (num_le p (string_to_number maxPrice))
                         | None => None
                         end) rows1
      else Some rows1
  end.

Definition pageSize : Z := 15.

(** [Math.ceil(a / b)] for a count [a] and a positive [b]. *)
Definition ceil_div (a b : Z) : Z := - ((- a) / b).

Definition totalPages (filtered_length : nat) : Z :=
  Z.max 1 (ceil_div (Z.of_nat filtered_length) pageSize).

Definition currentPage (page : Z) (filtered_length : nat) : Z :=
  Z.min page (totalPages filtered_length).

(** [xs.slice(a, b)]: a negative index counts from the end. *)
Definition slice {A} (a b : Z) (xs : list A) : list A :=
  let len := Z.of_nat (length xs) in
  let from := if a <? 0 then Z.max (len + a) 0 else Z.min a len in
  let to := if b <? 0 then Z.max (len + b) 0 else Z.min b len in
  firstn (Z.to_nat (to - from)) (skipn (Z.to_nat from) xs).

Definition pageRows {A} (page : Z) (filtered : list A) : list A :=
  let cp := currentPage page (length filtered) in
  slice ((cp - 1) * pageSize) (cp * pageSize) filtered.

(** Everything that writes [page]: the Prev and Next buttons (Next sees the
    page count of the render it was clicked in) and [resetFilters]. *)
Inductive page_action :=
| Prev
| Next (filtered_length : nat)
| ResetFilters.

Definition setPage (a : page_action) (page : Z) : Z :=
  match a with
  | Prev => Z.max 1 (page - 1)
  | Next n => Z.min (totalPages n) (page + 1)
  | ResetFilters => 1
  end.

(** The page after a history of clicks, from [useState(1)]. *)
Definition page_after (history : list page_action) : Z :=
  fold_left (fun page a => setPage a page) history 1.

(** The local [toCSV] of [exportCSV]; [None] when [String(val)] throws. *)
Definition toCSV (val : value) : option str :=
  if nullish val then Some []
  else
    match to_String val with
    | None => None
    | Some t =>
        let s := double_quotes t in
        Some (if includes_char COMMA s || includes_char NL s || includes_char QUOTE s
              then QUOTE :: s ++ [QUOTE]
              else s)
    end.

(** [xs.join(sep)] on an array of values: [null] and [undefined] are
    written as nothing, the other elements as [String] has them. *)
Definition array_join (sep : str) (xs : list value) : option str :=
  match traverse (fun x => if nullish x then Some [] else to_String x) xs with
  | Some ts => Some (join sep ts)
  | None => None
  end.

Definition cols : list str :=
  map lit
    ["set_index"; "trigger_type"; "product_id"; "product_title";
     "product_vendor"; "product_handle"; "product_url"; "variant_id";
     "variant_title"; "variant_available"; "variant_price";
     "compare_at_price"; "inventory_quantity"; "inventory_policy";
     "collections"; "tags"].

(** The array [record] of [exportCSV] before [.map(toCSV)]; a truthy
    [product_collections] or [product_tags] that is not an array has no
    [map] or [join], a [null] collection has no [title], and [join] may
    fail to turn an element into a string: TypeError. *)
Definition export_record (row : object) : option (list value) :=
  match or_else (field row "product_collections") (VArr []),
        or_else (field row "product_tags") (VArr []) with
  | VArr cs, VArr ts =>
      match traverse (fun c => get c (lit "title")) cs with
      | None => None
      | Some titles =>
          match array_join (lit "; ") titles, array_join (lit "; ") ts with
          | Some collections, Some tags =>
              Some [field row "set_index";
                    field row "trigger_type";
                    field row "product_id";
                    field row "product_title";
                    field row "product_vendor";
                    field row "product_handle";
                    field row "product_url";
                    field row "variant_id";
                    field row "variant_title";
                    field row "variant_available";
                    field row "variant_price";
                    coalesce (field row "compare_at_price") (VStr []);
                    coalesce (field row "inventory_quantity") (VStr []);
                    coalesce (field row "inventory_policy") (VStr []);
                    VStr collections;
                    VStr tags]
          | _, _ => None
          end
      end
  | _, _ => None
  end.

(** [record.join(",")] after [.map(toCSV)]. *)
Definition csv_line (record : list value) : option str :=
  match traverse toCSV record with
  | Some cells => Some (join [COMMA] cells)
  | None => None
  end.

(** The text [exportCSV] hands to [downloadTextFile]; [None] when building
    or writing a record throws, in which case nothing is downloaded. *)
Definition exportCSV (filtered : list object) : option str :=
  match traverse (fun row => match export_record row with
                             | Some record => csv_line record
                             | None => None
                             end) filtered with
  | Some lines => Some (join [NL] (join [COMMA] cols :: lines))
  | None => None
  end.

(* ===================================================================== *)
(** * product_explorer_upload_filter_visualize.jsx *)
(* ===================================================================== *)

(** [str.replace(/[^\d.\-]/g, "")]. *)
Definition keep_numeric (s : str) : str :=
  filter (fun c => is_digit c || (code c =? 46) || (code c =? 45)) s.

(** [asNumber]; [Some None] is its [null], [None] the TypeError of
    [String(v)]. *)
Definition asNumber (v : value) : option (option jsnum) :=
  if nullish v || is_empty_string v then Some None
  else
    match match v with
          | VNum x => Some x
          | _ => match to_String v with
                 | Some s => Some (string_to_number (keep_numeric s))
                 | None => None
                 end
          end with
    | Some n => Some (if is_finite n then Some n else None)
    | None => None
    end.

(** [xs.map(f).filter(v => v !== null)] where reading a field of an element
    and [asNumber] may throw. *)
Fixpoint map_numbers (k : string) (vs : list value) : option (list jsnum) :=
  match vs with
  | [] => Some []
  | v :: r =>
      match get v (lit k) with
      | None => None
      | Some x =>
          match asNumber x, map_numbers k r with
          | Some (Some n), Some ns => Some (n :: ns)
          | Some None, Some ns => Some ns
          | _, _ => None
          end
      end
  end.

Inductive source_tag := trigger | upsell | rawsrc.

Record ProductRow := {
  source : source_tag;
  product_id : value;
  product_title : value;
  product_description : value;
  product_handle : value;
  product_vendor : value;
  product_tags : value;
  product_collections : value;
  product_url : value;
  product_image : value;
  product_variants : list value;
  price_min : option jsnum;
  price_max : option jsnum;
  inventory_total : option jsnum;
  available : option bool
}.

(** [xs.reduce((a, b) => a + b, 0)]. *)
Definition sum_numbers (xs : list jsnum) : jsnum :=
  fold_left num_add xs (Fin (Dec 0 0)).

(** [deriveProductRow(p, source)]; [None] when it throws a TypeError. *)
Definition deriveProductRow (p : value) (src : source_tag) : option ProductRow :=
  match get p (lit "product_variants") with
  | None => None
  | Some pv =>
      let variants := match pv with VArr l => l | _ => [] end in
      match map_numbers "variant_price" variants,
            map_numbers "inventory_quantity" variants with
      | Some prices, Some inv =>
          Some {|
            source := src;
            product_id := get_opt p (lit "product_id");
            product_title := get_opt p (lit "product_title");
            product_description := get_opt p (lit "product_description");
            product_handle := get_opt p (lit "product_handle");
            product_vendor := get_opt p (lit "product_vendor");
            product_tags := get_opt p (lit "product_tags");
            product_collections := get_opt p (lit "product_collections");
            product_url := get_opt p (lit "product_url");
            product_image := get_opt p (lit "product_image");
            product_variants := variants;
            price_min := if (length prices =? 0)%nat then None
                         else Some (Math_min prices);
            price_max := if (length prices =? 0)%nat then None
                         else Some (Math_max prices);
            inventory_total := if (length inv =? 0)%nat then None
                               else Some (sum_numbers inv);
            available :=
              if (length variants =? 0)%nat then None
              else Some (existsb
                           (fun v => truthy (get_opt v (lit "variant_available")))
                           variants)
          |}
      | _, _ => None
      end
  end.

(** [csvEscape] of the explorer. *)
Definition csvEscape (s : value) : str :=
  if nullish s then []
  else
    let t := match s with
             | VStr x => x
             | _ => match JSON.stringify s with Some x => x | None => [] end
             end in
    if includes_char COMMA t || includes_char QUOTE t || includes_char NL t
    then QUOTE :: double_quotes t ++ [QUOTE]
    else t.

(* ===================================================================== *)
(** * Vocabulary of the statements *)
(* ===================================================================== *)

Definition canonicalb (d : dec) : bool :=
  ((mant d =? 0) && (expo d =? 0)) || negb (mant d mod 10 =? 0).

Fixpoint mem_str (k : str) (ks : list str) : bool :=
  match ks with
  | [] => false
  | k' :: r => eqb_str k k' || mem_str k r
  end.

Fixpoint nodup_keys (ks : list str) : bool :=
  match ks with
  | [] => true
  | k :: r => negb (mem_str k r) && nodup_keys r
  end.

(** The values [JSON.parse] can produce: no [undefined], finite numbers in
    canonical form, one entry per key in an object. *)
Fixpoint is_json (v : value) : bool :=
  match v with
  | VUndef => false
  | VNull | VBool _ | VStr _ => true
  | VNum (Fin d) => canonicalb d
  | VNum _ => false
  | VArr l => forallb is_json l
  | VObj o => nodup_keys (map fst o) && forallb (fun kv => is_json (snd kv)) o
  end.

Definition is_object (v : value) : bool :=
  match v with VObj _ => true | _ => false end.

(** A well-formed JSON object, the unit of the trigger-set exports. *)
Definition json_object (v : value) : bool := is_object v && is_json v.

(** [JSON.stringify(v)] as a string, for a value that has a JSON text. *)
Definition text (v : value) : str :=
  match JSON.stringify v with Some t => t | None => lit "null" end.

(** The test of the NDJSON loop on a buffer: some opening bracket, and as
    many closing as opening ones, counted character by character. *)
Definition balanced (s : str) : bool :=
  (0 <? count_chars is_open_bracket s) &&
  (count_chars is_open_bracket s =? count_chars is_close_bracket s).

Definition no_newline (s : str) : bool := negb (includes_char NL s).

(** Neither empty nor with white space at either end. *)
Definition tight (s : str) : bool :=
  match s with
  | [] => false
  | a :: _ => negb (is_js_space a) && negb (is_js_space (last s a))
  end.

Fixpoint size (v : value) : nat :=
  match v with
  | VArr l => S (list_sum (map (fun x => S (size x)) l))
  | VObj o => S (list_sum (map (fun kv => S (size (snd kv))) o))
  | _ => 1
  end.

(** What may follow a number token for it to end there. *)
Definition number_end (rest : str) : bool :=
  match rest with
  | [] => true
  | c :: _ => negb (is_digit c || (code c =? 46) || (code c =? 101) || (code c =? 69))
  end.

Definition elems_size (l : list value) : nat :=
  list_sum (map (fun x => S (size x)) l).
Definition members_size (o : object) : nat :=
  list_sum (map (fun kv => S (size (snd kv))) o).

(** Some character of [s] is not white space. *)
Definition not_blank (s : str) : bool :=
  existsb (fun c => negb (is_js_space c)) s.

(** [s] ends with [B]. *)
Definition ends_with (B s : str) : Prop := exists a, s = a ++ B.

(** Nothing but white space before the end of the text or an opening
    brace. *)
Definition stuck (r : str) : bool :=
  match JSON.skip_ws r with
  | [] => true
  | c :: _ => code c =? 123
  end.

(** The text of one member of an object. *)
Definition member_text (kv : str * value) : str :=
  JSON.quote (fst kv) ++ lit ":" ++ text (snd kv).

(** The characters a JSON text can start with. *)
Definition value_start (c : ascii) : bool :=
  let n := code c in
  is_digit c || (n =? 45) || (n =? 123) || (n =? 91) || (n =? 34) ||
  (n =? 116) || (n =? 102) || (n =? 110).

(** The characters of the text of a number. *)
Definition is_num_char (c : ascii) : bool :=
  let n := code c in
  is_digit c || (n =? 45) || (n =? 43) || (n =? 46) || (n =? 101).

(** The trigger-role or upsell-role products of a set, as [add] receives
    them. *)
Definition role_products (block key : string) (setObj : value) : value :=
  get_opt (get_opt setObj (lit block)) (lit key).

Definition products_of (arr : value) : list value :=
  match or_empty_array arr with Some ps => ps | None => [] end.

Definition variants_of (product : value) : list value :=
  match get product (lit "product_variants") with
  | Some pv => match or_empty_array pv with Some vs => vs | None => [] end
  | None => []
  end.

(** A product whose variants can be iterated: it is not [null] and its
    [product_variants] is an array or falsy. *)
Definition product_ok (product : value) : bool :=
  match get product (lit "product_variants") with
  | Some pv => match or_empty_array pv with Some _ => true | None => false end
  | None => false
  end.

Definition products_ok (arr : value) : bool :=
  match or_empty_array arr with
  | Some ps => forallb product_ok ps
  | None => false
  end.

(** A set whose two product lists can be iterated. *)
Definition set_ok (setObj : value) : bool :=
  products_ok (role_products "triggerProduct" "selectedTriggerProducts" setObj) &&
  products_ok (role_products "triggerUpsell" "selectedUpsellProducts" setObj).

(** Number of variants over a list of products. *)
Definition variant_count (products : list value) : nat :=
  list_sum (map (fun p => length (variants_of p)) products).

(** One row per product and variant, in input order. *)
Definition role_rows (idx : Z) (type : string) (products : list value) : list object :=
  flat_map (fun p => map (variant_row idx (lit type) p) (variants_of p)) products.

Definition set_rows (idx : Z) (setObj : value) : list object :=
  role_rows idx "product"
    (products_of (role_products "triggerProduct" "selectedTriggerProducts" setObj)) ++
  role_rows idx "upsell"
    (products_of (role_products "triggerUpsell" "selectedUpsellProducts" setObj)).

Fixpoint sets_rows (idx : Z) (ss : list value) : list object :=
  match ss with
  | [] => []
  | s :: r => set_rows idx s ++ sets_rows (idx + 1) r
  end.

Definition has_key (k : string) (v : value) : bool :=
  match lookup (lit k) (spread_props v) with Some _ => true | None => false end.

(** No variant of these products defines a [trigger_type] key. *)
Definition no_role_key (products : list value) : bool :=
  forallb (fun p => forallb (fun v => negb (has_key "trigger_type" v))
                            (variants_of p)) products.

(** The products of a role, each with its variants, in input order. *)
Definition role_variants (products : list value) : list (value * value) :=
  flat_map (fun p => map (fun v => (p, v)) (variants_of p)) products.

(** Where a row comes from: the position of its set, its role, its product
    and its variant. *)
Record origin := Origin {
  of_set : Z;
  of_role : str;
  of_product : value;
  of_variant : value
}.

(** The origins of the rows of a set, trigger role first, and of a sequence
    of sets, counted from [idx]. *)
Definition set_origins (idx : Z) (setObj : value) : list origin :=
  map (fun pv => Origin idx (lit "product") (fst pv) (snd pv))
      (role_variants
         (products_of (role_products "triggerProduct" "selectedTriggerProducts" setObj))) ++
  map (fun pv => Origin idx (lit "upsell") (fst pv) (snd pv))
      (role_variants
         (products_of (role_products "triggerUpsell" "selectedUpsellProducts" setObj))).

Fixpoint sets_origins (idx : Z) (ss : list value) : list origin :=
  match ss with
  | [] => []
  | s :: r => set_origins idx s ++ sets_origins (idx + 1) r
  end.

(** [String(v)] does not throw; neither does [Number(v)] then. *)
Definition stringable (v : value) : bool :=
  match to_String v with Some _ => true | None => false end.

(** The price the range filter compares. *)
Definition price_of (row : object) : option jsnum :=
  toNum (field row "variant_price").

(** The cell text [toCSV] starts from. *)
Definition cell_text (v : value) : option str :=
  if nullish v then Some [] else to_String v.

(** The quoting rule of a cell, on its text. *)
Definition csv_quote (s : str) : str :=
  if includes_char COMMA s || includes_char NL s || includes_char QUOTE s
  then QUOTE :: double_quotes s ++ [QUOTE]
  else s.

(** The line of a record of texts. *)
Definition quoted_line (r : list str) : str := join [COMMA] (map csv_quote r).

(** Modelled from the spec: the CSV reader of the export round trip (the
    repository only writes CSV). Records end at a line feed outside quotes,
    cells at a comma outside quotes; inside a quoted cell two double quotes
    stand for one. [cur] is the cell being read and [rec] the cells of the
    record read so far, both in reverse. *)
Inductive csv_state := AtStart | InPlain | InQuoted | AfterQuote.

Fixpoint csv_parse_from (st : csv_state) (cur : str) (rec : list str) (s : str)
  : list (list str) :=
  match s with
  | [] => [rev (rev cur :: rec)]
  | c :: r =>
      match st with
      | InQuoted =>
          if Ascii.eqb c QUOTE then csv_parse_from AfterQuote cur rec r
          else csv_parse_from InQuoted (c :: cur) rec r
      | _ =>
          if Ascii.eqb c COMMA then csv_parse_from AtStart [] (rev cur :: rec) r
          else if Ascii.eqb c NL
          then rev (rev cur :: rec) :: csv_parse_from AtStart [] [] r
          else if Ascii.eqb c QUOTE then
            match st with
            | AtStart => csv_parse_from InQuoted cur rec r
            | AfterQuote => csv_parse_from InQuoted (c :: cur) rec r
            | _ => csv_parse_from InPlain (c :: cur) rec r
            end
          else csv_parse_from InPlain (c :: cur) rec r
      end
  end.

Definition csv_parse (s : str) : list (list str) := csv_parse_from AtStart [] [] s.

(** The numbers [deriveProductRow] keeps for a field: the coercible values,
    in variant order. *)
Definition coerced (k : string) (variants : list value) : list jsnum :=
  flat_map (fun v => match asNumber (get_opt v (lit k)) with
                     | Some (Some n) => [n]
                     | _ => []
                     end) variants.

(** The coercion as the specification words it: digits and decimal points
    are kept, and of the minus signs only one in leading position. *)
Definition keep_numeric_spec (s : str) : str :=
  match keep_numeric s with
  | c :: r => if code c =? 45
              then c :: filter (fun x => negb (code x =? 45)) r
              else filter (fun x => negb (code x =? 45)) (c :: r)
  | [] => []
  end.

(* ===================================================================== *)
(** * More of the runtime: lower case, substrings, iteration *)
(* ===================================================================== *)

(** [s.toLowerCase()] on one-byte code units: the letters A to Z and the
    capital letters of Latin-1 (U+00C0 to U+00DE, the sign U+00D7 apart)
    are the ones with a lower case, 32 further. *)
Definition lower_char (c : ascii) : ascii :=
  let n := code c in
  if ((65 <=? n) && (n <=? 90)) || ((192 <=? n) && (n <=? 214)) ||
     ((216 <=? n) && (n <=? 222))
  then chr (n + 32) else c.

Definition toLowerCase (s : str) : str := map lower_char s.

Fixpoint starts_with (p s : str) : bool :=
  match p, s with
  | [], _ => true
  | a :: p', b :: s' => Ascii.eqb a b && starts_with p' s'
  | _ :: _, [] => false
  end.

(** [s.includes(needle)]. *)
Fixpoint includes (needle s : str) : bool :=
  starts_with needle s ||
  match s with
  | [] => false
  | _ :: r => includes needle r
  end.

(** [s.indexOf(c)] for a one-character needle, -1 when it is absent. *)
Fixpoint indexOf (c : ascii) (s : str) : Z :=
  match s with
  | [] => -1
  | x :: r => if Ascii.eqb x c then 0
              else let i := indexOf c r in if i =? -1 then -1 else i + 1
  end.

(** What [for (const x of v)] and a spread [...v] in an array literal go
    through: the elements of an array, the characters of a string; any
    other value is not iterable, a TypeError ([None]). *)
Definition iterate (v : value) : option (list value) :=
  match v with
  | VArr l => Some l
  | VStr s => Some (map (fun c => VStr [c]) s)
  | _ => None
  end.

(** [v === s] for a string [s]. *)
Definition is_string (s : str) (v : value) : bool :=
  match v with VStr x => eqb_str x s | _ => false end.

(** [typeof v === "object"]. *)
Definition typeof_object (v : value) : bool :=
  match v with VNull | VArr _ | VObj _ => true | _ => false end.

(** SameValueZero, the comparison of [Map] and [Set] keys and of
    [Array.prototype.includes], on primitive values. Two objects or arrays
    are the same key when they are the same object, which a value does not
    tell: [None]. *)
Definition same_number (a b : jsnum) : bool :=
  match a, b with
  | NaN, NaN => true
  | _, _ => num_le a b && num_le b a
  end.

Definition same_value_zero (a b : value) : option bool :=
  match a, b with
  | VUndef, VUndef | VNull, VNull => Some true
  | VBool x, VBool y => Some (Bool.eqb x y)
  | VNum x, VNum y => Some (same_number x y)
  | VStr x, VStr y => Some (eqb_str x y)
  | (VArr _ | VObj _), (VArr _ | VObj _) => None
  | _, _ => Some false
  end.

(* ===================================================================== *)
(** * App.jsx: grouping, the filters, the inventory total *)
(* ===================================================================== *)

(** The [Map] of [flattenByProduct], in insertion order: each key with its
    [{ product, rows }] object, which [byId.get(key).rows.push(row)]
    changes in place. *)
Definition product_map := list (value * (object * list object)).

Fixpoint map_has (key : value) (m : product_map) : option bool :=
  match m with
  | [] => Some false
  | (k, _) :: r => match same_value_zero key k with
                   | None => None
                   | Some true => Some true
                   | Some false => map_has key r
                   end
  end.

(** [byId.set(key, g)] for a key that is not there yet. *)
Definition map_set (key : value) (g : object * list object) (m : product_map)
  : product_map := m ++ [(key, g)].

(** [byId.get(key).rows.push(row)]. *)
Fixpoint map_push (key : value) (row : object) (m : product_map)
  : option product_map :=
  match m with
  | [] => None
  | (k, g) :: r =>
      match same_value_zero key k with
      | None => None
      | Some true => Some ((k, (fst g, snd g ++ [row])) :: r)
      | Some false => match map_push key row r with
                      | Some r' => Some ((k, g) :: r')
                      | None => None
                      end
      end
  end.

(** [row.product_id || row.product_handle || row.product_title]. *)
Definition product_key (row : object) : value :=
  or_else (or_else (field row "product_id") (field row "product_handle"))
          (field row "product_title").

(** [flattenByProduct(rows)]: the groups as pairs (product, rows); [None]
    when a key is an object or an array. *)
Fixpoint group_rows (rows : list object) (byId : product_map)
  : option product_map :=
  match rows with
  | [] => Some byId
  | row :: rest =>
      let key := product_key row in
      match map_has key byId with
      | None => None
      | Some has =>
          let byId1 := if has then byId else map_set key (row, []) byId in
          match map_push key row byId1 with
          | None => None
          | Some byId2 => group_rows rest byId2
          end
      end
  end.

Definition flattenByProduct (rows : list object)
  : option (list (object * list object)) :=
  match group_rows rows [] with
  | Some byId => Some (map snd byId)
  | None => None
  end.

Definition groupByProduct (pairs : list (object * list object))
  : list (object * list object) :=
  map (fun pr => (fst pr, snd pr)) pairs.

Module Controls.
(** The filter controls of [App], under the names of their state. *)
Record controls := Make {
  q : str;
  collection : str;
  tag : str;
  availability : str;
  minPrice : str;
  maxPrice : str;
  minInv : str;
  maxInv : str;
  optionFilter : str;
  triggerType : str;
  setIndex : str
}.
End Controls.

(** The controls after [resetFilters], which are also the initial ones. *)
Definition resetFilters : Controls.controls :=
  Controls.Make [] [] [] (lit "any") [] [] [] [] [] (lit "any") (lit "any").

(** The test of the search box on one row; the spread of a
    [product_tags] that is not iterable, a [product_collections] without
    [map], the [title] of a [null] collection and a [String(value)] that
    [some] gets to and that throws are TypeErrors. *)
Definition matches_search (needle : str) (row : object) : option bool :=
  match iterate (or_else (field row "product_tags") (VArr [])) with
  | None => None
  | Some tags =>
      match or_empty_array (field row "product_collections") with
      | None => None
      | Some cs =>
          match traverse (fun c => get c (lit "title")) cs with
          | None => None
          | Some titles =>
              some_opt
                (fun value =>
                   match to_String value with
                   | Some s => Some (includes needle (toLowerCase s))
                   | None => None
                   end)
                (filter truthy
                   ([field row "product_title";
                     field row "product_vendor";
                     field row "product_handle";
                     field row "variant_title";
                     field row "product_description"] ++ tags ++ titles))
          end
      end
  end.

Definition in_collection (collection : str) (row : object) : option bool :=
  match or_empty_array (field row "product_collections") with
  | None => None
  | Some cs =>
      some_opt (fun c => match get c (lit "id") with
                         | Some id => Some (is_string collection id)
                         | None => None
                         end) cs
  end.

(** [(row.product_tags || []).includes(tag)]: an element of an array, a
    substring of a string; other values have no [includes]. *)
Definition has_tag (tag : str) (row : object) : option bool :=
  match or_else (field row "product_tags") (VArr []) with
  | VArr ts => Some (existsb (is_string tag) ts)
  | VStr s => Some (includes tag s)
  | _ => None
  end.

(** [Number(row.inventory_quantity || 0)]. *)
Definition inventory_of (row : object) : option jsnum :=
  to_Number (or_else (field row "inventory_quantity") (vnum 0)).

(** The rows of [filtered] before they are sorted: the filters of the
    [useMemo], in its order; [None] when one of them throws. *)
Definition filtered_rows (c : Controls.controls) (flatVariants : list object)
  : option (list object) :=
  let rows0 := Some flatVariants in
  let step (cond : bool) (p : object -> option bool)
           (rows : option (list object)) :=
    match rows with
    | None => None
    | Some rs => if cond then filter_opt p rs else Some rs
    end in
  let rows1 :=
    step (negb (is_empty (trim (Controls.q c))))
         (matches_search (toLowerCase (Controls.q c))) rows0 in
  let rows2 :=
    step (negb (is_empty (Controls.collection c)))
         (in_collection (Controls.collection c)) rows1 in
  let rows3 :=
    step (negb (is_empty (Controls.tag c))) (has_tag (Controls.tag c)) rows2 in
  let rows4 :=
    step (negb (eqb_str (Controls.triggerType c) (lit "any")))
         (fun row => Some (is_string (Controls.triggerType c)
                                     (field row "trigger_type"))) rows3 in
  let rows5 :=
    step (negb (eqb_str (Controls.setIndex c) (lit "any")))
         (fun row => match to_String (field row "set_index") with
                     | Some s => Some (eqb_str s (Controls.setIndex c))
                     | None => None
                     end) rows4 in
  let rows6 :=
    step (negb (eqb_str (Controls.availability c) (lit "any")))
         (fun row => Some (Bool.eqb (truthy (field row "variant_available"))
                                    (eqb_str (Controls.availability c) (lit "in"))))
         rows5 in
  let rows7 :=
    step (negb (is_empty (trim (Controls.optionFilter c))))
         (fun row =>
            match to_String (or_else (field row "variant_title") (VStr [])) with
            | Some s => Some (includes (toLowerCase (Controls.optionFilter c))
                                       (toLowerCase s))
            | None => None
            end)
         rows6 in
  let rows8 :=
    match rows7 with
    | Some rs => price_range (Controls.minPrice c) (Controls.maxPrice c) rs
    | None => None
    end in
  let rows9 :=
    step (negb (is_empty (Controls.minInv c)))
         (fun row => match inventory_of row with
                     | Some n => Some (num_ge n (string_to_number (Controls.minInv c)))
                     | None => None
                     end) rows8 in
  step (negb (is_empty (Controls.maxInv c)))
       (fun row => match inventory_of row with
                   | Some n => Some (num_le n (string_to_number (Controls.maxInv c)))
                   | None => None
                   end) rows9.

(** [filtered.reduce((sum, row) => sum + Number(row.inventory_quantity || 0), 0)];
    [None] when [Number] throws on a row. *)
Definition totalInventory (filtered : list object) : option jsnum :=
  fold_left (fun sum row => match sum, inventory_of row with
                            | Some t, Some n => Some (num_add t n)
                            | _, _ => None
                            end)
            filtered (Some (Fin (Dec 0 0))).

(* ===================================================================== *)
(** * The explorer: text extraction, flattening, fields, filters *)
(* ===================================================================== *)

(** [s.replace(re, rep)] for a global expression [re] that matches no empty
    string: [m s] is the length of the match of [re] at the head of [s], 0
    for none; after a match the search goes on behind it. *)
Fixpoint replace_go (m : str -> nat) (rep : str) (skip : nat) (s : str) : str :=
  match s with
  | [] => []
  | c :: r =>
      match skip with
      | S k => replace_go m rep k r
      | O => match m s with
             | S n => rep ++ replace_go m rep n r
             | O => c :: replace_go m rep O r
             end
      end
  end.

Definition replace_all (m : str -> nat) (rep : str) (s : str) : str :=
  replace_go m rep 0 s.

Definition is_letter (c : ascii) : bool :=
  let n := code c in
  ((97 <=? n) && (n <=? 122)) || ((65 <=? n) && (n <=? 90)).

Definition is_hex (c : ascii) : bool :=
  match radix_digit 16 c with Some _ => true | None => false end.

Definition is_brace (c : ascii) : bool := (code c =? 123) || (code c =? 125).

(** [/\\par[d]?/]. *)
Definition match_par (s : str) : nat :=
  match JSON.strip_prefix (lit "\par") s with
  | Some (d :: _) => if Ascii.eqb d (chr 100) then 5 else 4
  | Some [] => 4
  | None => 0
  end.

(** [/\\'[0-9a-fA-F]{2}/]. *)
Definition match_hex_escape (s : str) : nat :=
  match s with
  | b :: a :: h1 :: h2 :: _ =>
      if Ascii.eqb b BACKSLASH && Ascii.eqb a (chr 39) && is_hex h1 && is_hex h2
      then 4 else 0
  | _ => 0
  end.

(** [/\\[a-zA-Z]+-?\d* ?/]: every part after the letters is optional, so the
    greedy choice of each part is the match. *)
Definition match_control (s : str) : nat :=
  match s with
  | b :: r =>
      if Ascii.eqb b BACKSLASH then
        let '(letters, r1) := span is_letter r in
        if is_empty letters then O
        else
          let '(dash, r2) :=
            match r1 with
            | c :: r' => if Ascii.eqb c (chr 45) then (1%nat, r') else (O, r1)
            | [] => (O, r1)
            end in
          let '(digits, r3) := span is_digit r2 in
          let space :=
            match r3 with
            | c :: _ => if Ascii.eqb c (chr 32) then 1%nat else O
            | [] => O
            end in
          (1 + length letters + dash + length digits + space)%nat
      else O
  | [] => O
  end.

(** [/\n\n+/]. *)
Definition match_newlines (s : str) : nat :=
  match s with
  | a :: b :: r =>
      if Ascii.eqb a NL && Ascii.eqb b NL
      then (2 + length (fst (span (Ascii.eqb NL) r)))%nat
      else O
  | _ => O
  end.

Definition rtfToText (rtf : str) : str :=
  trim
    (replace_all match_newlines [NL]
       (filter (fun c => negb (is_brace c))
          (replace_all match_control []
             (replace_all match_hex_escape [chr 32]
                (replace_all match_par [NL] rtf))))).

(** The loop of [extractJSON]: [taken] is [text.slice(start, i)] and [rest]
    what follows it. *)
Fixpoint scan (openChar closeChar : ascii) (depth : Z) (taken rest : str) : value :=
  match rest with
  | [] => VNull
  | ch :: rest' =>
      let depth1 := if Ascii.eqb ch openChar then depth + 1 else depth in
      let depth2 := if Ascii.eqb ch closeChar then depth1 - 1 else depth1 in
      let candidate := taken ++ [ch] in
      if depth2 =? 0 then
        match JSON.parse candidate with
        | Some v => v
        | None => scan openChar closeChar depth2 candidate rest'
        end
      else scan openChar closeChar depth2 candidate rest'
  end.

(** [extractJSON(text)]; its [null] is [VNull]. *)
Definition extractJSON (text : str) : value :=
  match JSON.parse text with
  | Some v => v
  | None =>
      let objStart := indexOf (chr 123) text in
      let arrStart := indexOf (chr 91) text in
      let start :=
        if negb (objStart =? -1) && ((arrStart =? -1) || (objStart <? arrStart))
        then objStart else arrStart in
      if start =? -1 then VNull
      else
        match skipn (Z.to_nat start) text with
        | (openChar :: _) as from =>
            let closeChar :=
              if Ascii.eqb openChar (chr 123) then chr 125 else chr 93 in
            scan openChar closeChar 0 [] from
        | [] => VNull
        end
  end.

(** [for (const p of ps) rows.push(deriveProductRow(p, source))]. *)
Fixpoint push_rows (src : source_tag) (ps : list value) (rows : list ProductRow)
  : option (list ProductRow) :=
  match ps with
  | [] => Some rows
  | p :: r => match deriveProductRow p src with
              | Some row => push_rows src r (rows ++ [row])
              | None => None
              end
  end.

(** The body of the loop over the trigger sets. *)
Definition flatten_trigger_set (set : value) (rows : list ProductRow)
  : option (list ProductRow) :=
  let t := or_else (get_opt (get_opt set (lit "triggerProduct"))
                      (lit "selectedTriggerProducts")) (VArr []) in
  let u := or_else (get_opt (get_opt set (lit "triggerUpsell"))
                      (lit "selectedUpsellProducts")) (VArr []) in
  match iterate t with
  | None => None
  | Some ts =>
      match push_rows trigger ts rows with
      | None => None
      | Some rows1 =>
          match iterate u with
          | None => None
          | Some us => push_rows upsell us rows1
          end
      end
  end.

Fixpoint flatten_trigger_sets (sets : list value) (rows : list ProductRow)
  : option (list ProductRow) :=
  match sets with
  | [] => Some rows
  | set :: r => match flatten_trigger_set set rows with
                | Some rows' => flatten_trigger_sets r rows'
                | None => None
                end
  end.

(** [flattenA7TriggerJSON(data)]; [None] when it throws a TypeError. *)
Definition flattenA7TriggerJSON (data : value) : option (list ProductRow) :=
  let triggerSets :=
    match data with
    | VArr l => l
    | _ => match get_opt data (lit "trigger_set") with
           | VArr l => l
           | _ => []
           end
    end in
  match flatten_trigger_sets triggerSets [] with
  | None => None
  | Some rows =>
      if (length rows =? 0)%nat && typeof_object data then
        match deriveProductRow data rawsrc with
        | Some row => Some (rows ++ [row])
        | None => None
        end
      else Some rows
  end.

(** [unique(arr)], that is [Array.from(new Set(arr))], on strings: a set
    keeps its elements in the order they were first added. *)
Definition set_add (s : list str) (x : str) : list str :=
  if mem_str x s then s else s ++ [x].

Definition unique (arr : list str) : list str := fold_left set_add arr [].

(** The field selection: its initial value and the handler of a check box. *)
Definition selectedFields0 : list str :=
  map lit ["product_title"; "product_vendor"; "price_min"; "price_max";
           "inventory_total"; "available"].

Definition setSelectedFields (checked : bool) (f : str) (prev : list str)
  : list str :=
  if checked then unique (prev ++ [f])
  else filter (fun x => negb (eqb_str x f)) prev.

Definition selection_after (clicks : list (bool * str)) : list str :=
  fold_left (fun prev click => setSelectedFields (fst click) (snd click) prev)
            clicks selectedFields0.

(** A row as the object that [deriveProductRow] returns, key by key. *)
Definition source_name (s : source_tag) : str :=
  match s with
  | trigger => lit "trigger"
  | upsell => lit "upsell"
  | rawsrc => lit "raw"
  end.

Definition number_or_null (x : option jsnum) : value :=
  match x with Some n => VNum n | None => VNull end.

Definition bool_or_null (x : option bool) : value :=
  match x with Some b => VBool b | None => VNull end.

Definition row_object (r : ProductRow) : object :=
  [(lit "source", VStr (source_name (source r)));
   (lit "product_id", product_id r);
   (lit "product_title", product_title r);
   (lit "product_description", product_description r);
   (lit "product_handle", product_handle r);
   (lit "product_vendor", product_vendor r);
   (lit "product_tags", product_tags r);
   (lit "product_collections", product_collections r);
   (lit "product_url", product_url r);
   (lit "product_image", product_image r);
   (lit "product_variants", VArr (product_variants r));
   (lit "price_min", number_or_null (price_min r));
   (lit "price_max", number_or_null (price_max r));
   (lit "inventory_total", number_or_null (inventory_total r));
   (lit "available", bool_or_null (available r))].

(** [r[f]] for a field [f] among the keys of the row. *)
Definition row_field (r : ProductRow) (f : str) : value :=
  match lookup f (row_object r) with Some v => v | None => VUndef end.

Module Explorer.
(** [toCSV(rows, fields)] of the explorer. *)
Definition toCSV (rows : list ProductRow) (fields : list str) : str :=
  let header := join [COMMA] fields in
  let body :=
    join [NL]
      (map (fun r => join [COMMA] (map (fun f => csvEscape (row_field r f)) fields))
           rows) in
  header ++ [NL] ++ body.
End Explorer.

(** The price a row is filtered by: [a ?? b ?? 0]. *)
Definition price_or_zero (a b : option jsnum) : jsnum :=
  match a with
  | Some x => x
  | None => match b with Some y => y | None => Fin (Dec 0 0) end
  end.

(** [filteredRows] for the texts of the five filter inputs. Nothing throws
    here: [asNumber] is given a string and [String] a boolean or [null]. *)
Definition filteredRows (rows : list ProductRow)
    (filterText vendorFilter availabilityFilter priceMin priceMax : str)
  : list ProductRow :=
  let t := toLowerCase filterText in
  let min := match asNumber (VStr priceMin) with Some m => m | None => None end in
  let max := match asNumber (VStr priceMax) with Some m => m | None => None end in
  filter
    (fun r =>
       let matchesText :=
         is_empty t ||
         includes t (toLowerCase
                       (match JSON.stringify (VObj (row_object r)) with
                        | Some x => x
                        | None => []
                        end)) in
       let matchesVendor :=
         is_empty vendorFilter || is_string vendorFilter (product_vendor r) in
       let matchesAvail :=
         is_empty availabilityFilter ||
         match to_String (bool_or_null (available r)) with
         | Some s => eqb_str s availabilityFilter
         | None => false
         end in
       let priceOK :=
         match min with
         | None => true
         | Some m => num_ge (price_or_zero (price_min r) (price_max r)) m
         end &&
         match max with
         | None => true
         | Some m => num_le (price_or_zero (price_max r) (price_min r)) m
         end in
       matchesText && matchesVendor && matchesAvail && priceOK)
    rows.


(* ===================================================================== *)
(** * Vocabulary of the further statements *)
(* ===================================================================== *)



(** What one trigger set contributes to the explorer: a row for each of its
    trigger products, then a row for each of its upsell products. *)
Definition set_product_rows (set : value) : option (list ProductRow) :=
  match iterate (or_else (get_opt (get_opt set (lit "triggerProduct"))
                            (lit "selectedTriggerProducts")) (VArr [])),
        iterate (or_else (get_opt (get_opt set (lit "triggerUpsell"))
                            (lit "selectedUpsellProducts")) (VArr [])) with
  | Some ts, Some us =>
      match traverse (fun p => deriveProductRow p trigger) ts,
            traverse (fun p => deriveProductRow p upsell) us with
      | Some a, Some b => Some (a ++ b)
      | _, _ => None
      end
  | _, _ => None
  end.

Definition sets_product_rows (sets : list value) : option (list ProductRow) :=
  match traverse set_product_rows sets with
  | Some rs => Some (concat rs)
  | None => None
  end.

Definition is_array (v : value) : bool :=
  match v with VArr _ => true | _ => false end.

(** An object somewhere in a value. *)
Fixpoint has_object (v : value) : bool :=
  match v with
  | VObj _ => true
  | VArr l => existsb has_object l
  | _ => false
  end.

(** How deep a text is in brackets of one kind, as [extractJSON] counts. *)
Definition depth_of (o c : ascii) (s : str) : Z :=
  count_chars (fun x => Ascii.eqb x o) s - count_chars (fun x => Ascii.eqb x c) s.

(** The text of an object has as many closing as opening braces, the text of
    an array as many closing as opening square brackets, string contents
    included. *)
Definition brackets_close (v : value) : bool :=
  match v with
  | VObj _ => depth_of (chr 123) (chr 125) (text v) =? 0
  | VArr _ => depth_of (chr 91) (chr 93) (text v) =? 0
  | _ => false
  end.

(** A value that is neither an object nor an array. *)
Definition primitive (v : value) : bool :=
  match v with VArr _ | VObj _ => false | _ => true end.

(** Two values are the same key. *)
Definition same_value (a b : value) : bool :=
  match same_value_zero a b with Some true => true | _ => false end.

(** Two rows are rows of the same product, as [flattenByProduct] sees it. *)
Definition same_product (a b : object) : bool :=
  same_value (product_key a) (product_key b).

(** What the map of [flattenByProduct] holds after the rows [done]: an
    entry for each key met, with the first row that had the key and all the
    rows that have it, in order; no key twice. *)
Definition grouped (done : list object) (m : product_map) : Prop :=
  Forall (fun e => fst e = product_key (fst (snd e)) /\
                   primitive (fst e) = true /\
                   snd (snd e) = filter (same_product (fst (snd e))) done /\
                   exists tail, snd (snd e) = fst (snd e) :: tail) m /\
  ForallOrdPairs (fun k1 k2 => same_value k1 k2 = false) (map fst m) /\
  (forall row, In row done ->
     exists k, In k (map fst m) /\ same_value (product_key row) k = true).

(** A row the filters can read without a TypeError: its tags are an array
    or a string (or nothing), its collections an array (or nothing) without
    [null] or [undefined] in it, and [String] throws on none of the values
    the filters turn into a string or a number: the tags, the titles of the
    collections, the five searched fields, [set_index], the price and the
    quantity. *)
Definition row_filterable (row : object) : bool :=
  match or_else (field row "product_tags") (VArr []) with
  | VArr ts => forallb stringable ts
  | VStr _ => true
  | _ => false
  end &&
  match or_empty_array (field row "product_collections") with
  | Some cs =>
      forallb (fun c => negb (nullish c) && stringable (get_opt c (lit "title"))) cs
  | None => false
  end &&
  forallb (fun k => stringable (field row k))
          ["product_title"; "product_vendor"; "product_handle"; "variant_title";
           "product_description"; "set_index"; "variant_price";
           "inventory_quantity"].

(** The controls after a reset, but for the two inventory bounds. *)
Definition inventory_controls (minInv maxInv : str) : Controls.controls :=
  Controls.Make [] [] [] (lit "any") [] [] minInv maxInv [] (lit "any") (lit "any").

(** White space without a line feed in it, as found around the JSON text of
    a line: indentation, the carriage return of a CRLF line end. *)
Definition padding (w : str) : bool := forallb is_js_space w && no_newline w.

(** A line made of an object and the white space around its text. *)
Definition padded_line (it : str * value * str) : str :=
  fst (fst it) ++ text (snd (fst it)) ++ snd it.

(* ===================================================================== *)
(** * Strings: basic facts *)
(* ===================================================================== *)

Lemma eqb_str_eq (a b : str) : eqb_str a b = true <-> a = b.
Proof.
  revert b; induction a as [|x a IH]; intros [|y b]; simpl; split;
    try congruence; try reflexivity.
  - rewrite andb_true_iff, Ascii.eqb_eq, IH. now intros [-> ->].
  - intros [= -> ->]. now rewrite Ascii.eqb_refl, (proj2 (IH b)).
Qed.

Lemma eqb_str_refl (a : str) : eqb_str a a = true.
Proof. now apply eqb_str_eq. Qed.

Lemma eqb_str_neq (a b : str) : eqb_str a b = false <-> a <> b.
Proof.
  rewrite <- eqb_str_eq. destruct (eqb_str a b); split; congruence.
Qed.

Lemma eqb_str_sym (a b : str) : eqb_str a b = eqb_str b a.
Proof.
  destruct (eqb_str a b) eqn:E.
  - apply eqb_str_eq in E. subst. now rewrite eqb_str_refl.
  - symmetry. apply eqb_str_neq. apply eqb_str_neq in E. congruence.
Qed.

Lemma trim_start_spaces (s : str) :
  forallb is_js_space s = true -> trim_start s = [].
Proof.
  induction s as [|c s IH]; simpl; [reflexivity|].
  rewrite andb_true_iff. intros [-> H]. auto.
Qed.

Lemma trim_start_id (c : ascii) (s : str) :
  is_js_space c = false -> trim_start (c :: s) = c :: s.
Proof. simpl. now intros ->. Qed.

Lemma trim_spaces (s : str) : forallb is_js_space s = true -> trim s = [].
Proof.
  intros H. unfold trim. now rewrite trim_start_spaces.
Qed.

(** A string that neither starts nor ends with white space is its own trim. *)
Lemma trim_id (a b : ascii) (s : str) :
  is_js_space a = false -> is_js_space b = false ->
  trim (a :: s ++ [b]) = a :: s ++ [b].
Proof.
  intros Ha Hb. unfold trim. rewrite trim_start_id by assumption.
  unfold trim_end.
  replace (rev (a :: s ++ [b])) with (b :: rev (a :: s)).
  - rewrite trim_start_id by assumption.
    change (b :: rev (a :: s)) with ([b] ++ rev (a :: s)).
    rewrite rev_app_distr, rev_involutive. simpl. reflexivity.
  - change (a :: s ++ [b]) with ((a :: s) ++ [b]).
    now rewrite rev_app_distr.
Qed.

Lemma trim_id1 (a : ascii) : is_js_space a = false -> trim [a] = [a].
Proof. intros Ha. unfold trim, trim_end. simpl. rewrite Ha. simpl. now rewrite Ha. Qed.

Lemma includes_char_app (c : ascii) (a b : str) :
  includes_char c (a ++ b) = includes_char c a || includes_char c b.
Proof. apply existsb_app. Qed.

Lemma count_chars_app (p : ascii -> bool) (a b : str) :
  count_chars p (a ++ b) = count_chars p a + count_chars p b.
Proof.
  unfold count_chars. rewrite filter_app, length_app. lia.
Qed.

(* ===================================================================== *)
(** * Pagination *)
(* ===================================================================== *)

Lemma totalPages_ge_1 (n : nat) : 1 <= totalPages n.
Proof. unfold totalPages. lia. Qed.

(** The page count is the least number of pages of fifteen rows, at least
    one, that hold [n] rows. *)
Lemma totalPages_spec (n : nat) :
  Z.of_nat n <= pageSize * totalPages n /\
  (1 < totalPages n -> pageSize * (totalPages n - 1) < Z.of_nat n).
Proof.
  unfold totalPages, ceil_div, pageSize.
  pose proof (Z.div_mod (- Z.of_nat n) 15 ltac:(lia)) as E.
  pose proof (Z.mod_pos_bound (- Z.of_nat n) 15 ltac:(lia)) as B.
  lia.
Qed.

Lemma setPage_ge_1 (a : page_action) (page : Z) : 1 <= page -> 1 <= setPage a page.
Proof.
  destruct a as [|n|]; simpl; intros H; try lia.
  pose proof (totalPages_ge_1 n). lia.
Qed.

Lemma page_fold_ge_1 (history : list page_action) (page : Z) :
  1 <= page -> 1 <= fold_left (fun p a => setPage a p) history page.
Proof.
  revert page; induction history as [|a h IH]; simpl; intros page H; [assumption|].
  apply IH. now apply setPage_ge_1.
Qed.

Lemma page_after_ge_1 (history : list page_action) : 1 <= page_after history.
Proof. apply page_fold_ge_1. lia. Qed.

(** C6. With pages of fifteen rows, the page count is [ceil(n / 15)] and at
    least one; the page shown lies between one and the page count after any
    history of Prev, Next and reset clicks; thirty-two rows make three
    pages holding rows 1-15, 16-30 and 31-32, and page five is shown as
    page three. *)
Theorem C6_pagination (history : list page_action) (n : nat) :
  pageSize = 15 /\
  totalPages n = Z.max 1 (ceil_div (Z.of_nat n) 15) /\
  (Z.of_nat n <= 15 * totalPages n /\
   (1 < totalPages n -> 15 * (totalPages n - 1) < Z.of_nat n)) /\
  (1 <= currentPage (page_after history) n <= totalPages n) /\
  totalPages 32 = 3 /\
  pageRows 1 (seq 1 32) = seq 1 15 /\
  pageRows 2 (seq 1 32) = seq 16 15 /\
  pageRows 3 (seq 1 32) = seq 31 2 /\
  currentPage 5 32 = 3 /\
  pageRows 5 (seq 1 32) = seq 31 2.
Proof.
  split; [reflexivity|]. split; [reflexivity|].
  split; [apply totalPages_spec|].
  split.
  - unfold currentPage.
    pose proof (page_after_ge_1 history). pose proof (totalPages_ge_1 n). lia.
  - repeat split; reflexivity.
Qed.

(* ===================================================================== *)
(** * Failed loads leave the sets alone *)
(* ===================================================================== *)

Lemma length_zero_nil {A} (l : list A) : (length l =? 0)%nat = true <-> l = [].
Proof. destruct l; simpl; split; congruence. Qed.

(** C10. When Parse finds nothing in the pasted text, or an upload finds
    nothing in any of its files, the loaded sets (and the text box) stay as
    they were and only the error message is set. *)
Theorem C10_failed_load_keeps_sets (st : app_state) :
  (is_empty (trim (raw st)) = false -> parsePossiblyMany (raw st) = [] ->
   handleParse st =
   AppState (raw st) (sets st) (lit "Could not parse any JSON objects.")) /\
  (forall texts, flat_map parsePossiblyMany texts = [] ->
   onFiles (Some texts) st =
   AppState (raw st) (sets st) (lit "No valid JSON objects found in selected files.")) /\
  onFiles None st = st.
Proof.
  split; [|split]; [| |reflexivity].
  - intros Hraw Hnone. unfold handleParse. simpl. rewrite Hraw, Hnone. reflexivity.
  - intros texts Hnone. unfold onFiles. rewrite Hnone. reflexivity.
Qed.

Lemma C10_witness :
  let st := AppState (lit "oops") tinyExample [] in
  handleParse st = AppState (lit "oops") tinyExample (lit "Could not parse any JSON objects.") /\
  onFiles (Some [lit "oops"; lit "  "]) st =
  AppState (lit "oops") tinyExample (lit "No valid JSON objects found in selected files.").
Proof.
  intros st.
  destruct (C10_failed_load_keeps_sets st) as [H1 [H2 _]].
  split.
  - apply H1; reflexivity.
  - apply H2; reflexivity.
Defined.

(* ===================================================================== *)
(** * Price range *)
(* ===================================================================== *)

Lemma num_le_NaN_l (x : jsnum) : num_le NaN x = false.
Proof. reflexivity. Qed.

Lemma num_le_NaN_r (x : jsnum) : num_le x NaN = false.
Proof. destruct x as [|[]|]; reflexivity. Qed.

Lemma is_NaN_eq (x : jsnum) : is_NaN x = true -> x = NaN.
Proof. destruct x; simpl; congruence. Qed.

Lemma is_empty_nil (s : str) : is_empty s = true <-> s = [].
Proof. destruct s; simpl; split; congruence. Qed.

Lemma filter_opt_filter {A} (p : A -> option bool) (xs out : list A) :
  filter_opt p xs = Some out ->
  out = filter (fun x => match p x with Some true => true | _ => false end) xs.
Proof.
  revert out. induction xs as [|x xs IH]; intros out; cbn [filter_opt filter].
  - now intros [= <-].
  - destruct (p x) as [b|]; [|discriminate].
    destruct (filter_opt p xs) as [ys|]; [|discriminate].
    intros [= <-]. rewrite (IH ys eq_refl). now destruct b.
Qed.

Lemma filter_opt_defined {A} (p : A -> option bool) (xs : list A) :
  (forall x, In x xs -> p x <> None) -> filter_opt p xs <> None.
Proof.
  induction xs as [|x xs IH]; intros H; cbn [filter_opt]; [discriminate|].
  destruct (p x) as [b|] eqn:E;
    [|exfalso; now apply (H x (or_introl eq_refl))].
  destruct (filter_opt p xs); [discriminate|].
  apply IH. intros y Hy. apply H. now right.
Qed.

Lemma filter_opt_total {A} (p : A -> bool) (xs : list A) :
  filter_opt (fun x => Some (p x)) xs = Some (filter p xs).
Proof.
  induction xs as [|x xs IH]; [reflexivity|]. cbn [filter_opt filter].
  rewrite IH. now destruct (p x).
Qed.

Lemma filter_filter {A} (p k : A -> bool) (xs : list A) :
  filter p (filter k xs) = filter (fun x => k x && p x) xs.
Proof.
  induction xs as [|x xs IH]; [reflexivity|]. cbn [filter].
  destruct (k x); cbn [filter andb]; [destruct (p x)|]; now rewrite IH.
Qed.

(** A filter throws exactly when its test throws on an element. *)
Lemma filter_opt_None {A} (p : A -> option bool) (xs : list A) :
  filter_opt p xs = None <-> exists x, In x xs /\ p x = None.
Proof.
  induction xs as [|x xs IH]; cbn [filter_opt].
  - split; [discriminate|]. now intros (x & [] & _).
  - destruct (p x) as [b|] eqn:E.
    + destruct (filter_opt p xs) as [ys|].
      * split; [discriminate|]. intros (y & [<-|Hy] & Hn); [congruence|].
        assert (Hc : Some ys = None) by (apply IH; eauto). discriminate.
      * split; [|reflexivity]. intros _.
        destruct (proj1 IH eq_refl) as (y & Hy & Hn). exists y. split; [now right|exact Hn].
    + split; [|reflexivity]. intros _. exists x. split; [now left|exact E].
Qed.

Lemma filter_opt_In {A} (p : A -> option bool) (xs out : list A) (x : A) :
  filter_opt p xs = Some out -> (In x out <-> In x xs /\ p x = Some true).
Proof.
  intros H. rewrite (filter_opt_filter p xs out H), filter_In.
  split; intros [Hin Hp]; (split; [exact Hin|]).
  - now destruct (p x) as [[]|].
  - now rewrite Hp.
Qed.

Lemma filter_opt_sub {A} (p : A -> option bool) (xs out : list A) (x : A) :
  filter_opt p xs = Some out -> In x out -> In x xs.
Proof. intros H Hin. now apply (filter_opt_In p xs out x H). Qed.

(** The test of one price bound, for the comparison [cmp] with the bound. *)
Lemma price_test (cmp : jsnum -> bool) (row : object) :
  match toNum (field row "variant_price") with
  | Some p => Some (cmp p)
  | None => None
  end = Some true <->
  exists p, price_of row = Some p /\ cmp p = true.
Proof.
  unfold price_of. destruct (toNum (field row "variant_price")) as [p|].
  - split.
    + intros [= H]. eauto.
    + intros (q & [= <-] & H). now rewrite H.
  - split; [discriminate|]. now intros (q & [=] & _).
Qed.

Lemma price_test_None (cmp : jsnum -> bool) (row : object) :
  match toNum (field row "variant_price") with
  | Some p => Some (cmp p)
  | None => None
  end = None <-> price_of row = None.
Proof.
  unfold price_of. now destruct (toNum (field row "variant_price")).
Qed.

Lemma price_range_In (minPrice maxPrice : str) (rows out : list object) (row : object) :
  price_range minPrice maxPrice rows = Some out ->
  (In row out <->
   In row rows /\
   (minPrice = [] \/
    exists p, price_of row = Some p /\ num_ge p (string_to_number minPrice) = true) /\
   (maxPrice = [] \/
    exists p, price_of row = Some p /\ num_le p (string_to_number maxPrice) = true)).
Proof.
  unfold price_range.
  destruct minPrice as [|a mn]; destruct maxPrice as [|b mx]; cbn [is_empty negb].
  - intros [= <-]. intuition.
  - intros H. rewrite (filter_opt_In _ _ _ row H), price_test.
    split; [intros [Hin Hp]; auto|].
    intros (Hin & _ & [Hx|Hp]); [discriminate|auto].
  - destruct (filter_opt _ rows) as [r1|] eqn:H; [|discriminate]. intros [= <-].
    rewrite (filter_opt_In _ _ _ row H), price_test.
    split; [intros [Hin Hp]; auto|].
    intros (Hin & [Hx|Hp] & _); [discriminate|auto].
  - destruct (filter_opt _ rows) as [r1|] eqn:H1; [|discriminate]. intros H2.
    rewrite (filter_opt_In _ _ _ row H2), (filter_opt_In _ _ _ row H1), !price_test.
    split.
    + intros [[Hin Hp] Hq]. auto.
    + intros (Hin & [Hx|Hp] & [Hy|Hq]); try discriminate. auto.
Qed.

(** The price range throws exactly when a bound is set and [toNum] throws
    on the price of a row. *)
Lemma price_range_None (minPrice maxPrice : str) (rows : list object) :
  price_range minPrice maxPrice rows = None <->
  (minPrice <> [] \/ maxPrice <> []) /\ exists r, In r rows /\ price_of r = None.
Proof.
  unfold price_range.
  destruct minPrice as [|a mn]; destruct maxPrice as [|b mx]; cbn [is_empty negb].
  - split; [discriminate|]. intros [[H|H] _]; congruence.
  - rewrite filter_opt_None. split.
    + intros (r & Hr & Hn). apply price_test_None in Hn.
      split; [right; discriminate|eauto].
    + intros (_ & r & Hr & Hn). exists r. split; [exact Hr|].
      now apply price_test_None.
  - destruct (filter_opt _ rows) as [r1|] eqn:H.
    + split; [discriminate|]. intros (_ & r & Hr & Hn).
      assert (Hnone : filter_opt
                (fun row => match toNum (field row "variant_price") with
                            | Some p => Some (num_ge p (string_to_number (a :: mn)))
                            | None => None
                            end) rows = None).
      { apply filter_opt_None. exists r. split; [exact Hr|]. now apply price_test_None. }
      congruence.
    + split; [|reflexivity]. intros _. apply filter_opt_None in H.
      destruct H as (r & Hr & Hn). apply price_test_None in Hn.
      split; [left; discriminate|eauto].
  - destruct (filter_opt _ rows) as [r1|] eqn:H.
    + assert (Hall : forall r, In r rows -> price_of r <> None).
      { intros r Hr Hn.
        assert (Hnone : filter_opt
                  (fun row => match toNum (field row "variant_price") with
                              | Some p => Some (num_ge p (string_to_number (a :: mn)))
                              | None => None
                              end) rows = None).
        { apply filter_opt_None. exists r. split; [exact Hr|]. now apply price_test_None. }
        congruence. }
      split.
      * intros Hn. apply filter_opt_None in Hn. destruct Hn as (r & Hr & Hn).
        apply price_test_None in Hn.
        exfalso. apply (Hall r); [|exact Hn]. now apply (filter_opt_sub _ _ _ _ H).
      * intros (_ & r & Hr & Hn). exfalso. now apply (Hall r).
    + split; [|reflexivity]. intros _. apply filter_opt_None in H.
      destruct H as (r & Hr & Hn). apply price_test_None in Hn.
      split; [left; discriminate|eauto].
Qed.

(** C7. The price bounds are inclusive and each applies only when its input
    is not empty; a row priced 24.99 passes 20..30 and fails min 25 or max
    24; a row whose price is empty, absent or not a number fails as soon as
    one bound is set. The filter throws, as [Number] does, exactly when a
    bound is set and the price of a row is an object that cannot be turned
    into a primitive. *)
Theorem C7_price_range (minPrice maxPrice : str) (rows : list object) (row : object) :
  (forall out, price_range minPrice maxPrice rows = Some out ->
   (In row out <->
    In row rows /\
    (minPrice = [] \/
     exists p, price_of row = Some p /\ num_ge p (string_to_number minPrice) = true) /\
    (maxPrice = [] \/
     exists p, price_of row = Some p /\ num_le p (string_to_number maxPrice) = true))) /\
  (price_range minPrice maxPrice rows = None <->
   (minPrice <> [] \/ maxPrice <> []) /\ exists r, In r rows /\ price_of r = None) /\
  (forall out, price_range minPrice maxPrice rows = Some out ->
   price_of row = Some NaN -> minPrice <> [] \/ maxPrice <> [] -> ~ In row out) /\
  (toNum VUndef = Some NaN /\ toNum VNull = Some NaN /\ toNum (VStr []) = Some NaN /\
   toNum (vstr "n/a") = Some NaN) /\
  (let r := [(lit "variant_price", vstr "24.99")] in
   price_range (lit "20") (lit "30") [r] = Some [r] /\
   price_range (lit "25") [] [r] = Some [] /\
   price_range [] (lit "24") [r] = Some [] /\
   price_range (lit "24.99") (lit "24.99") [r] = Some [r] /\
   price_range (lit "20") [] [r] = Some [r] /\
   price_range [] (lit "30") [r] = Some [r]).
Proof.
  split; [intros out; apply price_range_In|].
  split; [apply price_range_None|]. split; [|split].
  - intros out Hout Hnan Hset Hin.
    apply (price_range_In _ _ _ _ _ Hout) in Hin.
    destruct Hin as [_ [Hmin Hmax]].
    destruct Hset as [Hset|Hset].
    + destruct Hmin as [Hmin|(p & Hp & Hc)]; [congruence|].
      rewrite Hnan in Hp. injection Hp as <-. unfold num_ge in Hc.
      now rewrite num_le_NaN_r in Hc.
    + destruct Hmax as [Hmax|(p & Hp & Hc)]; [congruence|].
      rewrite Hnan in Hp. injection Hp as <-. now rewrite num_le_NaN_l in Hc.
  - repeat split; reflexivity.
  - repeat split; reflexivity.
Qed.

(* ===================================================================== *)
(** * Objects: lookup after property definition *)
(* ===================================================================== *)

Lemma lookup_app (k : str) (a b : object) :
  lookup k (a ++ b) =
  match lookup k a with Some x => Some x | None => lookup k b end.
Proof.
  induction a as [|[k' v] a IH]; simpl; [reflexivity|].
  destruct (eqb_str k k'); auto.
Qed.

Lemma lookup_set_prop (k k' : str) (v : value) (o : object) :
  lookup k (set_prop k' v o) = if eqb_str k k' then Some v else lookup k o.
Proof.
  induction o as [|[k1 v1] o IH]; simpl; [reflexivity|].
  destruct (eqb_str k' k1) eqn:E1; simpl.
  - apply eqb_str_eq in E1. subst k1. destruct (eqb_str k k'); reflexivity.
  - rewrite IH. destruct (eqb_str k k1) eqn:E2; [|reflexivity].
    apply eqb_str_eq in E2. subst k1. rewrite eqb_str_sym in E1. now rewrite E1.
Qed.

(** After [{...o, ...kvs}] a key has the value of its last definition. *)
Lemma lookup_set_props (k : str) (kvs : list (str * value)) (o : object) :
  lookup k (set_props o kvs) =
  match lookup k (rev kvs) with Some x => Some x | None => lookup k o end.
Proof.
  unfold set_props. revert o.
  induction kvs as [|[k1 v1] kvs IH]; intros o; simpl; [reflexivity|].
  rewrite IH, lookup_app, lookup_set_prop. simpl.
  destruct (lookup k (rev kvs)); [reflexivity|].
  destruct (eqb_str k k1); reflexivity.
Qed.

Lemma lookup_None_mem (k : str) (o : object) :
  lookup k o = None <-> mem_str k (map fst o) = false.
Proof.
  induction o as [|[k1 v1] o IH]; simpl; [tauto|].
  destruct (eqb_str k k1); simpl; [split; congruence|exact IH].
Qed.

Lemma mem_str_app (k : str) (a b : list str) :
  mem_str k (a ++ b) = mem_str k a || mem_str k b.
Proof.
  induction a as [|x a IH]; simpl; [reflexivity|].
  now rewrite IH, orb_assoc.
Qed.

Lemma lookup_rev_None (k : str) (o : object) :
  lookup k o = None -> lookup k (rev o) = None.
Proof.
  rewrite !lookup_None_mem, map_rev.
  induction (map fst o) as [|x l IH]; simpl; [auto|].
  rewrite mem_str_app. simpl.
  intros H. apply orb_false_iff in H. destruct H as [-> H].
  now rewrite IH.
Qed.

Lemma lookup_rev_nodup (k : str) (o : object) :
  nodup_keys (map fst o) = true -> lookup k (rev o) = lookup k o.
Proof.
  induction o as [|[k1 v1] o IH]; simpl; [reflexivity|].
  rewrite andb_true_iff, negb_true_iff. intros [Hk Hnd].
  rewrite lookup_app, IH by assumption. simpl.
  destruct (eqb_str k k1) eqn:E.
  - apply eqb_str_eq in E. subst k1.
    now rewrite (proj2 (lookup_None_mem k o) Hk).
  - now destruct (lookup k o).
Qed.

(** An object without repeated keys is what defining its properties one
    after the other builds. *)
Lemma set_props_nodup (o acc : object) :
  nodup_keys (map fst (acc ++ o)) = true -> set_props acc o = acc ++ o.
Proof.
  unfold set_props. revert acc.
  induction o as [|[k v] o IH]; intros acc H; simpl.
  - now rewrite app_nil_r.
  - assert (E : set_prop k v acc = acc ++ [(k, v)]).
    { clear IH. induction acc as [|[k1 v1] acc IHa]; simpl; [reflexivity|].
      simpl in H. rewrite andb_true_iff, negb_true_iff in H.
      destruct H as [Hk Hnd].
      rewrite map_app, mem_str_app in Hk. simpl in Hk.
      apply orb_false_iff in Hk. destruct Hk as [_ Hk].
      apply orb_false_iff in Hk. destruct Hk as [Hk _].
      rewrite eqb_str_sym, Hk. now rewrite IHa. }
    rewrite E, IH; rewrite <- app_assoc; simpl; [reflexivity|assumption].
Qed.

(* ===================================================================== *)
(** * Variant rows *)
(* ===================================================================== *)

(** The variant is spread last: its keys win, the others keep the value of
    the object literal. *)
Lemma variant_row_defined (idx : Z) (type : str) (product variant : value)
    (k : str) (x : value) :
  nodup_keys (map fst (spread_props variant)) = true ->
  lookup k (spread_props variant) = Some x ->
  lookup k (variant_row idx type product variant) = Some x.
Proof.
  intros Hnd Hk. unfold variant_row. rewrite lookup_set_props.
  now rewrite lookup_rev_nodup, Hk by assumption.
Qed.

Lemma variant_row_undefined (idx : Z) (type : str) (product variant : value)
    (k : str) :
  lookup k (spread_props variant) = None ->
  lookup k (variant_row idx type product variant) =
  lookup k (variant_row idx type product VNull).
Proof.
  intros Hk. unfold variant_row. rewrite !lookup_set_props.
  cbn [spread_props rev lookup]. now rewrite (lookup_rev_None _ _ Hk).
Qed.

Lemma Forall2_map_both {A B C} (R : B -> C -> Prop) (f : A -> B) (g : A -> C)
    (l : list A) :
  (forall x, In x l -> R (f x) (g x)) -> Forall2 R (map f l) (map g l).
Proof.
  induction l as [|x l IH]; intros H; cbn [map]; constructor.
  - apply H. now left.
  - apply IH. intros y Hy. apply H. now right.
Qed.

Lemma role_rows_map (idx : Z) (type : string) (ps : list value) :
  role_rows idx type ps =
  map (fun pv => variant_row idx (lit type) (fst pv) (snd pv)) (role_variants ps).
Proof.
  unfold role_rows, role_variants.
  induction ps as [|p ps IH]; [reflexivity|].
  cbn [flat_map]. now rewrite map_app, map_map, IH.
Qed.

Lemma role_variants_In (ps : list value) (p v : value) :
  In (p, v) (role_variants ps) <-> In p ps /\ In v (variants_of p).
Proof.
  unfold role_variants. rewrite in_flat_map. split.
  - intros (q & Hq & Hin). apply in_map_iff in Hin.
    destruct Hin as (w & [= <- <-] & Hw). now split.
  - intros [Hp Hv]. exists p. split; [exact Hp|]. apply in_map_iff. eauto.
Qed.

(** The origins counted from [i]: the sets by position, their two roles,
    the products of the role and the variants of the product. *)
Lemma sets_origins_In (ss : list value) (i : Z) (e : origin) :
  In e (sets_origins i ss) <->
  exists s,
    i <= of_set e /\ nth_error ss (Z.to_nat (of_set e - i)) = Some s /\
    In (of_variant e) (variants_of (of_product e)) /\
    ((of_role e = lit "product" /\
      In (of_product e)
         (products_of (role_products "triggerProduct" "selectedTriggerProducts" s))) \/
     (of_role e = lit "upsell" /\
      In (of_product e)
         (products_of (role_products "triggerUpsell" "selectedUpsellProducts" s)))).
Proof.
  revert i. induction ss as [|s ss IH]; intros i; cbn [sets_origins].
  - split; [intros []|]. intros (s & _ & H & _). now destruct (Z.to_nat (of_set e - i)).
  - rewrite in_app_iff, IH. unfold set_origins. rewrite in_app_iff, !in_map_iff. split.
    + intros [[([p v] & <- & Hin)|([p v] & <- & Hin)]|(s' & Hi & Hn & Hv & Hr)].
      * apply role_variants_In in Hin. destruct Hin as [Hp Hv].
        exists s. cbn [of_set of_role of_product of_variant fst snd].
        rewrite Z.sub_diag. split; [lia|]. split; [reflexivity|]. split; [exact Hv|].
        left. now split.
      * apply role_variants_In in Hin. destruct Hin as [Hp Hv].
        exists s. cbn [of_set of_role of_product of_variant fst snd].
        rewrite Z.sub_diag. split; [lia|]. split; [reflexivity|]. split; [exact Hv|].
        right. now split.
      * exists s'. split; [lia|]. split; [|now split].
        replace (Z.to_nat (of_set e - i)) with (S (Z.to_nat (of_set e - (i + 1)))) by lia.
        exact Hn.
    + intros (s' & Hi & Hn & Hv & Hr).
      destruct (Z.eq_dec (of_set e) i) as [E|E].
      * left. rewrite E, Z.sub_diag in Hn. cbn [Z.to_nat nth_error] in Hn.
        injection Hn as <-. destruct e as [ix ty p v].
        cbn [of_set of_role of_product of_variant] in *. subst ix.
        destruct Hr as [[-> Hp]|[-> Hp]]; [left|right];
          exists (p, v); (split; [reflexivity|]); now apply role_variants_In.
      * right. exists s'. split; [lia|]. split; [|now split].
        replace (Z.to_nat (of_set e - i)) with (S (Z.to_nat (of_set e - (i + 1)))) in Hn
          by lia.
        exact Hn.
Qed.

(* ===================================================================== *)
(** * Flattening *)
(* ===================================================================== *)

Lemma forEach_push {A} (f : A -> object) (xs : list A) (rows : list object) :
  forEach (fun x rows' => Some (rows' ++ [f x])) xs rows = Some (rows ++ map f xs).
Proof.
  revert rows; induction xs as [|x xs IH]; intros rows; simpl.
  - now rewrite app_nil_r.
  - rewrite IH, <- app_assoc. reflexivity.
Qed.

Lemma add_rows (idx : Z) (arr : value) (type : string) (rows : list object) :
  products_ok arr = true ->
  add idx arr (lit type) rows = Some (rows ++ role_rows idx type (products_of arr)).
Proof.
  unfold products_ok, add, products_of, role_rows.
  destruct (or_empty_array arr) as [ps|]; [|discriminate].
  revert rows. induction ps as [|p ps IH]; intros rows Hok; simpl.
  - now rewrite app_nil_r.
  - simpl in Hok. apply andb_true_iff in Hok. destruct Hok as [Hp Hps].
    unfold product_ok in Hp. unfold variants_of at 1.
    destruct (get p (lit "product_variants")) as [pv|]; [|discriminate].
    destruct (or_empty_array pv) as [vs|]; [|discriminate].
    rewrite (forEach_push (variant_row idx (lit type) p)), IH by assumption.
    now rewrite <- app_assoc.
Qed.

Lemma flatten_set_rows (idx : Z) (s : value) (rows : list object) :
  set_ok s = true -> flatten_set idx s rows = Some (rows ++ set_rows idx s).
Proof.
  unfold set_ok, flatten_set, set_rows, role_products.
  rewrite andb_true_iff. intros [H1 H2].
  rewrite (add_rows idx _ "product" rows H1).
  rewrite (add_rows idx _ "upsell" _ H2).
  now rewrite <- app_assoc.
Qed.

Lemma flatten_from_rows (ss : list value) (idx : Z) (rows : list object) :
  forallb set_ok ss = true ->
  flatten_from idx ss rows = Some (rows ++ sets_rows idx ss).
Proof.
  revert idx rows. induction ss as [|s ss IH]; intros idx rows H; simpl.
  - now rewrite app_nil_r.
  - simpl in H. apply andb_true_iff in H. destruct H as [Hs Hss].
    rewrite flatten_set_rows, IH by assumption. now rewrite <- app_assoc.
Qed.

Lemma role_rows_length (idx : Z) (type : string) (ps : list value) :
  length (role_rows idx type ps) = variant_count ps.
Proof.
  unfold role_rows, variant_count.
  induction ps as [|p ps IH]; simpl; [reflexivity|].
  now rewrite length_app, length_map, IH.
Qed.

Lemma variant_row_type (idx : Z) (type : str) (product variant : value) :
  has_key "trigger_type" variant = false ->
  field (variant_row idx type product variant) "trigger_type" = VStr type.
Proof.
  unfold has_key, field, variant_row. intros H.
  destruct (lookup (lit "trigger_type") (spread_props variant)) eqn:E; [discriminate|].
  rewrite lookup_set_props, (lookup_rev_None _ _ E). reflexivity.
Qed.

Lemma role_rows_type (idx : Z) (type : string) (ps : list value) :
  no_role_key ps = true ->
  Forall (fun row => field row "trigger_type" = vstr type) (role_rows idx type ps).
Proof.
  unfold no_role_key, role_rows. intros H.
  apply Forall_forall. intros row Hin.
  apply in_flat_map in Hin. destruct Hin as [p [Hp Hin]].
  apply in_map_iff in Hin. destruct Hin as [v [<- Hv]].
  rewrite forallb_forall in H. specialize (H p Hp).
  rewrite forallb_forall in H. specialize (H v Hv).
  apply negb_true_iff in H. now apply variant_row_type.
Qed.

(** Each row of a role is the object literal of one product and variant,
    in input order. *)
Lemma role_rows_origins (idx : Z) (type : string) (ps : list value) :
  Forall2
    (fun pv row =>
       row = variant_row idx (lit type) (fst pv) (snd pv) /\
       (has_key "trigger_type" (snd pv) = false ->
        field row "trigger_type" = vstr type))
    (role_variants ps) (role_rows idx type ps).
Proof.
  rewrite role_rows_map, <- (map_id (role_variants ps)) at 1.
  apply Forall2_map_both. intros [p v] _. cbn [fst snd].
  split; [reflexivity|]. apply variant_row_type.
Qed.

Lemma sets_rows_origins (ss : list value) (i : Z) :
  Forall2
    (fun e row =>
       row = variant_row (of_set e) (of_role e) (of_product e) (of_variant e))
    (sets_origins i ss) (sets_rows i ss).
Proof.
  revert i. induction ss as [|s ss IH]; intros i; cbn [sets_origins sets_rows].
  - constructor.
  - apply Forall2_app; [|apply IH].
    unfold set_origins, set_rows. rewrite !role_rows_map.
    apply Forall2_app; apply Forall2_map_both; intros [p v] _; reflexivity.
Qed.

(** C4, as the code has it. Flattening emits one row per set, role, product
    and variant, in input order: a set whose trigger products total [M]
    variants and whose upsell products total [P] yields [M + P] rows, the
    first [M] for the trigger role. Row by row, each is built from its own
    product and variant, and its [trigger_type] is the role, [product] then
    [upsell], when that variant defines no [trigger_type] key of its own.
    A product without variants contributes no row and an absent block
    counts as an empty list. *)
Theorem C4_flatten_rows (ss : list value) :
  forallb set_ok ss = true ->
  flatVariants ss = Some (sets_rows 0 ss) /\
  (forall idx s,
     let tp := products_of (role_products "triggerProduct" "selectedTriggerProducts" s) in
     let up := products_of (role_products "triggerUpsell" "selectedUpsellProducts" s) in
     let M := variant_count tp in
     let P := variant_count up in
     length (set_rows idx s) = (M + P)%nat /\
     firstn M (set_rows idx s) = role_rows idx "product" tp /\
     skipn M (set_rows idx s) = role_rows idx "upsell" up /\
     Forall2
       (fun pv row =>
          row = variant_row idx (lit "product") (fst pv) (snd pv) /\
          (has_key "trigger_type" (snd pv) = false ->
           field row "trigger_type" = vstr "product"))
       (role_variants tp) (firstn M (set_rows idx s)) /\
     Forall2
       (fun pv row =>
          row = variant_row idx (lit "upsell") (fst pv) (snd pv) /\
          (has_key "trigger_type" (snd pv) = false ->
           field row "trigger_type" = vstr "upsell"))
       (role_variants up) (skipn M (set_rows idx s)) /\
     (no_role_key tp = true ->
      Forall (fun row => field row "trigger_type" = vstr "product")
             (firstn M (set_rows idx s))) /\
     (no_role_key up = true ->
      Forall (fun row => field row "trigger_type" = vstr "upsell")
             (skipn M (set_rows idx s)))) /\
  (forall idx type p, variants_of p = [] -> role_rows idx type [p] = []) /\
  (forall o key,
     lookup (lit "triggerProduct") o = None ->
     lookup (lit "triggerUpsell") o = None ->
     set_ok (VObj o) = true /\ set_rows key (VObj o) = []).
Proof.
  intros Hok. split; [|split; [|split]].
  - unfold flatVariants. now rewrite flatten_from_rows.
  - intros idx s tp up M P.
    assert (HM : length (role_rows idx "product" tp) = M) by apply role_rows_length.
    assert (E1 : firstn M (set_rows idx s) = role_rows idx "product" tp).
    { unfold set_rows. fold tp up. rewrite <- HM.
      rewrite firstn_app, firstn_all, Nat.sub_diag. simpl. now rewrite app_nil_r. }
    assert (E2 : skipn M (set_rows idx s) = role_rows idx "upsell" up).
    { unfold set_rows. fold tp up. rewrite <- HM.
      rewrite skipn_app, skipn_all, Nat.sub_diag. reflexivity. }
    split; [|split; [exact E1|split; [exact E2|split; [|split; [|split]]]]].
    + unfold set_rows. fold tp up. now rewrite length_app, !role_rows_length.
    + rewrite E1. apply role_rows_origins.
    + rewrite E2. apply role_rows_origins.
    + intros H. rewrite E1. now apply role_rows_type.
    + intros H. rewrite E2. now apply role_rows_type.
  - intros idx type p H. unfold role_rows. simpl. now rewrite H.
  - intros o key H1 H2.
    unfold set_ok, set_rows, role_products, get_opt. simpl. rewrite H1, H2.
    split; reflexivity.
Qed.

Lemma C4_witness :
  let s :=
    vobj [("triggerProduct",
           vobj [("selectedTriggerProducts",
                  VArr [vobj [("product_id", vstr "p1");
                              ("product_variants",
                               VArr [vobj [("variant_id", vstr "v1");
                                           ("trigger_type", vstr "upsell")];
                                     vobj [("variant_id", vstr "v2")]])]])])] in
  flatVariants [s] = Some (sets_rows 0 [s]) /\
  map (fun row => field row "trigger_type") (sets_rows 0 [s]) =
  [vstr "upsell"; vstr "product"] /\
  flatVariants tinyExample = Some (sets_rows 0 tinyExample) /\
  length (sets_rows 0 tinyExample) = 3%nat.
Proof.
  intros s. split; [|split; [|split]].
  - apply (C4_flatten_rows [s]). reflexivity.
  - reflexivity.
  - apply (C4_flatten_rows tinyExample). reflexivity.
  - reflexivity.
Defined.

(** C4 as worded fails on a trigger product whose variant carries its own
    [trigger_type]: the only row, the first of [M = 1], is tagged [upsell]. *)
Lemma C4_counterexample :
  let s :=
    vobj [("triggerProduct",
           vobj [("selectedTriggerProducts",
                  VArr [vobj [("product_id", vstr "p1");
                              ("product_variants",
                               VArr [vobj [("variant_id", vstr "v1");
                                           ("trigger_type", vstr "upsell")]])]])])] in
  set_ok s = true /\
  variant_count
    (products_of (role_products "triggerProduct" "selectedTriggerProducts" s)) = 1%nat /\
  exists row,
    flatVariants [s] = Some [row] /\
    field row "trigger_type" = vstr "upsell" /\
    field row "trigger_type" <> vstr "product".
Proof.
  intros s. split; [reflexivity|]. split; [reflexivity|].
  eexists. split; [reflexivity|]. split; [reflexivity|].
  vm_compute. discriminate.
Qed.

(** C9. The variant is spread last. Every row [flatVariants] returns comes
    from one set, role, product and variant, the sets taken by position,
    and is the object literal of these: a key the variant defines has the
    variant's value in the row, whatever the contextual or product value
    was; [set_index] is the position of the originating set and
    [trigger_type] its role exactly when the variant does not define
    them. *)
Theorem C9_variant_overrides (ss : list value) :
  forallb set_ok ss = true ->
  exists rows,
    flatVariants ss = Some rows /\
    Forall2
      (fun e row =>
         let o := spread_props (of_variant e) in
         row = variant_row (of_set e) (of_role e) (of_product e) (of_variant e) /\
         (lookup (lit "set_index") o = None ->
          field row "set_index" = vnum (of_set e)) /\
         (lookup (lit "trigger_type") o = None ->
          field row "trigger_type" = VStr (of_role e)) /\
         (nodup_keys (map fst o) = true ->
          (forall k x, lookup k o = Some x -> lookup k row = Some x) /\
          (forall x, lookup (lit "set_index") o = Some x ->
             field row "set_index" = x) /\
          (forall x, lookup (lit "trigger_type") o = Some x ->
             field row "trigger_type" = x) /\
          (forall x, lookup (lit "product_id") o = Some x ->
             field row "product_id" = x)))
      (sets_origins 0 ss) rows /\
    (forall e,
       In e (sets_origins 0 ss) <->
       exists s,
         0 <= of_set e /\ nth_error ss (Z.to_nat (of_set e)) = Some s /\
         In (of_variant e) (variants_of (of_product e)) /\
         ((of_role e = lit "product" /\
           In (of_product e)
              (products_of (role_products "triggerProduct" "selectedTriggerProducts" s))) \/
          (of_role e = lit "upsell" /\
           In (of_product e)
              (products_of (role_products "triggerUpsell" "selectedUpsellProducts" s))))).
Proof.
  intros Hok. exists (sets_rows 0 ss). split; [|split].
  - unfold flatVariants. now rewrite flatten_from_rows.
  - eapply Forall2_impl; [|apply sets_rows_origins].
    intros [idx type p v] row ->. cbn [of_set of_role of_product of_variant].
    cbv zeta. split; [reflexivity|]. split; [|split].
    + intros H. unfold field. now rewrite (variant_row_undefined _ _ _ _ _ H).
    + intros H. unfold field. now rewrite (variant_row_undefined _ _ _ _ _ H).
    + intros Hnd.
      assert (Hdef : forall k x, lookup k (spread_props v) = Some x ->
                lookup k (variant_row idx type p v) = Some x).
      { intros k x Hk. now apply variant_row_defined. }
      split; [exact Hdef|].
      repeat split; intros x H; unfold field; now rewrite (Hdef _ _ H).
  - intros e. rewrite sets_origins_In.
    now replace (of_set e - 0) with (of_set e) by lia.
Qed.

Lemma C9_witness :
  let s0 :=
    vobj [("triggerProduct",
           vobj [("selectedTriggerProducts",
                  VArr [vobj [("product_id", vstr "p0");
                              ("product_variants",
                               VArr [vobj [("variant_id", vstr "a")]])]])])] in
  let s1 :=
    vobj [("triggerUpsell",
           vobj [("selectedUpsellProducts",
                  VArr [vobj [("product_id", vstr "p1");
                              ("product_variants",
                               VArr [vobj [("variant_id", vstr "b")];
                                     vobj [("variant_id", vstr "c");
                                           ("set_index", vnum 7)]])]])])] in
  exists r0 r1 r2,
    flatVariants [s0; s1] = Some [r0; r1; r2] /\
    field r0 "set_index" = vnum 0 /\ field r0 "trigger_type" = vstr "product" /\
    field r1 "set_index" = vnum 1 /\ field r1 "trigger_type" = vstr "upsell" /\
    field r2 "set_index" = vnum 7 /\ field r2 "trigger_type" = vstr "upsell".
Proof.
  intros s0 s1.
  destruct (C9_variant_overrides [s0; s1] eq_refl) as (rows & Hrows & HF & _).
  set (l := sets_origins 0 [s0; s1]) in HF. vm_compute in l. subst l.
  inversion HF as [|e0 r0 l0 rs0 H0 HF0]; subst.
  inversion HF0 as [|e1 r1 l1 rs1 H1 HF1]; subst.
  inversion HF1 as [|e2 r2 l2 rs2 H2 HF2]; subst.
  inversion HF2; subst.
  exists r0, r1, r2. split; [exact Hrows|].
  cbv zeta in H0, H1, H2.
  destruct H0 as (_ & A0 & B0 & _).
  destruct H1 as (_ & A1 & B1 & _).
  destruct H2 as (_ & _ & B2 & C2).
  destruct (C2 eq_refl) as (_ & D2 & _).
  repeat split.
  - exact (A0 eq_refl).
  - exact (B0 eq_refl).
  - exact (A1 eq_refl).
  - exact (B1 eq_refl).
  - exact (D2 _ eq_refl).
  - exact (B2 eq_refl).
Defined.

(* ===================================================================== *)
(** * CSV cells *)
(* ===================================================================== *)

Lemma includes_double_quotes (c : ascii) (s : str) :
  includes_char c (double_quotes s) = includes_char c s.
Proof.
  unfold includes_char. induction s as [|x s IH]; simpl; [reflexivity|].
  destruct (Ascii.eqb x QUOTE) eqn:E; simpl; rewrite IH.
  - apply Ascii.eqb_eq in E. subst x. now destruct (Ascii.eqb c QUOTE).
  - reflexivity.
Qed.

Lemma double_quotes_id (s : str) :
  includes_char QUOTE s = false -> double_quotes s = s.
Proof.
  unfold includes_char. induction s as [|x s IH]; simpl; [reflexivity|].
  rewrite orb_false_iff. intros [Hx Hs].
  rewrite Ascii.eqb_sym, Hx. now rewrite IH.
Qed.

(** The rule [toCSV] applies, on the text of the cell. *)
Lemma toCSV_rule (val : value) :
  toCSV val =
  match cell_text val with
  | Some s => Some (csv_quote s)
  | None => None
  end.
Proof.
  unfold toCSV, cell_text, csv_quote. destruct (nullish val); [reflexivity|].
  destruct (to_String val) as [t|]; [|reflexivity].
  cbv zeta. f_equal. rewrite !includes_double_quotes.
  destruct (includes_char COMMA t || includes_char NL t) eqn:E1; simpl; [reflexivity|].
  destruct (includes_char QUOTE t) eqn:E2; [reflexivity|].
  now apply double_quotes_id.
Qed.

Lemma csv_plain (s cur : str) (rec : list str) (rest : str) :
  includes_char COMMA s = false -> includes_char NL s = false ->
  includes_char QUOTE s = false ->
  csv_parse_from InPlain cur rec (s ++ rest) =
  csv_parse_from InPlain (rev s ++ cur) rec rest.
Proof.
  unfold includes_char. revert cur.
  induction s as [|x s IH]; intros cur Hc Hn Hq; simpl; [reflexivity|].
  simpl in Hc, Hn, Hq.
  apply orb_false_iff in Hc. destruct Hc as [Hc Hc'].
  apply orb_false_iff in Hn. destruct Hn as [Hn Hn'].
  apply orb_false_iff in Hq. destruct Hq as [Hq Hq'].
  rewrite (Ascii.eqb_sym x COMMA), Hc, (Ascii.eqb_sym x NL), Hn.
  rewrite (Ascii.eqb_sym x QUOTE), Hq, IH by assumption.
  now rewrite <- app_assoc.
Qed.

Lemma csv_quoted (s cur : str) (rec : list str) (rest : str) :
  csv_parse_from InQuoted cur rec (double_quotes s ++ QUOTE :: rest) =
  csv_parse_from AfterQuote (rev s ++ cur) rec rest.
Proof.
  revert cur. induction s as [|x s IH]; intros cur; simpl.
  - reflexivity.
  - destruct (Ascii.eqb x QUOTE) eqn:E.
    + apply Ascii.eqb_eq in E. subst x. simpl.
      rewrite IH. now rewrite <- app_assoc.
    + simpl. rewrite E, IH. now rewrite <- app_assoc.
Qed.

(** Reading one written cell: the reader is left outside quotes with the
    text of the cell collected. *)
Lemma csv_cell (s : str) (rec : list str) (rest : str) :
  exists st,
    st <> InQuoted /\
    csv_parse_from AtStart [] rec (csv_quote s ++ rest) =
    csv_parse_from st (rev s) rec rest.
Proof.
  unfold csv_quote.
  destruct (includes_char COMMA s || includes_char NL s || includes_char QUOTE s) eqn:E.
  - exists AfterQuote. split; [discriminate|].
    simpl. rewrite <- app_assoc. simpl.
    rewrite csv_quoted. now rewrite app_nil_r.
  - apply orb_false_iff in E. destruct E as [E Hq].
    apply orb_false_iff in E. destruct E as [Hc Hn].
    destruct s as [|x s'] eqn:Es.
    + exists AtStart. split; [discriminate|]. reflexivity.
    + exists InPlain. split; [discriminate|].
      unfold includes_char in Hc, Hn, Hq. simpl in Hc, Hn, Hq.
      apply orb_false_iff in Hc. destruct Hc as [Hc Hc'].
      apply orb_false_iff in Hn. destruct Hn as [Hn Hn'].
      apply orb_false_iff in Hq. destruct Hq as [Hq Hq'].
      simpl. rewrite (Ascii.eqb_sym x COMMA), Hc, (Ascii.eqb_sym x NL), Hn.
      rewrite (Ascii.eqb_sym x QUOTE), Hq.
      rewrite csv_plain by assumption. reflexivity.
Qed.

Lemma csv_at_end (st : csv_state) (cur : str) (rec : list str) :
  csv_parse_from st cur rec [] = [rev (rev cur :: rec)].
Proof. reflexivity. Qed.

Lemma csv_at_comma (st : csv_state) (cur : str) (rec : list str) (rest : str) :
  st <> InQuoted ->
  csv_parse_from st cur rec (COMMA :: rest) =
  csv_parse_from AtStart [] (rev cur :: rec) rest.
Proof. destruct st; simpl; congruence. Qed.

Lemma csv_at_newline (st : csv_state) (cur : str) (rec : list str) (rest : str) :
  st <> InQuoted ->
  csv_parse_from st cur rec (NL :: rest) =
  rev (rev cur :: rec) :: csv_parse_from AtStart [] [] rest.
Proof. destruct st; simpl; congruence. Qed.

(** Reading one written record, up to what follows it. *)
Lemma csv_record (t : str) (ts : list str) (rec : list str) (rest : str) :
  exists st cur rec2,
    st <> InQuoted /\
    rev (rev cur :: rec2) = rev rec ++ t :: ts /\
    csv_parse_from AtStart [] rec (quoted_line (t :: ts) ++ rest) =
    csv_parse_from st cur rec2 rest.
Proof.
  revert t rec. induction ts as [|w ts IH]; intros t rec.
  - destruct (csv_cell t rec rest) as [st [Hst E]].
    exists st, (rev t), rec. split; [exact Hst|]. split; [|exact E].
    cbn [rev]. now rewrite rev_involutive.
  - change (quoted_line (t :: w :: ts))
      with (csv_quote t ++ COMMA :: quoted_line (w :: ts)).
    rewrite <- app_assoc. cbn [Datatypes.app].
    destruct (csv_cell t rec (COMMA :: quoted_line (w :: ts) ++ rest))
      as [st1 [Hst1 E1]].
    rewrite E1, csv_at_comma, rev_involutive by assumption.
    destruct (IH w (t :: rec)) as [st [cur [rec2 [Hst [Hrev E]]]]].
    exists st, cur, rec2. split; [exact Hst|]. split; [|exact E].
    rewrite Hrev. cbn [rev]. now rewrite <- app_assoc.
Qed.

(** Reading written lines back gives the texts of their cells, record by
    record. *)
Lemma csv_parse_texts (texts : list (list str)) :
  texts <> [] -> Forall (fun r => r <> []) texts ->
  csv_parse (join [NL] (map quoted_line texts)) = texts.
Proof.
  unfold csv_parse. intros Hne Hall.
  destruct texts as [|r rs]; [congruence|]. clear Hne.
  revert r Hall. induction rs as [|r2 rs IH]; intros r Hall.
  - inversion Hall as [|? ? Hr _]; subst. destruct r as [|v vs]; [congruence|].
    change (join [NL] (map quoted_line [v :: vs])) with (quoted_line (v :: vs)).
    destruct (csv_record v vs [] []) as [st [cur [rec2 [_ [Hrev E]]]]].
    rewrite app_nil_r in E. rewrite E, csv_at_end, Hrev. reflexivity.
  - inversion Hall as [|? ? Hr Hrest]; subst. destruct r as [|v vs]; [congruence|].
    change (join [NL] (map quoted_line ((v :: vs) :: r2 :: rs)))
      with (quoted_line (v :: vs) ++ NL :: join [NL] (map quoted_line (r2 :: rs))).
    destruct (csv_record v vs [] (NL :: join [NL] (map quoted_line (r2 :: rs))))
      as [st [cur [rec2 [Hst [Hrev E]]]]].
    rewrite E, csv_at_newline, Hrev by assumption.
    rewrite (IH r2 Hrest). reflexivity.
Qed.

Lemma some_eq {A} (a b : A) : Some a = Some b -> a = b.
Proof. now intros [= ->]. Qed.

Lemma traverse_length {A B} (f : A -> option B) (xs : list A) (ys : list B) :
  traverse f xs = Some ys -> length ys = length xs.
Proof.
  revert ys. induction xs as [|x xs IH]; intros ys; simpl.
  - now intros [= <-].
  - destruct (f x); [|discriminate]. destruct (traverse f xs); [|discriminate].
    intros [= <-]. simpl. now rewrite (IH l).
Qed.

Lemma traverse_cons {A B} (f : A -> option B) (x : A) (xs : list A) (zs : list B) :
  traverse f (x :: xs) = Some zs ->
  exists y ys, f x = Some y /\ traverse f xs = Some ys /\ zs = y :: ys.
Proof.
  cbn [traverse]. destruct (f x) as [y|]; [|discriminate].
  destruct (traverse f xs) as [ys|]; [|discriminate].
  intros [= <-]. eauto.
Qed.

(** A map in two steps, each of which may throw. *)
Lemma traverse_bind {A B C} (f : A -> option B) (g : B -> option C)
    (xs : list A) (zs : list C) :
  traverse (fun x => match f x with Some y => g y | None => None end) xs = Some zs ->
  exists ys, traverse f xs = Some ys /\ traverse g ys = Some zs.
Proof.
  revert zs. induction xs as [|x xs IH]; intros zs H.
  - injection H as <-. now exists [].
  - apply traverse_cons in H. destruct H as (z & zs' & Hz & Hzs & ->).
    destruct (f x) as [y|] eqn:Ey; [|discriminate].
    destruct (IH zs' Hzs) as (ys & Hys & Hg).
    exists (y :: ys). cbn [traverse]. now rewrite Ey, Hys, Hz, Hg.
Qed.

(** A written line is the line of the texts of its cells. *)
Lemma csv_line_texts (record : list value) (line : str) :
  csv_line record = Some line ->
  exists ts, traverse cell_text record = Some ts /\ line = quoted_line ts.
Proof.
  unfold csv_line.
  destruct (traverse toCSV record) as [cells|] eqn:E; [|discriminate].
  intros [= <-]. revert cells E.
  induction record as [|v record IH]; intros cells E.
  - injection E as <-. now exists [].
  - apply traverse_cons in E. destruct E as (c & cs & Hc & Hcs & ->).
    rewrite toCSV_rule in Hc.
    destruct (cell_text v) as [t|] eqn:Et; [|discriminate]. injection Hc as <-.
    destruct (IH cs Hcs) as (ts & Hts & E).
    exists (t :: ts). cbn [traverse]. rewrite Et, Hts. split; [reflexivity|].
    unfold quoted_line. cbn [map]. f_equal. f_equal.
    clear - Hts Hcs. revert cs ts Hcs Hts.
    induction record as [|w record IH]; intros cs ts Hcs Hts.
    + injection Hcs as <-. injection Hts as <-. reflexivity.
    + apply traverse_cons in Hcs. destruct Hcs as (c & cs' & Hc & Hcs' & ->).
      apply traverse_cons in Hts. destruct Hts as (t & ts' & Ht & Hts' & ->).
      rewrite toCSV_rule, Ht in Hc. injection Hc as <-.
      cbn [map]. f_equal. now apply IH.
Qed.

Lemma csv_lines_texts (records : list (list value)) (lines : list str) :
  traverse csv_line records = Some lines ->
  exists texts,
    traverse (traverse cell_text) records = Some texts /\
    lines = map quoted_line texts.
Proof.
  revert lines. induction records as [|r records IH]; intros lines H.
  - injection H as <-. now exists [].
  - apply traverse_cons in H. destruct H as (l & ls & Hl & Hls & ->).
    destruct (csv_line_texts r l Hl) as (ts & Hts & ->).
    destruct (IH ls Hls) as (texts & Htexts & ->).
    exists (ts :: texts). cbn [traverse]. now rewrite Hts, Htexts.
Qed.

Lemma traverse_nonempty {A B} (f : A -> option B) (xss : list (list A))
    (yss : list (list B)) :
  traverse (traverse f) xss = Some yss ->
  Forall (fun r => r <> []) xss -> Forall (fun r => r <> []) yss.
Proof.
  revert yss. induction xss as [|xs xss IH]; intros yss H Hall.
  - injection H as <-. constructor.
  - apply traverse_cons in H. destruct H as (ys & yss' & Hys & Hyss & ->).
    inversion Hall as [|? ? Hx Hxs]; subst. constructor; [|now apply IH].
    apply traverse_length in Hys. destruct xs; [congruence|]. now destruct ys.
Qed.

(** Reading written records back gives the texts of their cells, record by
    record. *)
Lemma csv_parse_roundtrip (records : list (list value)) (lines : list str) :
  records <> [] -> Forall (fun r => r <> []) records ->
  traverse csv_line records = Some lines ->
  traverse (traverse cell_text) records = Some (csv_parse (join [NL] lines)).
Proof.
  intros Hne Hall H.
  destruct (csv_lines_texts records lines H) as (texts & Htexts & ->).
  rewrite Htexts. f_equal. symmetry. apply csv_parse_texts.
  - apply traverse_length in Htexts. destruct records; [congruence|].
    now destruct texts.
  - now apply (traverse_nonempty _ _ _ Htexts).
Qed.

Lemma export_record_cells (row : object) (record : list value) :
  export_record row = Some record -> length record = 16%nat.
Proof.
  unfold export_record.
  destruct (or_else (field row "product_collections") (VArr [])); try discriminate.
  destruct (or_else (field row "product_tags") (VArr [])); try discriminate.
  destruct (traverse _ l); [|discriminate].
  destruct (array_join _ l1); [|discriminate].
  destruct (array_join _ l0); [|discriminate].
  now intros [= <-].
Qed.

Lemma export_records_nonempty (filtered : list object) (records : list (list value)) :
  traverse export_record filtered = Some records ->
  Forall (fun r => r <> []) records.
Proof.
  revert records. induction filtered as [|row rows IH]; intros records; simpl.
  - intros [= <-]. constructor.
  - destruct (export_record row) as [r|] eqn:E; [|discriminate].
    destruct (traverse export_record rows) as [rs|]; [|discriminate].
    intros [= <-]. constructor; [|now apply IH].
    apply export_record_cells in E. now destruct r.
Qed.

(** The exported text read back: the header, then the sixteen cells of
    every row. *)
Lemma exportCSV_roundtrip (filtered : list object) (txt : str) :
  exportCSV filtered = Some txt ->
  exists records texts,
    traverse export_record filtered = Some records /\
    traverse (traverse cell_text) records = Some texts /\
    length records = length filtered /\
    csv_parse txt = cols :: texts.
Proof.
  unfold exportCSV.
  destruct (traverse _ filtered) as [lines|] eqn:E; [|discriminate].
  intros H. apply some_eq in H. subst txt.
  apply traverse_bind in E. destruct E as (records & Hrec & Hlines).
  destruct (csv_lines_texts records lines Hlines) as (texts & Htexts & ->).
  exists records, texts. split; [exact Hrec|]. split; [exact Htexts|].
  split; [now apply traverse_length in Hrec|].
  assert (Hh : join [COMMA] cols = quoted_line cols) by reflexivity.
  rewrite Hh, <- (map_cons quoted_line).
  rewrite csv_parse_texts; [reflexivity|discriminate|].
  constructor; [discriminate|].
  apply (traverse_nonempty _ _ _ Htexts). now apply export_records_nonempty in Hrec.
Qed.

Lemma csvEscape_string (s : str) : toCSV (VStr s) = Some (csvEscape (VStr s)).
Proof.
  rewrite toCSV_rule. unfold csvEscape, cell_text, csv_quote.
  cbn [nullish to_String]. cbv zeta. f_equal.
  now destruct (includes_char COMMA s), (includes_char NL s), (includes_char QUOTE s).
Qed.

(** C5. A cell is the [String()] text of its value, empty for [null] and
    [undefined]; every double quote in it is doubled and the cell is put in
    double quotes exactly when the text has a comma, a line feed or a double
    quote; the sample cell of the specification comes out as stated; and
    reading written records back, the exported file among them, gives the
    texts of their cells. Where [String()] throws there is no cell and no
    file. *)
Theorem C5_csv_cell (val : value) (records : list (list value))
    (filtered : list object) :
  cell_text VNull = Some [] /\ cell_text VUndef = Some [] /\
  (nullish val = false -> cell_text val = to_String val) /\
  toCSV val =
  match cell_text val with
  | Some s =>
      Some (if includes_char COMMA s || includes_char NL s || includes_char QUOTE s
            then QUOTE :: double_quotes s ++ [QUOTE]
            else s)
  | None => None
  end /\
  (forall s, toCSV (VStr s) = Some (csvEscape (VStr s))) /\
  toCSV (VStr (lit "He said " ++ QUOTE :: lit "hi" ++ QUOTE :: lit ", ok")) =
  Some (QUOTE :: lit "He said " ++ QUOTE :: QUOTE :: lit "hi" ++ QUOTE :: QUOTE
              :: lit ", ok" ++ [QUOTE]) /\
  (records <> [] -> Forall (fun r => r <> []) records ->
   forall lines, traverse csv_line records = Some lines ->
   traverse (traverse cell_text) records = Some (csv_parse (join [NL] lines))) /\
  (forall txt, exportCSV filtered = Some txt ->
   exists rs texts,
     traverse export_record filtered = Some rs /\
     traverse (traverse cell_text) rs = Some texts /\
     length rs = length filtered /\
     csv_parse txt = cols :: texts).
Proof.
  split; [reflexivity|]. split; [reflexivity|].
  split; [|split; [|split; [|split; [|split]]]].
  - unfold cell_text. now intros ->.
  - apply toCSV_rule.
  - apply csvEscape_string.
  - reflexivity.
  - intros Hne Hall lines. now apply csv_parse_roundtrip.
  - apply exportCSV_roundtrip.
Qed.

Lemma C5_witness :
  let a := VStr (lit "He said " ++ QUOTE :: lit "hi" ++ QUOTE :: lit ", ok") in
  let b := VStr (lit "two" ++ NL :: lit "lines") in
  exists lines,
    traverse csv_line [[a; VNull; vnum 7]; [b; VBool true]] = Some lines /\
    csv_parse (join [NL] lines) =
    [[lit "He said " ++ QUOTE :: lit "hi" ++ QUOTE :: lit ", ok"; []; lit "7"];
     [lit "two" ++ NL :: lit "lines"; lit "true"]].
Proof.
  intros a b.
  destruct (traverse csv_line [[a; VNull; vnum 7]; [b; VBool true]]) as [lines|] eqn:E;
    [|discriminate E].
  exists lines. split; [reflexivity|].
  assert (H : traverse (traverse cell_text) [[a; VNull; vnum 7]; [b; VBool true]] =
              Some (csv_parse (join [NL] lines))).
  { refine (proj1 (proj2 (proj2 (proj2 (proj2 (proj2 (proj2
              (C5_csv_cell VNull [[a; VNull; vnum 7]; [b; VBool true]] []))))))) _ _ lines E).
    - discriminate.
    - repeat constructor; discriminate. }
  apply some_eq in H. symmetry. exact H.
Defined.

(* ===================================================================== *)
(** * Order on numbers *)
(* ===================================================================== *)

Lemma pow10_pos (n : Z) : 0 <= n -> 0 < 10 ^ n.
Proof. intros H. apply Z.pow_pos_nonneg; lia. Qed.

(** Comparing at any common exponent below both gives the same answer. *)
Lemma dec_leb_scaled (a b : dec) (E : Z) :
  E <= expo a -> E <= expo b ->
  dec_leb a b = (mant a * 10 ^ (expo a - E) <=? mant b * 10 ^ (expo b - E)).
Proof.
  intros Ha Hb. unfold dec_leb, align.
  set (e := Z.min (expo a) (expo b)).
  assert (He : E <= e) by (unfold e; lia).
  assert (Ea : expo a - E = (expo a - e) + (e - E)) by lia.
  assert (Eb : expo b - E = (expo b - e) + (e - E)) by lia.
  rewrite Ea, Eb, !Z.pow_add_r by (unfold e; lia).
  pose proof (pow10_pos (e - E) ltac:(lia)) as Hc.
  rewrite !Z.mul_assoc.
  destruct (mant a * 10 ^ (expo a - e) <=? mant b * 10 ^ (expo b - e)) eqn:L;
    symmetry.
  - apply Z.leb_le. apply Z.leb_le in L. now apply Z.mul_le_mono_nonneg_r; [lia|].
  - apply Z.leb_gt. apply Z.leb_gt in L. now apply Z.mul_lt_mono_pos_r.
Qed.

Lemma dec_leb_refl (a : dec) : dec_leb a a = true.
Proof. unfold dec_leb, align. apply Z.leb_refl. Qed.

Lemma dec_leb_total (a b : dec) : dec_leb a b = false -> dec_leb b a = true.
Proof.
  set (E := Z.min (expo a) (expo b)).
  rewrite (dec_leb_scaled a b E), (dec_leb_scaled b a E) by (unfold E; lia).
  rewrite Z.leb_gt, Z.leb_le. lia.
Qed.

Lemma dec_leb_trans (a b c : dec) :
  dec_leb a b = true -> dec_leb b c = true -> dec_leb a c = true.
Proof.
  set (E := Z.min (expo a) (Z.min (expo b) (expo c))).
  rewrite (dec_leb_scaled a b E), (dec_leb_scaled b c E), (dec_leb_scaled a c E)
    by (unfold E; lia).
  rewrite !Z.leb_le. lia.
Qed.

Lemma num_le_refl (a : jsnum) : is_NaN a = false -> num_le a a = true.
Proof. destruct a as [|[]|d]; simpl; try congruence. intros _. apply dec_leb_refl. Qed.

Lemma num_le_total (a b : jsnum) :
  is_NaN a = false -> is_NaN b = false -> num_le a b = false -> num_le b a = true.
Proof.
  destruct a as [|[]|x]; destruct b as [|[]|y]; simpl; try congruence.
  intros _ _. apply dec_leb_total.
Qed.

Lemma num_le_trans (a b c : jsnum) :
  num_le a b = true -> num_le b c = true -> num_le a c = true.
Proof.
  destruct a as [|[]|x]; destruct b as [|[]|y]; destruct c as [|[]|z]; simpl;
    try congruence.
  apply dec_leb_trans.
Qed.

Lemma fold_min2 (xs : list jsnum) (acc : jsnum) :
  is_NaN acc = false -> forallb is_finite xs = true ->
  let m := fold_left min2 xs acc in
  is_NaN m = false /\ (m = acc \/ In m xs) /\ num_le m acc = true /\
  (forall x, In x xs -> num_le m x = true).
Proof.
  revert acc. induction xs as [|x xs IH]; intros acc Hacc Hfin; simpl.
  - repeat split; auto using num_le_refl.
  - simpl in Hfin. apply andb_true_iff in Hfin. destruct Hfin as [Hx Hxs].
    assert (Hnx : is_NaN x = false) by (destruct x; simpl in *; congruence).
    assert (Hm2 : is_NaN (min2 acc x) = false /\
                  (min2 acc x = acc \/ min2 acc x = x) /\
                  num_le (min2 acc x) acc = true /\ num_le (min2 acc x) x = true).
    { unfold min2. rewrite Hacc, Hnx. simpl.
      destruct (num_le acc x) eqn:L.
      - repeat split; auto using num_le_refl.
      - repeat split; auto using num_le_refl, num_le_total. }
    destruct Hm2 as [N2 [C2 [L2 R2]]].
    destruct (IH (min2 acc x) N2 Hxs) as [N [C [L R]]].
    split; [exact N|]. split; [|split].
    + destruct C as [C|C]; [|now right; right].
      rewrite C. destruct C2 as [C2|C2]; rewrite C2; [now left|now right; left].
    + eapply num_le_trans; eassumption.
    + intros y [<-|Hy]; [eapply num_le_trans; eassumption|now apply R].
Qed.

Lemma fold_max2 (xs : list jsnum) (acc : jsnum) :
  is_NaN acc = false -> forallb is_finite xs = true ->
  let m := fold_left max2 xs acc in
  is_NaN m = false /\ (m = acc \/ In m xs) /\ num_le acc m = true /\
  (forall x, In x xs -> num_le x m = true).
Proof.
  revert acc. induction xs as [|x xs IH]; intros acc Hacc Hfin; simpl.
  - repeat split; auto using num_le_refl.
  - simpl in Hfin. apply andb_true_iff in Hfin. destruct Hfin as [Hx Hxs].
    assert (Hnx : is_NaN x = false) by (destruct x; simpl in *; congruence).
    assert (Hm2 : is_NaN (max2 acc x) = false /\
                  (max2 acc x = acc \/ max2 acc x = x) /\
                  num_le acc (max2 acc x) = true /\ num_le x (max2 acc x) = true).
    { unfold max2. rewrite Hacc, Hnx. simpl.
      destruct (num_le acc x) eqn:L.
      - repeat split; auto using num_le_refl.
      - repeat split; auto using num_le_refl, num_le_total. }
    destruct Hm2 as [N2 [C2 [L2 R2]]].
    destruct (IH (max2 acc x) N2 Hxs) as [N [C [L R]]].
    split; [exact N|]. split; [|split].
    + destruct C as [C|C]; [|now right; right].
      rewrite C. destruct C2 as [C2|C2]; rewrite C2; [now left|now right; left].
    + eapply num_le_trans; eassumption.
    + intros y [<-|Hy]; [eapply num_le_trans; eassumption|now apply R].
Qed.

(** [Math.min] of finite numbers, at least one, is the least of them. *)
Lemma Math_min_least (x : jsnum) (xs : list jsnum) :
  forallb is_finite (x :: xs) = true ->
  In (Math_min (x :: xs)) (x :: xs) /\
  forall y, In y (x :: xs) -> num_le (Math_min (x :: xs)) y = true.
Proof.
  intros Hfin. simpl in Hfin. apply andb_true_iff in Hfin. destruct Hfin as [Hx Hxs].
  assert (Hnx : is_NaN x = false) by (destruct x; simpl in *; congruence).
  assert (E : min2 (Inf false) x = x) by (destruct x; [discriminate..|reflexivity]).
  unfold Math_min. simpl fold_left. rewrite E.
  destruct (fold_min2 xs x Hnx Hxs) as [_ [C [L R]]].
  split.
  - destruct C as [->|C]; [now left|now right].
  - intros y [<-|Hy]; [exact L|now apply R].
Qed.

Lemma Math_max_greatest (x : jsnum) (xs : list jsnum) :
  forallb is_finite (x :: xs) = true ->
  In (Math_max (x :: xs)) (x :: xs) /\
  forall y, In y (x :: xs) -> num_le y (Math_max (x :: xs)) = true.
Proof.
  intros Hfin. simpl in Hfin. apply andb_true_iff in Hfin. destruct Hfin as [Hx Hxs].
  assert (Hnx : is_NaN x = false) by (destruct x; simpl in *; congruence).
  assert (E : max2 (Inf true) x = x) by (destruct x; [discriminate..|reflexivity]).
  unfold Math_max. simpl fold_left. rewrite E.
  destruct (fold_max2 xs x Hnx Hxs) as [_ [C [L R]]].
  split.
  - destruct C as [->|C]; [now left|now right].
  - intros y [<-|Hy]; [exact L|now apply R].
Qed.

(* ===================================================================== *)
(** * Product summary rows *)
(* ===================================================================== *)

Lemma asNumber_finite (v : value) (n : jsnum) :
  asNumber v = Some (Some n) -> is_finite n = true.
Proof.
  unfold asNumber. destruct (nullish v || is_empty_string v); [discriminate|].
  match goal with |- match ?x with _ => _ end = _ -> _ =>
    destruct x as [m|] end; [|discriminate].
  destruct (is_finite m) eqn:E; [|discriminate].
  now intros [= <-].
Qed.

(** [asNumber] throws exactly when [String] does. *)
Lemma asNumber_None (v : value) : asNumber v = None <-> stringable v = false.
Proof.
  unfold asNumber, stringable.
  destruct v as [| |b|n|s|l|o]; cbn [nullish is_empty_string orb];
    try (split; discriminate).
  - destruct b; split; discriminate.
  - destruct s; split; discriminate.
  - destruct (to_String (VArr l)); split; congruence.
  - destruct (to_String (VObj o)); split; congruence.
Qed.

Lemma get_not_nullish (v : value) (k : str) :
  nullish v = false -> get v k = Some (get_opt v k).
Proof. unfold get_opt. destruct v; simpl; congruence. Qed.

Lemma get_nullish (v : value) (k : str) : nullish v = true -> get v k = None.
Proof. now destruct v. Qed.

Lemma map_numbers_coerced (k : string) (vs : list value) :
  forallb (fun v => negb (nullish v)) vs = true ->
  forallb (fun v => stringable (get_opt v (lit k))) vs = true ->
  map_numbers k vs = Some (coerced k vs).
Proof.
  unfold coerced. induction vs as [|v vs IH]; simpl; [reflexivity|].
  rewrite !andb_true_iff, negb_true_iff. intros [Hv Hvs] [Hs Hss].
  rewrite (get_not_nullish v _ Hv), (IH Hvs Hss).
  destruct (asNumber (get_opt v (lit k))) as [[n|]|] eqn:E; try reflexivity.
  apply asNumber_None in E. congruence.
Qed.

(** Reading the numbers of a field throws exactly when a variant is [null]
    or [undefined] or [String] throws on its field. *)
Lemma map_numbers_None (k : string) (vs : list value) :
  map_numbers k vs = None <->
  exists v, In v vs /\
            (nullish v = true \/ stringable (get_opt v (lit k)) = false).
Proof.
  induction vs as [|v vs IH]; cbn [map_numbers].
  - split; [discriminate|]. now intros (v & [] & _).
  - destruct (nullish v) eqn:Hv.
    + rewrite (get_nullish v _ Hv). split; [|reflexivity]. intros _.
      exists v. split; [now left|now left].
    + rewrite (get_not_nullish v _ Hv).
      destruct (asNumber (get_opt v (lit k))) as [on|] eqn:E.
      * assert (Hs : stringable (get_opt v (lit k)) = true).
        { destruct (stringable (get_opt v (lit k))) eqn:Es; [reflexivity|].
          apply asNumber_None in Es. congruence. }
        destruct (map_numbers k vs) as [ns|].
        -- split; [now destruct on|]. intros (w & [<-|Hw] & Hc).
           ++ destruct Hc; congruence.
           ++ assert (Hn : Some ns = None) by (apply IH; eauto). discriminate.
        -- split; [|now destruct on]. intros _.
           destruct (proj1 IH eq_refl) as (w & Hw & Hc). exists w. split; [now right|exact Hc].
      * split; [|reflexivity]. intros _. apply asNumber_None in E.
        exists v. split; [now left|now right].
Qed.

Lemma coerced_finite (k : string) (vs : list value) :
  forallb is_finite (coerced k vs) = true.
Proof.
  unfold coerced. induction vs as [|v vs IH]; simpl; [reflexivity|].
  destruct (asNumber (get_opt v (lit k))) as [[n|]|] eqn:E; simpl; try exact IH.
  now rewrite (asNumber_finite _ _ E).
Qed.

Lemma coerced_nil (k : string) (vs : list value) :
  forallb (fun v => stringable (get_opt v (lit k))) vs = true ->
  (coerced k vs = [] <->
   forall v, In v vs -> asNumber (get_opt v (lit k)) = Some None).
Proof.
  unfold coerced. induction vs as [|v vs IH]; simpl; [tauto|].
  rewrite andb_true_iff. intros [Hs Hss].
  destruct (asNumber (get_opt v (lit k))) as [[n|]|] eqn:E; simpl.
  - split; [discriminate|]. intros H. specialize (H v (or_introl eq_refl)). congruence.
  - rewrite (IH Hss). split.
    + intros H w [<-|Hw]; auto.
    + intros H w Hw. apply H. now right.
  - apply asNumber_None in E. congruence.
Qed.

(** C8, as the code has it. For a product whose variants are objects,
    [price_min] and [price_max] are the least and the greatest of the
    coerced variant prices and are absent exactly when no price coerces;
    [inventory_total] is the sum of the coerced quantities, absent when there
    is none; [available] tells whether some variant is available and is
    absent without variants. The coercion takes a number as it is and, of
    any other value, the digits, decimal points and minus signs of its text,
    wherever they stand, read as a number that must be finite. There is no
    row, but a TypeError, exactly when a variant is [null] or [undefined]
    or [String()] throws on a price or a quantity. *)
Theorem C8_derive_product_row (p pv : value) (src : source_tag) :
  get p (lit "product_variants") = Some pv ->
  let variants := match pv with VArr l => l | _ => [] end in
  (deriveProductRow p src = None <->
   exists v, In v variants /\
             (nullish v = true \/
              stringable (get_opt v (lit "variant_price")) = false \/
              stringable (get_opt v (lit "inventory_quantity")) = false)) /\
  (forallb (fun v => negb (nullish v)) variants = true ->
   forallb (fun v => stringable (get_opt v (lit "variant_price"))) variants = true ->
   forallb (fun v => stringable (get_opt v (lit "inventory_quantity"))) variants = true ->
   let prices := coerced "variant_price" variants in
   let inv := coerced "inventory_quantity" variants in
   exists r,
     deriveProductRow p src = Some r /\
     (price_min r = None <-> prices = []) /\
     (price_max r = None <-> prices = []) /\
     (prices = [] <->
      forall v, In v variants ->
                asNumber (get_opt v (lit "variant_price")) = Some None) /\
     (forall lo, price_min r = Some lo ->
        In lo prices /\ forall x, In x prices -> num_le lo x = true) /\
     (forall hi, price_max r = Some hi ->
        In hi prices /\ forall x, In x prices -> num_le x hi = true) /\
     inventory_total r = match inv with [] => None | _ => Some (sum_numbers inv) end /\
     available r =
       match variants with
       | [] => None
       | _ => Some (existsb (fun v => truthy (get_opt v (lit "variant_available")))
                            variants)
       end /\
     (forall n, asNumber (VNum n) = Some (if is_finite n then Some n else None)) /\
     (forall c s, asNumber (VStr (c :: s)) =
        Some (let n := string_to_number (keep_numeric (c :: s)) in
              if is_finite n then Some n else None)) /\
     asNumber VUndef = Some None /\ asNumber VNull = Some None /\
     asNumber (VStr []) = Some None).
Proof.
  intros Hget variants. split.
  - unfold deriveProductRow. rewrite Hget. fold variants.
    destruct (map_numbers "variant_price" variants) as [prices|] eqn:Ep.
    + destruct (map_numbers "inventory_quantity" variants) as [inv|] eqn:Ei.
      * split; [discriminate|]. intros (v & Hv & [Hn|[Hs|Hs]]).
        -- assert (H : map_numbers "variant_price" variants = None)
             by (apply map_numbers_None; eauto). congruence.
        -- assert (H : map_numbers "variant_price" variants = None)
             by (apply map_numbers_None; eauto). congruence.
        -- assert (H : map_numbers "inventory_quantity" variants = None)
             by (apply map_numbers_None; eauto). congruence.
      * split; [|reflexivity]. intros _. apply map_numbers_None in Ei.
        destruct Ei as (v & Hv & [Hn|Hs]); exists v; auto.
    + split; [|reflexivity]. intros _. apply map_numbers_None in Ep.
      destruct Ep as (v & Hv & [Hn|Hs]); exists v; auto.
  - intros Hobj Hsp Hsq prices inv.
    unfold deriveProductRow. rewrite Hget. fold variants.
    rewrite !map_numbers_coerced by assumption. fold prices inv.
    eexists. split; [reflexivity|].
    cbn [price_min price_max inventory_total available].
    pose proof (coerced_finite "variant_price" variants) as Hfin. fold prices in Hfin.
    split; [|split; [|split; [|split; [|split; [|split; [|split; [|split]]]]]]].
    + destruct prices; simpl; split; congruence.
    + destruct prices; simpl; split; congruence.
    + now apply coerced_nil.
    + destruct prices as [|x xs]; simpl; [discriminate|].
      intros lo [= <-]. now apply Math_min_least.
    + destruct prices as [|x xs]; simpl; [discriminate|].
      intros hi [= <-]. now apply Math_max_greatest.
    + now destruct inv.
    + now destruct variants.
    + intros n. now destruct n.
    + repeat split; reflexivity.
Qed.

Lemma C8_witness :
  let p :=
    vobj [("product_id", vstr "123");
          ("product_variants",
           VArr [vobj [("variant_price", vstr "$19.99"); ("inventory_quantity", vnum 12);
                       ("variant_available", VBool false)];
                 vobj [("variant_price", vnum 5); ("inventory_quantity", vstr "3")];
                 vobj [("variant_price", vstr "-"); ("variant_available", VBool true)]])] in
  exists r,
    deriveProductRow p trigger = Some r /\
    price_min r = Some (Fin (Dec 5 0)) /\
    price_max r = Some (Fin (Dec 1999 (-2))) /\
    inventory_total r = Some (Fin (Dec 15 0)) /\
    available r = Some true.
Proof.
  intros p.
  destruct (proj2 (C8_derive_product_row p _ trigger eq_refl) eq_refl eq_refl eq_refl)
    as [r [Hr _]].
  exists r. split; [exact Hr|].
  vm_compute in Hr. injection Hr as <-. repeat split; reflexivity.
Defined.

(** C8 as worded fails on the price [5-3]: keeping only a leading minus
    sign would leave [53], a finite number, but the code keeps every minus
    sign, reads [5-3] as not a number and leaves [price_min] absent. *)
Lemma C8_counterexample :
  let p := vobj [("product_variants", VArr [vobj [("variant_price", vstr "5-3")]])] in
  (exists r, deriveProductRow p trigger = Some r /\
             price_min r = None /\ price_max r = None) /\
  keep_numeric (lit "5-3") = lit "5-3" /\
  keep_numeric_spec (lit "5-3") = lit "53" /\
  string_to_number (keep_numeric_spec (lit "5-3")) = Fin (Dec 53 0) /\
  is_finite (string_to_number (keep_numeric_spec (lit "5-3"))) = true /\
  asNumber (vstr "5-3") = Some None.
Proof.
  intros p. split.
  - eexists. split; [reflexivity|]. split; reflexivity.
  - repeat split; reflexivity.
Qed.

(* ===================================================================== *)
(** * Decimal digits *)
(* ===================================================================== *)

Lemma code_chr (n : Z) : 0 <= n < 256 -> code (chr n) = n.
Proof.
  intros H. unfold code, chr. rewrite N_ascii_embedding; lia.
Qed.

Lemma chr_code (c : ascii) : chr (code c) = c.
Proof. unfold code, chr. now rewrite N2Z.id, ascii_N_embedding. Qed.

Lemma code_inj (a b : ascii) : code a = code b -> a = b.
Proof. intros H. rewrite <- (chr_code a), <- (chr_code b). now rewrite H. Qed.

Lemma digit_char_ok (n : Z) :
  0 <= n < 10 ->
  is_digit (digit_char n) = true /\ digit_val (digit_char n) = n /\
  code (digit_char n) = 48 + n.
Proof.
  intros H. unfold is_digit, digit_val, digit_char.
  rewrite code_chr by lia. repeat split; lia.
Qed.

Lemma digits_val_fold (ds : str) (acc : Z) :
  fold_left (fun a c => a * 10 + digit_val c) ds acc =
  acc * 10 ^ Z.of_nat (length ds) + digits_val ds.
Proof.
  unfold digits_val. revert acc.
  induction ds as [|c ds IH]; intros acc; simpl fold_left.
  - simpl. lia.
  - rewrite (IH (acc * 10 + digit_val c)), (IH (digit_val c)).
    change (length (c :: ds)) with (S (length ds)).
    rewrite Nat2Z.inj_succ, Z.pow_succ_r by lia. lia.
Qed.

Lemma digits_val_app (a b : str) :
  digits_val (a ++ b) = digits_val a * 10 ^ Z.of_nat (length b) + digits_val b.
Proof.
  unfold digits_val at 1. rewrite fold_left_app, digits_val_fold. reflexivity.
Qed.

Lemma digits_val_zeros (n : Z) : digits_val (zeros n) = 0.
Proof.
  unfold zeros. induction (Z.to_nat n) as [|k IH]; [reflexivity|].
  change (repeat (chr 48) (S k)) with ([chr 48] ++ repeat (chr 48) k).
  rewrite digits_val_app, IH. reflexivity.
Qed.

Lemma zeros_length (n : Z) : length (zeros n) = Z.to_nat n.
Proof. apply repeat_length. Qed.

Lemma zeros_digits (n : Z) : forallb is_digit (zeros n) = true.
Proof.
  unfold zeros. induction (Z.to_nat n) as [|k IH]; [reflexivity|].
  simpl. now rewrite IH.
Qed.

(** The digits of a natural number: only digits, at least one, no leading
    zero unless the number is zero, the units digit last, and the number as
    their value. *)
Lemma digits_fuel_spec (f : nat) (n : Z) :
  0 <= n < 2 ^ Z.of_nat (S f) ->
  let ds := digits_fuel (S f) n in
  forallb is_digit ds = true /\
  digits_val ds = n /\
  (exists c r, ds = c :: r /\ (0 < n -> c <> chr 48)) /\
  (exists r, ds = r ++ [digit_char (n mod 10)]).
Proof.
  revert n. induction f as [|f IH]; intros n Hn.
  - assert (Hn' : n = 0 \/ n = 1) by (simpl in Hn; lia).
    cbv zeta. destruct Hn' as [-> | ->]; repeat split; try reflexivity.
    + exists (chr 48), []. split; [reflexivity|lia].
    + now exists [].
    + exists (chr 49), []. split; [reflexivity|discriminate].
    + now exists [].
  - cbv zeta.
    change (digits_fuel (S (S f)) n)
      with (if n <? 10 then [digit_char n]
            else digits_fuel (S f) (n / 10) ++ [digit_char (n mod 10)]).
    destruct (n <? 10) eqn:L.
    + apply Z.ltb_lt in L.
      destruct (digit_char_ok n ltac:(lia)) as [H1 [H2 H3]].
      split; [simpl; now rewrite H1|]. split; [|split].
      * unfold digits_val. simpl. lia.
      * exists (digit_char n), []. split; [reflexivity|].
        intros Hpos E. apply (f_equal code) in E. rewrite H3 in E.
        change (code (chr 48)) with 48 in E. lia.
      * exists []. rewrite Z.mod_small by lia. reflexivity.
    + apply Z.ltb_ge in L.
      rewrite Nat2Z.inj_succ, Z.pow_succ_r in Hn by lia.
      assert (Hq : 0 <= n / 10 < 2 ^ Z.of_nat (S f)).
      { split; [apply Z.div_pos; lia|].
        apply Z.div_lt_upper_bound; lia. }
      destruct (IH (n / 10) Hq) as [A [B [[c [r [C1 C2]]] _]]].
      pose proof (Z.mod_pos_bound n 10 ltac:(lia)) as Hm.
      destruct (digit_char_ok (n mod 10) ltac:(lia)) as [H1 [H2 H3]].
      split; [|split; [|split]].
      * rewrite forallb_app, A. simpl. now rewrite H1.
      * rewrite digits_val_app, B. unfold digits_val at 1. simpl.
        rewrite H2. pose proof (Z.div_mod n 10 ltac:(lia)). lia.
      * exists c, (r ++ [digit_char (n mod 10)]). rewrite C1. split; [reflexivity|].
        intros _. apply C2. apply Z.div_str_pos. lia.
      * now eexists.
Qed.

Lemma digits_of_spec (n : Z) :
  0 <= n ->
  forallb is_digit (digits_of n) = true /\
  digits_val (digits_of n) = n /\
  (exists c r, digits_of n = c :: r /\ (0 < n -> c <> chr 48)) /\
  (exists r, digits_of n = r ++ [digit_char (n mod 10)]).
Proof.
  intros H. unfold digits_of. apply digits_fuel_spec.
  split; [assumption|].
  destruct (Z.eq_dec n 0) as [->|Hn]; [reflexivity|].
  rewrite Nat2Z.inj_succ, Z2Nat.id by apply Z.log2_nonneg.
  now pose proof (Z.log2_spec n ltac:(lia)) as [_ Hlt].
Qed.

Lemma span_digits (ds rest : str) :
  forallb is_digit ds = true ->
  match rest with c :: _ => is_digit c = false | [] => True end ->
  span is_digit (ds ++ rest) = (ds, rest).
Proof.
  intros Hds Hrest. induction ds as [|c ds IH]; simpl.
  - destruct rest as [|c r]; [reflexivity|]. simpl. now rewrite Hrest.
  - simpl in Hds. apply andb_true_iff in Hds. destruct Hds as [-> Hds].
    now rewrite IH.
Qed.

(* ===================================================================== *)
(** * Numbers: text and back *)
(* ===================================================================== *)

Lemma strip10_pow (z : nat) (fuel : nat) (m e : Z) :
  m mod 10 <> 0 -> (z < fuel)%nat ->
  strip10 fuel (m * 10 ^ Z.of_nat z) e = Dec m (e + Z.of_nat z).
Proof.
  intros Hm. revert fuel e.
  induction z as [|z IH]; intros fuel e Hz;
    (destruct fuel as [|fuel]; [lia|]).
  - simpl. rewrite Z.mul_1_r.
    destruct (m mod 10 =? 0) eqn:E; [apply Z.eqb_eq in E; contradiction|].
    f_equal. lia.
  - rewrite Nat2Z.inj_succ, Z.pow_succ_r by lia.
    replace (m * (10 * 10 ^ Z.of_nat z)) with ((m * 10 ^ Z.of_nat z) * 10) by lia.
    simpl strip10. rewrite Z.mod_mul, Z.div_mul by lia. simpl.
    rewrite IH by lia. f_equal. lia.
Qed.

Lemma normalize_pow (m e z : Z) :
  m mod 10 <> 0 -> 0 <= z -> normalize (m * 10 ^ z) e = Dec m (e + z).
Proof.
  intros Hm Hz. unfold normalize.
  assert (Hm0 : m <> 0) by (intros ->; now apply Hm).
  pose proof (pow10_pos z Hz) as Hp.
  destruct (m * 10 ^ z =? 0) eqn:E; [apply Z.eqb_eq in E; nia|].
  rewrite <- (Z2Nat.id z) at 1 3 by assumption.
  rewrite <- (Z2Nat.id z) at 2 by assumption.
  apply strip10_pow; [assumption|].
  rewrite Z2Nat.id by assumption.
  assert (z <= Z.log2 (Z.abs (m * 10 ^ z))); [|lia].
  rewrite <- (Z.log2_pow2 z) at 1 by assumption.
  apply Z.log2_le_mono.
  rewrite Z.abs_mul, (Z.abs_eq (10 ^ z)) by lia.
  assert (2 ^ z <= 10 ^ z) by (apply Z.pow_le_mono_l; lia).
  nia.
Qed.

Lemma normalize_canonical (d : dec) :
  canonicalb d = true -> normalize (mant d) (expo d) = d.
Proof.
  destruct d as [m e]. unfold canonicalb. simpl.
  rewrite orb_true_iff, andb_true_iff, !Z.eqb_eq, negb_true_iff, Z.eqb_neq.
  intros [[-> ->]|Hm]; [reflexivity|].
  rewrite <- (Z.mul_1_r m) at 1. change 1 with (10 ^ 0).
  rewrite normalize_pow by (assumption || lia). f_equal. lia.
Qed.


(** Decides the comparisons of two known characters in the goal. *)
Ltac eval_eqb :=
  repeat match goal with
         | |- context [Ascii.eqb ?a ?b] =>
             let v := eval vm_compute in (Ascii.eqb a b) in
             lazymatch v with
             | true => change (Ascii.eqb a b) with true
             | false => change (Ascii.eqb a b) with false
             end
         end;
  cbv iota.

Lemma ascii_eqb_code (a b : ascii) : Ascii.eqb a b = (code a =? code b).
Proof.
  destruct (Ascii.eqb a b) eqn:E; symmetry.
  - apply Ascii.eqb_eq in E. subst. apply Z.eqb_refl.
  - apply Z.eqb_neq. intros H. apply code_inj in H. subst.
    now rewrite Ascii.eqb_refl in E.
Qed.

Lemma number_end_digit (rest : str) :
  number_end rest = true ->
  match rest with c :: _ => is_digit c = false | [] => True end.
Proof.
  destruct rest as [|c r]; simpl; [trivial|].
  rewrite negb_true_iff, !orb_false_iff. tauto.
Qed.

Lemma number_end_fraction (rest : str) :
  number_end rest = true -> JSON.parse_fraction rest = Some ([], rest).
Proof.
  destruct rest as [|c r]; simpl; [reflexivity|].
  rewrite negb_true_iff, !orb_false_iff. intros [[[_ H] _] _].
  unfold JSON.parse_fraction. rewrite ascii_eqb_code.
  change (code (chr 46)) with 46. now rewrite H.
Qed.

Lemma number_end_exponent (rest : str) :
  number_end rest = true -> read_exponent rest = Some (false, [], rest).
Proof.
  destruct rest as [|c r]; simpl; [reflexivity|].
  rewrite negb_true_iff, !orb_false_iff. intros [[[_ _] H1] H2].
  rewrite !ascii_eqb_code.
  change (code (chr 101)) with 101. change (code (chr 69)) with 69.
  now rewrite H1, H2.
Qed.

Lemma read_exponent_digits (x : Z) (rest : str) :
  number_end rest = true ->
  read_exponent
    (chr 101 :: ((if x <? 0 then lit "-" else lit "+") ++ digits_of (Z.abs x)) ++ rest) =
  Some (x <? 0, digits_of (Z.abs x), rest).
Proof.
  intros Hrest.
  destruct (digits_of_spec (Z.abs x) (Z.abs_nonneg x)) as [Hd [_ [[c [r [Hc _]]] _]]].
  pose proof (span_digits (digits_of (Z.abs x)) rest Hd (number_end_digit _ Hrest)) as Hs.
  unfold read_exponent. eval_eqb. simpl orb. cbv iota.
  destruct (x <? 0); unfold lit; cbn [list_ascii_of_string Datatypes.app];
    eval_eqb; rewrite Hs, Hc; reflexivity.
Qed.

Lemma mod10_opp (a : Z) : a mod 10 <> 0 -> (- a) mod 10 <> 0.
Proof.
  intros H E.
  pose proof (Z.div_mod a 10 ltac:(lia)). pose proof (Z.div_mod (- a) 10 ltac:(lia)).
  pose proof (Z.mod_pos_bound a 10 ltac:(lia)). lia.
Qed.

Lemma normalize_signed (neg : bool) (a z e : Z) :
  a mod 10 <> 0 -> 0 <= z ->
  normalize (if neg then - (a * 10 ^ z) else a * 10 ^ z) e =
  Dec (if neg then - a else a) (e + z).
Proof.
  intros Ha Hz. destruct neg.
  - rewrite <- Z.mul_opp_l. apply normalize_pow; [now apply mod10_opp|assumption].
  - now apply normalize_pow.
Qed.

Lemma normalize_signed0 (neg : bool) (a e : Z) :
  a mod 10 <> 0 ->
  normalize (if neg then - a else a) e = Dec (if neg then - a else a) e.
Proof.
  intros Ha. pose proof (normalize_signed neg a 0 e Ha ltac:(lia)) as H.
  rewrite Z.pow_0_r, Z.mul_1_r, Z.add_0_r in H. exact H.
Qed.

Lemma firstn_digits (n : nat) (ds : str) :
  forallb is_digit ds = true -> forallb is_digit (firstn n ds) = true.
Proof.
  intros H. rewrite forallb_forall in *. intros x Hx. apply H.
  rewrite <- (firstn_skipn n ds). apply in_or_app. now left.
Qed.

Lemma skipn_digits (n : nat) (ds : str) :
  forallb is_digit ds = true -> forallb is_digit (skipn n ds) = true.
Proof.
  intros H. rewrite forallb_forall in *. intros x Hx. apply H.
  rewrite <- (firstn_skipn n ds). apply in_or_app. now right.
Qed.

Lemma signed_abs (x : Z) : (if x <? 0 then - Z.abs x else Z.abs x) = x.
Proof. destruct (x <? 0) eqn:E; [apply Z.ltb_lt in E|apply Z.ltb_ge in E]; lia. Qed.

Lemma some_dec_eq (m e1 e2 : Z) (rest : str) :
  e1 = e2 -> Some (Dec m e1, rest) = Some (Dec m e2, rest).
Proof. now intros ->. Qed.

(** Reading back the unsigned text of a canonical mantissa [a] with exponent
    [e]. *)
Lemma parse_unsigned_body (a e : Z) (neg : bool) (rest : str) :
  0 < a -> a mod 10 <> 0 -> number_end rest = true ->
  JSON.parse_unsigned neg
    (dec_body (digits_of a) (Z.of_nat (length (digits_of a)) + e) ++ rest) =
  Some (Dec (if neg then - a else a) e, rest).
Proof.
  intros Ha Hmod Hrest.
  destruct (digits_of_spec a ltac:(lia)) as [Hd [Hv [[c [r [Hc Hc0]]] _]]].
  specialize (Hc0 Ha).
  assert (Hc48 : Ascii.eqb c (chr 48) = false) by now apply Ascii.eqb_neq.
  pose proof (number_end_digit _ Hrest) as Hrd.
  set (ds := digits_of a) in *. set (k := Z.of_nat (length ds)).
  assert (Hk : 1 <= k) by (unfold k; rewrite Hc; simpl length; lia).
  assert (Hcd : is_digit c = true).
  { rewrite Hc in Hd. simpl in Hd. now apply andb_true_iff in Hd. }
  unfold dec_body. fold k.
  destruct ((k <=? k + e) && (k + e <=? 21)) eqn:C1.
  - (* integer digits, then zeros *)
    apply andb_true_iff in C1. destruct C1 as [C1 _]. apply Z.leb_le in C1.
    rewrite <- app_assoc. unfold JSON.parse_unsigned.
    rewrite app_assoc, span_digits;
      [|rewrite forallb_app, Hd; apply zeros_digits|assumption].
    rewrite Hc. cbn [Datatypes.app]. rewrite Hc48. cbn [andb].
    rewrite number_end_fraction, number_end_exponent by assumption.
    change (c :: r ++ zeros (k + e - k)) with ((c :: r) ++ zeros (k + e - k)).
    rewrite <- Hc. unfold dec_of_parts. rewrite app_nil_r.
    rewrite digits_val_app, digits_val_zeros, zeros_length, Hv.
    change (digits_val []) with 0. cbn [length]. rewrite Z.add_0_r.
    rewrite Z2Nat.id by lia.
    rewrite normalize_signed by (assumption || lia).
    apply some_dec_eq. lia.
  - destruct ((0 <? k + e) && (k + e <=? 21)) eqn:C2.
    + (* point inside the digits *)
      apply andb_true_iff in C2. destruct C2 as [C2 C2']. apply Z.ltb_lt in C2.
      assert (Hlt : k + e < k).
      { apply andb_false_iff in C1. destruct C1 as [C1|C1];
          [apply Z.leb_gt in C1; lia|rewrite C2' in C1; discriminate]. }
      set (n := Z.to_nat (k + e)).
      assert (Hn : (0 < n < length ds)%nat) by (unfold n, k in *; lia).
      unfold JSON.parse_unsigned. rewrite <- app_assoc.
      rewrite span_digits; [|now apply firstn_digits|reflexivity].
      assert (Hf : firstn n ds = c :: firstn (pred n) r).
      { rewrite Hc. destruct n; [lia|reflexivity]. }
      rewrite Hf at 1. rewrite Hc48. cbn [andb].
      unfold lit. cbn [list_ascii_of_string Datatypes.app].
      unfold JSON.parse_fraction. eval_eqb.
      rewrite span_digits; [|now apply skipn_digits|assumption].
      destruct (skipn n ds) as [|s0 sr] eqn:Hsk.
      { apply (f_equal (@length _)) in Hsk. rewrite length_skipn in Hsk.
        simpl in Hsk. lia. }
      cbn [is_empty]. rewrite number_end_exponent by assumption.
      rewrite <- Hsk. unfold dec_of_parts. rewrite firstn_skipn, Hv.
      rewrite length_skipn. change (digits_val []) with 0.
      rewrite normalize_signed0 by assumption.
      apply some_dec_eq. unfold n, k in *. lia.
    + destruct ((-6 <? k + e) && (k + e <=? 0)) eqn:C3.
      * (* zero, point, zeros, digits *)
        apply andb_true_iff in C3. destruct C3 as [_ C3]. apply Z.leb_le in C3.
        unfold lit. cbn [list_ascii_of_string Datatypes.app].
        unfold JSON.parse_unsigned. cbn [span].
        change (is_digit "0") with true. change (is_digit ".") with false.
        cbv iota. eval_eqb. cbn [is_empty negb andb].
        unfold JSON.parse_fraction. eval_eqb.
        rewrite span_digits;
          [|rewrite forallb_app, zeros_digits; exact Hd|assumption].
        destruct (zeros (- (k + e)) ++ ds) as [|z0 zr] eqn:Hz.
        { apply (f_equal (@length _)) in Hz. rewrite length_app in Hz.
          simpl in Hz. unfold k in Hk. lia. }
        cbn [is_empty]. rewrite number_end_exponent by assumption.
        rewrite <- Hz. unfold dec_of_parts.
        change ("0"%char :: zeros (- (k + e)) ++ ds)
          with (["0"%char] ++ zeros (- (k + e)) ++ ds).
        rewrite !digits_val_app, digits_val_zeros, Hv.
        change (digits_val ["0"%char]) with 0. change (digits_val []) with 0.
        rewrite length_app, zeros_length.
        replace (if neg then - ((0 * 10 ^ Z.of_nat (Z.to_nat (- (k + e)) + length ds) +
                                (0 * 10 ^ Z.of_nat (length ds) + a)))
                 else 0 * 10 ^ Z.of_nat (Z.to_nat (- (k + e)) + length ds) +
                      (0 * 10 ^ Z.of_nat (length ds) + a))
          with (if neg then - a else a) by (destruct neg; lia).
        rewrite normalize_signed0 by assumption.
        apply some_dec_eq. unfold k in *. lia.
      * (* exponent notation *)
        cbv zeta. rewrite Hc.
        unfold JSON.parse_unsigned.
        destruct r as [|r0 rr].
        -- unfold lit at 1. cbn [list_ascii_of_string Datatypes.app span].
           rewrite Hcd. change (is_digit "e") with false. cbv iota.
           cbn [is_empty negb andb]. rewrite andb_false_r.
           unfold JSON.parse_fraction. eval_eqb.
           rewrite read_exponent_digits by assumption.
           unfold dec_of_parts.
           destruct (digits_of_spec (Z.abs (k + e - 1)) (Z.abs_nonneg _)) as [_ [Hx _]].
           rewrite Hx. rewrite Hc in Hv. rewrite app_nil_r, Hv.
           cbn [length]. rewrite normalize_signed0 by assumption.
           apply some_dec_eq. rewrite signed_abs.
           unfold k in *. rewrite Hc in *. simpl length in *. lia.
        -- unfold lit at 1 2. cbn [list_ascii_of_string Datatypes.app span].
           rewrite Hcd. change (is_digit ".") with false. cbv iota.
           rewrite Hc48. cbn [andb].
           unfold JSON.parse_fraction. eval_eqb.
           assert (Hrd' : forallb is_digit (r0 :: rr) = true).
           { rewrite Hc in Hd. simpl in Hd. now apply andb_true_iff in Hd. }
           rewrite <- app_assoc, (app_comm_cons rr _ r0).
           rewrite span_digits; [|exact Hrd'|reflexivity].
           cbn [is_empty].
           match goal with
           | |- context [read_exponent (("e"%char :: ?es) ++ rest)] =>
               change (("e"%char :: es) ++ rest) with (chr 101 :: es ++ rest)
           end.
           rewrite read_exponent_digits by assumption.
           unfold dec_of_parts.
           destruct (digits_of_spec (Z.abs (k + e - 1)) (Z.abs_nonneg _)) as [_ [Hx _]].
           rewrite Hx. rewrite Hc in Hv.
           change ([c] ++ r0 :: rr) with (c :: r0 :: rr). rewrite Hv.
           rewrite normalize_signed0 by assumption.
           apply some_dec_eq. rewrite signed_abs.
           unfold k in *. rewrite Hc in *. simpl length in *. lia.
Qed.

Lemma dec_body_head (c : ascii) (r : str) (n : Z) :
  is_digit c = true ->
  exists c' r', dec_body (c :: r) n = c' :: r' /\ is_digit c' = true.
Proof.
  intros Hc. unfold dec_body.
  destruct ((Z.of_nat (length (c :: r)) <=? n) && (n <=? 21)); [now eexists; eexists|].
  destruct ((0 <? n) && (n <=? 21)) eqn:C2.
  - apply andb_true_iff in C2. destruct C2 as [C2 _]. apply Z.ltb_lt in C2.
    destruct (Z.to_nat n) as [|k] eqn:E; [lia|]. now eexists; eexists.
  - destruct ((-6 <? n) && (n <=? 0)); [now exists "0"%char; eexists|].
    destruct r; now eexists; eexists.
Qed.

Lemma digit_not_minus (c : ascii) : is_digit c = true -> Ascii.eqb c (chr 45) = false.
Proof.
  unfold is_digit. rewrite ascii_eqb_code. change (code (chr 45)) with 45.
  intros H. apply andb_true_iff in H. apply Z.eqb_neq. lia.
Qed.

(** A canonical number is read back from its text. *)
Lemma parse_number_roundtrip (d : dec) (rest : str) :
  canonicalb d = true -> number_end rest = true ->
  JSON.parse_number (dec_to_string d ++ rest) = Some (d, rest).
Proof.
  destruct d as [m e]. unfold canonicalb, dec_to_string. cbn [mant expo].
  intros Hcan Hrest.
  destruct (m =? 0) eqn:Hm0.
  - apply Z.eqb_eq in Hm0. subst m. simpl in Hcan. rewrite orb_false_r in Hcan.
    apply Z.eqb_eq in Hcan. subst e.
    unfold lit. cbn [list_ascii_of_string Datatypes.app].
    unfold JSON.parse_number. eval_eqb. unfold JSON.parse_unsigned.
    pose proof (span_digits ["0"%char] rest eq_refl (number_end_digit _ Hrest)) as Hs.
    cbn [Datatypes.app] in Hs. rewrite Hs. eval_eqb. cbn [is_empty negb andb].
    now rewrite number_end_fraction, number_end_exponent.
  - apply Z.eqb_neq in Hm0. simpl in Hcan.
    assert (Hmod : m mod 10 <> 0).
    { apply negb_true_iff in Hcan. now apply Z.eqb_neq. }
    destruct (m <? 0) eqn:Hneg.
    + apply Z.ltb_lt in Hneg.
      unfold lit. cbn [list_ascii_of_string Datatypes.app].
      unfold JSON.parse_number. eval_eqb.
      rewrite parse_unsigned_body; [|lia| |assumption].
      * do 3 f_equal. lia.
      * rewrite Z.abs_neq by lia. now apply mod10_opp.
    + apply Z.ltb_ge in Hneg. cbn [Datatypes.app].
      destruct (digits_of_spec (Z.abs m) (Z.abs_nonneg m)) as [Hd [_ [[c [r [Hc _]]] _]]].
      assert (Hcd : is_digit c = true).
      { rewrite Hc in Hd. simpl in Hd. now apply andb_true_iff in Hd. }
      destruct (dec_body_head c r (Z.of_nat (length (digits_of (Z.abs m))) + e) Hcd)
        as [c' [r' [Hb Hc']]].
      unfold JSON.parse_number.
      rewrite <- Hc in Hb.
      assert (Hhead : forall x y, x = c' :: r' ->
                match x ++ y with
                | [] => None
                | c0 :: r0 => if Ascii.eqb c0 (chr 45) then JSON.parse_unsigned true r0
                              else JSON.parse_unsigned false (x ++ y)
                end = JSON.parse_unsigned false (x ++ y)).
      { intros x y ->. cbn [Datatypes.app]. now rewrite digit_not_minus. }
      rewrite (Hhead _ _ Hb).
      rewrite parse_unsigned_body; [|lia| |assumption].
      * now rewrite Z.abs_eq by lia.
      * now rewrite Z.abs_eq by lia.
Qed.

(* ===================================================================== *)
(** * String literals: text and back *)
(* ===================================================================== *)

Lemma parse_string_escape (c : ascii) (tail : str) :
  JSON.parse_string (JSON.escape_char c ++ tail) =
  JSON.cons_fst c (JSON.parse_string tail).
Proof. destruct c as [[] [] [] [] [] [] [] []]; reflexivity. Qed.

Lemma parse_string_quote (s rest : str) :
  JSON.parse_string (flat_map JSON.escape_char s ++ QUOTE :: rest) = Some (s, rest).
Proof.
  induction s as [|c s IH]; [reflexivity|].
  cbn [flat_map]. rewrite <- app_assoc, parse_string_escape, IH. reflexivity.
Qed.

Lemma escape_char_no_newline (c : ascii) :
  includes_char NL (JSON.escape_char c) = false.
Proof. destruct c as [[] [] [] [] [] [] [] []]; reflexivity. Qed.

Lemma quote_no_newline (s : str) : includes_char NL (JSON.quote s) = false.
Proof.
  unfold JSON.quote.
  change (QUOTE :: flat_map JSON.escape_char s ++ [QUOTE])
    with ([QUOTE] ++ flat_map JSON.escape_char s ++ [QUOTE]).
  rewrite !includes_char_app.
  replace (includes_char NL (flat_map JSON.escape_char s)) with false; [reflexivity|].
  induction s as [|c s IH]; [reflexivity|].
  cbn [flat_map]. now rewrite includes_char_app, escape_char_no_newline, <- IH.
Qed.

(* ===================================================================== *)
(** * JSON values: text and back *)
(* ===================================================================== *)

Lemma stringify_json (v : value) :
  is_json v = true -> JSON.stringify v = Some (text v).
Proof.
  unfold text. destruct v as [| |[]|[|[]|d]| | |]; simpl; try discriminate; reflexivity.
Qed.

Lemma text_array (l : list value) :
  text (VArr l) = lit "[" ++ join [COMMA] (map text l) ++ lit "]".
Proof. reflexivity. Qed.

Lemma text_object (o : object) :
  forallb (fun kv => is_json (snd kv)) o = true ->
  text (VObj o) = lit "{" ++ join [COMMA] (map member_text o) ++ lit "}".
Proof.
  intros H. unfold text. cbn [JSON.stringify]. do 3 f_equal.
  induction o as [|[k v] o IH]; [reflexivity|].
  simpl in H. apply andb_true_iff in H. destruct H as [Hv Ho].
  cbn [flat_map map]. rewrite (IH Ho). cbn [snd fst].
  unfold member_text at 1. cbn [fst snd].
  now rewrite (stringify_json v Hv).
Qed.

Lemma value_start_facts (c : ascii) :
  value_start c = true ->
  JSON.is_ws c = false /\ is_js_space c = false /\
  (code c =? 93) = false /\ (code c =? 125) = false /\ Ascii.eqb c NL = false.
Proof. destruct c as [[] [] [] [] [] [] [] []]; try discriminate; repeat split. Qed.

Lemma num_char_facts (c : ascii) :
  is_num_char c = true -> is_js_space c = false /\ Ascii.eqb NL c = false.
Proof. destruct c as [[] [] [] [] [] [] [] []]; try discriminate; repeat split. Qed.

Lemma digit_num_char (c : ascii) : is_digit c = true -> is_num_char c = true.
Proof. unfold is_num_char. now intros ->. Qed.

Lemma digits_num_chars (ds : str) :
  forallb is_digit ds = true -> forallb is_num_char ds = true.
Proof.
  rewrite !forallb_forall. intros H x Hx. apply digit_num_char. now apply H.
Qed.

(** The text of a number has digits, signs, a point and an [e] only. *)
Lemma dec_body_chars (ds : str) (n : Z) :
  forallb is_digit ds = true -> forallb is_num_char (dec_body ds n) = true.
Proof.
  intros Hd. pose proof (digits_num_chars ds Hd) as Hn. unfold dec_body.
  destruct ((Z.of_nat (length ds) <=? n) && (n <=? 21)).
  { rewrite forallb_app, Hn. apply digits_num_chars, zeros_digits. }
  destruct ((0 <? n) && (n <=? 21)).
  { rewrite !forallb_app.
    rewrite (digits_num_chars _ (firstn_digits _ _ Hd)).
    now rewrite (digits_num_chars _ (skipn_digits _ _ Hd)). }
  destruct ((-6 <? n) && (n <=? 0)).
  { rewrite !forallb_app, Hn, (digits_num_chars _ (zeros_digits _)). reflexivity. }
  cbv zeta.
  assert (He : forallb is_num_char
                 ((if n - 1 <? 0 then lit "-" else lit "+") ++
                  digits_of (Z.abs (n - 1))) = true).
  { destruct (digits_of_spec (Z.abs (n - 1)) (Z.abs_nonneg _)) as [Hx _].
    rewrite forallb_app, (digits_num_chars _ Hx). now destruct (n - 1 <? 0). }
  destruct ds as [|d0 [|d1 tl]]; [reflexivity| |].
  - do 2 rewrite forallb_app. rewrite He. simpl in Hn. apply andb_true_iff in Hn.
    destruct Hn as [Hn _]. cbn [forallb]. rewrite Hn. reflexivity.
  - do 4 rewrite forallb_app. rewrite He.
    change (d0 :: d1 :: tl) with ([d0] ++ d1 :: tl) in Hn.
    rewrite forallb_app in Hn. apply andb_true_iff in Hn. destruct Hn as [H0 H1].
    rewrite H0, H1. reflexivity.
Qed.

Lemma dec_to_string_chars (d : dec) :
  forallb is_num_char (dec_to_string d) = true.
Proof.
  unfold dec_to_string. destruct (mant d =? 0); [reflexivity|].
  destruct (digits_of_spec (Z.abs (mant d)) (Z.abs_nonneg _)) as [Hd _].
  rewrite forallb_app, dec_body_chars by assumption.
  now destruct (mant d <? 0).
Qed.

Lemma dec_to_string_head (d : dec) :
  exists c r, dec_to_string d = c :: r /\ (is_digit c || (code c =? 45)) = true.
Proof.
  unfold dec_to_string. destruct (mant d =? 0); [now exists "0"%char, []|].
  destruct (mant d <? 0); [now eexists; eexists|].
  destruct (digits_of_spec (Z.abs (mant d)) (Z.abs_nonneg _)) as [Hd [_ [[c [r [Hc _]]] _]]].
  assert (Hcd : is_digit c = true).
  { rewrite Hc in Hd. simpl in Hd. now apply andb_true_iff in Hd. }
  rewrite Hc.
  destruct (dec_body_head c r (Z.of_nat (length (c :: r)) + expo d) Hcd)
    as [c' [r' [-> Hc']]].
  exists c', r'. now rewrite Hc'.
Qed.

(** Every JSON text starts with a character that announces its value. *)
Lemma text_head (v : value) :
  is_json v = true -> exists c r, text v = c :: r /\ value_start c = true.
Proof.
  destruct v as [| |[]|[|[]|d]|s|l|o]; try discriminate; intros H;
    try (now eexists; eexists).
  destruct (dec_to_string_head d) as [c [r [E Hc]]].
  exists c, r. split; [exact E|].
  unfold value_start. apply orb_true_iff in Hc.
  destruct Hc as [-> | ->]; [reflexivity|]. now rewrite orb_true_r.
Qed.

(** How [parse_value] dispatches on the first character. *)
Lemma parse_value_array (f : nat) (c : ascii) (r : str) :
  value_start c = true ->
  JSON.parse_value (S f) ("["%char :: c :: r) =
  match JSON.parse_elements f (c :: r) with
  | Some (vs, r2) => Some (VArr vs, r2)
  | None => None
  end.
Proof. destruct c as [[] [] [] [] [] [] [] []]; try discriminate; reflexivity. Qed.

Lemma parse_value_object (f : nat) (r : str) :
  JSON.parse_value (S f) ("{"%char :: QUOTE :: r) =
  match JSON.parse_members f (QUOTE :: r) with
  | Some (kvs, r2) => Some (VObj (set_props [] kvs), r2)
  | None => None
  end.
Proof. reflexivity. Qed.

Lemma parse_value_string (f : nat) (r : str) :
  JSON.parse_value (S f) (QUOTE :: r) =
  match JSON.parse_string r with
  | Some (t, r1) => Some (VStr t, r1)
  | None => None
  end.
Proof. reflexivity. Qed.

Lemma parse_value_number (f : nat) (c : ascii) (r : str) :
  (is_digit c || (code c =? 45)) = true ->
  JSON.parse_value (S f) (c :: r) =
  match JSON.parse_number (c :: r) with
  | Some (d, r1) => Some (VNum (Fin d), r1)
  | None => None
  end.
Proof. destruct c as [[] [] [] [] [] [] [] []]; try discriminate; reflexivity. Qed.

Lemma parse_elements_step (f : nat) (s : str) :
  JSON.parse_elements (S f) s =
  match JSON.parse_value f s with
  | None => None
  | Some (v, r) =>
      match JSON.skip_ws r with
      | c :: r1 =>
          if code c =? 44 then
            match JSON.parse_elements f r1 with
            | Some (vs, r2) => Some (v :: vs, r2)
            | None => None
            end
          else if code c =? 93 then Some ([v], r1)
          else None
      | [] => None
      end
  end.
Proof. reflexivity. Qed.

Lemma parse_members_step (f : nat) (k : str) (tail : str) :
  JSON.parse_members (S f) (JSON.quote k ++ ":"%char :: tail) =
  match JSON.parse_value f tail with
  | None => None
  | Some (v, r3) =>
      match JSON.skip_ws r3 with
      | c' :: r4 =>
          if code c' =? 44 then
            match JSON.parse_members f r4 with
            | Some (kvs, r5) => Some ((k, v) :: kvs, r5)
            | None => None
            end
          else if code c' =? 125 then Some ([(k, v)], r4)
          else None
      | [] => None
      end
  end.
Proof.
  unfold JSON.quote. cbn [Datatypes.app].
  cbn [JSON.parse_members JSON.skip_ws].
  change (JSON.is_ws QUOTE) with false. cbv iota.
  change (code QUOTE =? 34) with true. cbv iota.
  rewrite <- app_assoc. cbn [Datatypes.app].
  rewrite parse_string_quote. cbn [JSON.skip_ws].
  change (JSON.is_ws ":") with false. cbv iota.
  change (code ":" =? 58) with true. cbv iota. reflexivity.
Qed.

(** Reading a JSON text back, with what follows left over. *)
Lemma parse_text (fuel : nat) :
  (forall v rest,
     is_json v = true -> number_end rest = true -> (size v <= fuel)%nat ->
     JSON.parse_value fuel (text v ++ rest) = Some (v, rest)) /\
  (forall v l rest,
     forallb is_json (v :: l) = true -> (elems_size (v :: l) <= fuel)%nat ->
     JSON.parse_elements fuel (join [COMMA] (map text (v :: l)) ++ "]"%char :: rest) =
     Some (v :: l, rest)) /\
  (forall kv o rest,
     forallb (fun kv => is_json (snd kv)) (kv :: o) = true ->
     (members_size (kv :: o) <= fuel)%nat ->
     JSON.parse_members fuel
       (join [COMMA] (map member_text (kv :: o)) ++ "}"%char :: rest) =
     Some (kv :: o, rest)).
Proof.
  induction fuel as [|f [IHv [IHe IHm]]].
  { split; [|split].
    - intros v rest _ _ H. destruct v; simpl in H; lia.
    - intros v l rest _ H. unfold elems_size in H. simpl in H. lia.
    - intros kv o rest _ H. unfold members_size in H. simpl in H. lia. }
  split; [|split].
  - intros v rest Hj Hrest Hsz.
    destruct v as [| |[]|[|[]|d]|s|l|o]; try discriminate; try reflexivity.
    + (* number *)
      destruct (dec_to_string_head d) as [c [r [E Hc]]].
      change (text (VNum (Fin d))) with (dec_to_string d).
      pose proof (parse_number_roundtrip d rest Hj Hrest) as Hn.
      rewrite E in *. cbn [Datatypes.app] in *.
      now rewrite parse_value_number, Hn.
    + (* string *)
      change (text (VStr s)) with (JSON.quote s). unfold JSON.quote.
      cbn [Datatypes.app]. rewrite <- app_assoc. cbn [Datatypes.app].
      now rewrite parse_value_string, parse_string_quote.
    + (* array *)
      rewrite text_array. destruct l as [|v l]; [reflexivity|].
      destruct (text_head v) as [c [r [E Hc]]].
      { simpl in Hj. now apply andb_true_iff in Hj. }
      unfold lit. cbn [list_ascii_of_string Datatypes.app].
      rewrite <- app_assoc. cbn [Datatypes.app].
      pose proof (IHe v l rest Hj) as He.
      assert (Hhd : exists r', join [COMMA] (map text (v :: l)) = c :: r').
      { cbn [map join]. rewrite E. destruct (map text l); now eexists. }
      destruct Hhd as [r' Hr']. rewrite Hr' in *. cbn [Datatypes.app] in *.
      rewrite parse_value_array by assumption.
      rewrite He; [reflexivity|]. simpl in Hsz. unfold elems_size. simpl in Hsz |- *. lia.
    + (* object *)
      simpl in Hj. apply andb_true_iff in Hj. destruct Hj as [Hnd Hj].
      rewrite text_object by assumption.
      destruct o as [|kv o]; [reflexivity|].
      unfold lit. cbn [list_ascii_of_string Datatypes.app].
      rewrite <- app_assoc. cbn [Datatypes.app].
      pose proof (IHm kv o rest Hj) as Hm.
      assert (Hhd : exists r', join [COMMA] (map member_text (kv :: o)) = QUOTE :: r').
      { cbn [map join]. unfold member_text, JSON.quote.
        destruct (map _ o); eexists; reflexivity. }
      destruct Hhd as [r' Hr']. rewrite Hr' in *. cbn [Datatypes.app] in *.
      rewrite parse_value_object.
      rewrite Hm; [|simpl in Hsz; unfold members_size; simpl; lia].
      now rewrite (set_props_nodup (kv :: o) []).
  - intros v l rest Hj Hsz.
    cbn [forallb] in Hj. apply andb_true_iff in Hj. destruct Hj as [Hv Hl].
    unfold elems_size in Hsz. simpl in Hsz.
    rewrite parse_elements_step.
    destruct l as [|w l].
    + cbn [map join]. rewrite IHv; [reflexivity|assumption|reflexivity|lia].
    + change (join [COMMA] (map text (v :: w :: l)))
        with (text v ++ [COMMA] ++ join [COMMA] (map text (w :: l))).
      rewrite <- !app_assoc. rewrite IHv; [|assumption|reflexivity|lia].
      cbn [Datatypes.app JSON.skip_ws].
      change (JSON.is_ws COMMA) with false. cbv iota.
      change (code COMMA =? 44) with true. cbv iota.
      rewrite IHe; [reflexivity|assumption|].
      unfold elems_size. simpl in Hsz |- *. lia.
  - intros [k v] o rest Hj Hsz.
    cbn [forallb snd] in Hj. apply andb_true_iff in Hj. destruct Hj as [Hv Ho].
    unfold members_size in Hsz. simpl in Hsz.
    destruct o as [|kv o].
    + cbn [map join]. unfold member_text. cbn [fst snd].
      unfold lit. cbn [list_ascii_of_string].
      rewrite <- !app_assoc. cbn [Datatypes.app].
      rewrite parse_members_step.
      rewrite IHv; [reflexivity|assumption|reflexivity|lia].
    + change (join [COMMA] (map member_text ((k, v) :: kv :: o)))
        with (member_text (k, v) ++ [COMMA] ++ join [COMMA] (map member_text (kv :: o))).
      unfold member_text at 1. cbn [fst snd].
      unfold lit. cbn [list_ascii_of_string].
      rewrite <- !app_assoc. cbn [Datatypes.app].
      rewrite parse_members_step.
      rewrite IHv; [|assumption|reflexivity|lia].
      cbn [JSON.skip_ws].
      change (JSON.is_ws COMMA) with false. cbv iota.
      change (code COMMA =? 44) with true. cbv iota.
      rewrite IHm; [reflexivity|assumption|].
      unfold members_size. simpl in Hsz |- *. lia.
Qed.

(** Induction on values, with the elements of arrays and the members of
    objects as induction hypotheses. *)
Lemma value_ind' (P : value -> Prop) :
  P VUndef -> P VNull -> (forall b, P (VBool b)) -> (forall n, P (VNum n)) ->
  (forall s, P (VStr s)) ->
  (forall l, Forall P l -> P (VArr l)) ->
  (forall o, Forall (fun kv => P (snd kv)) o -> P (VObj o)) ->
  forall v, P v.
Proof.
  intros Hu Hn Hb Hnum Hs Ha Ho.
  fix IH 1.
  intros [| |b|n|s|l|o];
    [exact Hu|exact Hn|apply Hb|apply Hnum|apply Hs| |].
  - apply Ha. induction l as [|x l IHl]; constructor; [apply IH|exact IHl].
  - apply Ho. induction o as [|[k x] o IHo]; constructor; [apply IH|exact IHo].
Qed.

Lemma join_length_bound (f : value -> nat) (g : value -> str) (l : list value) :
  Forall (fun x => (f x <= length (g x))%nat) l ->
  (list_sum (map (fun x => S (f x)) l) <= S (length (join [COMMA] (map g l))))%nat.
Proof.
  induction 1 as [|x l Hx Hl IH]; [simpl; lia|].
  destruct l as [|y l]; [simpl in *; lia|].
  change (join [COMMA] (map g (x :: y :: l)))
    with (g x ++ [COMMA] ++ join [COMMA] (map g (y :: l))).
  rewrite !length_app. simpl in IH |- *. lia.
Qed.

Lemma members_length_bound (o : object) :
  Forall (fun kv => (size (snd kv) <= length (text (snd kv)))%nat) o ->
  (members_size o <= S (length (join [COMMA] (map member_text o))))%nat.
Proof.
  unfold members_size.
  assert (Hm : forall kv, (length (text (snd kv)) <= length (member_text kv))%nat).
  { intros kv. unfold member_text. rewrite !length_app. lia. }
  induction 1 as [|x l Hx Hl IH]; [simpl; lia|].
  specialize (Hm x).
  destruct l as [|y l]; [simpl in *; lia|].
  change (join [COMMA] (map member_text (x :: y :: l)))
    with (member_text x ++ [COMMA] ++ join [COMMA] (map member_text (y :: l))).
  set (J := join [COMMA] (map member_text (y :: l))) in *.
  change (list_sum (map (fun kv => S (size (snd kv))) (x :: y :: l)))
    with (S (size (snd x)) +
          list_sum (map (fun kv => S (size (snd kv))) (y :: l)))%nat.
  rewrite !length_app. cbn [length]. lia.
Qed.

Lemma size_le_text (v : value) :
  is_json v = true -> (size v <= length (text v))%nat.
Proof.
  induction v as [| |b|n|s|l IH|o IH] using value_ind'; intros Hj;
    try discriminate.
  - simpl; lia.
  - destruct b; simpl; lia.
  - destruct n as [|[]|d]; try discriminate.
    destruct (dec_to_string_head d) as [c [r [E _]]].
    change (text (VNum (Fin d))) with (dec_to_string d). rewrite E. simpl. lia.
  - change (text (VStr s)) with (JSON.quote s). unfold JSON.quote. simpl. lia.
  - rewrite text_array. unfold lit. cbn [list_ascii_of_string].
    rewrite !length_app. cbn [size length].
    assert (H : Forall (fun x => (size x <= length (text x))%nat) l).
    { simpl in Hj. rewrite forallb_forall in Hj. rewrite Forall_forall in *.
      intros x Hx. apply IH; [assumption|now apply Hj]. }
    pose proof (join_length_bound size text l H). lia.
  - simpl in Hj. apply andb_true_iff in Hj. destruct Hj as [_ Hj].
    rewrite text_object by assumption. unfold lit. cbn [list_ascii_of_string].
    rewrite !length_app. cbn [size length].
    assert (H : Forall (fun kv => (size (snd kv) <= length (text (snd kv)))%nat) o).
    { rewrite forallb_forall in Hj. rewrite Forall_forall in *.
      intros x Hx. apply IH; [assumption|now apply Hj]. }
    pose proof (members_length_bound o H). unfold members_size in *. lia.
Qed.

(** [JSON.parse(JSON.stringify(v))] is [v]. *)
Lemma parse_text_top (v : value) :
  is_json v = true -> JSON.parse (text v) = Some v.
Proof.
  intros Hj. unfold JSON.parse.
  destruct (parse_text (2 * length (text v) + 2)) as [Hv _].
  pose proof (Hv v [] Hj eq_refl) as H. rewrite app_nil_r in H.
  rewrite H; [reflexivity|]. pose proof (size_le_text v Hj). lia.
Qed.

Lemma is_ws_js_space (c : ascii) : JSON.is_ws c = true -> is_js_space c = true.
Proof. destruct c as [[] [] [] [] [] [] [] []]; try discriminate; reflexivity. Qed.

(** A JSON text followed by a line feed and something that is not blank is
    not a JSON text. *)
Lemma parse_text_then_more (v : value) (c : ascii) (more : str) :
  is_json v = true -> is_js_space c = false ->
  JSON.parse (text v ++ NL :: c :: more) = None.
Proof.
  intros Hj Hc. unfold JSON.parse.
  destruct (parse_text (2 * length (text v ++ NL :: c :: more) + 2)) as [Hv _].
  rewrite Hv; [|assumption|reflexivity|].
  - cbn [JSON.skip_ws]. change (JSON.is_ws NL) with true. cbv iota.
    destruct (JSON.is_ws c) eqn:E; [|reflexivity].
    apply is_ws_js_space in E. congruence.
  - pose proof (size_le_text v Hj). rewrite length_app. lia.
Qed.

(* ===================================================================== *)
(** * Lines *)
(* ===================================================================== *)

Lemma last_snoc (s : str) (b d : ascii) : last (s ++ [b]) d = b.
Proof. apply last_last. Qed.

Lemma tight_trim (s : str) : tight s = true -> trim s = s /\ s <> [].
Proof.
  destruct s as [|a s]; [discriminate|]. unfold tight.
  rewrite andb_true_iff, !negb_true_iff. intros [Ha Hb].
  split; [|discriminate].
  destruct (exists_last (l := a :: s) ltac:(discriminate)) as [l [b E]].
  rewrite E in Hb |- *. rewrite last_snoc in Hb.
  destruct l as [|a' l].
  - injection E as -> ->. now apply trim_id1.
  - injection E as -> ->. now apply trim_id.
Qed.

Lemma tight_head (s : str) :
  tight s = true -> exists c r, s = c :: r /\ is_js_space c = false.
Proof.
  destruct s as [|a s]; [discriminate|]. unfold tight.
  rewrite andb_true_iff, !negb_true_iff. intros [Ha _]. now exists a, s.
Qed.

Lemma tight_app (a b : str) (sep : ascii) :
  tight a = true -> tight b = true -> tight (a ++ sep :: b) = true.
Proof.
  destruct a as [|x a]; [discriminate|]. destruct b as [|y b]; [discriminate|].
  unfold tight. intros Hx Hy.
  apply andb_true_iff in Hx. destruct Hx as [Hx _].
  apply andb_true_iff in Hy. destruct Hy as [_ Hy].
  cbn [Datatypes.app]. apply andb_true_iff. split; [exact Hx|].
  destruct (exists_last (l := y :: b) ltac:(discriminate)) as [l [z E]].
  rewrite E in Hy |- *. rewrite last_snoc in Hy.
  replace (x :: a ++ sep :: l ++ [z]) with ((x :: a ++ sep :: l) ++ [z])
    by (cbn [Datatypes.app]; rewrite <- app_assoc; reflexivity).
  now rewrite last_snoc.
Qed.

Lemma tight_join (l : str) (ls : list str) :
  forallb tight (l :: ls) = true -> tight (join [NL] (l :: ls)) = true.
Proof.
  revert l. induction ls as [|l' ls IH]; intros l H.
  - simpl in H |- *. now rewrite andb_true_r in H.
  - cbn [forallb] in H. apply andb_true_iff in H. destruct H as [Hl H].
    change (join [NL] (l :: l' :: ls)) with (l ++ NL :: join [NL] (l' :: ls)).
    apply tight_app; [assumption|]. now apply IH.
Qed.

Lemma split_nl_single (l : str) : no_newline l = true -> split_nl l = [l].
Proof.
  unfold no_newline, includes_char. rewrite negb_true_iff.
  induction l as [|x l IH]; [reflexivity|].
  cbn [existsb]. rewrite orb_false_iff. intros [Hx Hl].
  cbn [split_nl]. rewrite Ascii.eqb_sym, Hx, (IH Hl). reflexivity.
Qed.

Lemma split_nl_app (l : str) (c : ascii) (rest : str) :
  no_newline l = true -> Ascii.eqb c NL = false ->
  split_nl (l ++ NL :: c :: rest) = l :: split_nl (c :: rest).
Proof.
  unfold no_newline, includes_char. rewrite negb_true_iff. intros Hl Hc.
  induction l as [|x l IH].
  - cbn [Datatypes.app]. change (split_nl (NL :: c :: rest))
      with (if Ascii.eqb NL NL
            then if Ascii.eqb c NL then split_nl (c :: rest)
                 else [] :: split_nl (c :: rest)
            else match split_nl (c :: rest) with
                 | p :: ps => (NL :: p) :: ps
                 | [] => [[NL]]
                 end).
    now rewrite Ascii.eqb_refl, Hc.
  - cbn [existsb] in Hl. apply orb_false_iff in Hl. destruct Hl as [Hx Hl].
    cbn [Datatypes.app split_nl]. rewrite Ascii.eqb_sym, Hx, (IH Hl). reflexivity.
Qed.

Lemma js_space_newline (c : ascii) : is_js_space c = false -> Ascii.eqb c NL = false.
Proof. destruct c as [[] [] [] [] [] [] [] []]; try discriminate; reflexivity. Qed.

(** Lines without line feeds, none of them blank at either end, are what
    splitting their join gives back, trimming included. *)
Lemma ndjson_lines_join (l : str) (ls : list str) :
  forallb no_newline (l :: ls) = true -> forallb tight (l :: ls) = true ->
  ndjson_lines (join [NL] (l :: ls)) = l :: ls.
Proof.
  intros Hnl Ht. unfold ndjson_lines.
  assert (Hsplit : split_nl (join [NL] (l :: ls)) = l :: ls).
  { revert l Hnl Ht. induction ls as [|l' ls IH]; intros l Hnl Ht.
    - cbn [join]. apply split_nl_single. simpl in Hnl. now rewrite andb_true_r in Hnl.
    - cbn [forallb] in Hnl, Ht.
      apply andb_true_iff in Hnl. destruct Hnl as [Hl Hnl].
      apply andb_true_iff in Ht. destruct Ht as [_ Ht].
      change (join [NL] (l :: l' :: ls)) with (l ++ NL :: join [NL] (l' :: ls)).
      destruct (tight_head _ (tight_join l' ls Ht)) as [c [r [E Hc]]].
      rewrite E, split_nl_app, <- E, IH by auto using js_space_newline.
      reflexivity. }
  rewrite Hsplit. clear Hsplit Hnl.
  induction (l :: ls) as [|x xs IH]; [reflexivity|].
  cbn [forallb] in Ht. apply andb_true_iff in Ht. destruct Ht as [Hx Hxs].
  destruct (tight_trim x Hx) as [E Hne].
  cbn [map filter]. rewrite E, (IH Hxs).
  destruct x; [congruence|reflexivity].
Qed.

Lemma includes_join (c : ascii) (sep : str) (xs : list str) :
  includes_char c sep = false ->
  Forall (fun x => includes_char c x = false) xs ->
  includes_char c (join sep xs) = false.
Proof.
  intros Hsep. induction 1 as [|x xs Hx Hxs IH]; [reflexivity|].
  destruct xs as [|y xs]; [exact Hx|].
  change (join sep (x :: y :: xs)) with (x ++ sep ++ join sep (y :: xs)).
  now rewrite !includes_char_app, Hx, Hsep, IH.
Qed.

Lemma num_chars_no_newline (s : str) :
  forallb is_num_char s = true -> includes_char NL s = false.
Proof.
  unfold includes_char. induction s as [|c s IH]; [reflexivity|].
  cbn [forallb existsb]. rewrite andb_true_iff. intros [Hc Hs].
  destruct (num_char_facts c Hc) as [_ ->]. now apply IH.
Qed.

(** A JSON text is a single line. *)
Lemma text_no_newline (v : value) : includes_char NL (text v) = false.
Proof.
  induction v as [| |b|n|s|l IH|o IH] using value_ind'; try reflexivity.
  - now destruct b.
  - destruct n as [|[]|d]; try reflexivity.
    apply num_chars_no_newline, dec_to_string_chars.
  - apply quote_no_newline.
  - rewrite text_array, !includes_char_app.
    rewrite includes_join; [reflexivity|reflexivity|].
    rewrite Forall_forall in *. intros x Hx. apply in_map_iff in Hx.
    destruct Hx as [y [<- Hy]]. now apply IH.
  - unfold text. cbn [JSON.stringify]. rewrite !includes_char_app.
    rewrite includes_join; [reflexivity|reflexivity|].
    rewrite Forall_forall in *. intros x Hx. apply in_flat_map in Hx.
    destruct Hx as [[k y] [Hy Hx]]. specialize (IH _ Hy). cbn [fst snd] in *.
    unfold text in IH.
    destruct (JSON.stringify y) as [t|]; [|destruct Hx].
    destruct Hx as [<-|[]].
    rewrite !includes_char_app, quote_no_newline, IH. reflexivity.
Qed.

Lemma num_chars_tight (s : str) :
  s <> [] -> forallb is_num_char s = true -> tight s = true.
Proof.
  intros Hne Hs. destruct s as [|a s]; [congruence|]. unfold tight.
  rewrite forallb_forall in Hs.
  destruct (num_char_facts a (Hs a (or_introl eq_refl))) as [-> _].
  destruct (exists_last (l := a :: s) ltac:(discriminate)) as [l [b E]].
  rewrite E in Hs |- *. rewrite last_snoc.
  destruct (num_char_facts b) as [-> _]; [|reflexivity].
  apply Hs. apply in_or_app. right. now left.
Qed.

(** A JSON text has no white space around it. *)
Lemma text_tight (v : value) : is_json v = true -> tight (text v) = true.
Proof.
  destruct v as [| |[]|[|[]|d]|s|l|o]; try discriminate; try reflexivity; intros Hj.
  - apply num_chars_tight; [|apply dec_to_string_chars].
    destruct (dec_to_string_head d) as [c [r [E _]]].
    change (text (VNum (Fin d))) with (dec_to_string d). now rewrite E.
  - change (text (VStr s)) with (QUOTE :: flat_map JSON.escape_char s ++ [QUOTE]).
    unfold tight. rewrite app_comm_cons, last_snoc. reflexivity.
  - rewrite text_array. unfold lit. cbn [list_ascii_of_string Datatypes.app].
    unfold tight. rewrite app_comm_cons, last_snoc. reflexivity.
  - unfold text. cbn [JSON.stringify]. unfold lit.
    cbn [list_ascii_of_string Datatypes.app].
    unfold tight. rewrite app_comm_cons, last_snoc. reflexivity.
Qed.

(* ===================================================================== *)
(** * The NDJSON loop *)
(* ===================================================================== *)

(** A line that passes the bracket test on an empty buffer is flushed at
    once: parsed and kept, or dropped. *)
Lemma feed_line (acc : list value) (line : str) :
  balanced line = true -> tight line = true ->
  feed (NdState acc []) line =
  match JSON.parse line with
  | Some v => NdState (acc ++ [v]) []
  | None => NdState acc []
  end.
Proof.
  intros Hb Ht. destruct (tight_trim line Ht) as [Etrim Hne].
  unfold feed. cbn [buffer out is_empty Datatypes.app].
  unfold balanced in Hb. rewrite Hb.
  unfold flush. cbn [buffer out]. rewrite Etrim.
  destruct line; [congruence|reflexivity].
Qed.

Lemma feed_objects (objs acc : list value) :
  forallb json_object objs = true ->
  forallb (fun o => balanced (text o)) objs = true ->
  fold_left feed (map text objs) (NdState acc []) = NdState (acc ++ objs) [].
Proof.
  revert acc. induction objs as [|o objs IH]; intros acc Hj Hb.
  - simpl. now rewrite app_nil_r.
  - cbn [forallb] in Hj, Hb.
    apply andb_true_iff in Hj. destruct Hj as [Ho Hj].
    apply andb_true_iff in Hb. destruct Hb as [Hbo Hb].
    unfold json_object in Ho. apply andb_true_iff in Ho. destruct Ho as [_ Ho].
    cbn [map fold_left].
    rewrite feed_line, parse_text_top by auto using text_tight.
    rewrite IH by assumption. now rewrite <- app_assoc.
Qed.

Lemma objects_lines (objs : list value) :
  forallb json_object objs = true ->
  forallb no_newline (map text objs) = true /\
  forallb tight (map text objs) = true.
Proof.
  induction objs as [|o objs IH]; [now split|].
  cbn [forallb map]. rewrite andb_true_iff. intros [Ho Hj].
  unfold json_object in Ho. apply andb_true_iff in Ho. destruct Ho as [_ Ho].
  destruct (IH Hj) as [-> ->]. rewrite text_tight by assumption.
  unfold no_newline. now rewrite text_no_newline.
Qed.

Lemma flush_empty (acc : list value) : flush (NdState acc []) = NdState acc [].
Proof. reflexivity. Qed.

(** A line that fails the bracket test waits in the buffer. *)
Lemma feed_line_open (acc : list value) (line : str) :
  balanced line = false -> feed (NdState acc []) line = NdState acc line.
Proof.
  intros Hb. unfold feed. cbn [buffer out is_empty Datatypes.app].
  unfold balanced in Hb. now rewrite Hb.
Qed.

Lemma flush_line (acc : list value) (line : str) :
  tight line = true ->
  flush (NdState acc line) =
  match JSON.parse line with
  | Some v => NdState (acc ++ [v]) []
  | None => NdState acc []
  end.
Proof.
  intros Ht. destruct (tight_trim line Ht) as [Etrim Hne].
  unfold flush. cbn [buffer out]. rewrite Etrim.
  destruct line; [congruence|reflexivity].
Qed.

(** Object lines up to the end of the input: the last one is parsed by the
    final flush when the bracket test did not pass for it. *)
Lemma finish_objects (objs acc : list value) :
  forallb json_object objs = true ->
  forallb (fun o => balanced (text o)) (removelast objs) = true ->
  out (flush (fold_left feed (map text objs) (NdState acc []))) = acc ++ objs.
Proof.
  revert acc. induction objs as [|o objs IH]; intros acc Hj Hb.
  - simpl. now rewrite app_nil_r.
  - cbn [forallb] in Hj. apply andb_true_iff in Hj. destruct Hj as [Ho Hj].
    unfold json_object in Ho. apply andb_true_iff in Ho. destruct Ho as [_ Ho].
    pose proof (text_tight o Ho) as Ht.
    destruct objs as [|o' objs].
    + cbn [map fold_left].
      destruct (balanced (text o)) eqn:Hbo.
      * now rewrite feed_line, parse_text_top, flush_empty by assumption.
      * now rewrite feed_line_open, flush_line, parse_text_top by assumption.
    + change (removelast (o :: o' :: objs)) with (o :: removelast (o' :: objs)) in Hb.
      cbn [forallb] in Hb. apply andb_true_iff in Hb. destruct Hb as [Hbo Hb].
      change (map text (o :: o' :: objs)) with (text o :: map text (o' :: objs)).
      cbn [fold_left].
      rewrite feed_line, parse_text_top by assumption.
      rewrite IH by assumption. now rewrite <- app_assoc.
Qed.

(* ===================================================================== *)
(** * parsePossiblyMany *)
(* ===================================================================== *)

Lemma parse_single (v : value) :
  is_json v = true ->
  parsePossiblyMany (text v) = match v with VArr l => l | _ => [v] end.
Proof.
  intros Hj. destruct (tight_trim _ (text_tight v Hj)) as [Etrim Hne].
  unfold parsePossiblyMany. rewrite Etrim.
  destruct (text v) eqn:E; [congruence|]. cbn [is_empty orb]. rewrite <- E.
  now rewrite parse_text_top.
Qed.

(** C3. The text of one JSON value parses to that value alone, or to its
    elements when it is an array; an empty or blank input gives nothing. *)
Theorem C3_single_value (v : value) (blank : str) :
  (is_json v = true ->
   JSON.stringify v = Some (text v) /\
   parsePossiblyMany (text v) = match v with VArr l => l | _ => [v] end) /\
  (forallb is_js_space blank = true -> parsePossiblyMany blank = []) /\
  parsePossiblyMany [] = [] /\
  parsePossiblyMany (lit "   ") = [].
Proof.
  split; [|split; [|split; reflexivity]].
  - intros Hj. split; [now apply stringify_json|now apply parse_single].
  - intros Hb. unfold parsePossiblyMany. rewrite (trim_spaces blank Hb).
    now rewrite orb_true_r.
Qed.

Lemma C3_witness :
  parsePossiblyMany (text (VArr tinyExample)) = tinyExample /\
  parsePossiblyMany (text (vobj [("a", vnum 1)])) = [vobj [("a", vnum 1)]] /\
  parsePossiblyMany [chr 32; chr 9; NL] = [].
Proof.
  split; [|split].
  - exact (proj2 (proj1 (C3_single_value (VArr tinyExample) []) eq_refl)).
  - exact (proj2 (proj1 (C3_single_value (vobj [("a", vnum 1)]) []) eq_refl)).
  - exact (proj1 (proj2 (C3_single_value VNull [chr 32; chr 9; NL])) eq_refl).
Defined.

(** Several lines, the first an object, are not one JSON text. *)
Lemma parse_lines_fails (o : value) (l : str) (ls : list str) :
  json_object o = true -> forallb tight (l :: ls) = true ->
  JSON.parse (join [NL] (text o :: l :: ls)) = None.
Proof.
  intros Ho Ht. unfold json_object in Ho. apply andb_true_iff in Ho.
  destruct Ho as [_ Ho].
  change (join [NL] (text o :: l :: ls)) with (text o ++ NL :: join [NL] (l :: ls)).
  destruct (tight_head _ (tight_join l ls Ht)) as [c [r [-> Hc]]].
  now apply parse_text_then_more.
Qed.

(** The NDJSON path on lines that are already trimmed and not one JSON text. *)
Lemma parse_lines (l : str) (ls : list str) :
  forallb no_newline (l :: ls) = true -> forallb tight (l :: ls) = true ->
  JSON.parse (join [NL] (l :: ls)) = None ->
  parsePossiblyMany (join [NL] (l :: ls)) =
  out (flush (fold_left feed (l :: ls) (NdState [] []))).
Proof.
  intros Hnl Ht Hp.
  destruct (tight_trim _ (tight_join l ls Ht)) as [Etrim Hne].
  unfold parsePossiblyMany. rewrite Etrim.
  destruct (join [NL] (l :: ls)) eqn:E; [congruence|]. cbn [is_empty orb].
  rewrite Hp, <- E. unfold parse_ndjson. now rewrite ndjson_lines_join.
Qed.

(** Object lines alone. *)
Lemma parse_objects (objs : list value) :
  forallb json_object objs = true ->
  forallb (fun o => balanced (text o)) (removelast objs) = true ->
  parsePossiblyMany (join [NL] (map text objs)) = objs.
Proof.
  intros Hj Hb. destruct objs as [|o [|o' objs]].
  - reflexivity.
  - cbn [map join]. cbn [forallb] in Hj. rewrite andb_true_r in Hj.
    unfold json_object in Hj. apply andb_true_iff in Hj. destruct Hj as [Hobj Hj].
    rewrite parse_single by assumption. now destruct o.
  - destruct (objects_lines _ Hj) as [Hnl Ht].
    cbn [map] in Hnl, Ht |- *.
    rewrite parse_lines; [|assumption|assumption|].
    + change (text o :: text o' :: map text objs) with (map text (o :: o' :: objs)).
      now rewrite finish_objects.
    + apply parse_lines_fails.
      * cbn [forallb] in Hj. now apply andb_true_iff in Hj.
      * cbn [forallb] in Ht |- *. now apply andb_true_iff in Ht.
Qed.

(** C1, as the code has it. Well-formed JSON objects written one per line
    and joined with line feeds are parsed back, all of them, equal to the
    inputs and in order, provided the text of each of them but the last has
    as many closing as opening brackets, counted character by character. *)
Theorem C1_ndjson_objects (objs : list value) :
  forallb json_object objs = true ->
  forallb (fun o => balanced (text o)) (removelast objs) = true ->
  map JSON.stringify objs = map (fun o => Some (text o)) objs /\
  parsePossiblyMany (join [NL] (map text objs)) = objs /\
  length (parsePossiblyMany (join [NL] (map text objs))) = length objs.
Proof.
  intros Hj Hb.
  pose proof (parse_objects objs Hj Hb) as Hmain.
  split; [|split; [exact Hmain|now rewrite Hmain]].
  apply map_ext_in. intros o Ho. apply stringify_json.
  rewrite forallb_forall in Hj. specialize (Hj o Ho).
  unfold json_object in Hj. now apply andb_true_iff in Hj.
Qed.

Lemma C1_witness :
  let o := hd VNull tinyExample in
  parsePossiblyMany (join [NL] (map text [o; o; o])) = [o; o; o].
Proof.
  intros o.
  exact (proj1 (proj2 (C1_ndjson_objects [o; o; o] eq_refl eq_refl))).
Defined.

(** C1 as worded fails on an object with a brace inside a string: the
    bracket test never balances, both lines end up in one buffer that is not
    JSON, and nothing is returned. *)
Lemma C1_counterexample :
  let a := vobj [("a", vstr "{")] in
  let b := vobj [("b", vnum 2)] in
  json_object a = true /\ json_object b = true /\
  JSON.stringify a = Some (text a) /\ JSON.stringify b = Some (text b) /\
  balanced (text a) = false /\
  parsePossiblyMany (join [NL] (map text [a; b])) = [] /\
  parsePossiblyMany (join [NL] (map text [a; b])) <> [a; b].
Proof.
  intros a b. repeat split; try reflexivity.
  vm_compute. discriminate.
Qed.


(* ===================================================================== *)
(** * The fuel of the parser always suffices *)
(* ===================================================================== *)

Lemma skip_ws_length (s : str) : (length (JSON.skip_ws s) <= length s)%nat.
Proof.
  induction s as [|c s IH]; simpl; [lia|].
  destruct (JSON.is_ws c); simpl; lia.
Qed.

Lemma skip_ws_cons (s : str) (c : ascii) (r : str) :
  JSON.skip_ws s = c :: r -> (length r < length s)%nat.
Proof.
  intros E. pose proof (skip_ws_length s) as H. rewrite E in H. simpl in H. lia.
Qed.

Lemma cons_fst_length (c : ascii) (x : option (str * str)) (t r : str) :
  JSON.cons_fst c x = Some (t, r) -> exists t', x = Some (t', r).
Proof.
  destruct x as [[a b]|]; simpl; [|discriminate]. intros [= <- <-]. now exists a.
Qed.

Lemma parse_string_length (s t r : str) :
  JSON.parse_string s = Some (t, r) -> (length r < length s)%nat.
Proof.
  remember (length s) as n eqn:Hn. revert s t r Hn.
  induction n as [n IH] using lt_wf_ind. intros s t r Hn H.
  destruct s as [|c s]; [discriminate|]. simpl in H.
  destruct (Ascii.eqb c QUOTE).
  { injection H as <- <-. simpl in Hn. lia. }
  destruct (Ascii.eqb c BACKSLASH).
  - destruct s as [|e s]; [discriminate|].
    destruct (JSON.unescape e).
    + apply cons_fst_length in H. destruct H as [t' H].
      apply (IH (length s)) in H; simpl in *; lia.
    + destruct (Ascii.eqb e (chr 117)); [|discriminate].
      destruct s as [|h1 [|h2 [|h3 [|h4 s]]]]; try discriminate.
      destruct (JSON.hex_val h1), (JSON.hex_val h2), (JSON.hex_val h3),
        (JSON.hex_val h4); try discriminate.
      destruct ((z =? 0) && (z0 =? 0)); [|discriminate].
      apply cons_fst_length in H. destruct H as [t' H].
      apply (IH (length s)) in H; simpl in *; lia.
  - destruct (code c <? 32); [discriminate|].
    apply cons_fst_length in H. destruct H as [t' H].
    apply (IH (length s)) in H; simpl in *; lia.
Qed.

Lemma span_length (p : ascii -> bool) (s a b : str) :
  span p s = (a, b) -> length s = (length a + length b)%nat.
Proof.
  revert a b. induction s as [|c s IH]; intros a b; simpl.
  - now intros [= <- <-].
  - destruct (p c).
    + destruct (span p s) as [a' b'] eqn:E. intros [= <- <-].
      simpl. now rewrite (IH a' b').
    + now intros [= <- <-].
Qed.

Lemma read_exponent_length (s : str) (b : bool) (ep r : str) :
  read_exponent s = Some (b, ep, r) -> (length r <= length s)%nat.
Proof.
  unfold read_exponent. destruct s as [|c s]; [now intros [= <- <- <-]|].
  destruct (Ascii.eqb c (chr 101) || Ascii.eqb c (chr 69)).
  - destruct s as [|c1 s'].
    + simpl. discriminate.
    + destruct (Ascii.eqb c1 (chr 45)); [|destruct (Ascii.eqb c1 (chr 43))];
        match goal with |- context [span is_digit ?x] =>
          destruct (span is_digit x) as [a r2] eqn:E end;
        (destruct (is_empty a); [discriminate|]);
        intros [= <- <- <-]; apply span_length in E; simpl in *; lia.
  - now intros [= <- <- <-].
Qed.

Lemma parse_fraction_length (s fp r : str) :
  JSON.parse_fraction s = Some (fp, r) -> (length r <= length s)%nat.
Proof.
  unfold JSON.parse_fraction. destruct s as [|c s]; [now intros [= <- <-]|].
  destruct (Ascii.eqb c (chr 46)); [|now intros [= <- <-]].
  destruct (span is_digit s) as [a b] eqn:E.
  destruct (is_empty a); [discriminate|].
  intros [= <- <-]. apply span_length in E. simpl. lia.
Qed.

Lemma parse_unsigned_length (neg : bool) (s : str) (d : dec) (r : str) :
  JSON.parse_unsigned neg s = Some (d, r) -> (length r < length s)%nat.
Proof.
  unfold JSON.parse_unsigned.
  destruct (span is_digit s) as [ip r1] eqn:E. apply span_length in E.
  destruct ip as [|d0 tl]; [discriminate|].
  destruct (Ascii.eqb d0 (chr 48) && negb (is_empty tl)); [discriminate|].
  destruct (JSON.parse_fraction r1) as [[fp r2]|] eqn:Ef; [|discriminate].
  apply parse_fraction_length in Ef.
  destruct (read_exponent r2) as [[[eneg ep] r3]|] eqn:Ee; [|discriminate].
  apply read_exponent_length in Ee.
  intros [= <- <-]. simpl in E. lia.
Qed.

Lemma parse_number_length (s : str) (d : dec) (r : str) :
  JSON.parse_number s = Some (d, r) -> (length r < length s)%nat.
Proof.
  unfold JSON.parse_number. destruct s as [|c s]; [discriminate|].
  destruct (Ascii.eqb c (chr 45)); intros H; apply parse_unsigned_length in H;
    simpl in *; lia.
Qed.

Lemma strip_prefix_length (p s r : str) :
  JSON.strip_prefix p s = Some r -> length s = (length p + length r)%nat.
Proof.
  revert s. induction p as [|a p IH]; intros s; simpl.
  - now intros [= <-].
  - destruct s as [|b s]; [discriminate|].
    destruct (Ascii.eqb a b); [|discriminate].
    intros H. apply IH in H. simpl. lia.
Qed.

(** Case analysis on the matches a successful parse went through. *)
Ltac break_parse H :=
  repeat lazymatch type of H with
         | match ?x with _ => _ end = Some _ =>
             destruct x eqn:?; try discriminate H
         end.

(** Lengths of what the inner parsers left, with the induction hypotheses
    [IHv], [IHe], [IHm] for the three recursive parsers. *)
Ltac parse_lengths IHv IHe IHm :=
  repeat match goal with
         | E : JSON.skip_ws _ = _ :: _ |- _ =>
             pose proof (skip_ws_cons _ _ _ E); revert E
         | E : JSON.parse_string _ = Some _ |- _ =>
             pose proof (parse_string_length _ _ _ E); revert E
         | E : JSON.parse_number _ = Some _ |- _ =>
             let L := fresh "L" in
             pose proof (parse_number_length _ _ _ E) as L; simpl in L; revert E
         | E : JSON.strip_prefix _ _ = Some _ |- _ =>
             let L := fresh "L" in
             pose proof (strip_prefix_length _ _ _ E) as L;
             unfold lit in L; simpl in L; revert E
         | E : JSON.parse_value _ _ = Some _ |- _ =>
             let L := fresh "L" in let K := fresh "K" in
             destruct (IHv _ _ _ E) as [L K]; revert E
         | E : JSON.parse_elements _ _ = Some _ |- _ =>
             let L := fresh "L" in let K := fresh "K" in
             destruct (IHe _ _ _ E) as [L K]; revert E
         | E : JSON.parse_members _ _ = Some _ |- _ =>
             let L := fresh "L" in let K := fresh "K" in
             destruct (IHm _ _ _ E) as [L K]; revert E
         end;
  intros.

(** Replaying a parse with other fuel. *)
Ltac replay :=
  repeat match goal with
         | E : ?x = _ |- context [match ?x with _ => _ end] => rewrite E
         | K : forall g, _ -> ?F g ?s = _ |- context [?F ?g' ?s] =>
             rewrite (K g') by lia
         end.

(** A parse that succeeds with some fuel consumes at least one character
    and succeeds, with the same result, with any fuel above twice what it
    consumes. *)
Lemma parse_fuel (f : nat) :
  (forall s v r,
     JSON.parse_value f s = Some (v, r) ->
     (length r < length s)%nat /\
     forall f', (2 * (length s - length r) <= f')%nat ->
                JSON.parse_value f' s = Some (v, r)) /\
  (forall s vs r,
     JSON.parse_elements f s = Some (vs, r) ->
     (length r < length s)%nat /\
     forall f', (2 * (length s - length r) + 1 <= f')%nat ->
                JSON.parse_elements f' s = Some (vs, r)) /\
  (forall s kvs r,
     JSON.parse_members f s = Some (kvs, r) ->
     (length r < length s)%nat /\
     forall f', (2 * (length s - length r) + 1 <= f')%nat ->
                JSON.parse_members f' s = Some (kvs, r)).
Proof.
  induction f as [|f [IHv [IHe IHm]]].
  { repeat split; discriminate. }
  split; [|split].
  - intros s v r H. cbn [JSON.parse_value] in H. break_parse H;
      apply some_eq in H; injection H as <- <-;
      parse_lengths IHv IHe IHm;
      (split; [lia|]);
      intros f' Hf'; (destruct f' as [|f'']; [exfalso; lia|]);
      cbn [JSON.parse_value]; replay; reflexivity.
  - intros s vs r H. cbn [JSON.parse_elements] in H. break_parse H;
      apply some_eq in H; injection H as <- <-;
      parse_lengths IHv IHe IHm;
      (split; [lia|]);
      intros f' Hf'; (destruct f' as [|f'']; [exfalso; lia|]);
      cbn [JSON.parse_elements]; replay; reflexivity.
  - intros s kvs r H. cbn [JSON.parse_members] in H. break_parse H;
      apply some_eq in H; injection H as <- <-;
      parse_lengths IHv IHe IHm;
      (split; [lia|]);
      intros f' Hf'; (destruct f' as [|f'']; [exfalso; lia|]);
      cbn [JSON.parse_members]; replay; reflexivity.
Qed.

Lemma parse_fuel_enough (f : nat) (s : str) (v : value) (r : str) :
  JSON.parse_value f s = Some (v, r) ->
  JSON.parse_value (2 * length s + 2) s = Some (v, r).
Proof.
  intros H. destruct (parse_fuel f) as [Hv _].
  destruct (Hv s v r H) as [_ K]. apply K. lia.
Qed.

(** When [JSON.parse] rejects a text, no amount of fuel would have made the
    parser accept it: the rejection is a syntax error of the text. *)
Lemma parse_rejects_for_good (s : str) :
  JSON.parse s = None ->
  forall f v r, JSON.parse_value f s = Some (v, r) ->
                is_empty (JSON.skip_ws r) = false.
Proof.
  unfold JSON.parse. intros H f v r Hf.
  rewrite (parse_fuel_enough f s v r Hf) in H.
  now destruct (is_empty (JSON.skip_ws r)).
Qed.

(* ===================================================================== *)
(** * A parse does not run into the object lines that follow *)
(* ===================================================================== *)

(** Below, [T] is a text that starts with an opening brace and [NL :: T] the
    break before it: a line feed cannot be inside a string, a number or a
    literal, so a token that starts before the break ends before it. *)

Lemma ends_with_cons (B s : str) (c : ascii) :
  ends_with B s -> ends_with B (c :: s).
Proof. intros [a ->]. now exists (c :: a). Qed.

Lemma ends_with_refl (B : str) : ends_with B B.
Proof. now exists []. Qed.

Lemma skip_ws_break (T tail s : str) :
  T = "{"%char :: tail -> ends_with (NL :: T) s ->
  JSON.skip_ws s = T \/
  exists c r, JSON.skip_ws s = c :: r /\ ends_with (NL :: T) r /\ JSON.is_ws c = false.
Proof.
  intros HT [a ->]. induction a as [|c a IH].
  - left. rewrite HT. reflexivity.
  - cbn [Datatypes.app JSON.skip_ws]. destruct (JSON.is_ws c) eqn:E; [exact IH|].
    right. exists c, (a ++ NL :: T). repeat split; [now exists a|exact E].
Qed.

Lemma parse_string_break (T s t r : str) :
  ends_with (NL :: T) s -> JSON.parse_string s = Some (t, r) ->
  ends_with (NL :: T) r.
Proof.
  intros [a ->]. remember (length a) as n eqn:Hn. revert a t r Hn.
  induction n as [n IH] using lt_wf_ind. intros a t r Hn H.
  destruct a as [|c a]; [discriminate|]. cbn [Datatypes.app] in H.
  cbn [JSON.parse_string] in H.
  destruct (Ascii.eqb c QUOTE).
  { injection H as <- <-. now exists a. }
  destruct (Ascii.eqb c BACKSLASH).
  - destruct a as [|e a]; [discriminate|]. cbn [Datatypes.app] in H.
    destruct (JSON.unescape e).
    + apply cons_fst_length in H. destruct H as [t' H].
      apply (IH (length a)) in H; [assumption|simpl in *; lia|reflexivity].
    + destruct (Ascii.eqb e (chr 117)); [|discriminate].
      destruct a as [|h1 [|h2 [|h3 [|h4 a]]]]; cbn [Datatypes.app] in H.
      * destruct T as [|? [|? [|? ?]]]; discriminate.
      * destruct T as [|? [|? ?]]; try discriminate;
          destruct (JSON.hex_val h1); discriminate.
      * destruct T as [|? ?]; try discriminate;
          destruct (JSON.hex_val h1), (JSON.hex_val h2); discriminate.
      * destruct (JSON.hex_val h1), (JSON.hex_val h2), (JSON.hex_val h3);
          discriminate.
      * destruct (JSON.hex_val h1), (JSON.hex_val h2), (JSON.hex_val h3),
          (JSON.hex_val h4); try discriminate.
        destruct ((z =? 0) && (z0 =? 0)); [|discriminate].
        apply cons_fst_length in H. destruct H as [t' H].
        apply (IH (length a)) in H; [assumption|simpl in *; lia|reflexivity].
  - destruct (code c <? 32); [discriminate|].
    apply cons_fst_length in H. destruct H as [t' H].
    apply (IH (length a)) in H; [assumption|simpl in *; lia|reflexivity].
Qed.

Lemma span_break (T s x y : str) :
  ends_with (NL :: T) s -> span is_digit s = (x, y) -> ends_with (NL :: T) y.
Proof.
  intros [a ->]. revert x y. induction a as [|c a IH]; intros x y.
  - cbn. intros [= <- <-]. apply ends_with_refl.
  - cbn [Datatypes.app span]. destruct (is_digit c).
    + destruct (span is_digit (a ++ NL :: T)) as [x' y'] eqn:E.
      intros [= <- <-]. now apply (IH x').
    + intros [= <- <-]. now exists (c :: a).
Qed.

Lemma ends_with_tail (T s : str) (c : ascii) :
  ends_with (NL :: T) (c :: s) -> c <> NL -> ends_with (NL :: T) s.
Proof.
  intros [[|c' a] E] Hc; injection E as -> ->; [congruence|now exists a].
Qed.

Lemma read_exponent_break (T s : str) (b : bool) (ep r : str) :
  ends_with (NL :: T) s -> read_exponent s = Some (b, ep, r) ->
  ends_with (NL :: T) r.
Proof.
  intros Hs. unfold read_exponent.
  destruct s as [|c s]; [now intros [= <- <- <-]|].
  destruct (Ascii.eqb c (chr 101) || Ascii.eqb c (chr 69)) eqn:Hce;
    [|now intros [= <- <- <-]].
  apply ends_with_tail in Hs; [|intros ->; discriminate Hce].
  destruct s as [|c1 s'].
  - destruct Hs as [[|? ?] E]; discriminate.
  - destruct (Ascii.eqb c1 (chr 45)) eqn:E1; [|destruct (Ascii.eqb c1 (chr 43)) eqn:E2];
      match goal with |- context [span is_digit ?x] =>
        destruct (span is_digit x) as [a r2] eqn:E end;
      (destruct (is_empty a); [discriminate|]);
      intros [= <- <- <-]; eapply span_break; try exact E; trivial;
      (eapply ends_with_tail; [exact Hs|intros ->; discriminate]).
Qed.

Lemma parse_fraction_break (T s fp r : str) :
  ends_with (NL :: T) s -> JSON.parse_fraction s = Some (fp, r) ->
  ends_with (NL :: T) r.
Proof.
  intros Hs. unfold JSON.parse_fraction.
  destruct s as [|c s]; [now intros [= <- <-]|].
  destruct (Ascii.eqb c (chr 46)) eqn:Hc; [|now intros [= <- <-]].
  apply ends_with_tail in Hs; [|intros ->; discriminate Hc].
  destruct (span is_digit s) as [a r2] eqn:E.
  destruct (is_empty a); [discriminate|].
  intros [= <- <-]. eapply span_break; eauto.
Qed.

Lemma parse_unsigned_break (T s r : str) (neg : bool) (d : dec) :
  ends_with (NL :: T) s -> JSON.parse_unsigned neg s = Some (d, r) ->
  ends_with (NL :: T) r.
Proof.
  intros Hs. unfold JSON.parse_unsigned.
  destruct (span is_digit s) as [ip r1] eqn:E1.
  destruct ip as [|d0 tl]; [discriminate|].
  destruct (Ascii.eqb d0 (chr 48) && negb (is_empty tl)); [discriminate|].
  destruct (JSON.parse_fraction r1) as [[fp r2]|] eqn:E2; [|discriminate].
  destruct (read_exponent r2) as [[[eneg ep] r3]|] eqn:E3; [|discriminate].
  intros [= <- <-].
  eapply read_exponent_break; [|exact E3].
  eapply parse_fraction_break; [|exact E2].
  eapply span_break; eauto.
Qed.

Lemma parse_number_break (T s r : str) (d : dec) :
  ends_with (NL :: T) s -> JSON.parse_number s = Some (d, r) ->
  ends_with (NL :: T) r.
Proof.
  intros Hs. unfold JSON.parse_number.
  destruct s as [|c s]; [discriminate|].
  destruct (Ascii.eqb c (chr 45)) eqn:Hc.
  - apply ends_with_tail in Hs; [|intros ->; discriminate Hc].
    now apply parse_unsigned_break.
  - now apply parse_unsigned_break.
Qed.

Lemma strip_prefix_break (T p s r : str) :
  ends_with (NL :: T) s -> includes_char NL p = false ->
  JSON.strip_prefix p s = Some r -> ends_with (NL :: T) r.
Proof.
  revert s. induction p as [|a p IH]; intros s Hs Hp.
  - now intros [= <-].
  - destruct s as [|b s]; [discriminate|]. cbn [JSON.strip_prefix].
    cbn [includes_char] in Hp. apply orb_false_iff in Hp. destruct Hp as [Ha Hp].
    destruct (Ascii.eqb a b) eqn:E; [|discriminate].
    apply Ascii.eqb_eq in E. subst b.
    apply IH; [|exact Hp].
    eapply ends_with_tail; [exact Hs|]. intros ->.
    rewrite Ascii.eqb_refl in Ha. discriminate.
Qed.

Lemma skip_ws_idem (s : str) : JSON.skip_ws (JSON.skip_ws s) = JSON.skip_ws s.
Proof.
  induction s as [|c s IH]; [reflexivity|]. cbn [JSON.skip_ws].
  destruct (JSON.is_ws c) eqn:E; [exact IH|]. cbn [JSON.skip_ws]. now rewrite E.
Qed.

Lemma parse_value_skip_ws (f : nat) (s : str) :
  JSON.parse_value f (JSON.skip_ws s) = JSON.parse_value f s.
Proof.
  destruct f as [|f]; [reflexivity|]. cbn [JSON.parse_value].
  now rewrite skip_ws_idem.
Qed.

(** The next token after a place before the break, when it is not an
    opening brace, ends before the break as well. *)
Lemma step_break (T tail s r : str) (c : ascii) (n : Z) :
  T = "{"%char :: tail ->
  ends_with (NL :: T) s \/ stuck s = true ->
  JSON.skip_ws s = c :: r -> (code c =? n) = true -> n <> 123 ->
  ends_with (NL :: T) r.
Proof.
  intros HT [Hs|Hst] E C Hn; apply Z.eqb_eq in C.
  - destruct (skip_ws_break T tail s HT Hs) as [E'|(c' & r' & E' & Hr' & _)];
      rewrite E' in E.
    + rewrite HT in E. injection E as <- <-. exfalso. apply Hn. now rewrite <- C.
    + now injection E as <- <-.
  - unfold stuck in Hst. rewrite E in Hst. apply Z.eqb_eq in Hst. lia.
Qed.

(** Forward chaining of the places a parse went through, [IHv], [IHe] and
    [IHm] being the induction hypotheses. *)
Ltac unknown r :=
  lazymatch goal with
  | _ : ends_with _ r |- _ => fail
  | _ : stuck r = true |- _ => fail
  | _ => idtac
  end.

Ltac chain HT IHv IHe IHm :=
  repeat match goal with
         | Hs : ends_with _ ?s, E : JSON.skip_ws ?s = ?c :: ?r,
           C : (code ?c =? ?n) = true |- _ =>
             unknown r;
             assert (ends_with _ r)
               by (eapply (step_break _ _ s r c n HT);
                   [left; exact Hs|exact E|exact C|discriminate])
         | Hs : stuck ?s = true, E : JSON.skip_ws ?s = ?c :: ?r,
           C : (code ?c =? ?n) = true |- _ =>
             unknown r;
             assert (ends_with _ r)
               by (eapply (step_break _ _ s r c n HT);
                   [right; exact Hs|exact E|exact C|discriminate])
         | Hs : ends_with _ ?s, E : JSON.parse_string ?s = Some (_, ?r) |- _ =>
             unknown r; pose proof (parse_string_break _ _ _ _ Hs E)
         | Hs : ends_with _ ?s, E : JSON.parse_value _ ?s = Some (_, ?r) |- _ =>
             unknown r; destruct (IHv _ _ _ Hs E) as [?|[_ ?]]
         | Hs : ends_with _ ?s, E : JSON.parse_elements _ ?s = Some (_, ?r) |- _ =>
             unknown r; pose proof (IHe _ _ _ Hs E)
         | Hs : ends_with _ ?s, E : JSON.parse_members _ ?s = Some (_, ?r) |- _ =>
             unknown r; pose proof (IHm _ _ _ Hs E)
         end.

Lemma parse_break (T tail : str) :
  T = "{"%char :: tail ->
  (forall g v r, JSON.parse_value g T = Some (v, r) -> stuck r = true) ->
  forall f,
    (forall s v r,
       ends_with (NL :: T) s -> JSON.parse_value f s = Some (v, r) ->
       ends_with (NL :: T) r \/ (JSON.skip_ws s = T /\ stuck r = true)) /\
    (forall s vs r,
       ends_with (NL :: T) s -> JSON.parse_elements f s = Some (vs, r) ->
       ends_with (NL :: T) r) /\
    (forall s kvs r,
       ends_with (NL :: T) s -> JSON.parse_members f s = Some (kvs, r) ->
       ends_with (NL :: T) r).
Proof.
  intros HT HP. induction f as [|f [IHv [IHe IHm]]].
  { repeat split; discriminate. }
  split; [|split].
  - intros s v r Hs H.
    destruct (skip_ws_break T tail s HT Hs) as [E|(c & r0 & E & Hr0 & Hc)].
    { right. split; [exact E|]. rewrite <- parse_value_skip_ws, E in H.
      exact (HP _ _ _ H). }
    left. cbn [JSON.parse_value] in H. rewrite E in H. cbv zeta in H.
    pose proof (ends_with_cons _ _ c Hr0) as Hcr.
    break_parse H; apply some_eq in H; injection H as <- <-;
      chain HT IHv IHe IHm; try assumption.
    + eapply strip_prefix_break; [exact Hcr| |eassumption]; reflexivity.
    + eapply strip_prefix_break; [exact Hcr| |eassumption]; reflexivity.
    + eapply strip_prefix_break; [exact Hcr| |eassumption]; reflexivity.
    + eapply parse_number_break; [exact Hcr|eassumption].
  - intros s vs r Hs H. cbn [JSON.parse_elements] in H.
    break_parse H; apply some_eq in H; injection H as <- <-;
      chain HT IHv IHe IHm; chain HT IHv IHe IHm; assumption.
  - intros s kvs r Hs H. cbn [JSON.parse_members] in H.
    break_parse H; apply some_eq in H; injection H as <- <-;
      chain HT IHv IHe IHm; chain HT IHv IHe IHm; assumption.
Qed.

(* ===================================================================== *)
(** * White space around a line *)
(* ===================================================================== *)

Lemma trim_start_blank (w s : str) :
  forallb is_js_space w = true -> trim_start (w ++ s) = trim_start s.
Proof.
  induction w as [|c w IH]; [reflexivity|]. cbn [forallb Datatypes.app trim_start].
  rewrite andb_true_iff. intros [-> H]. now apply IH.
Qed.

Lemma trim_start_split (s : str) :
  exists w, s = w ++ trim_start s /\ forallb is_js_space w = true.
Proof.
  induction s as [|c s [w [E Hw]]]; [now exists []|].
  cbn [trim_start]. destruct (is_js_space c) eqn:Hc.
  - exists (c :: w). cbn [Datatypes.app forallb]. rewrite <- E, Hc. now split.
  - now exists [].
Qed.

Lemma trim_start_head (s : str) :
  trim_start s = [] \/
  exists c r, trim_start s = c :: r /\ is_js_space c = false.
Proof.
  induction s as [|a s IH]; [now left|]. cbn [trim_start].
  destruct (is_js_space a) eqn:E; [exact IH|]. right. now exists a, s.
Qed.

Lemma forallb_rev {A} (p : A -> bool) (l : list A) :
  forallb p (rev l) = forallb p l.
Proof.
  induction l as [|x l IH]; [reflexivity|]. cbn [rev forallb].
  rewrite forallb_app, IH. cbn [forallb]. rewrite andb_true_r. apply andb_comm.
Qed.

Lemma trim_end_split (s : str) :
  exists w, s = trim_end s ++ w /\ forallb is_js_space w = true.
Proof.
  unfold trim_end. destruct (trim_start_split (rev s)) as [w [E Hw]].
  exists (rev w). split; [|now rewrite forallb_rev].
  now rewrite <- rev_app_distr, <- E, rev_involutive.
Qed.

Lemma tight_ends (c c' : ascii) (r l : str) :
  c :: r = l ++ [c'] -> is_js_space c = false -> is_js_space c' = false ->
  tight (c :: r) = true.
Proof.
  intros E Hc Hc'. unfold tight. rewrite E. now rewrite last_snoc, Hc, Hc'.
Qed.

Lemma tight_last (s : str) :
  tight s = true -> exists l b, s = l ++ [b] /\ is_js_space b = false.
Proof.
  destruct s as [|a s]; [discriminate|]. unfold tight.
  rewrite andb_true_iff, !negb_true_iff. intros [_ Hb].
  destruct (exists_last (l := a :: s) ltac:(discriminate)) as [l [b E]].
  rewrite E in Hb |- *. rewrite last_snoc in Hb. now exists l, b.
Qed.

(** What [trim] leaves of a string is empty or has no white space at either
    end, and the string is that with white space around it. *)
Lemma trim_split (s : str) :
  exists w1 w2,
    s = w1 ++ trim s ++ w2 /\
    forallb is_js_space w1 = true /\ forallb is_js_space w2 = true /\
    (trim s = [] \/ tight (trim s) = true).
Proof.
  destruct (trim_start_split s) as [w1 [E1 H1]].
  destruct (trim_end_split (trim_start s)) as [w2 [E2 H2]].
  exists w1, w2. fold (trim s) in E2. repeat split; try assumption.
  - now rewrite <- E2.
  - destruct (trim_start_head s) as [E|(c & r & E & Hc)].
    { left. unfold trim. now rewrite E. }
    unfold trim in *. rewrite E in *. unfold trim_end in *.
    destruct (trim_start_head (rev (c :: r))) as [E'|(c' & r' & E' & Hc')];
      rewrite E' in *.
    + exfalso. cbn [rev Datatypes.app] in E2. subst w2.
      cbn [forallb] in H2. rewrite Hc in H2. discriminate.
    + right. cbn [rev] in E2 |- *.
      destruct (rev r' ++ [c']) as [|x y] eqn:Ex.
      { destruct (rev r'); discriminate. }
      cbn [Datatypes.app] in E2. injection E2 as <- _.
      apply (tight_ends c c' y (rev r')); [now symmetry|assumption|assumption].
Qed.

Lemma trim_end_tight (t : str) : tight t = true -> trim_end t = t.
Proof.
  intros Ht. destruct (tight_trim t Ht) as [E _].
  destruct (tight_head t Ht) as (c & r & -> & Hc).
  unfold trim in E. now rewrite trim_start_id in E.
Qed.

Lemma trim_pad (w1 t w2 : str) :
  forallb is_js_space w1 = true -> forallb is_js_space w2 = true ->
  tight t = true -> trim (w1 ++ t ++ w2) = t.
Proof.
  intros H1 H2 Ht. unfold trim. rewrite trim_start_blank by assumption.
  destruct (tight_head t Ht) as (c & r & E & Hc).
  rewrite E at 1. cbn [Datatypes.app]. rewrite trim_start_id by assumption.
  change (c :: r ++ w2) with ((c :: r) ++ w2). rewrite <- E.
  unfold trim_end. rewrite rev_app_distr, trim_start_blank
    by now rewrite forallb_rev.
  now apply trim_end_tight.
Qed.

Lemma trim_blank (w : str) : forallb is_js_space w = true -> trim w = [].
Proof. apply trim_spaces. Qed.

Lemma tight_wrap (a mid b : str) :
  tight a = true -> tight b = true -> tight (a ++ mid ++ b) = true.
Proof.
  intros Ha Hb. destruct (tight_head a Ha) as (x & a' & -> & Hx).
  destruct (tight_last b Hb) as (l & z & -> & Hz).
  apply (tight_ends x z _ (x :: a' ++ mid ++ l)); [|assumption|assumption].
  cbn [Datatypes.app]. now rewrite <- !app_assoc.
Qed.

Lemma parsePossiblyMany_pad (w1 t w2 : str) :
  forallb is_js_space w1 = true -> forallb is_js_space w2 = true ->
  tight t = true ->
  parsePossiblyMany (w1 ++ t ++ w2) = parsePossiblyMany t.
Proof.
  intros H1 H2 Ht. destruct (tight_trim t Ht) as [E Hne].
  unfold parsePossiblyMany. rewrite trim_pad, E by assumption.
  destruct t as [|c t]; [congruence|]. cbn [is_empty]. rewrite !orb_false_r.
  now destruct w1.
Qed.

Lemma bracket_not_space (c : ascii) :
  is_js_space c = true -> is_open_bracket c = false /\ is_close_bracket c = false.
Proof. destruct c as [[] [] [] [] [] [] [] []]; try discriminate; now split. Qed.

Lemma count_blank (w : str) :
  forallb is_js_space w = true ->
  count_chars is_open_bracket w = 0 /\ count_chars is_close_bracket w = 0.
Proof.
  unfold count_chars. induction w as [|c w IH]; [now split|].
  cbn [forallb]. rewrite andb_true_iff. intros [Hc Hw].
  destruct (bracket_not_space c Hc) as [Ho Hcl]. cbn [filter].
  rewrite Ho, Hcl. now apply IH.
Qed.

Lemma balanced_pad (w1 t w2 : str) :
  forallb is_js_space w1 = true -> forallb is_js_space w2 = true ->
  balanced (w1 ++ t ++ w2) = balanced t.
Proof.
  intros H1 H2. unfold balanced. rewrite !count_chars_app.
  destruct (count_blank w1 H1) as [-> ->].
  destruct (count_blank w2 H2) as [-> ->].
  now rewrite !Z.add_0_l, !Z.add_0_r.
Qed.

Lemma no_newline_app (a b : str) :
  no_newline (a ++ b) = no_newline a && no_newline b.
Proof. unfold no_newline. rewrite includes_char_app. apply negb_orb. Qed.

(* ===================================================================== *)
(** * Lines with white space around them, and empty lines *)
(* ===================================================================== *)

Lemma split_nl_end (l : str) :
  no_newline l = true -> split_nl (l ++ [NL]) = [l; []].
Proof.
  unfold no_newline, includes_char. rewrite negb_true_iff.
  induction l as [|x l IH]; [reflexivity|].
  cbn [existsb]. rewrite orb_false_iff. intros [Hx Hl].
  cbn [Datatypes.app split_nl]. rewrite Ascii.eqb_sym, Hx, (IH Hl). reflexivity.
Qed.

(** A run of line feeds separates like one. *)
Lemma split_nl_merge (l r : str) :
  no_newline l = true ->
  split_nl (l ++ NL :: NL :: r) = split_nl (l ++ NL :: r).
Proof.
  unfold no_newline, includes_char. rewrite negb_true_iff.
  induction l as [|x l IH]; [reflexivity|].
  cbn [existsb]. rewrite orb_false_iff. intros [Hx Hl].
  cbn [Datatypes.app split_nl]. rewrite Ascii.eqb_sym, Hx, (IH Hl). reflexivity.
Qed.

Lemma join_cons (l l' : str) (ls : list str) :
  join [NL] (l :: l' :: ls) = l ++ NL :: join [NL] (l' :: ls).
Proof. reflexivity. Qed.

Lemma join_app (xs ys : list str) :
  xs <> [] -> ys <> [] ->
  join [NL] (xs ++ ys) = join [NL] xs ++ NL :: join [NL] ys.
Proof.
  intros Hx Hy. induction xs as [|x xs IH]; [congruence|].
  destruct xs as [|x' xs].
  - destruct ys as [|y ys]; [congruence|]. reflexivity.
  - change ((x :: x' :: xs) ++ ys) with (x :: x' :: (xs ++ ys)).
    rewrite !join_cons. change (x' :: xs ++ ys) with ((x' :: xs) ++ ys).
    rewrite IH by discriminate. now rewrite <- app_assoc.
Qed.

(** The lines of a text given line by line: each of them trimmed, the empty
    ones left out. *)
Lemma ndjson_lines_join_any (ls : list str) :
  ls <> [] -> forallb no_newline ls = true ->
  ndjson_lines (join [NL] ls) =
  filter (fun l => negb (is_empty l)) (map trim ls).
Proof.
  remember (length ls) as n eqn:Hn. revert ls Hn.
  induction n as [n IH] using lt_wf_ind. intros ls Hn Hne Hnl.
  destruct ls as [|l [|l' ls]]; [congruence| |].
  - cbn [join]. unfold ndjson_lines. rewrite split_nl_single; [reflexivity|].
    cbn [forallb] in Hnl. now rewrite andb_true_r in Hnl.
  - rewrite join_cons. cbn [forallb] in Hnl.
    apply andb_true_iff in Hnl. destruct Hnl as [Hl Hnl].
    destruct (join [NL] (l' :: ls)) as [|c r] eqn:ER.
    + assert (l' = [] /\ ls = []) as [-> ->].
      { destruct ls as [|l'' ls]; [now split|].
        rewrite join_cons in ER. destruct l'; discriminate. }
      unfold ndjson_lines. rewrite split_nl_end by assumption. reflexivity.
    + destruct (Ascii.eqb c NL) eqn:Ec.
      * apply Ascii.eqb_eq in Ec. subst c.
        destruct l' as [|y l'].
        -- destruct ls as [|l'' ls]; [discriminate|].
           assert (r = join [NL] (l'' :: ls)) as ->
               by (rewrite join_cons in ER; now injection ER).
           unfold ndjson_lines. rewrite split_nl_merge by assumption.
           rewrite <- join_cons. fold (ndjson_lines (join [NL] (l :: l'' :: ls))).
           rewrite (IH (length (l :: l'' :: ls))); [reflexivity| |reflexivity|discriminate|].
           ++ subst n. simpl. lia.
           ++ cbn [forallb] in Hnl |- *. rewrite Hl.
              now rewrite andb_true_l in Hnl |- *.
        -- exfalso. cbn [forallb] in Hnl. apply andb_true_iff in Hnl.
           destruct Hnl as [Hy _]. unfold no_newline, includes_char in Hy.
           cbn [existsb] in Hy.
           assert (y = NL) as -> by (destruct ls; [|rewrite join_cons in ER];
                                     now injection ER).
           rewrite Ascii.eqb_refl in Hy. discriminate.
      * unfold ndjson_lines. rewrite split_nl_app by assumption.
        rewrite <- ER. cbn [map filter].
        fold (ndjson_lines (join [NL] (l' :: ls))).
        rewrite (IH (length (l' :: ls))); [reflexivity| |reflexivity|discriminate|assumption].
        subst n. simpl. lia.
Qed.

Lemma not_blank_tight (t : str) : tight t = true -> not_blank t = true.
Proof.
  intros Ht. destruct (tight_head t Ht) as (c & r & -> & Hc).
  unfold not_blank. cbn [existsb]. now rewrite Hc.
Qed.

Lemma not_blank_app (a b : str) : not_blank (a ++ b) = not_blank a || not_blank b.
Proof. apply existsb_app. Qed.

Lemma not_blank_join (l : str) (ls : list str) :
  In l ls -> not_blank l = true -> not_blank (join [NL] ls) = true.
Proof.
  intros Hin Hl. induction ls as [|x ls IH]; [destruct Hin|].
  destruct ls as [|x' ls].
  - destruct Hin as [->|[]]. exact Hl.
  - rewrite join_cons, not_blank_app. destruct Hin as [->|Hin].
    + now rewrite Hl.
    + change (NL :: join [NL] (x' :: ls)) with ([NL] ++ join [NL] (x' :: ls)).
      rewrite not_blank_app, (IH Hin). now rewrite !orb_true_r.
Qed.

Lemma skip_ws_not_blank (s : str) :
  not_blank s = true -> is_empty (JSON.skip_ws s) = false.
Proof.
  unfold not_blank. induction s as [|c s IH]; [discriminate|].
  cbn [existsb JSON.skip_ws]. destruct (JSON.is_ws c) eqn:E; [|reflexivity].
  rewrite (is_ws_js_space c E). exact IH.
Qed.

(** A JSON text followed by a line feed and something that is not blank is
    not a JSON text. *)
Lemma parse_then_more (v : value) (more : str) :
  is_json v = true -> not_blank more = true ->
  JSON.parse (text v ++ NL :: more) = None.
Proof.
  intros Hj Hm. unfold JSON.parse.
  destruct (parse_text (2 * length (text v ++ NL :: more) + 2)) as [Hv _].
  rewrite Hv; [|assumption|reflexivity|].
  - cbn [JSON.skip_ws]. change (JSON.is_ws NL) with true. cbv iota.
    now rewrite skip_ws_not_blank.
  - pose proof (size_le_text v Hj). rewrite length_app. lia.
Qed.

Lemma object_text_head (o : value) :
  json_object o = true -> exists tail, text o = "{"%char :: tail.
Proof.
  unfold json_object. rewrite andb_true_iff. intros [Ho Hj].
  destruct o; try discriminate. cbn [is_json] in Hj.
  apply andb_true_iff in Hj. destruct Hj as [_ Hj].
  rewrite text_object by assumption. now eexists.
Qed.

Lemma objects_text_head (o : value) (objs : list value) :
  forallb json_object (o :: objs) = true ->
  exists tail, join [NL] (map text (o :: objs)) = "{"%char :: tail.
Proof.
  cbn [forallb]. rewrite andb_true_iff. intros [Ho _].
  destruct (object_text_head o Ho) as [tail E].
  destruct objs as [|o' objs]; cbn [map].
  - cbn [join]. now exists tail.
  - rewrite join_cons, E. now eexists.
Qed.

(** Whatever the fuel, the first of some object lines is what parses. *)
Lemma parse_first_object (o : value) (objs : list value) (g : nat) (v : value) (r : str) :
  forallb json_object (o :: objs) = true ->
  JSON.parse_value g (join [NL] (map text (o :: objs))) = Some (v, r) ->
  stuck r = true.
Proof.
  intros Hj H. pose proof Hj as Hj'. cbn [forallb] in Hj'.
  apply andb_true_iff in Hj'. destruct Hj' as [Ho Hobjs].
  unfold json_object in Ho. apply andb_true_iff in Ho. destruct Ho as [_ Ho].
  assert (exists rest, join [NL] (map text (o :: objs)) = text o ++ rest /\
                       number_end rest = true /\ stuck rest = true)
    as (rest & E & Hne & Hst).
  { destruct objs as [|o' objs].
    - exists []. cbn [map join]. now rewrite app_nil_r.
    - exists (NL :: join [NL] (map text (o' :: objs))).
      split; [reflexivity|split; [reflexivity|]].
      destruct (objects_text_head o' objs Hobjs) as [tail Et].
      unfold stuck. cbn [JSON.skip_ws]. change (JSON.is_ws NL) with true.
      cbv iota. now rewrite Et. }
  rewrite E in H.
  destruct (parse_fuel g) as [Hv _]. destruct (Hv _ _ _ H) as [_ K].
  destruct (parse_text (2 * length (text o ++ rest) + size o)) as [Ht _].
  specialize (Ht o rest Ho Hne ltac:(lia)).
  rewrite K in Ht by lia. injection Ht as _ <-. exact Hst.
Qed.

Lemma skip_ws_app (a x : str) (c : ascii) (a' : str) :
  JSON.skip_ws a = c :: a' -> JSON.skip_ws (a ++ x) = c :: a' ++ x.
Proof.
  induction a as [|y a IH]; [discriminate|]. cbn [Datatypes.app JSON.skip_ws].
  destruct (JSON.is_ws y); [exact IH|]. now intros [= -> ->].
Qed.

(** Something that is not blank, before object lines: not a JSON text. *)
Lemma parse_before_objects (a : str) (o : value) (objs : list value) :
  is_empty (JSON.skip_ws a) = false ->
  forallb json_object (o :: objs) = true ->
  JSON.parse (a ++ NL :: join [NL] (map text (o :: objs))) = None.
Proof.
  intros Ha Hj. set (T := join [NL] (map text (o :: objs))).
  destruct (objects_text_head o objs Hj) as [tail HT]. fold T in HT.
  unfold JSON.parse.
  destruct (JSON.parse_value _ (a ++ NL :: T)) as [[v r]|] eqn:E; [|reflexivity].
  destruct (parse_break T tail HT
              (fun g v r => parse_first_object o objs g v r Hj)
              (2 * length (a ++ NL :: T) + 2)%nat)
    as [Hv _].
  destruct (Hv _ _ _ (ex_intro _ a eq_refl) E) as [Hr|[Hsk _]].
  - destruct (skip_ws_break T tail r HT Hr) as [->|(c & r' & -> & _)];
      [rewrite HT|]; reflexivity.
  - exfalso. destruct (JSON.skip_ws a) as [|c a'] eqn:Ea; [discriminate|].
    rewrite (skip_ws_app _ _ _ _ Ea) in Hsk.
    apply (f_equal (@length ascii)) in Hsk.
    cbn [length] in Hsk. rewrite length_app in Hsk. cbn [length] in Hsk. lia.
Qed.

Lemma join_cons_any (x : str) (ys : list str) :
  ys <> [] -> join [NL] (x :: ys) = x ++ NL :: join [NL] ys.
Proof. destruct ys; [congruence|reflexivity]. Qed.

Lemma join_snoc (xs : list str) (x : str) :
  xs <> [] -> join [NL] (xs ++ [x]) = join [NL] xs ++ NL :: x.
Proof. intros H. now rewrite join_app by (assumption || discriminate). Qed.

Lemma filter_trim_tight (ls : list str) :
  forallb tight ls = true ->
  filter (fun l => negb (is_empty l)) (map trim ls) = ls.
Proof.
  induction ls as [|x xs IH]; [reflexivity|].
  cbn [forallb]. rewrite andb_true_iff. intros [Hx Hxs].
  destruct (tight_trim x Hx) as [E Hne].
  cbn [map filter]. rewrite E, (IH Hxs).
  destruct x; [congruence|reflexivity].
Qed.

Lemma forallb_removelast {A} (p : A -> bool) (l : list A) :
  forallb p l = true -> forallb p (removelast l) = true.
Proof.
  induction l as [|x l IH]; [reflexivity|]. cbn [forallb].
  rewrite andb_true_iff. intros [Hx Hl].
  destruct l as [|y l]; [reflexivity|].
  change (removelast (x :: y :: l)) with (x :: removelast (y :: l)).
  cbn [forallb]. now rewrite Hx, IH.
Qed.

Lemma objects_tight (o : value) (objs : list value) :
  forallb json_object (o :: objs) = true ->
  tight (join [NL] (map text (o :: objs))) = true.
Proof.
  intros Hj. destruct (objects_lines _ Hj) as [_ Ht]. now apply tight_join.
Qed.

(** The lines of a text made of object lines and one more line. *)
Lemma lines_with_one_more (pre post : list value) (x : str) :
  forallb json_object (pre ++ post) = true -> no_newline x = true ->
  ndjson_lines (join [NL] (map text pre ++ x :: map text post)) =
  map text pre ++ (if is_empty (trim x) then [] else [trim x]) ++ map text post.
Proof.
  intros Hj Hx. rewrite forallb_app in Hj.
  apply andb_true_iff in Hj. destruct Hj as [Hjpre Hjpost].
  destruct (objects_lines _ Hjpre) as [Hnlpre Htpre].
  destruct (objects_lines _ Hjpost) as [Hnlpost Htpost].
  rewrite ndjson_lines_join_any.
  - rewrite map_app, filter_app. cbn [map filter].
    rewrite !filter_trim_tight by assumption.
    now destruct (is_empty (trim x)).
  - destruct (map text pre); discriminate.
  - rewrite forallb_app. cbn [forallb]. now rewrite Hnlpre, Hx, Hnlpost.
Qed.

(** The NDJSON loop on object lines and one more line that is not JSON. *)
Lemma feed_with_one_more (pre post : list value) (core : str) :
  forallb json_object (pre ++ post) = true ->
  forallb (fun o => balanced (text o)) pre = true ->
  forallb (fun o => balanced (text o)) (removelast post) = true ->
  core = [] \/
  (tight core = true /\ JSON.parse core = None /\
   (balanced core = true \/ post = [])) ->
  out (flush (fold_left feed
                (map text pre ++ (if is_empty core then [] else [core]) ++
                 map text post) (NdState [] []))) = pre ++ post.
Proof.
  intros Hj Hbpre Hbpost [->|(Ht & Hp & Hb)].
  - cbn [is_empty Datatypes.app]. rewrite <- map_app.
    apply (finish_objects (pre ++ post) []); [assumption|].
    destruct post as [|q post].
    + rewrite app_nil_r. now apply forallb_removelast.
    + rewrite removelast_app by discriminate. rewrite forallb_app.
      now rewrite Hbpre, Hbpost.
  - rewrite forallb_app in Hj.
    apply andb_true_iff in Hj. destruct Hj as [Hjpre Hjpost].
    destruct core as [|c core]; [discriminate|]. cbn [is_empty Datatypes.app].
    rewrite fold_left_app, feed_objects by assumption.
    cbn [fold_left Datatypes.app].
    destruct (balanced (c :: core)) eqn:Ebm.
    + rewrite feed_line, Hp by assumption. now rewrite finish_objects.
    + destruct Hb as [Hb|Hpost]; [discriminate|]. rewrite Hpost.
      cbn [map fold_left Datatypes.app].
      rewrite feed_line_open, flush_line, Hp by assumption.
      cbn [out]. now rewrite app_nil_r.
Qed.

Lemma parse_with_one_more (pre post : list value) (x core : str) :
  forallb json_object (pre ++ post) = true ->
  forallb (fun o => balanced (text o)) pre = true ->
  forallb (fun o => balanced (text o)) (removelast post) = true ->
  no_newline x = true -> trim x = core ->
  core = [] \/
  (tight core = true /\ JSON.parse core = None /\
   (balanced core = true \/ post = [])) ->
  tight (join [NL] (map text pre ++ x :: map text post)) = true ->
  JSON.parse (join [NL] (map text pre ++ x :: map text post)) = None ->
  parsePossiblyMany (join [NL] (map text pre ++ x :: map text post)) = pre ++ post.
Proof.
  intros Hj Hbpre Hbpost Hx <- Hcore Ht Hp.
  destruct (tight_trim _ Ht) as [Etrim Hne].
  unfold parsePossiblyMany. rewrite Etrim.
  destruct (join [NL] (map text pre ++ x :: map text post)) eqn:E; [congruence|].
  cbn [is_empty orb]. rewrite Hp, <- E. unfold parse_ndjson.
  rewrite lines_with_one_more by assumption.
  now apply feed_with_one_more.
Qed.

(** Object lines, the first of them followed by something not blank, are
    not one JSON text. *)
Lemma parse_object_first (p : value) (l : str) (ls : list str) :
  json_object p = true -> In l ls -> not_blank l = true ->
  JSON.parse (join [NL] (text p :: ls)) = None.
Proof.
  intros Hp Hin Hl. unfold json_object in Hp.
  apply andb_true_iff in Hp. destruct Hp as [_ Hp].
  rewrite join_cons_any by (destruct ls; [destruct Hin|discriminate]).
  apply parse_then_more; [assumption|]. now apply (not_blank_join l).
Qed.

(** One line that is not JSON, anywhere among object lines and with any
    white space around it. *)
Lemma skip_one_line (pre post : list value) (m : str) :
  forallb json_object (pre ++ post) = true ->
  forallb (fun o => balanced (text o)) pre = true ->
  forallb (fun o => balanced (text o)) (removelast post) = true ->
  no_newline m = true ->
  balanced m = true \/ post = [] \/ trim m = [] ->
  JSON.parse (trim m) = None ->
  parsePossiblyMany (join [NL] (map text pre ++ m :: map text post)) = pre ++ post.
Proof.
  intros Hj Hbpre Hbpost Hnl Hb Hpm.
  destruct (trim_split m) as (w1 & w2 & Em & H1 & H2 & Hcore).
  assert (Hbal : balanced (trim m) = balanced m).
  { rewrite Em at 2. now rewrite balanced_pad. }
  remember (trim m) as core eqn:Ecore.
  assert (Hside : core = [] \/
                  (tight core = true /\ JSON.parse core = None /\
                   (balanced core = true \/ post = []))).
  { destruct Hcore as [E|Ht]; [now left|right]. repeat split; try assumption.
    rewrite Hbal. destruct Hb as [Hb|[Hb|Hb]]; [now left|now right|].
    destruct (tight_trim _ Ht). congruence. }
  assert (Hnlc : no_newline w1 = true /\ no_newline core = true /\
                 no_newline w2 = true).
  { rewrite Em, !no_newline_app, !andb_true_iff in Hnl. tauto. }
  destruct Hnlc as (Hn1 & Hnc & Hn2).
  pose proof Hj as Hj'. rewrite forallb_app in Hj'.
  apply andb_true_iff in Hj'. destruct Hj' as [Hjpre Hjpost].
  destruct pre as [|p pre]; destruct post as [|q post].
  - (* the line alone *)
    cbn [map Datatypes.app join].
    destruct Hcore as [E|Ht].
    + unfold parsePossiblyMany. rewrite <- Ecore, E. cbn [is_empty].
      now rewrite orb_true_r.
    + rewrite Em, parsePossiblyMany_pad by assumption.
      apply (parse_with_one_more [] [] core core); try assumption; try reflexivity.
      now destruct (tight_trim _ Ht).
  - (* the line first *)
    change (map text [] ++ m :: map text (q :: post))
      with (m :: map text (q :: post)).
    rewrite join_cons_any by discriminate.
    set (T := join [NL] (map text (q :: post))).
    pose proof (objects_tight q post Hjpost) as HT. fold T in HT.
    destruct Hcore as [E|Ht].
    + rewrite Em, E. cbn [Datatypes.app].
      replace ((w1 ++ w2) ++ NL :: T) with ((w1 ++ w2 ++ [NL]) ++ T ++ [])
        by (rewrite app_nil_r, <- !app_assoc; reflexivity).
      rewrite parsePossiblyMany_pad; try assumption; try reflexivity.
      * now apply parse_objects.
      * rewrite !forallb_app, H1, H2. reflexivity.
    + replace (m ++ NL :: T) with (w1 ++ (core ++ (w2 ++ [NL]) ++ T) ++ [])
        by (rewrite Em, app_nil_r, <- !app_assoc; reflexivity).
      rewrite parsePossiblyMany_pad; try assumption; try reflexivity;
        [|now apply tight_wrap].
      replace (core ++ (w2 ++ [NL]) ++ T)
        with (join [NL] (map text [] ++ (core ++ w2) :: map text (q :: post)))
        by (change (map text [] ++ (core ++ w2) :: map text (q :: post))
          with ((core ++ w2) :: map text (q :: post));
            rewrite join_cons_any by discriminate;
            fold T; rewrite <- !app_assoc; reflexivity).
      apply (parse_with_one_more [] (q :: post) (core ++ w2) core);
        try assumption; try reflexivity.
      * now rewrite no_newline_app, Hnc, Hn2.
      * now apply (trim_pad [] core w2).
      * change (map text [] ++ (core ++ w2) :: map text (q :: post))
          with ((core ++ w2) :: map text (q :: post)).
        rewrite join_cons_any by discriminate.
        fold T. rewrite <- app_assoc.
        change (core ++ w2 ++ NL :: T) with (core ++ (w2 ++ NL :: T)).
        replace (w2 ++ NL :: T) with ((w2 ++ [NL]) ++ T)
          by (rewrite <- app_assoc; reflexivity).
        now apply tight_wrap.
      * change (map text [] ++ (core ++ w2) :: map text (q :: post))
          with ((core ++ w2) :: map text (q :: post)).
        rewrite join_cons_any by discriminate.
        apply parse_before_objects; [|assumption].
        apply skip_ws_not_blank. rewrite not_blank_app.
        now rewrite (not_blank_tight _ Ht).
  - (* the line last *)
    cbn [map Datatypes.app] in *. rewrite !app_nil_r.
    change (text p :: map text pre ++ [m]) with (map text (p :: pre) ++ [m]).
    rewrite join_snoc by discriminate.
    set (P := join [NL] (map text (p :: pre))).
    pose proof (objects_tight p pre Hjpre) as HP. fold P in HP.
    destruct Hcore as [E|Ht].
    + replace (P ++ NL :: m) with ([] ++ P ++ (NL :: m)) by reflexivity.
      rewrite parsePossiblyMany_pad; try assumption; try reflexivity.
      * apply parse_objects; [assumption|]. now apply forallb_removelast.
      * rewrite Em, E. cbn [forallb Datatypes.app]. rewrite forallb_app, H1, H2.
        reflexivity.
    + replace (P ++ NL :: m) with ([] ++ (P ++ (NL :: w1) ++ core) ++ w2)
        by (rewrite Em; cbn [Datatypes.app]; rewrite <- !app_assoc;
            cbn [Datatypes.app]; rewrite <- ?app_assoc; reflexivity).
      rewrite parsePossiblyMany_pad; try assumption; try reflexivity;
        [|now apply tight_wrap].
      replace (P ++ (NL :: w1) ++ core)
        with (join [NL] (map text (p :: pre) ++ (w1 ++ core) :: map text []))
        by (cbn [map]; change (text p :: map text pre) with (map text (p :: pre));
            rewrite join_snoc by discriminate; reflexivity).
      rewrite <- (app_nil_r (p :: pre)) at 2.
      apply (parse_with_one_more (p :: pre) [] (w1 ++ core) core);
        try assumption; try reflexivity.
      * now rewrite no_newline_app, Hn1, Hnc.
      * rewrite <- (app_nil_r core) at 1. now apply (trim_pad w1 core []).
      * cbn [map]. change (text p :: map text pre) with (map text (p :: pre)).
        rewrite join_snoc by discriminate. fold P.
        change (P ++ NL :: w1 ++ core) with (P ++ (NL :: w1) ++ core).
        now apply tight_wrap.
      * cbn [map Datatypes.app].
        apply (parse_object_first p (w1 ++ core)).
        -- cbn [forallb] in Hjpre. now apply andb_true_iff in Hjpre.
        -- apply in_or_app. right. now left.
        -- rewrite not_blank_app, (not_blank_tight _ Ht). apply orb_true_r.
  - (* the line in between *)
    apply (parse_with_one_more (p :: pre) (q :: post) m core);
      try assumption; try (now symmetry).
    + rewrite join_app by discriminate.
      rewrite join_cons_any by discriminate.
      replace (join [NL] (map text (p :: pre)) ++
               NL :: m ++ NL :: join [NL] (map text (q :: post)))
        with (join [NL] (map text (p :: pre)) ++ (NL :: m ++ [NL]) ++
              join [NL] (map text (q :: post)))
        by (cbn [Datatypes.app]; rewrite <- !app_assoc; reflexivity).
      apply tight_wrap; now apply objects_tight.
    + cbn [map Datatypes.app].
      apply (parse_object_first p (text q)).
      * cbn [forallb] in Hjpre. now apply andb_true_iff in Hjpre.
      * apply in_or_app. right. right. now left.
      * apply not_blank_tight, text_tight.
        cbn [forallb] in Hjpost. apply andb_true_iff in Hjpost.
        destruct Hjpost as [Hq _]. unfold json_object in Hq.
        now apply andb_true_iff in Hq.
Qed.

(** C2, as the code has it. Among lines of well-formed JSON objects, one
    more line without a line feed in it, which once trimmed is not a JSON
    text, is skipped, and the objects come back in order, equal to the
    inputs, one fewer than there are lines; no error is raised, the result
    being a plain list. This holds provided that every line that has
    another line after it passes the bracket test on its own (an opening
    bracket, and as many closing as opening ones, counted character by
    character); for the line that is not JSON, a blank line, which is
    dropped before the test, does as well. *)
Theorem C2_malformed_line_skipped (pre post : list value) (m : str) :
  forallb json_object (pre ++ post) = true ->
  forallb (fun o => balanced (text o)) pre = true ->
  forallb (fun o => balanced (text o)) (removelast post) = true ->
  no_newline m = true ->
  balanced m = true \/ post = [] \/ trim m = [] ->
  JSON.parse (trim m) = None ->
  parsePossiblyMany (join [NL] (map text pre ++ m :: map text post)) = pre ++ post /\
  length (parsePossiblyMany (join [NL] (map text pre ++ m :: map text post))) =
  (length (map text pre ++ m :: map text post) - 1)%nat.
Proof.
  intros Hj Hbpre Hbpost Hnl Hb Hpm.
  pose proof (skip_one_line pre post m Hj Hbpre Hbpost Hnl Hb Hpm) as Hmain.
  split; [exact Hmain|]. rewrite Hmain.
  rewrite !length_app. cbn [length]. rewrite !length_map. lia.
Qed.

Lemma C2_witness :
  let a := hd VNull tinyExample in
  let b := vobj [("b", vnum 2)] in
  parsePossiblyMany (join [NL] [text a; lit "{not json}"; text b]) = [a; b].
Proof.
  intros a b.
  exact (proj1 (C2_malformed_line_skipped [a] [b] (lit "{not json}")
                  eq_refl eq_refl eq_refl eq_refl (or_introl eq_refl) eq_refl)).
Defined.

(** C2 as worded fails on a malformed line without brackets that is not
    the last line: it stays in the buffer and takes the next object with
    it. *)
Lemma C2_counterexample :
  let a := vobj [("a", vnum 1)] in
  let b := vobj [("b", vnum 2)] in
  json_object a = true /\ json_object b = true /\
  balanced (text a) = true /\ balanced (text b) = true /\
  JSON.parse (lit "oops") = None /\
  parsePossiblyMany (join [NL] [text a; lit "oops"; text b]) = [a] /\
  parsePossiblyMany (join [NL] [text a; lit "oops"; text b]) <> [a; b].
Proof.
  intros a b. repeat split; try reflexivity.
  vm_compute. discriminate.
Qed.

(* ===================================================================== *)
(** * The explorer: unique values and the field selection *)
(* ===================================================================== *)

Lemma mem_str_In (x : str) (s : list str) : mem_str x s = true <-> In x s.
Proof.
  induction s as [|y s IH]; simpl; [split; [discriminate|tauto]|].
  rewrite orb_true_iff, eqb_str_eq, IH. split; intros [H|H]; auto.
Qed.

Lemma NoDup_snoc {A} (l : list A) (x : A) :
  NoDup l -> ~ In x l -> NoDup (l ++ [x]).
Proof.
  intros H Hx. induction H as [|y s Hy Hs IH]; simpl.
  - constructor; [tauto|constructor].
  - constructor.
    + rewrite in_app_iff. simpl. intros [H|[H|[]]]; [tauto|].
      apply Hx. now left.
    + apply IH. intros H. apply Hx. now right.
Qed.

Lemma set_add_In (s : list str) (x y : str) :
  In y (set_add s x) <-> In y s \/ y = x.
Proof.
  unfold set_add. destruct (mem_str x s) eqn:E.
  - apply mem_str_In in E. split; [tauto|]. intros [H| ->]; assumption.
  - rewrite in_app_iff. simpl. split; intros [H|H]; auto.
    destruct H as [H|[]]; auto.
Qed.

Lemma set_add_NoDup (s : list str) (x : str) : NoDup s -> NoDup (set_add s x).
Proof.
  intros H. unfold set_add. destruct (mem_str x s) eqn:E; [exact H|].
  apply NoDup_snoc; [exact H|].
  intros Hin. apply mem_str_In in Hin. congruence.
Qed.

Lemma fold_set_add_In (arr s : list str) (y : str) :
  In y (fold_left set_add arr s) <-> In y s \/ In y arr.
Proof.
  revert s. induction arr as [|x arr IH]; intros s; simpl; [tauto|].
  rewrite IH, set_add_In. intuition (subst; auto).
Qed.

Lemma fold_set_add_NoDup (arr s : list str) :
  NoDup s -> NoDup (fold_left set_add arr s).
Proof.
  revert s. induction arr as [|x arr IH]; intros s H; simpl; [exact H|].
  apply IH. now apply set_add_NoDup.
Qed.

Lemma fold_set_add_app (arr s : list str) :
  NoDup (s ++ arr) -> fold_left set_add arr s = s ++ arr.
Proof.
  revert s. induction arr as [|x arr IH]; intros s H; simpl.
  - now rewrite app_nil_r.
  - assert (E : set_add s x = s ++ [x]).
    { unfold set_add. destruct (mem_str x s) eqn:Em; [|reflexivity].
      apply mem_str_In in Em. apply NoDup_remove_2 in H.
      exfalso. apply H. apply in_or_app. now left. }
    rewrite E, IH; rewrite <- app_assoc; [reflexivity|exact H].
Qed.

Lemma filter_notin_app (s t arr : list str) :
  filter (fun y => negb (mem_str y t)) (filter (fun y => negb (mem_str y s)) arr) =
  filter (fun y => negb (mem_str y (s ++ t))) arr.
Proof.
  induction arr as [|x arr IH]; [reflexivity|]. cbn [filter].
  rewrite mem_str_app. destruct (mem_str x s); cbn [negb orb filter].
  - exact IH.
  - destruct (mem_str x t); cbn [negb]; now rewrite IH.
Qed.

(** A set passes over the elements it holds already. *)
Lemma fold_set_add_first (arr s : list str) :
  fold_left set_add arr s =
  s ++ unique (filter (fun y => negb (mem_str y s)) arr).
Proof.
  remember (length arr) as n eqn:Hn. revert arr s Hn.
  induction n as [n IH] using lt_wf_ind. intros arr s Hn.
  destruct arr as [|y arr]; [cbn; now rewrite app_nil_r|].
  cbn [fold_left filter]. unfold set_add at 2.
  destruct (mem_str y s) eqn:E; cbn [negb].
  - apply (IH (length arr)); [subst n; simpl; lia|reflexivity].
  - rewrite (IH (length arr)); [|subst n; simpl; lia|reflexivity].
    unfold unique at 2. cbn [fold_left]. change (set_add [] y) with [y].
    rewrite (IH (length (filter (fun y0 => negb (mem_str y0 s)) arr)));
      [| |reflexivity].
    + rewrite filter_notin_app, <- app_assoc. reflexivity.
    + subst n. simpl.
      pose proof (filter_length_le (fun y0 => negb (mem_str y0 s)) arr). lia.
Qed.

(** X1. [unique] keeps one copy of each element, the first, in the order
    of the first occurrences: nothing is lost or invented, a list without
    duplicates is returned as it is, and the head of a list stays the head,
    followed by what [unique] makes of the rest without it. *)
Theorem X1_unique_first_occurrences (arr : list str) :
  NoDup (unique arr) /\
  (forall x, In x (unique arr) <-> In x arr) /\
  (NoDup arr -> unique arr = arr) /\
  (forall x r, arr = x :: r ->
     unique arr = x :: unique (filter (fun y => negb (eqb_str y x)) r)) /\
  unique (unique arr) = unique arr.
Proof.
  assert (Hnd : NoDup (unique arr)) by (apply fold_set_add_NoDup; constructor).
  assert (Hid : forall l, NoDup l -> unique l = l).
  { intros l Hl. unfold unique. now rewrite fold_set_add_app. }
  split; [exact Hnd|]. split; [|split; [apply Hid|split]].
  - intros x. unfold unique. rewrite fold_set_add_In. simpl. tauto.
  - intros x r ->. unfold unique at 1. cbn [fold_left].
    change (set_add [] x) with [x]. rewrite fold_set_add_first.
    cbn [Datatypes.app]. do 2 f_equal. apply filter_ext. intros y.
    cbn [mem_str]. now rewrite orb_false_r.
  - now apply Hid.
Qed.

(** X2. Whatever boxes were ticked and unticked, the selected fields hold no
    field twice; ticking a field that is selected changes nothing, ticking
    another one puts it last; unticking a field removes it and keeps the
    others, in their order. *)
Theorem X2_selection_without_duplicates (clicks : list (bool * str)) (f : str) :
  let sel := selection_after clicks in
  NoDup sel /\
  (In f sel -> setSelectedFields true f sel = sel) /\
  (~ In f sel -> setSelectedFields true f sel = sel ++ [f]) /\
  ~ In f (setSelectedFields false f sel) /\
  (forall g, g <> f -> (In g (setSelectedFields false f sel) <-> In g sel)) /\
  (forall a b, setSelectedFields false f (a ++ b) =
               setSelectedFields false f a ++ setSelectedFields false f b).
Proof.
  intros sel.
  assert (Hnd : NoDup sel).
  { unfold sel, selection_after.
    assert (H0 : NoDup selectedFields0).
    { unfold selectedFields0. repeat constructor; simpl;
        intuition discriminate. }
    revert H0. generalize selectedFields0.
    induction clicks as [|[b g] clicks IH]; intros s Hs; [exact Hs|].
    cbn [fold_left]. apply IH. unfold setSelectedFields. cbn [fst snd].
    destruct b.
    - apply fold_set_add_NoDup. constructor.
    - now apply NoDup_filter. }
  split; [exact Hnd|]. unfold setSelectedFields.
  split; [|split; [|split; [|split]]].
  - intros Hin. unfold unique. rewrite fold_left_app. cbn [fold_left].
    rewrite (fold_set_add_app sel []) by exact Hnd. cbn [Datatypes.app].
    unfold set_add. now rewrite (proj2 (mem_str_In f sel) Hin).
  - intros Hnin. unfold unique. apply (fold_set_add_app (sel ++ [f]) []).
    cbn [Datatypes.app]. now apply NoDup_snoc.
  - rewrite filter_In. intros [_ H]. now rewrite eqb_str_refl in H.
  - intros g Hg. rewrite filter_In. split; [tauto|]. intros H. split; [exact H|].
    apply negb_true_iff. now apply eqb_str_neq.
  - intros a b. apply filter_app.
Qed.

(* ===================================================================== *)
(** * The explorer: the CSV file *)
(* ===================================================================== *)






(* ===================================================================== *)
(** * The explorer: flattening trigger sets to product rows *)
(* ===================================================================== *)

Lemma push_rows_traverse (src : source_tag) (ps : list value) (rows : list ProductRow) :
  push_rows src ps rows =
  match traverse (fun p => deriveProductRow p src) ps with
  | Some a => Some (rows ++ a)
  | None => None
  end.
Proof.
  revert rows. induction ps as [|p ps IH]; intros rows; cbn [push_rows traverse].
  - now rewrite app_nil_r.
  - destruct (deriveProductRow p src) as [row|]; [|reflexivity].
    rewrite IH. destruct (traverse _ ps); [|reflexivity].
    now rewrite <- app_assoc.
Qed.

Lemma flatten_trigger_set_rows (set : value) (rows : list ProductRow) :
  flatten_trigger_set set rows =
  match set_product_rows set with
  | Some a => Some (rows ++ a)
  | None => None
  end.
Proof.
  unfold flatten_trigger_set, set_product_rows. cbv zeta.
  destruct (iterate (or_else (get_opt (get_opt set (lit "triggerProduct")) _) _))
    as [ts|]; [|reflexivity].
  rewrite push_rows_traverse.
  destruct (iterate (or_else (get_opt (get_opt set (lit "triggerUpsell")) _) _))
    as [us|].
  - destruct (traverse _ ts) as [a|]; [|reflexivity].
    rewrite push_rows_traverse.
    destruct (traverse _ us) as [b|]; [|reflexivity].
    now rewrite app_assoc.
  - now destruct (traverse _ ts).
Qed.

Lemma flatten_trigger_sets_rows (sets : list value) (rows : list ProductRow) :
  flatten_trigger_sets sets rows =
  match sets_product_rows sets with
  | Some a => Some (rows ++ a)
  | None => None
  end.
Proof.
  unfold sets_product_rows. revert rows.
  induction sets as [|set sets IH]; intros rows; cbn [flatten_trigger_sets traverse].
  - cbn. now rewrite app_nil_r.
  - rewrite flatten_trigger_set_rows.
    destruct (set_product_rows set) as [a|]; [|reflexivity].
    rewrite IH. destruct (traverse set_product_rows sets) as [rs|]; [|reflexivity].
    cbn [concat]. now rewrite app_assoc.
Qed.

(** X4. An array of trigger sets, bare or as the [trigger_set] of a wrapper
    object, is flattened to the same rows: set after set, a row for each
    trigger product and then a row for each upsell product, nothing else,
    as long as there is at least one product. *)
Theorem X4_flatten_trigger_sets (data : value) (sets : list value)
    (rows : list ProductRow) :
  data = VArr sets \/
  (exists o, data = VObj o /\ lookup (lit "trigger_set") o = Some (VArr sets)) ->
  sets_product_rows sets = Some rows -> rows <> [] ->
  flattenA7TriggerJSON data = Some rows /\
  flattenA7TriggerJSON (VArr sets) = Some rows.
Proof.
  intros Hd Hs Hne.
  assert (H : forall d,
             match d with
             | VArr l => l
             | _ => match get_opt d (lit "trigger_set") with
                    | VArr l => l
                    | _ => []
                    end
             end = sets -> flattenA7TriggerJSON d = Some rows).
  { intros d Hsets. unfold flattenA7TriggerJSON. cbv zeta. rewrite Hsets.
    rewrite flatten_trigger_sets_rows, Hs. cbn [Datatypes.app].
    destruct rows; [congruence|reflexivity]. }
  split.
  - apply H. destruct Hd as [->|[o [-> Ho]]]; [reflexivity|].
    unfold get_opt, get. now rewrite Ho.
  - now apply H.
Qed.

Lemma X4_witness :
  exists rows,
    flattenA7TriggerJSON (VObj [(lit "trigger_set", VArr tinyExample)]) = Some rows /\
    flattenA7TriggerJSON (VArr tinyExample) = Some rows /\
    map source rows = [trigger; upsell].
Proof.
  eexists. 
  assert (E : sets_product_rows tinyExample = Some _) by reflexivity.
  split; [|split].
  - refine (proj1 (X4_flatten_trigger_sets _ tinyExample _ _ E _)).
    + right. eexists. split; reflexivity.
    + discriminate.
  - reflexivity.
  - reflexivity.
Defined.

(** X5. What [flattenA7TriggerJSON] gives for data that holds no product: no
    row when the data is not an object (a number, a string, a boolean,
    [undefined]); for an object or an array one row tagged raw, made of the
    data itself, so that the result is never empty for them, the empty array
    and any array of sets without products included; and a TypeError for
    [null]. *)
Theorem X5_flatten_without_products (data : value) :
  (typeof_object data = false -> flattenA7TriggerJSON data = Some []) /\
  flattenA7TriggerJSON VNull = None /\
  (forall rows, typeof_object data = true ->
     flattenA7TriggerJSON data = Some rows -> rows <> []) /\
  (forall o, data = VObj o -> lookup (lit "trigger_set") o = None ->
     flattenA7TriggerJSON data =
     match deriveProductRow data rawsrc with
     | Some r => Some [r]
     | None => None
     end) /\
  (exists r, flattenA7TriggerJSON (VArr []) = Some [r] /\ source r = rawsrc /\
             product_variants r = [] /\ price_min r = None /\ available r = None) /\
  (forall sets, data = VArr sets -> sets_product_rows sets = Some [] ->
     exists r, flattenA7TriggerJSON data = Some [r] /\ source r = rawsrc /\
               product_variants r = [] /\ price_min r = None /\
               available r = None).
Proof.
  split; [|split; [reflexivity|split; [|split; [|split]]]].
  - destruct data; try discriminate; reflexivity.
  - intros rows Ht. unfold flattenA7TriggerJSON. cbv zeta.
    destruct (flatten_trigger_sets _ []) as [rs|]; [|discriminate].
    rewrite Ht, andb_true_r.
    destruct rs as [|r rs]; cbn [length Nat.eqb].
    + destruct (deriveProductRow data rawsrc); [|discriminate].
      intros [= <-]. discriminate.
    + intros [= <-]. discriminate.
  - intros o -> Ho. unfold flattenA7TriggerJSON, get_opt, get. now rewrite Ho.
  - eexists. split; [reflexivity|]. repeat split.
  - intros sets -> Hs. unfold flattenA7TriggerJSON. cbv zeta.
    rewrite flatten_trigger_sets_rows, Hs.
    eexists. split; [reflexivity|]. repeat split.
Qed.

(* ===================================================================== *)
(** * What a parse leaves is the end of what it was given *)
(* ===================================================================== *)

Lemma ends_with_trans (a b c : str) :
  ends_with a b -> ends_with b c -> ends_with a c.
Proof. intros [x ->] [y ->]. exists (y ++ x). now rewrite app_assoc. Qed.

Lemma ends_with_cons_r (a s : str) (c : ascii) : ends_with a s -> ends_with a (c :: s).
Proof. intros [x ->]. now exists (c :: x). Qed.

Lemma ends_with_uncons (c : ascii) (r s : str) : ends_with (c :: r) s -> ends_with r s.
Proof. intros [x ->]. exists (x ++ [c]). now rewrite <- app_assoc. Qed.

Lemma skip_ws_suffix (s : str) : ends_with (JSON.skip_ws s) s.
Proof.
  induction s as [|c s IH]; [apply ends_with_refl|]. cbn [JSON.skip_ws].
  destruct (JSON.is_ws c); [now apply ends_with_cons_r|apply ends_with_refl].
Qed.

Lemma parse_string_suffix (s t r : str) :
  JSON.parse_string s = Some (t, r) -> ends_with r s.
Proof.
  remember (length s) as n eqn:Hn. revert s t r Hn.
  induction n as [n IH] using lt_wf_ind. intros s t r Hn H.
  destruct s as [|c s]; [discriminate|]. cbn [JSON.parse_string] in H.
  destruct (Ascii.eqb c QUOTE).
  { injection H as <- <-. apply ends_with_cons_r, ends_with_refl. }
  destruct (Ascii.eqb c BACKSLASH).
  - destruct s as [|e s]; [discriminate|].
    destruct (JSON.unescape e).
    + apply cons_fst_length in H. destruct H as [t' H].
      do 2 apply ends_with_cons_r.
      apply (IH (length s)) in H; [assumption|subst n; simpl; lia|reflexivity].
    + destruct (Ascii.eqb e (chr 117)); [|discriminate].
      destruct s as [|h1 [|h2 [|h3 [|h4 s]]]]; try discriminate.
      destruct (JSON.hex_val h1), (JSON.hex_val h2), (JSON.hex_val h3),
        (JSON.hex_val h4); try discriminate.
      destruct ((z =? 0) && (z0 =? 0)); [|discriminate].
      apply cons_fst_length in H. destruct H as [t' H].
      do 6 apply ends_with_cons_r.
      apply (IH (length s)) in H; [assumption|subst n; simpl; lia|reflexivity].
  - destruct (code c <? 32); [discriminate|].
    apply cons_fst_length in H. destruct H as [t' H].
    apply ends_with_cons_r.
    apply (IH (length s)) in H; [assumption|subst n; simpl; lia|reflexivity].
Qed.

Lemma span_eq (p : ascii -> bool) (s x y : str) : span p s = (x, y) -> s = x ++ y.
Proof.
  revert x y. induction s as [|c s IH]; intros x y; cbn [span].
  - now intros [= <- <-].
  - destruct (p c); [|now intros [= <- <-]].
    destruct (span p s) as [x' y'] eqn:E. intros [= <- <-].
    cbn [Datatypes.app]. f_equal. now apply IH.
Qed.

Lemma span_suffix (p : ascii -> bool) (s x y : str) :
  span p s = (x, y) -> ends_with y s.
Proof. intros H. exists x. now apply span_eq in H. Qed.

Lemma read_exponent_suffix (s : str) (b : bool) (ep r : str) :
  read_exponent s = Some (b, ep, r) -> ends_with r s.
Proof.
  unfold read_exponent. destruct s as [|c s]; [intros [= <- <- <-]; apply ends_with_refl|].
  destruct (Ascii.eqb c (chr 101) || Ascii.eqb c (chr 69));
    [|intros [= <- <- <-]; apply ends_with_refl].
  destruct s as [|c1 s'].
  - cbn. discriminate.
  - destruct (Ascii.eqb c1 (chr 45)); [|destruct (Ascii.eqb c1 (chr 43))];
      match goal with |- context [span is_digit ?x] =>
        destruct (span is_digit x) as [a r2] eqn:E end;
      (destruct (is_empty a); [discriminate|]);
      intros [= <- <- <-]; apply span_suffix in E;
      first [exact (ends_with_cons_r _ _ _ E)
            |exact (ends_with_cons_r _ _ _ (ends_with_cons_r _ _ _ E))].
Qed.

Lemma parse_fraction_suffix (s fp r : str) :
  JSON.parse_fraction s = Some (fp, r) -> ends_with r s.
Proof.
  unfold JSON.parse_fraction. destruct s as [|c s]; [intros [= <- <-]; apply ends_with_refl|].
  destruct (Ascii.eqb c (chr 46)); [|intros [= <- <-]; apply ends_with_refl].
  destruct (span is_digit s) as [a r2] eqn:E.
  destruct (is_empty a); [discriminate|].
  intros [= <- <-]. apply ends_with_cons_r. now apply span_suffix in E.
Qed.

Lemma parse_unsigned_suffix (neg : bool) (s : str) (d : dec) (r : str) :
  JSON.parse_unsigned neg s = Some (d, r) -> ends_with r s.
Proof.
  unfold JSON.parse_unsigned.
  destruct (span is_digit s) as [ip r1] eqn:E1.
  destruct ip as [|d0 tl]; [discriminate|].
  destruct (Ascii.eqb d0 (chr 48) && negb (is_empty tl)); [discriminate|].
  destruct (JSON.parse_fraction r1) as [[fp r2]|] eqn:E2; [|discriminate].
  destruct (read_exponent r2) as [[[eneg ep] r3]|] eqn:E3; [|discriminate].
  intros [= <- <-].
  apply read_exponent_suffix in E3. apply parse_fraction_suffix in E2.
  apply span_suffix in E1.
  eapply ends_with_trans; [exact E3|]. eapply ends_with_trans; eassumption.
Qed.

Lemma parse_number_suffix (s : str) (d : dec) (r : str) :
  JSON.parse_number s = Some (d, r) -> ends_with r s.
Proof.
  unfold JSON.parse_number. destruct s as [|c s]; [discriminate|].
  destruct (Ascii.eqb c (chr 45)); intros H; apply parse_unsigned_suffix in H;
    [now apply ends_with_cons_r|exact H].
Qed.

Lemma strip_prefix_eq (p s r : str) : JSON.strip_prefix p s = Some r -> s = p ++ r.
Proof.
  revert s. induction p as [|a p IH]; intros s; cbn [JSON.strip_prefix].
  - now intros [= <-].
  - destruct s as [|b s]; [discriminate|].
    destruct (Ascii.eqb a b) eqn:E; [|discriminate].
    apply Ascii.eqb_eq in E. subst b. intros H. cbn [Datatypes.app]. f_equal.
    now apply IH.
Qed.

Lemma strip_prefix_suffix (p s r : str) :
  JSON.strip_prefix p s = Some r -> ends_with r s.
Proof. intros H. exists p. now apply strip_prefix_eq. Qed.

(** The suffix facts of the steps a successful parse went through. *)
Ltac suffix_facts IHv IHe IHm :=
  repeat match goal with
         | E : JSON.skip_ws ?s = ?c :: ?r |- _ =>
             let K := fresh "K" in
             pose proof (skip_ws_suffix s) as K; rewrite E in K;
             pose proof (ends_with_uncons _ _ _ K); revert E
         | E : JSON.parse_string _ = Some _ |- _ =>
             pose proof (parse_string_suffix _ _ _ E); revert E
         | E : JSON.parse_number _ = Some _ |- _ =>
             pose proof (parse_number_suffix _ _ _ E); revert E
         | E : JSON.strip_prefix _ _ = Some _ |- _ =>
             pose proof (strip_prefix_suffix _ _ _ E); revert E
         | E : JSON.parse_value _ _ = Some _ |- _ =>
             pose proof (IHv _ _ _ E); revert E
         | E : JSON.parse_elements _ _ = Some _ |- _ =>
             pose proof (IHe _ _ _ E); revert E
         | E : JSON.parse_members _ _ = Some _ |- _ =>
             pose proof (IHm _ _ _ E); revert E
         end;
  intros.

Ltac suffix_chain :=
  first [ apply ends_with_refl
        | assumption
        | match goal with
          | H : ends_with ?r ?x |- ends_with ?r ?s =>
              apply (ends_with_trans r x s H); clear H; suffix_chain
          end ].

Lemma parse_suffix (f : nat) :
  (forall s v r, JSON.parse_value f s = Some (v, r) -> ends_with r s) /\
  (forall s vs r, JSON.parse_elements f s = Some (vs, r) -> ends_with r s) /\
  (forall s kvs r, JSON.parse_members f s = Some (kvs, r) -> ends_with r s).
Proof.
  induction f as [|f [IHv [IHe IHm]]].
  { repeat split; discriminate. }
  split; [|split].
  - intros s v r H. cbn [JSON.parse_value] in H. break_parse H;
      apply some_eq in H; injection H as <- <-;
      suffix_facts IHv IHe IHm; suffix_chain.
  - intros s vs r H. cbn [JSON.parse_elements] in H. break_parse H;
      apply some_eq in H; injection H as <- <-;
      suffix_facts IHv IHe IHm; suffix_chain.
  - intros s kvs r H. cbn [JSON.parse_members] in H. break_parse H;
      apply some_eq in H; injection H as <- <-;
      suffix_facts IHv IHe IHm; suffix_chain.
Qed.

(* ===================================================================== *)
(** * The explorer: what extractJSON returns *)
(* ===================================================================== *)

Lemma includes_suffix (c : ascii) (r s : str) :
  ends_with r s -> includes_char c s = false -> includes_char c r = false.
Proof.
  intros [a ->]. rewrite includes_char_app. intros H.
  now apply orb_false_iff in H.
Qed.

Lemma includes_char_head (c : ascii) (r : str) : includes_char c (c :: r) = true.
Proof. unfold includes_char. cbn [existsb]. now rewrite Ascii.eqb_refl. Qed.

(** A text that starts with a brace parses to an object, one that starts
    with a square bracket to an array. *)
Lemma parse_value_kind (f : nat) (c : ascii) (x : str) (v : value) (r : str) :
  JSON.parse_value f (c :: x) = Some (v, r) ->
  (code c = 123 -> is_object v = true) /\ (code c = 91 -> is_array v = true).
Proof.
  destruct f as [|f]; [discriminate|]. cbn [JSON.parse_value JSON.skip_ws].
  destruct (JSON.is_ws c) eqn:Ews.
  { intros _. unfold JSON.is_ws in Ews.
    split; intros Hc; rewrite Hc in Ews; discriminate. }
  cbv zeta. destruct (code c =? 123) eqn:E1.
  { intros H. apply Z.eqb_eq in E1. break_parse H;
      apply some_eq in H; injection H as <- <-; (split; [reflexivity|lia]). }
  destruct (code c =? 91) eqn:E2.
  { intros H. apply Z.eqb_eq in E2. break_parse H;
      apply some_eq in H; injection H as <- <-; (split; [lia|reflexivity]). }
  intros _. apply Z.eqb_neq in E1, E2. split; intros; contradiction.
Qed.

Lemma parse_kind (c : ascii) (x : str) (v : value) :
  JSON.parse (c :: x) = Some v ->
  (code c = 123 -> is_object v = true) /\ (code c = 91 -> is_array v = true).
Proof.
  unfold JSON.parse.
  destruct (JSON.parse_value _ (c :: x)) as [[w r]|] eqn:E; [|discriminate].
  destruct (is_empty (JSON.skip_ws r)); [|discriminate].
  intros [= <-]. exact (parse_value_kind _ _ _ _ _ E).
Qed.

(** What the loop returns is [null] or the first candidate that parsed. *)
Lemma scan_cases (o c : ascii) (rest : str) (d : Z) (taken : str) :
  scan o c d taken rest = VNull \/
  exists p q, rest = p ++ q /\ p <> [] /\
              JSON.parse (taken ++ p) = Some (scan o c d taken rest).
Proof.
  revert d taken. induction rest as [|ch rest IH]; intros d taken; [now left|].
  cbn [scan]. cbv zeta.
  set (d2 := if Ascii.eqb ch c
             then (if Ascii.eqb ch o then d + 1 else d) - 1
             else if Ascii.eqb ch o then d + 1 else d).
  assert (Hgo : scan o c d2 (taken ++ [ch]) rest = VNull \/
                exists p q, ch :: rest = p ++ q /\ p <> [] /\
                  JSON.parse (taken ++ p) = Some (scan o c d2 (taken ++ [ch]) rest)).
  { destruct (IH d2 (taken ++ [ch])) as [H|(p & q & -> & _ & H)]; [now left|].
    right. exists (ch :: p), q. rewrite <- app_assoc in H.
    repeat split; [discriminate|exact H]. }
  destruct (d2 =? 0); [|exact Hgo].
  destruct (JSON.parse (taken ++ [ch])) as [v|] eqn:E; [|exact Hgo].
  right. exists [ch], rest. repeat split; [discriminate|exact E].
Qed.

Lemma indexOf_absent (c : ascii) (s : str) :
  indexOf c s = -1 <-> includes_char c s = false.
Proof.
  unfold includes_char. induction s as [|x s IH]; [now split|].
  cbn [indexOf existsb]. rewrite (Ascii.eqb_sym c x).
  destruct (Ascii.eqb x c); [split; discriminate|]. cbn [orb].
  destruct (indexOf c s =? -1) eqn:E.
  - apply Z.eqb_eq in E. split; [intros _; now apply IH|reflexivity].
  - apply Z.eqb_neq in E. rewrite <- IH. split; [|congruence].
    assert (-1 <= indexOf c s).
    { clear. induction s as [|y s IH]; cbn [indexOf]; [lia|].
      destruct (Ascii.eqb y c); [lia|]. destruct (indexOf c s =? -1); lia. }
    lia.
Qed.

Lemma indexOf_found (c : ascii) (s : str) :
  indexOf c s <> -1 ->
  exists a b, s = a ++ c :: b /\ includes_char c a = false /\
              indexOf c s = Z.of_nat (length a).
Proof.
  induction s as [|x s IH]; [cbn; congruence|]. cbn [indexOf].
  destruct (Ascii.eqb x c) eqn:Ex.
  - apply Ascii.eqb_eq in Ex. subst x. intros _. now exists [], s.
  - destruct (indexOf c s =? -1) eqn:E; [congruence|]. intros _.
    apply Z.eqb_neq in E. destruct (IH E) as (a & b & -> & Ha & Hi).
    exists (x :: a), b. repeat split.
    + unfold includes_char in *. cbn [existsb].
      now rewrite Ascii.eqb_sym, Ex, Ha.
    + rewrite Hi. cbn [length]. lia.
Qed.

Lemma indexOf_app (c : ascii) (a b : str) :
  includes_char c a = false -> indexOf c (a ++ c :: b) = Z.of_nat (length a).
Proof.
  unfold includes_char. induction a as [|y a IH]; cbn [Datatypes.app indexOf existsb].
  - now rewrite Ascii.eqb_refl.
  - intros H. apply orb_false_iff in H. destruct H as [Hy Ha].
    rewrite Ascii.eqb_sym, Hy, (IH Ha). cbn [length].
    destruct (Z.of_nat (length a) =? -1) eqn:E; [apply Z.eqb_eq in E|]; lia.
Qed.

(** Where [extractJSON] starts when the text is not JSON as a whole: at the
    first brace or square bracket; without any, the result is [null]. *)
Lemma extract_start (text : str) :
  JSON.parse text = None ->
  (includes_char (chr 123) text = false /\ includes_char (chr 91) text = false /\
   extractJSON text = VNull) \/
  exists a open b,
    text = a ++ open :: b /\
    includes_char (chr 123) a = false /\ includes_char (chr 91) a = false /\
    (open = chr 123 \/ open = chr 91) /\
    extractJSON text =
    scan open (if Ascii.eqb open (chr 123) then chr 125 else chr 93) 0 []
         (open :: b).
Proof.
  intros Ep. unfold extractJSON. rewrite Ep. cbv zeta.
  set (objStart := indexOf (chr 123) text).
  set (arrStart := indexOf (chr 91) text).
  set (start := if negb (objStart =? -1) && ((arrStart =? -1) || (objStart <? arrStart))
                then objStart else arrStart).
  assert (Hsplit :
            (start = -1 /\ objStart = -1 /\ arrStart = -1) \/
            exists a open b,
              text = a ++ open :: b /\ start = Z.of_nat (length a) /\
              includes_char (chr 123) a = false /\ includes_char (chr 91) a = false /\
              (open = chr 123 \/ open = chr 91)).
  { unfold start.
    destruct (objStart =? -1) eqn:Eo; cbn [negb andb].
    - apply Z.eqb_eq in Eo. destruct (Z.eq_dec arrStart (-1)) as [Ea|Ea]; [now left|].
      right. destruct (indexOf_found _ _ Ea) as (a & b & E & Ha & Hi).
      exists a, (chr 91), b. repeat split; try assumption; [|now right].
      apply indexOf_absent in Eo. rewrite E, includes_char_app in Eo.
      now apply orb_false_iff in Eo.
    - apply Z.eqb_neq in Eo. right.
      destruct (indexOf_found _ _ Eo) as (a & b & E & Ha & Hi).
      destruct (arrStart =? -1) eqn:Ea; cbn [orb].
      + apply Z.eqb_eq in Ea. exists a, (chr 123), b.
        repeat split; try assumption; [|now left].
        apply indexOf_absent in Ea. rewrite E, includes_char_app in Ea.
        now apply orb_false_iff in Ea.
      + apply Z.eqb_neq in Ea.
        destruct (indexOf_found _ _ Ea) as (a2 & b2 & E2 & Ha2 & Hi2).
        fold objStart in Hi. fold arrStart in Hi2. rewrite Hi, Hi2.
        destruct (Z.of_nat (length a) <? Z.of_nat (length a2)) eqn:El.
        * apply Z.ltb_lt in El. exists a, (chr 123), b.
          repeat split; try assumption; [|now left].
          destruct (includes_char (chr 91) a) eqn:Hb; [|reflexivity]. exfalso.
          assert (Hne : indexOf (chr 91) a <> -1).
          { intros H. apply indexOf_absent in H. congruence. }
          destruct (indexOf_found _ _ Hne) as (a1 & b1 & E1 & Ha1 & _).
          assert (Hidx : arrStart = Z.of_nat (length a1)).
          { unfold arrStart. rewrite E, E1, <- app_assoc. cbn [Datatypes.app].
            now apply indexOf_app. }
          rewrite E1, length_app in El. cbn [length] in El. lia.
        * apply Z.ltb_ge in El. exists a2, (chr 91), b2.
          repeat split; try assumption; [|now right].
          destruct (includes_char (chr 123) a2) eqn:Hb; [|reflexivity]. exfalso.
          assert (Hne : indexOf (chr 123) a2 <> -1).
          { intros H. apply indexOf_absent in H. congruence. }
          destruct (indexOf_found _ _ Hne) as (a1 & b1 & E1 & Ha1 & _).
          assert (Hidx : objStart = Z.of_nat (length a1)).
          { unfold objStart. rewrite E2, E1, <- app_assoc. cbn [Datatypes.app].
            now apply indexOf_app. }
          assert (length a2 = length a1 + S (length b1))%nat
            by (rewrite E1, length_app; reflexivity).
          assert (Z.of_nat (length a) = Z.of_nat (length a1)) by lia.
          assert (a = a2 -> False).
          { intros ->. rewrite E in E2. apply app_inv_head in E2. discriminate. }
          lia. }
  destruct Hsplit as [(Hs & Ho & Ha)|(a & open & b & E & Hs & Ha1 & Ha2 & Hopen)].
  - left. rewrite Hs. cbn. now rewrite <- !indexOf_absent.
  - right. exists a, open, b. repeat split; try assumption.
    assert (Hne : (start =? -1) = false) by (apply Z.eqb_neq; lia).
    rewrite Hne, Hs, Nat2Z.id, E, skipn_app, Nat.sub_diag, skipn_all.
    reflexivity.
Qed.

(** The three ways [extractJSON] ends: the text parsed as a whole, [null],
    or a piece that starts at the first brace or square bracket parsed. *)
Lemma extractJSON_cases (text : str) :
  JSON.parse text = Some (extractJSON text) \/
  (JSON.parse text = None /\
   (extractJSON text = VNull \/
    exists a open cand b,
      text = a ++ (open :: cand) ++ b /\
      (open = chr 123 \/ open = chr 91) /\
      JSON.parse (open :: cand) = Some (extractJSON text))).
Proof.
  destruct (JSON.parse text) as [v|] eqn:Ep.
  { left. unfold extractJSON. now rewrite Ep. }
  right. split; [reflexivity|].
  destruct (extract_start text Ep) as [(_ & _ & H)|(a & open & b & E & _ & _ & Ho & H)];
    [now left|].
  rewrite H.
  destruct (scan_cases open (if Ascii.eqb open (chr 123) then chr 125 else chr 93)
              (open :: b) 0 []) as [K|(p & q & Epq & Hp & K)]; [now left|].
  right. destruct p as [|x p]; [congruence|]. cbn [Datatypes.app] in Epq, K.
  injection Epq as <- ->.
  exists a, open, p, q. repeat split; assumption.
Qed.

(** A text without an opening brace holds no object. *)
Lemma parse_no_object (f : nat) :
  (forall s v r, JSON.parse_value f s = Some (v, r) ->
                 includes_char (chr 123) s = false -> has_object v = false) /\
  (forall s vs r, JSON.parse_elements f s = Some (vs, r) ->
                  includes_char (chr 123) s = false ->
                  existsb has_object vs = false).
Proof.
  induction f as [|f [IHv IHe]].
  { split; discriminate. }
  destruct (parse_suffix f) as (Sv & Se & Sm).
  split.
  - intros s v r H Hs. cbn [JSON.parse_value] in H. break_parse H;
      apply some_eq in H; injection H as <- <-;
      suffix_facts Sv Se Sm; try reflexivity.
    + exfalso.
      match goal with
      | C : (code ?c =? 123) = true, K : ends_with (?c :: _) s |- _ =>
          apply Z.eqb_eq in C; change 123 with (code (chr 123)) in C;
          apply code_inj in C; subst c;
          pose proof (includes_suffix _ _ _ K Hs) as Hc;
          rewrite includes_char_head in Hc; discriminate
      end.
    + exfalso.
      match goal with
      | C : (code ?c =? 123) = true, K : ends_with (?c :: _) s |- _ =>
          apply Z.eqb_eq in C; change 123 with (code (chr 123)) in C;
          apply code_inj in C; subst c;
          pose proof (includes_suffix _ _ _ K Hs) as Hc;
          rewrite includes_char_head in Hc; discriminate
      end.
    + cbn [has_object].
      match goal with
      | E : JSON.parse_elements f ?x = Some _ |- _ =>
          apply (IHe _ _ _ E); eapply includes_suffix; [|exact Hs]; suffix_chain
      end.
  - intros s vs r H Hs. cbn [JSON.parse_elements] in H. break_parse H;
      apply some_eq in H; injection H as <- <-;
      suffix_facts Sv Se Sm; cbn [existsb];
      match goal with
      | E : JSON.parse_value f s = Some (?v, _) |- _ =>
          rewrite (IHv _ _ _ E Hs)
      end; cbn [orb]; [|reflexivity].
    match goal with
    | E : JSON.parse_elements f ?x = Some _ |- _ =>
        apply (IHe _ _ _ E); eapply includes_suffix; [|exact Hs]; suffix_chain
    end.
Qed.

Lemma parse_top_no_object (s : str) (v : value) :
  JSON.parse s = Some v -> includes_char (chr 123) s = false ->
  has_object v = false.
Proof.
  unfold JSON.parse.
  destruct (JSON.parse_value _ s) as [[w r]|] eqn:E; [|discriminate].
  destruct (is_empty (JSON.skip_ws r)); [|discriminate].
  intros [= <-] Hs. destruct (parse_no_object (2 * length s + 2)) as [Hv _].
  exact (Hv _ _ _ E Hs).
Qed.

Lemma extractJSON_no_object (text : str) :
  includes_char (chr 123) text = false -> has_object (extractJSON text) = false.
Proof.
  intros Hs.
  destruct (extractJSON_cases text)
    as [H|[_ [->|(a & open & cand & b & E & _ & H)]]].
  - exact (parse_top_no_object _ _ H Hs).
  - reflexivity.
  - apply (parse_top_no_object _ _ H). rewrite E in Hs.
    rewrite !includes_char_app in Hs.
    apply orb_false_iff in Hs. destruct Hs as [_ Hs].
    now apply orb_false_iff in Hs.
Qed.

(* ===================================================================== *)
(** * The explorer: text of an RTF file *)
(* ===================================================================== *)

Lemma replace_go_forall (P : ascii -> bool) (m : str -> nat) (rep s : str) (k : nat) :
  forallb P rep = true -> forallb P s = true ->
  forallb P (replace_go m rep k s) = true.
Proof.
  intros Hrep. revert k. induction s as [|c s IH]; intros k Hs; [reflexivity|].
  cbn [forallb] in Hs. apply andb_true_iff in Hs. destruct Hs as [Hc Hs].
  cbn [replace_go]. destruct k as [|k]; [|now apply IH].
  destruct (m (c :: s)) as [|n].
  - cbn [forallb]. now rewrite Hc, IH.
  - rewrite forallb_app, Hrep. now apply IH.
Qed.

Lemma trim_forall (P : ascii -> bool) (s : str) :
  forallb P s = true -> forallb P (trim s) = true.
Proof.
  destruct (trim_split s) as (w1 & w2 & E & _). intros H. rewrite E in H.
  rewrite !forallb_app in H. apply andb_true_iff in H. destruct H as [_ H].
  now apply andb_true_iff in H.
Qed.

Lemma rtfToText_no_brace (rtf : str) :
  forallb (fun c => negb (is_brace c)) (rtfToText rtf) = true.
Proof.
  unfold rtfToText. apply trim_forall. apply replace_go_forall; [reflexivity|].
  apply forallb_forall. intros x Hx. now apply filter_In in Hx.
Qed.

Lemma no_brace_includes (s : str) :
  forallb (fun c => negb (is_brace c)) s = true ->
  includes_char (chr 123) s = false /\ includes_char (chr 125) s = false.
Proof.
  unfold includes_char. induction s as [|c s IH]; [now split|].
  cbn [forallb existsb]. rewrite andb_true_iff, negb_true_iff. intros [Hc Hs].
  destruct (IH Hs) as [-> ->]. rewrite !orb_false_r.
  unfold is_brace in Hc. apply orb_false_iff in Hc. destruct Hc as [H1 H2].
  rewrite !ascii_eqb_code. rewrite Z.eqb_sym, (Z.eqb_sym (code (chr 125))).
  now split.
Qed.

Lemma sets_no_object (l : list value) :
  existsb has_object l = false -> sets_product_rows l = Some [].
Proof.
  unfold sets_product_rows. induction l as [|set l IH]; [reflexivity|].
  cbn [existsb]. intros Hd. apply orb_false_iff in Hd. destruct Hd as [Hset Hl].
  specialize (IH Hl). cbn [traverse].
  assert (E : set_product_rows set = Some []).
  { now destruct set as [| |b|n|x|l'|o]; try discriminate. }
  rewrite E. destruct (traverse set_product_rows l) as [rs|]; [|discriminate].
  cbn [concat Datatypes.app]. exact IH.
Qed.

(** Rows of data without any object: none, or one raw row. *)
Lemma flatten_no_object (data : value) (rows : list ProductRow) :
  has_object data = false -> flattenA7TriggerJSON data = Some rows ->
  Forall (fun r => source r = rawsrc) rows /\ (length rows <= 1)%nat.
Proof.
  intros Hd. destruct data as [| |b|n|x|l|o]; try discriminate;
    try (intros [= <-]; split; [constructor|simpl; lia]).
  unfold flattenA7TriggerJSON. cbv zeta. rewrite flatten_trigger_sets_rows.
  rewrite (sets_no_object l Hd).
  cbn [Datatypes.app length Nat.eqb typeof_object andb].
  destruct (deriveProductRow (VArr l) rawsrc) as [r|] eqn:Er; [|discriminate].
  intros [= <-]. split; [|simpl; lia]. constructor; [|constructor].
  unfold deriveProductRow in Er. cbn in Er. now injection Er as <-.
Qed.

(* ===================================================================== *)
(** * A parse goes the same way when more text follows *)
(* ===================================================================== *)

Lemma parse_string_app (s t r q : str) :
  JSON.parse_string s = Some (t, r) -> JSON.parse_string (s ++ q) = Some (t, r ++ q).
Proof.
  remember (length s) as n eqn:Hn. revert s t r Hn.
  induction n as [n IH] using lt_wf_ind. intros s t r Hn H.
  destruct s as [|c s]; [discriminate|].
  cbn [Datatypes.app JSON.parse_string] in H |- *.
  destruct (Ascii.eqb c QUOTE); [now injection H as <- <-|].
  destruct (Ascii.eqb c BACKSLASH).
  - destruct s as [|e s]; [discriminate|]. cbn [Datatypes.app].
    destruct (JSON.unescape e).
    + destruct (JSON.parse_string s) as [[t' r']|] eqn:E; [|discriminate].
      rewrite (IH (length s) ltac:(subst n; simpl; lia) s t' r' eq_refl E).
      cbn [JSON.cons_fst] in H |- *. now injection H as <- <-.
    + destruct (Ascii.eqb e (chr 117)); [|discriminate].
      destruct s as [|h1 [|h2 [|h3 [|h4 s]]]]; try discriminate.
      cbn [Datatypes.app].
      destruct (JSON.hex_val h1), (JSON.hex_val h2), (JSON.hex_val h3),
        (JSON.hex_val h4); try discriminate.
      destruct ((z =? 0) && (z0 =? 0)); [|discriminate].
      destruct (JSON.parse_string s) as [[t' r']|] eqn:E; [|discriminate].
      rewrite (IH (length s) ltac:(subst n; simpl; lia) s t' r' eq_refl E).
      cbn [JSON.cons_fst] in H |- *. now injection H as <- <-.
  - destruct (code c <? 32); [discriminate|].
    destruct (JSON.parse_string s) as [[t' r']|] eqn:E; [|discriminate].
    rewrite (IH (length s) ltac:(subst n; simpl; lia) s t' r' eq_refl E).
    cbn [JSON.cons_fst] in H |- *. now injection H as <- <-.
Qed.

Lemma span_app (p : ascii -> bool) (s x y q : str) :
  span p s = (x, y) -> y <> [] -> span p (s ++ q) = (x, y ++ q).
Proof.
  revert x y. induction s as [|c s IH]; intros x y; cbn [span Datatypes.app].
  - intros [= <- <-]. congruence.
  - destruct (p c); [|now intros [= <- <-]].
    destruct (span p s) as [x' y'] eqn:E. intros [= <- <-] Hy.
    now rewrite (IH x' y' eq_refl Hy).
Qed.

Lemma read_exponent_app (s : str) (b : bool) (ep r q : str) :
  read_exponent s = Some (b, ep, r) -> r <> [] ->
  read_exponent (s ++ q) = Some (b, ep, r ++ q).
Proof.
  unfold read_exponent. destruct s as [|c s]; [intros [= <- <- <-]; congruence|].
  cbn [Datatypes.app].
  destruct (Ascii.eqb c (chr 101) || Ascii.eqb c (chr 69));
    [|now intros [= <- <- <-]].
  destruct s as [|c1 s']; [cbn; discriminate|]. cbn [Datatypes.app].
  destruct (Ascii.eqb c1 (chr 45)); [|destruct (Ascii.eqb c1 (chr 43))];
    match goal with |- context [span is_digit ?x] =>
      destruct (span is_digit x) as [a r2] eqn:E end;
    (destruct (is_empty a) eqn:Ea; [discriminate|]);
    intros [= <- <- <-] Hr;
    [rewrite (span_app _ _ _ _ q E Hr)
    |rewrite (span_app _ _ _ _ q E Hr)
    |change (c1 :: s' ++ q) with ((c1 :: s') ++ q); rewrite (span_app _ _ _ _ q E Hr)];
    now rewrite Ea.
Qed.

Lemma parse_fraction_app (s fp r q : str) :
  JSON.parse_fraction s = Some (fp, r) -> r <> [] ->
  JSON.parse_fraction (s ++ q) = Some (fp, r ++ q).
Proof.
  unfold JSON.parse_fraction. destruct s as [|c s]; [intros [= <- <-]; congruence|].
  cbn [Datatypes.app].
  destruct (Ascii.eqb c (chr 46)); [|now intros [= <- <-]].
  destruct (span is_digit s) as [a r2] eqn:E.
  destruct (is_empty a) eqn:Ea; [discriminate|].
  intros [= <- <-] Hr. now rewrite (span_app _ _ _ _ q E Hr), Ea.
Qed.

Lemma parse_unsigned_app (neg : bool) (s : str) (d : dec) (r q : str) :
  JSON.parse_unsigned neg s = Some (d, r) -> r <> [] ->
  JSON.parse_unsigned neg (s ++ q) = Some (d, r ++ q).
Proof.
  unfold JSON.parse_unsigned.
  destruct (span is_digit s) as [ip r1] eqn:E1.
  destruct ip as [|d0 tl]; [discriminate|].
  destruct (Ascii.eqb d0 (chr 48) && negb (is_empty tl)) eqn:Ez; [discriminate|].
  destruct (JSON.parse_fraction r1) as [[fp r2]|] eqn:E2; [|discriminate].
  destruct (read_exponent r2) as [[[eneg ep] r3]|] eqn:E3; [|discriminate].
  intros [= <- <-] Hr.
  assert (H2 : r2 <> []).
  { intros ->. cbn in E3. injection E3 as _ _ <-. congruence. }
  assert (H1 : r1 <> []).
  { intros ->. cbn in E2. injection E2 as _ <-. congruence. }
  rewrite (span_app _ _ _ _ q E1 H1), Ez, (parse_fraction_app _ _ _ q E2 H2),
    (read_exponent_app _ _ _ _ q E3 Hr).
  reflexivity.
Qed.

Lemma parse_number_app (s : str) (d : dec) (r q : str) :
  JSON.parse_number s = Some (d, r) -> r <> [] ->
  JSON.parse_number (s ++ q) = Some (d, r ++ q).
Proof.
  unfold JSON.parse_number. destruct s as [|c s]; [discriminate|].
  cbn [Datatypes.app]. destruct (Ascii.eqb c (chr 45)); intros H Hr.
  - now apply parse_unsigned_app.
  - change (c :: s ++ q) with ((c :: s) ++ q). now apply parse_unsigned_app.
Qed.

Lemma strip_prefix_app (p s r q : str) :
  JSON.strip_prefix p s = Some r -> JSON.strip_prefix p (s ++ q) = Some (r ++ q).
Proof.
  revert s. induction p as [|a p IH]; intros s; cbn [JSON.strip_prefix].
  - now intros [= <-].
  - destruct s as [|b s]; [discriminate|]. cbn [Datatypes.app].
    destruct (Ascii.eqb a b); [apply IH|discriminate].
Qed.

Lemma skip_ws_nonempty (s : str) (c : ascii) (r : str) :
  JSON.skip_ws s = c :: r -> s <> [].
Proof. now destruct s. Qed.

(** The steps of a parse, with [q] behind what they were given. *)
Ltac extend q IHv IHe IHm :=
  repeat match goal with
         | E : JSON.skip_ws ?s = ?c :: ?r |- _ =>
             let K := fresh "K" in
             pose proof (skip_ws_app s q c r E) as K;
             pose proof (skip_ws_nonempty s c r E); revert E K
         | E : JSON.parse_string _ = Some _ |- _ =>
             let K := fresh "K" in
             pose proof (parse_string_app _ _ _ q E) as K; revert E K
         | E : JSON.strip_prefix _ _ = Some _ |- _ =>
             let K := fresh "K" in
             pose proof (strip_prefix_app _ _ _ q E) as K;
             cbn [Datatypes.app] in K; revert E K
         | E : JSON.parse_elements _ _ = Some _ |- _ =>
             let K := fresh "K" in
             pose proof (IHe _ _ _ E q) as K; revert E K
         | E : JSON.parse_members _ _ = Some _ |- _ =>
             let K := fresh "K" in
             pose proof (IHm _ _ _ E q) as K; revert E K
         end;
  intros.

Ltac rewrite_steps :=
  repeat match goal with
         | E : ?x = _ |- context [match ?x with _ => _ end] => rewrite E
         | E : ?x = _ |- context [if ?x then _ else _] => rewrite E
         end.

Lemma parse_app (f : nat) :
  (forall s v r q,
     JSON.parse_value f s = Some (v, r) ->
     (r = [] -> forall n, v <> VNum n) ->
     JSON.parse_value f (s ++ q) = Some (v, r ++ q)) /\
  (forall s vs r, JSON.parse_elements f s = Some (vs, r) ->
     forall q, JSON.parse_elements f (s ++ q) = Some (vs, r ++ q)) /\
  (forall s kvs r, JSON.parse_members f s = Some (kvs, r) ->
     forall q, JSON.parse_members f (s ++ q) = Some (kvs, r ++ q)).
Proof.
  induction f as [|f [IHv [IHe IHm]]].
  { repeat split; discriminate. }
  split; [|split].
  - intros s v r q H Hnum. cbn [JSON.parse_value] in H. break_parse H;
      apply some_eq in H; injection H as <- <-;
      extend q IHv IHe IHm; cbn [JSON.parse_value]; rewrite_steps;
      try reflexivity.
    match goal with
    | E : JSON.parse_number _ = Some (?d0, ?r0), Hn : ?r0 = [] -> _ |- _ =>
        assert (Hr : r0 <> [])
          by (intros E0; apply (Hn E0 (Fin d0)); reflexivity);
        pose proof (parse_number_app _ _ _ q E Hr) as K2;
        cbn [Datatypes.app] in K2; rewrite K2; reflexivity
    end.
  - intros s vs r H q. cbn [JSON.parse_elements] in H. break_parse H;
      apply some_eq in H; injection H as <- <-;
      extend q IHv IHe IHm; cbn [JSON.parse_elements];
      match goal with
      | E : JSON.parse_value f s = Some _, N : _ <> [] |- _ =>
          rewrite (IHv _ _ _ q E) by (intros ->; congruence)
      end;
      rewrite_steps; reflexivity.
  - intros s kvs r H q. cbn [JSON.parse_members] in H. break_parse H;
      apply some_eq in H; injection H as <- <-;
      extend q IHv IHe IHm; cbn [JSON.parse_members]; rewrite_steps;
      match goal with
      | E : JSON.parse_value f _ = Some _ |- _ =>
          rewrite (IHv _ _ _ q E) by (intros ->; congruence)
      end;
      rewrite_steps; reflexivity.
Qed.

(** No proper prefix of the text of an object or of an array is JSON. *)
Lemma prefix_not_json (v : value) (p q : str) :
  is_json v = true -> is_object v || is_array v = true ->
  text v = p ++ q -> q <> [] -> JSON.parse p = None.
Proof.
  intros Hj Hk E Hq. destruct (JSON.parse p) as [w|] eqn:Ep; [exfalso|reflexivity].
  unfold JSON.parse in Ep.
  destruct (JSON.parse_value _ p) as [[w' r]|] eqn:Ev; [|discriminate].
  destruct (is_empty (JSON.skip_ws r)); [|discriminate].
  apply some_eq in Ep. subst w'.
  destruct p as [|c x]; [discriminate|].
  assert (Hc : code c = 123 \/ code c = 91).
  { destruct v as [| |b|n|s|l|o]; try discriminate.
    - rewrite text_array in E. injection E as <- _. now right.
    - cbn [is_json] in Hj. apply andb_true_iff in Hj. destruct Hj as [_ Hj].
      rewrite text_object in E by assumption. injection E as <- _. now left. }
  assert (Hw : forall n, w <> VNum n).
  { intros n ->. destruct (parse_value_kind _ _ _ _ _ Ev) as [H1 H2].
    destruct Hc as [Hc|Hc]; [specialize (H1 Hc)|specialize (H2 Hc)]; discriminate. }
  destruct (parse_app (2 * length (c :: x) + 2)) as [Hv _].
  pose proof (Hv _ _ _ q Ev (fun _ => Hw)) as Ex. rewrite <- E in Ex.
  destruct (parse_fuel (2 * length (c :: x) + 2)) as [Hf _].
  destruct (Hf _ _ _ Ex) as [_ K].
  destruct (parse_text (2 * length (text v) + size v)) as [Ht _].
  specialize (Ht v [] Hj eq_refl ltac:(lia)). rewrite app_nil_r in Ht.
  rewrite K in Ht by lia. injection Ht as _ Hr.
  destruct r; [|discriminate]. cbn [Datatypes.app] in Hr. congruence.
Qed.

Lemma depth_of_cons (o c ch : ascii) (s : str) :
  depth_of o c (ch :: s) =
  (if Ascii.eqb ch o then 1 else 0) - (if Ascii.eqb ch c then 1 else 0) +
  depth_of o c s.
Proof.
  unfold depth_of, count_chars. cbn [filter].
  destruct (Ascii.eqb ch o), (Ascii.eqb ch c); cbn [length]; lia.
Qed.

(** The loop goes over the candidates that do not parse. *)
Lemma scan_through (o c : ascii) (a b : str) (d : Z) (taken : str) :
  (forall p q, a = p ++ q -> p <> [] -> JSON.parse (taken ++ p) = None) ->
  scan o c d taken (a ++ b) = scan o c (d + depth_of o c a) (taken ++ a) b.
Proof.
  revert d taken. induction a as [|ch a IH]; intros d taken H.
  - cbn [Datatypes.app]. rewrite app_nil_r. unfold depth_of. cbn. now rewrite Z.add_0_r.
  - cbn [Datatypes.app scan]. cbv zeta.
    rewrite (H [ch] a eq_refl ltac:(discriminate)).
    set (d2 := if Ascii.eqb ch c
               then (if Ascii.eqb ch o then d + 1 else d) - 1
               else if Ascii.eqb ch o then d + 1 else d).
    assert (E : scan o c d2 (taken ++ [ch]) (a ++ b) =
                scan o c (d + depth_of o c (ch :: a)) (taken ++ ch :: a) b).
    { rewrite IH.
      - rewrite <- app_assoc. cbn [Datatypes.app]. f_equal.
        rewrite depth_of_cons. unfold d2.
        destruct (Ascii.eqb ch o), (Ascii.eqb ch c); lia.
      - intros p q -> Hp. rewrite <- app_assoc. cbn [Datatypes.app].
        apply (H (ch :: p) q); [reflexivity|discriminate]. }
    now destruct (d2 =? 0).
Qed.

Lemma depth_of_app (o c : ascii) (a b : str) :
  depth_of o c (a ++ b) = depth_of o c a + depth_of o c b.
Proof. unfold depth_of. rewrite !count_chars_app. lia. Qed.

Lemma split_first {A} (x y : A) (a a' b b' : list A) (P : A -> Prop) :
  a ++ x :: b = a' ++ y :: b' ->
  (forall z, In z a -> ~ P z) -> (forall z, In z a' -> ~ P z) -> P x -> P y ->
  a = a' /\ x = y /\ b = b'.
Proof.
  revert a'. induction a as [|z a IH]; intros a' E Ha Ha' Hx Hy.
  - destruct a' as [|z' a'].
    + now injection E as -> ->.
    + injection E as -> _. exfalso. apply (Ha' z'); [now left|exact Hx].
  - destruct a' as [|z' a'].
    + injection E as -> _. exfalso. apply (Ha y); [now left|exact Hy].
    + injection E as -> E.
      destruct (IH a' E) as (-> & -> & ->); try assumption; [| |now repeat split].
      * intros w Hw. apply Ha. now right.
      * intros w Hw. apply Ha'. now right.
Qed.

Lemma includes_char_In (c : ascii) (s : str) :
  includes_char c s = false -> ~ In c s.
Proof.
  unfold includes_char. intros H Hin.
  assert (existsb (Ascii.eqb c) s = true).
  { apply existsb_exists. exists c. split; [exact Hin|apply Ascii.eqb_refl]. }
  congruence.
Qed.

(** X9. A JSON object or array in the middle of other text is found and
    returned, when no brace or square bracket comes before it, its text has
    as many closing as opening brackets of its own kind (those inside its
    strings are counted too), and the text as a whole is not JSON. *)
Theorem X9_extract_embedded (pre post : str) (v : value) :
  is_json v = true -> brackets_close v = true ->
  includes_char (chr 123) pre = false -> includes_char (chr 91) pre = false ->
  JSON.parse (pre ++ text v ++ post) = None ->
  extractJSON (pre ++ text v ++ post) = v.
Proof.
  intros Hj Hc Hp1 Hp2 Hwhole.
  assert (Hk : is_object v || is_array v = true)
    by (destruct v; try discriminate; reflexivity).
  assert (Hhead : exists open tail,
             text v = open :: tail /\ (open = chr 123 \/ open = chr 91) /\
             depth_of open (if Ascii.eqb open (chr 123) then chr 125 else chr 93)
                      (text v) = 0).
  { destruct v as [| |b|n|s|l|o]; try discriminate.
    - cbn [brackets_close] in Hc. apply Z.eqb_eq in Hc.
      rewrite text_array in Hc |- *. eexists. eexists.
      split; [reflexivity|]. split; [now right|exact Hc].
    - cbn [brackets_close] in Hc. apply Z.eqb_eq in Hc.
      cbn [is_json] in Hj. apply andb_true_iff in Hj. destruct Hj as [_ Hj].
      rewrite text_object in Hc |- * by assumption. eexists. eexists.
      split; [reflexivity|]. split; [now left|exact Hc]. }
  destruct Hhead as (open & tail & Et & Hopen & Hd).
  destruct (extract_start _ Hwhole)
    as [(H1 & H2 & _)|(a & open' & b & E & Ha1 & Ha2 & Hopen' & ->)].
  { exfalso. rewrite Et in H1, H2. rewrite !includes_char_app in H1, H2.
    cbn [Datatypes.app] in H1, H2.
    apply orb_false_iff in H1, H2. destruct H1 as [_ H1]. destruct H2 as [_ H2].
    apply orb_false_iff in H1, H2. destruct H1 as [H1 _]. destruct H2 as [H2 _].
    destruct Hopen as [-> | ->];
      [rewrite includes_char_head in H1|rewrite includes_char_head in H2];
      discriminate. }
  rewrite Et in E. cbn [Datatypes.app] in E.
  destruct (split_first open open' pre a (tail ++ post) b
              (fun z => z = chr 123 \/ z = chr 91) E) as (<- & <- & <-);
    try assumption.
  { intros z Hz [-> | ->];
      [exact (includes_char_In _ _ Hp1 Hz)|exact (includes_char_In _ _ Hp2 Hz)]. }
  { intros z Hz [-> | ->];
      [exact (includes_char_In _ _ Ha1 Hz)|exact (includes_char_In _ _ Ha2 Hz)]. }
  set (close := if Ascii.eqb open (chr 123) then chr 125 else chr 93) in *.
  assert (Hlast : exists body z, open :: tail = body ++ [z]).
  { destruct (exists_last (l := open :: tail) ltac:(discriminate)) as (body & z & ->).
    now exists body, z. }
  destruct Hlast as (body & z & Eb).
  change (open :: tail ++ post) with ((open :: tail) ++ post).
  rewrite Eb, <- app_assoc. cbn [Datatypes.app].
  rewrite scan_through.
  - cbn [Datatypes.app scan]. cbv zeta.
    rewrite <- Et in Eb. rewrite Eb, depth_of_app, depth_of_cons in Hd.
    unfold depth_of at 2 in Hd. cbn in Hd.
    assert (Hz : (if Ascii.eqb z close
                  then (if Ascii.eqb z open then 0 + depth_of open close body + 1
                        else 0 + depth_of open close body) - 1
                  else if Ascii.eqb z open then 0 + depth_of open close body + 1
                       else 0 + depth_of open close body) = 0).
    { destruct (Ascii.eqb z open), (Ascii.eqb z close); lia. }
    rewrite Hz. cbn [Z.eqb]. rewrite <- Eb, parse_text_top by assumption.
    reflexivity.
  - intros p q Epq Hp. cbn [Datatypes.app].
    apply (prefix_not_json v p (q ++ [z])); try assumption.
    + rewrite Et, Eb, Epq. now rewrite <- app_assoc.
    + destruct q; discriminate.
Qed.

Lemma X9_witness :
  let v := hd VNull tinyExample in
  extractJSON (lit "export = " ++ text v ++ lit "; // end") = v.
Proof.
  intros v.
  apply (X9_extract_embedded (lit "export = ") (lit "; // end") v);
    vm_compute; reflexivity.
Defined.

(** X6. What [extractJSON] returns: the value of a text that is JSON as a
    whole, in particular the value a JSON text was written from; otherwise
    [null] or an object or an array, never a number, a string or a boolean;
    and [null] when the text has neither a brace nor a square bracket. *)
Theorem X6_extract_result (txt : str) (v : value) :
  (JSON.parse txt = Some v -> extractJSON txt = v) /\
  (is_json v = true -> extractJSON (text v) = v) /\
  (JSON.parse txt = None ->
   extractJSON txt = VNull \/ is_object (extractJSON txt) = true \/
   is_array (extractJSON txt) = true) /\
  (JSON.parse txt = None -> includes_char (chr 123) txt = false ->
   includes_char (chr 91) txt = false -> extractJSON txt = VNull).
Proof.
  split; [|split; [|split]].
  - intros H. unfold extractJSON. now rewrite H.
  - intros Hj. unfold extractJSON. now rewrite parse_text_top.
  - intros Hp.
    destruct (extractJSON_cases txt) as [H|[_ [H|(a & open & cand & b & _ & Ho & H)]]].
    + congruence.
    + now left.
    + right. destruct (parse_kind _ _ _ H) as [H1 H2].
      destruct Ho as [-> | ->]; [left; now apply H1|right; now apply H2].
  - intros Hp H1 H2.
    destruct (extract_start txt Hp) as [(_ & _ & H)|(a & open & b & E & _ & _ & Ho & _)];
      [exact H|exfalso].
    rewrite E, !includes_char_app in H1, H2.
    apply orb_false_iff in H1, H2. destruct H1 as [_ H1]. destruct H2 as [_ H2].
    destruct Ho as [-> | ->];
      [rewrite includes_char_head in H1|rewrite includes_char_head in H2];
      discriminate.
Qed.

(** X7. The text made of an RTF file has no brace left in it, and no white
    space at either end. *)
Theorem X7_rtf_text_without_braces (rtf : str) :
  includes_char (chr 123) (rtfToText rtf) = false /\
  includes_char (chr 125) (rtfToText rtf) = false /\
  trim (rtfToText rtf) = rtfToText rtf.
Proof.
  destruct (no_brace_includes _ (rtfToText_no_brace rtf)) as [H1 H2].
  split; [exact H1|split; [exact H2|]].
  unfold rtfToText.
  destruct (trim_split (replace_all match_newlines [NL]
              (filter (fun c => negb (is_brace c))
                 (replace_all match_control []
                    (replace_all match_hex_escape [chr 32]
                       (replace_all match_par [NL] rtf))))))
    as (_ & _ & _ & _ & _ & [E|Ht]).
  - rewrite E. reflexivity.
  - now destruct (tight_trim _ Ht).
Qed.

(** X8. No JSON object comes out of the text made of an RTF file: what
    [extractJSON] finds in it holds no object at any depth, and flattening
    that gives no trigger or upsell row, at most one row, tagged raw. *)
Theorem X8_rtf_file_gives_no_object (rtf : str) (rows : list ProductRow) :
  has_object (extractJSON (rtfToText rtf)) = false /\
  (flattenA7TriggerJSON (extractJSON (rtfToText rtf)) = Some rows ->
   Forall (fun r => source r = rawsrc) rows /\ (length rows <= 1)%nat).
Proof.
  assert (H : has_object (extractJSON (rtfToText rtf)) = false).
  { apply extractJSON_no_object.
    now destruct (no_brace_includes _ (rtfToText_no_brace rtf)). }
  split; [exact H|]. now apply flatten_no_object.
Qed.

(* ===================================================================== *)
(** * App.jsx: rows grouped by product *)
(* ===================================================================== *)

Lemma same_number_refl (n : jsnum) : same_number n n = true.
Proof.
  destruct n as [|b|d]; [reflexivity| |]; unfold same_number;
    rewrite num_le_refl by reflexivity; reflexivity.
Qed.

Lemma same_number_sym (a b : jsnum) : same_number a b = same_number b a.
Proof.
  destruct a as [|x|x], b as [|y|y]; try reflexivity; unfold same_number;
    apply andb_comm.
Qed.

Lemma same_number_le (a b : jsnum) :
  same_number a b = true ->
  (a = NaN /\ b = NaN) \/ (num_le a b = true /\ num_le b a = true).
Proof.
  destruct a as [|x|x], b as [|y|y]; unfold same_number;
    try (intros H; apply andb_true_iff in H; now right); now left.
Qed.

Lemma same_number_trans (a b c : jsnum) :
  same_number a b = true -> same_number b c = true -> same_number a c = true.
Proof.
  intros H1 H2.
  destruct (same_number_le _ _ H1) as [[-> ->]|[L1 L2]];
    destruct (same_number_le _ _ H2) as [[E ->]|[L3 L4]];
    try discriminate; try reflexivity.
  - subst. now rewrite num_le_NaN_r in L1.
  - assert (num_le a c = true) by (eapply num_le_trans; eassumption).
    assert (num_le c a = true) by (eapply num_le_trans; eassumption).
    destruct a as [|x|x], c as [|y|y]; unfold same_number; try reflexivity;
      now rewrite H, H0.
Qed.

Lemma same_value_defined (a b : value) :
  primitive a = true -> same_value_zero a b = Some (same_value a b).
Proof.
  unfold same_value.
  destruct a, b; try discriminate; intros _; cbn [same_value_zero];
    try reflexivity;
    match goal with |- Some ?x = _ => now destruct x end.
Qed.

Lemma same_value_refl (a : value) : primitive a = true -> same_value a a = true.
Proof.
  unfold same_value. destruct a as [| |b|n|s|l|o]; try discriminate; intros _;
    cbn [same_value_zero]; try reflexivity.
  - now destruct b.
  - now rewrite same_number_refl.
  - now rewrite eqb_str_refl.
Qed.

Lemma same_value_sym (a b : value) : same_value a b = same_value b a.
Proof.
  unfold same_value. destruct a as [| |x|x|x|x|x], b as [| |y|y|y|y|y];
    cbn [same_value_zero]; try reflexivity.
  - now destruct x, y.
  - now rewrite same_number_sym.
  - now rewrite eqb_str_sym.
Qed.

Lemma same_value_trans (a b c : value) :
  same_value a b = true -> same_value b c = true -> same_value a c = true.
Proof.
  unfold same_value.
  destruct a as [| |x|x|x|x|x], b as [| |y|y|y|y|y]; cbn [same_value_zero];
    try discriminate;
    destruct c as [| |z|z|z|z|z]; cbn [same_value_zero]; try discriminate;
    try reflexivity.
  - destruct x, y, z; try discriminate; reflexivity.
  - destruct (same_number x y) eqn:E1; [|discriminate].
    destruct (same_number y z) eqn:E2; [|discriminate].
    now rewrite (same_number_trans _ _ _ E1 E2).
  - destruct (eqb_str x y) eqn:E1; [|discriminate].
    destruct (eqb_str y z) eqn:E2; [|discriminate].
    apply eqb_str_eq in E1, E2. subst. now rewrite eqb_str_refl.
Qed.

(** A key that is in no entry of the map: a new entry, last. *)
Lemma map_new (key : value) (row : object) (m : product_map) :
  primitive key = true ->
  (forall e, In e m -> same_value key (fst e) = false) ->
  map_has key m = Some false /\
  map_push key row (map_set key (row, []) m) = Some (m ++ [(key, (row, [row]))]).
Proof.
  intros Hk. unfold map_set. induction m as [|[k g] m IH]; intros H.
  - split; [reflexivity|]. cbn [Datatypes.app map_push].
    now rewrite same_value_defined, same_value_refl.
  - specialize (IH (fun e He => H e (or_intror He))).
    pose proof (H (k, g) (or_introl eq_refl)) as Hkg. cbn [fst] in Hkg.
    cbn [map_has Datatypes.app map_push].
    rewrite same_value_defined, Hkg by assumption.
    destruct IH as [-> ->]. now split.
Qed.

(** A key that is in the map: the row goes to the first entry with it. *)
Lemma map_old (key : value) (row : object) (m1 m2 : product_map) (k : value)
    (g : object * list object) :
  primitive key = true ->
  (forall e, In e m1 -> same_value key (fst e) = false) ->
  same_value key k = true ->
  map_has key (m1 ++ (k, g) :: m2) = Some true /\
  map_push key row (m1 ++ (k, g) :: m2) =
  Some (m1 ++ (k, (fst g, snd g ++ [row])) :: m2).
Proof.
  intros Hk H1 Hkk. induction m1 as [|[k' g'] m1 IH].
  - cbn [Datatypes.app map_has map_push].
    now rewrite same_value_defined, Hkk.
  - specialize (IH (fun e He => H1 e (or_intror He))).
    pose proof (H1 (k', g') (or_introl eq_refl)) as Hkg. cbn [fst] in Hkg.
    cbn [Datatypes.app map_has map_push].
    rewrite same_value_defined, Hkg by assumption.
    destruct IH as [-> ->]. now split.
Qed.

Lemma first_entry (key : value) (m : product_map) :
  (forall e, In e m -> same_value key (fst e) = false) \/
  exists m1 k g m2,
    m = m1 ++ (k, g) :: m2 /\
    (forall e, In e m1 -> same_value key (fst e) = false) /\
    same_value key k = true.
Proof.
  induction m as [|[k g] m IH]; [left; intros e []|].
  destruct (same_value key k) eqn:E.
  - right. exists [], k, g, m. repeat split; [intros e []|exact E].
  - destruct IH as [H|(m1 & k' & g' & m2 & -> & H & Hk)].
    + left. intros e [<-|He]; [exact E|now apply H].
    + right. exists ((k, g) :: m1), k', g', m2. repeat split; [|exact Hk].
      intros e [<-|He]; [exact E|now apply H].
Qed.

Lemma FOP_snoc {A} (R : A -> A -> Prop) (l : list A) (x : A) :
  ForallOrdPairs R l -> (forall y, In y l -> R y x) -> ForallOrdPairs R (l ++ [x]).
Proof.
  induction 1 as [|a l Ha Hl IH]; intros H; cbn [Datatypes.app].
  - constructor; constructor.
  - constructor.
    + apply Forall_app. split; [exact Ha|].
      constructor; [|constructor]. apply H. now left.
    + apply IH. intros y Hy. apply H. now right.
Qed.

Lemma FOP_after {A} (R : A -> A -> Prop) (l1 l2 : list A) (x y : A) :
  ForallOrdPairs R (l1 ++ x :: l2) -> In y l2 -> R x y.
Proof.
  induction l1 as [|a l1 IH]; cbn [Datatypes.app]; intros H Hy.
  - inversion H as [|? ? Hx _]; subst. rewrite Forall_forall in Hx. now apply Hx.
  - inversion H; subst. now apply IH.
Qed.

Lemma filter_none {A} (p : A -> bool) (l : list A) :
  (forall x, In x l -> p x = false) -> filter p l = [].
Proof.
  induction l as [|x l IH]; intros H; [reflexivity|]. cbn [filter].
  rewrite (H x (or_introl eq_refl)). apply IH. intros y Hy. apply H. now right.
Qed.

Lemma filter_snoc {A} (p : A -> bool) (l : list A) (x : A) :
  filter p (l ++ [x]) = filter p l ++ (if p x then [x] else []).
Proof. rewrite filter_app. reflexivity. Qed.

(** One more row keeps the map grouped. *)
Lemma group_step (done : list object) (m : product_map) (row : object) :
  grouped done m -> primitive (product_key row) = true ->
  exists has m',
    map_has (product_key row) m = Some has /\
    map_push (product_key row) row
      (if has then m else map_set (product_key row) (row, []) m) = Some m' /\
    grouped (done ++ [row]) m'.
Proof.
  intros (I1 & I2 & I3) Hk. set (key := product_key row) in *.
  assert (Hkeys : forall e, In e m -> In (fst e) (map fst m))
    by (intros e He; now apply in_map).
  destruct (first_entry key m) as [Hnone|(m1 & k & g & m2 & Em & H1 & Hkk)].
  - destruct (map_new key row m Hk Hnone) as [Hh Hp].
    exists false, (m ++ [(key, (row, [row]))]). split; [exact Hh|]. split; [exact Hp|].
    assert (Hnone' : forall k', In k' (map fst m) -> same_value key k' = false).
    { intros k' Hin. apply in_map_iff in Hin. destruct Hin as [e [<- He]].
      now apply Hnone. }
    split; [|split].
    + apply Forall_app. split.
      * rewrite Forall_forall in I1 |- *. intros e He.
        destruct (I1 e He) as (E1 & E2 & E3 & E4).
        repeat split; try assumption.
        rewrite filter_snoc. unfold same_product at 2. rewrite <- E1.
        fold key. rewrite same_value_sym, (Hnone e He). now rewrite app_nil_r.
      * constructor; [|constructor]. cbn [fst snd]. repeat split; try assumption.
        -- rewrite filter_snoc. unfold same_product at 2.
           rewrite same_value_refl by assumption.
           rewrite filter_none; [reflexivity|].
           intros r' Hr'. destruct (I3 r' Hr') as (k' & Hin & Hs).
           unfold same_product. fold key.
           destruct (same_value key (product_key r')) eqn:E; [|reflexivity].
           rewrite <- (Hnone' k' Hin). symmetry.
           eapply same_value_trans; eassumption.
        -- now exists [].
    + rewrite map_app. cbn [map fst]. apply FOP_snoc; [exact I2|].
      intros k' Hin. rewrite same_value_sym. now apply Hnone'.
    + intros r' Hr'. rewrite map_app. apply in_app_or in Hr'.
      destruct Hr' as [Hr'|[<-|[]]].
      * destruct (I3 r' Hr') as (k' & Hin & Hs). exists k'.
        split; [apply in_or_app; now left|exact Hs].
      * exists key. split; [apply in_or_app; right; now left|].
        now apply same_value_refl.
  - destruct (map_old key row m1 m2 k g Hk H1 Hkk) as [Hh Hp].
    rewrite <- Em in Hh, Hp.
    exists true, (m1 ++ (k, (fst g, snd g ++ [row])) :: m2).
    split; [exact Hh|]. split; [exact Hp|].
    assert (Ekeys : map fst (m1 ++ (k, (fst g, snd g ++ [row])) :: m2) = map fst m).
    { rewrite Em, !map_app. reflexivity. }
    split; [|split].
    + rewrite Em in I1. apply Forall_app in I1. destruct I1 as [Ia Ib].
      inversion Ib as [|? ? Ig Ic]; subst.
      apply Forall_app. split; [|constructor].
      * rewrite Forall_forall in Ia |- *. intros e He.
        destruct (Ia e He) as (E1 & E2 & E3 & E4).
        repeat split; try assumption.
        rewrite filter_snoc. unfold same_product at 2. rewrite <- E1.
        fold key. rewrite same_value_sym, (H1 e He). now rewrite app_nil_r.
      * cbn [fst snd] in Ig |- *. destruct Ig as (E1 & E2 & E3 & tail & E4).
        repeat split; try assumption.
        -- rewrite filter_snoc. unfold same_product at 2. rewrite <- E1.
           fold key. rewrite same_value_sym, Hkk. now rewrite E3.
        -- exists (tail ++ [row]). now rewrite E4.
      * rewrite Forall_forall in Ic |- *. intros e He.
        destruct (Ic e He) as (E1 & E2 & E3 & E4).
        repeat split; try assumption.
        rewrite filter_snoc. unfold same_product at 2. rewrite <- E1.
        fold key.
        assert (Hke : same_value k (fst e) = false).
        { rewrite map_app in I2. cbn [map fst] in I2.
          apply (FOP_after _ _ _ _ _ I2). now apply in_map. }
        destruct (same_value (fst e) key) eqn:E; [|now rewrite app_nil_r].
        exfalso. rewrite same_value_sym in Hke.
        assert (same_value (fst e) k = true)
          by (eapply same_value_trans; eassumption).
        congruence.
    + now rewrite Ekeys.
    + rewrite Ekeys. intros r' Hr'. apply in_app_or in Hr'.
      destruct Hr' as [Hr'|[<-|[]]]; [now apply I3|].
      exists k. split; [|exact Hkk]. rewrite Em, map_app.
      apply in_or_app. right. now left.
Qed.

Lemma group_rows_grouped (rows done : list object) (m : product_map) :
  grouped done m ->
  forallb (fun row => primitive (product_key row)) rows = true ->
  exists m', group_rows rows m = Some m' /\ grouped (done ++ rows) m'.
Proof.
  revert done m. induction rows as [|row rows IH]; intros done m Hg Hp.
  - exists m. rewrite app_nil_r. now split.
  - cbn [forallb] in Hp. apply andb_true_iff in Hp. destruct Hp as [Hk Hp].
    destruct (group_step done m row Hg Hk) as (has & m1 & Hh & Hpush & Hg1).
    destruct (IH (done ++ [row]) m1 Hg1 Hp) as (m' & Hm' & Hg').
    exists m'. cbn [group_rows]. rewrite Hh, Hpush.
    split; [exact Hm'|]. now rewrite <- app_assoc in Hg'.
Qed.

(** X10. Rows are grouped by product without loss: when the product keys
    (the id, else the handle, else the title) are not objects, each group
    holds, in their order, exactly the rows that have the key of its
    product, which is the first of them; no two groups have the same key, and
    every row is in a group. [groupByProduct] changes nothing. *)
Theorem X10_rows_grouped_by_product (rows : list object) :
  forallb (fun row => primitive (product_key row)) rows = true ->
  exists groups,
    flattenByProduct rows = Some groups /\
    groupByProduct groups = groups /\
    Forall (fun g => snd g = filter (same_product (fst g)) rows /\
                     exists tail, snd g = fst g :: tail) groups /\
    ForallOrdPairs (fun g h => same_product (fst g) (fst h) = false) groups /\
    (forall row, In row rows ->
       exists g, In g groups /\ same_product (fst g) row = true /\ In row (snd g)).
Proof.
  intros Hp.
  destruct (group_rows_grouped rows [] [])
    as (m & Hm & I1 & I2 & I3); [|exact Hp|].
  { repeat split; [constructor|constructor|intros row []]. }
  cbn [Datatypes.app] in *.
  exists (map snd m). unfold flattenByProduct. rewrite Hm.
  split; [reflexivity|]. split; [|split; [|split]].
  - unfold groupByProduct. rewrite <- (map_id (map snd m)) at 2.
    apply map_ext. now intros [a b].
  - apply Forall_map. rewrite Forall_forall in I1 |- *. intros e He.
    destruct (I1 e He) as (_ & _ & E3 & E4). now split.
  - clear - I1 I2. induction m as [|e m IH]; [constructor|].
    cbn [map] in I2 |- *. inversion I2 as [|? ? Ha Hb]; subst.
    inversion I1 as [|? ? He Hm]; subst. constructor; [|now apply IH].
    apply Forall_map. rewrite Forall_forall in Ha, Hm |- *. intros e' He'.
    destruct He as (E1 & _). destruct (Hm e' He') as (E1' & _).
    unfold same_product. rewrite <- E1, <- E1'. apply Ha. now apply in_map.
  - intros row Hrow. destruct (I3 row Hrow) as (k & Hin & Hs).
    apply in_map_iff in Hin. destruct Hin as (e & <- & He).
    rewrite Forall_forall in I1. destruct (I1 e He) as (E1 & _ & E3 & _).
    exists (snd e). split; [now apply in_map|].
    assert (Hsp : same_product (fst (snd e)) row = true).
    { unfold same_product. rewrite <- E1, same_value_sym. exact Hs. }
    split; [exact Hsp|]. rewrite E3. apply filter_In. now split.
Qed.

Lemma X10_witness :
  exists rows groups,
    flatVariants tinyExample = Some rows /\
    flattenByProduct rows = Some groups /\
    map (fun g => length (snd g)) groups = [2%nat; 1%nat].
Proof.
  eexists. 
  destruct (X10_rows_grouped_by_product
              (match flatVariants tinyExample with Some r => r | None => [] end)
              eq_refl) as (groups & H & _).
  exists groups. split; [reflexivity|]. split; [exact H|].
  vm_compute in H. injection H as <-. reflexivity.
Defined.

(* ===================================================================== *)
(** * App.jsx: the filters *)
(* ===================================================================== *)

(** One filter of the chain, on rows that are some of [rows], in order. *)
Lemma filter_step (rows : list object) (cur : option (list object)) (cond : bool)
    (p : object -> option bool) :
  (cur = None \/ exists k, cur = Some (filter k rows)) ->
  let next := match cur with
              | None => None
              | Some rs => if cond then filter_opt p rs else Some rs
              end in
  (next = None \/ exists k, next = Some (filter k rows)) /\
  ((forall x, In x rows -> p x <> None) -> cur <> None -> next <> None).
Proof.
  intros [->|[k ->]]; cbv zeta.
  - split; [now left|congruence].
  - destruct cond.
    + split.
      * destruct (filter_opt p (filter k rows)) as [out|] eqn:E; [right|now left].
        apply filter_opt_filter in E. rewrite E, filter_filter. eauto.
      * intros H _. apply filter_opt_defined. intros x Hx.
        apply filter_In in Hx. now apply H.
    + split; [right; eauto|congruence].
Qed.

(** Two filters in a row, each under its condition. *)
Lemma two_filters_Some {A} (c1 c2 : bool) (p1 p2 : A -> option bool)
    (xs out : list A) :
  match (if c1 then filter_opt p1 xs else Some xs) with
  | None => None
  | Some r1 => if c2 then filter_opt p2 r1 else Some r1
  end = Some out ->
  out = filter (fun x => (negb c1 || match p1 x with Some true => true | _ => false end) &&
                         (negb c2 || match p2 x with Some true => true | _ => false end))
               xs.
Proof.
  assert (Hall : forall (ys : list A), filter (fun _ => true) ys = ys).
  { intros ys. apply forallb_filter_id. now apply forallb_forall. }
  destruct c1, c2; cbn [negb orb].
  - destruct (filter_opt p1 xs) as [r1|] eqn:E1; [|discriminate]. intros E2.
    apply filter_opt_filter in E1, E2. now rewrite E2, E1, filter_filter.
  - destruct (filter_opt p1 xs) as [r1|] eqn:E1; [|discriminate]. intros [= <-].
    apply filter_opt_filter in E1. rewrite E1. apply filter_ext. intros x.
    now rewrite andb_true_r.
  - intros E2. apply filter_opt_filter in E2. now rewrite E2.
  - intros [= <-]. symmetry. apply Hall.
Qed.

Lemma two_filters_None {A} (c1 c2 : bool) (p1 p2 : A -> option bool)
    (xs : list A) :
  (forall x, p1 x = None <-> p2 x = None) ->
  (match (if c1 then filter_opt p1 xs else Some xs) with
   | None => None
   | Some r1 => if c2 then filter_opt p2 r1 else Some r1
   end = None <->
   (c1 = true \/ c2 = true) /\ exists x, In x xs /\ p1 x = None).
Proof.
  intros Hsame. destruct c1, c2.
  - destruct (filter_opt p1 xs) as [r1|] eqn:E1.
    + assert (Hdef : forall x, In x xs -> p1 x <> None).
      { intros x Hx Hn.
        assert (Hc : filter_opt p1 xs = None) by (apply filter_opt_None; eauto).
        congruence. }
      split.
      * intros E2. apply filter_opt_None in E2. destruct E2 as (x & Hx & Hn).
        exfalso. apply (Hdef x); [now apply (filter_opt_sub _ _ _ _ E1)|].
        now apply Hsame.
      * intros (_ & x & Hx & Hn). exfalso. now apply (Hdef x).
    + split; [|reflexivity]. intros _. apply filter_opt_None in E1.
      split; [now left|exact E1].
  - destruct (filter_opt p1 xs) as [r1|] eqn:E1.
    + split; [discriminate|]. intros (_ & x & Hx & Hn).
      assert (Hc : filter_opt p1 xs = None) by (apply filter_opt_None; eauto).
      congruence.
    + split; [|reflexivity]. intros _. apply filter_opt_None in E1.
      split; [now left|exact E1].
  - rewrite filter_opt_None. split.
    + intros (x & Hx & Hn). split; [now right|]. exists x. split; [exact Hx|].
      now apply Hsame.
    + intros (_ & x & Hx & Hn). exists x. split; [exact Hx|]. now apply Hsame.
  - split; [discriminate|]. intros [[H|H] _]; discriminate.
Qed.

Lemma some_opt_defined {A} (p : A -> option bool) (xs : list A) :
  (forall x, In x xs -> p x <> None) -> some_opt p xs <> None.
Proof.
  induction xs as [|x xs IH]; intros H; cbn [some_opt]; [discriminate|].
  destruct (p x) as [[|]|] eqn:E.
  - discriminate.
  - apply IH. intros y Hy. apply H. now right.
  - exfalso. now apply (H x (or_introl eq_refl)).
Qed.

Lemma stringable_defined (v : value) : stringable v = true -> to_String v <> None.
Proof. unfold stringable. now destruct (to_String v). Qed.

Lemma to_Number_defined (v : value) : stringable v = true -> to_Number v <> None.
Proof.
  unfold stringable. destruct v as [| |[]|n|s|l|o]; try discriminate.
  - cbn [to_Number]. now destruct (to_String (VArr l)).
  - cbn [to_Number]. now destruct (to_String (VObj o)).
Qed.

Lemma to_Number_None (v : value) : to_Number v = None <-> stringable v = false.
Proof.
  unfold stringable. destruct v as [| |[]|n|s|l|o]; try (split; discriminate).
  - cbn [to_Number]. destruct (to_String (VArr l)); split; congruence.
  - cbn [to_Number]. destruct (to_String (VObj o)); split; congruence.
Qed.

(** The fields a filterable row lets the filters read. *)
Lemma row_filterable_field (row : object) (k : string) :
  row_filterable row = true ->
  In k ["product_title"; "product_vendor"; "product_handle"; "variant_title";
        "product_description"; "set_index"; "variant_price";
        "inventory_quantity"] ->
  stringable (field row k) = true.
Proof.
  unfold row_filterable. rewrite !andb_true_iff. intros [_ H] Hk.
  rewrite forallb_forall in H. now apply H.
Qed.

Lemma traverse_get_opt (k : str) (cs : list value) :
  forallb (fun c => negb (nullish c)) cs = true ->
  traverse (fun c => get c k) cs = Some (map (fun c => get_opt c k) cs).
Proof.
  induction cs as [|c cs IH]; [reflexivity|].
  cbn [forallb]. rewrite andb_true_iff, negb_true_iff. intros [Hc Hcs].
  cbn [traverse map]. now rewrite (get_not_nullish c k Hc), (IH Hcs).
Qed.

Lemma matches_search_defined (needle : str) (row : object) :
  row_filterable row = true -> matches_search needle row <> None.
Proof.
  intros Hok. pose proof (fun k => row_filterable_field row k Hok) as Hf.
  unfold row_filterable in Hok. rewrite !andb_true_iff in Hok.
  destruct Hok as [[Ht Hc] _]. unfold matches_search.
  destruct (or_empty_array (field row "product_collections")) as [cs|];
    [|destruct (or_else (field row "product_tags") (VArr [])); discriminate].
  assert (Hcs : forallb (fun c => negb (nullish c)) cs = true).
  { rewrite forallb_forall in Hc |- *. intros c Hin.
    specialize (Hc c Hin). now apply andb_true_iff in Hc. }
  assert (Htitles : forall x, In x (map (fun c => get_opt c (lit "title")) cs) ->
                              stringable x = true).
  { intros x Hx. apply in_map_iff in Hx. destruct Hx as (c & <- & Hin).
    rewrite forallb_forall in Hc. specialize (Hc c Hin). now apply andb_true_iff in Hc. }
  assert (Htags : forall tags,
            iterate (or_else (field row "product_tags") (VArr [])) = Some tags ->
            forall x, In x tags -> stringable x = true).
  { intros tags Hi x Hx.
    destruct (or_else (field row "product_tags") (VArr [])) as [| |b|n|s|l|o];
      try discriminate; cbn [iterate] in Hi; injection Hi as <-.
    - apply in_map_iff in Hx. now destruct Hx as (c & <- & _).
    - rewrite forallb_forall in Ht. now apply Ht. }
  destruct (iterate (or_else (field row "product_tags") (VArr []))) as [tags|] eqn:Ei.
  - rewrite (traverse_get_opt _ cs Hcs).
    apply some_opt_defined. intros x Hx. apply filter_In in Hx. destruct Hx as [Hx _].
    assert (Hs : stringable x = true).
    { cbn [Datatypes.app] in Hx.
      destruct Hx as [<-|[<-|[<-|[<-|[<-|Hx]]]]];
        try (apply Hf; cbn [In]; tauto).
      apply in_app_iff in Hx. destruct Hx as [Hx|Hx]; [now apply (Htags tags)|now apply Htitles]. }
    unfold stringable in Hs. now destruct (to_String x).
  - destruct (or_else (field row "product_tags") (VArr [])); discriminate.
Qed.

Lemma in_collection_defined (collection : str) (row : object) :
  row_filterable row = true -> in_collection collection row <> None.
Proof.
  unfold row_filterable, in_collection. rewrite !andb_true_iff. intros [[_ Hc] _].
  destruct (or_empty_array (field row "product_collections")) as [cs|];
    [|discriminate].
  induction cs as [|c cs IH]; [discriminate|].
  cbn [forallb] in Hc. apply andb_true_iff in Hc. destruct Hc as [Hn Hc].
  apply andb_true_iff in Hn. destruct Hn as [Hn _].
  cbn [some_opt]. destruct (get c (lit "id")) eqn:E; [|now destruct c].
  destruct (is_string collection v); [discriminate|now apply IH].
Qed.

Lemma has_tag_defined (tag : str) (row : object) :
  row_filterable row = true -> has_tag tag row <> None.
Proof.
  unfold row_filterable, has_tag. rewrite !andb_true_iff. intros [[Ht _] _].
  now destruct (or_else (field row "product_tags") (VArr [])).
Qed.

Lemma price_of_defined (row : object) :
  row_filterable row = true -> price_of row <> None.
Proof.
  intros Hok. unfold price_of, toNum.
  destruct (nullish _ || is_empty_string _); [discriminate|].
  apply to_Number_defined. apply row_filterable_field; [exact Hok|cbn [In]; tauto].
Qed.

Lemma inventory_of_defined (row : object) :
  row_filterable row = true -> inventory_of row <> None.
Proof.
  intros Hok. unfold inventory_of, or_else.
  destruct (truthy (field row "inventory_quantity")); [|discriminate].
  apply to_Number_defined. apply row_filterable_field; [exact Hok|cbn [In]; tauto].
Qed.

(** X11. Whatever the controls, the filters only take rows away: what is
    left is some of the rows, in their order; after [resetFilters] it is all
    of them; and no filter throws when the tags of every row are an array or
    a string, its collections an array without [null] in it, and [String]
    throws on none of the values the filters turn into text or numbers;
    a search does throw on a row whose title is an object with a
    [toString] property of its own. *)
Theorem X11_filters_only_remove (c : Controls.controls) (rows : list object) :
  (forall out, filtered_rows c rows = Some out ->
     exists keep, out = filter keep rows) /\
  filtered_rows resetFilters rows = Some rows /\
  (forallb row_filterable rows = true -> filtered_rows c rows <> None) /\
  filtered_rows
    (Controls.Make (lit "x") [] [] (lit "any") [] [] [] [] [] (lit "any") (lit "any"))
    [[(lit "product_title", vobj [("toString", vnum 1)])]] = None.
Proof.
  assert (H0 : Some rows = None \/ exists k, Some rows = Some (filter k rows)).
  { right. exists (fun _ => true). f_equal. symmetry. apply forallb_filter_id.
    now apply forallb_forall. }
  unfold filtered_rows. cbv zeta.
  set (p1 := matches_search (toLowerCase (Controls.q c))).
  set (p2 := in_collection (Controls.collection c)).
  set (p3 := has_tag (Controls.tag c)).
  set (p4 := fun row => Some (is_string (Controls.triggerType c) (field row "trigger_type"))).
  set (p5 := fun row => match to_String (field row "set_index") with
                        | Some s => Some (eqb_str s (Controls.setIndex c))
                        | None => None
                        end).
  set (p6 := fun row => Some (Bool.eqb (truthy (field row "variant_available"))
                                       (eqb_str (Controls.availability c) (lit "in")))).
  set (p7 := fun row =>
               match to_String (or_else (field row "variant_title") (VStr [])) with
               | Some s => Some (includes (toLowerCase (Controls.optionFilter c))
                                          (toLowerCase s))
               | None => None
               end).
  set (pa := fun row => match toNum (field row "variant_price") with
                        | Some p => Some (num_ge p (string_to_number (Controls.minPrice c)))
                        | None => None
                        end).
  set (pb := fun row => match toNum (field row "variant_price") with
                        | Some p => Some (num_le p (string_to_number (Controls.maxPrice c)))
                        | None => None
                        end).
  set (p9 := fun row => match inventory_of row with
                        | Some n => Some (num_ge n (string_to_number (Controls.minInv c)))
                        | None => None
                        end).
  set (p10 := fun row => match inventory_of row with
                         | Some n => Some (num_le n (string_to_number (Controls.maxInv c)))
                         | None => None
                         end).
  destruct (filter_step rows _ (negb (is_empty (trim (Controls.q c)))) p1 H0) as [H1 D1].
  cbv zeta in H1, D1.
  set (r1 := if negb (is_empty (trim (Controls.q c))) then filter_opt p1 rows else Some rows) in *.
  destruct (filter_step rows r1 (negb (is_empty (Controls.collection c))) p2 H1) as [H2 D2].
  cbv zeta in H2, D2.
  set (r2 := match r1 with None => None | Some rs => if negb (is_empty (Controls.collection c)) then filter_opt p2 rs else Some rs end) in *.
  destruct (filter_step rows r2 (negb (is_empty (Controls.tag c))) p3 H2) as [H3 D3].
  cbv zeta in H3, D3.
  set (r3 := match r2 with None => None | Some rs => if negb (is_empty (Controls.tag c)) then filter_opt p3 rs else Some rs end) in *.
  destruct (filter_step rows r3 (negb (eqb_str (Controls.triggerType c) (lit "any"))) p4 H3) as [H4 D4].
  cbv zeta in H4, D4.
  set (r4 := match r3 with None => None | Some rs => if negb (eqb_str (Controls.triggerType c) (lit "any")) then filter_opt p4 rs else Some rs end) in *.
  destruct (filter_step rows r4 (negb (eqb_str (Controls.setIndex c) (lit "any"))) p5 H4) as [H5 D5].
  cbv zeta in H5, D5.
  set (r5 := match r4 with None => None | Some rs => if negb (eqb_str (Controls.setIndex c) (lit "any")) then filter_opt p5 rs else Some rs end) in *.
  destruct (filter_step rows r5 (negb (eqb_str (Controls.availability c) (lit "any"))) p6 H5) as [H6 D6].
  cbv zeta in H6, D6.
  set (r6 := match r5 with None => None | Some rs => if negb (eqb_str (Controls.availability c) (lit "any")) then filter_opt p6 rs else Some rs end) in *.
  destruct (filter_step rows r6 (negb (is_empty (trim (Controls.optionFilter c)))) p7 H6) as [H7 D7].
  cbv zeta in H7, D7.
  set (r7 := match r6 with None => None | Some rs => if negb (is_empty (trim (Controls.optionFilter c))) then filter_opt p7 rs else Some rs end) in *.
  destruct (filter_step rows r7 (negb (is_empty (Controls.minPrice c))) pa H7) as [Ha Da].
  cbv zeta in Ha, Da.
  set (ra := match r7 with None => None | Some rs => if negb (is_empty (Controls.minPrice c)) then filter_opt pa rs else Some rs end) in *.
  destruct (filter_step rows ra (negb (is_empty (Controls.maxPrice c))) pb Ha) as [H8 D8].
  cbv zeta in H8, D8.
  set (r8 := match ra with None => None | Some rs => if negb (is_empty (Controls.maxPrice c)) then filter_opt pb rs else Some rs end) in *.
  assert (E8 : match r7 with
               | Some rs => price_range (Controls.minPrice c) (Controls.maxPrice c) rs
               | None => None
               end = r8).
  { unfold r8, ra, price_range. now destruct r7. }
  rewrite E8.
  destruct (filter_step rows r8 (negb (is_empty (Controls.minInv c))) p9 H8) as [H9 D9].
  cbv zeta in H9, D9.
  set (r9 := match r8 with None => None | Some rs => if negb (is_empty (Controls.minInv c)) then filter_opt p9 rs else Some rs end) in *.
  destruct (filter_step rows r9 (negb (is_empty (Controls.maxInv c))) p10 H9) as [H10 D10].
  cbv zeta in H10, D10.
  split; [|split; [|split; [|reflexivity]]].
  - intros out Hout. destruct H10 as [H10|[k H10]]; rewrite H10 in Hout;
      [discriminate|]. injection Hout as <-. now exists k.
  - reflexivity.
  - intros Hok. rewrite forallb_forall in Hok.
    assert (Hnum : forall (cmp : jsnum -> bool) x, In x rows ->
              match inventory_of x with
              | Some n => Some (cmp n)
              | None => None
              end <> None).
    { intros cmp x Hx. pose proof (inventory_of_defined x (Hok x Hx)) as Hd.
      now destruct (inventory_of x). }
    assert (Hprice : forall (cmp : jsnum -> bool) x, In x rows ->
              match toNum (field x "variant_price") with
              | Some p => Some (cmp p)
              | None => None
              end <> None).
    { intros cmp x Hx. pose proof (price_of_defined x (Hok x Hx)) as Hd.
      unfold price_of in Hd. now destruct (toNum (field x "variant_price")). }
    apply D10; [intros x Hx; now apply Hnum|].
    apply D9; [intros x Hx; now apply Hnum|].
    apply D8; [intros x Hx; now apply Hprice|].
    apply Da; [intros x Hx; now apply Hprice|].
    apply D7.
    { intros x Hx. unfold p7.
      assert (Hs : stringable (or_else (field x "variant_title") (VStr [])) = true).
      { unfold or_else. destruct (truthy (field x "variant_title")); [|reflexivity].
        apply row_filterable_field; [now apply Hok|cbn [In]; tauto]. }
      unfold stringable in Hs. now destruct (to_String _). }
    apply D6; [discriminate|].
    apply D5.
    { intros x Hx. unfold p5.
      assert (Hs : stringable (field x "set_index") = true)
        by (apply row_filterable_field; [now apply Hok|cbn [In]; tauto]).
      unfold stringable in Hs. now destruct (to_String _). }
    apply D4; [discriminate|].
    apply D3; [intros x Hx; apply has_tag_defined; now apply Hok|].
    apply D2; [intros x Hx; apply in_collection_defined; now apply Hok|].
    apply D1; [intros x Hx; apply matches_search_defined; now apply Hok|].
    discriminate.
Qed.

Lemma inventory_of_missing (row : object) :
  truthy (field row "inventory_quantity") = false ->
  inventory_of row = Some (Fin (Dec 0 0)).
Proof. unfold inventory_of, or_else. now intros ->. Qed.

(** The filters with every control at rest but the inventory bounds. *)
Lemma inventory_filters (minInv maxInv : str) (rows : list object) :
  filtered_rows (inventory_controls minInv maxInv) rows =
  match (if negb (is_empty minInv)
         then filter_opt
                (fun row => match inventory_of row with
                            | Some n => Some (num_ge n (string_to_number minInv))
                            | None => None
                            end) rows
         else Some rows) with
  | None => None
  | Some r1 =>
      if negb (is_empty maxInv)
      then filter_opt
             (fun row => match inventory_of row with
                         | Some n => Some (num_le n (string_to_number maxInv))
                         | None => None
                         end) r1
      else Some r1
  end.
Proof. reflexivity. Qed.

(** X12. The inventory bounds compare [Number(row.inventory_quantity || 0)]
    with the number typed: with the other controls at rest, the rows left
    are those within the bounds that are not empty; a row without a
    quantity (or with 0, an empty text, [null], [false]) counts as 0, so a
    minimum of 0 keeps it and a minimum of 1 drops it. The bounds throw,
    as [Number] does, exactly when one is set and the quantity of a row is
    an object that cannot be turned into a primitive. *)
Theorem X12_inventory_bounds (minInv maxInv : str) (rows : list object)
    (row : object) :
  (forall out,
     filtered_rows (inventory_controls minInv maxInv) rows = Some out ->
     out = filter (fun r =>
                     (is_empty minInv ||
                      match inventory_of r with
                      | Some n => num_ge n (string_to_number minInv)
                      | None => false
                      end) &&
                     (is_empty maxInv ||
                      match inventory_of r with
                      | Some n => num_le n (string_to_number maxInv)
                      | None => false
                      end)) rows) /\
  (filtered_rows (inventory_controls minInv maxInv) rows = None <->
   (minInv <> [] \/ maxInv <> []) /\ exists r, In r rows /\ inventory_of r = None) /\
  (truthy (field row "inventory_quantity") = false ->
   inventory_of row = Some (Fin (Dec 0 0)) /\
   filtered_rows (inventory_controls (lit "0") []) [row] = Some [row] /\
   filtered_rows (inventory_controls (lit "1") []) [row] = Some [] /\
   filtered_rows (inventory_controls [] (lit "0")) [row] = Some [row]).
Proof.
  split; [|split].
  - intros out H. rewrite inventory_filters in H.
    apply two_filters_Some in H. rewrite H. apply filter_ext. intros r.
    rewrite !negb_involutive. now destruct (inventory_of r) as [n|]; 
      [destruct (num_ge n _), (num_le n _)|].
  - rewrite inventory_filters, two_filters_None.
    + split.
      * intros [[H|H] (r & Hr & Hn)].
        -- split; [left; now destruct minInv|]. exists r. split; [exact Hr|].
           now destruct (inventory_of r).
        -- split; [right; now destruct maxInv|]. exists r. split; [exact Hr|].
           now destruct (inventory_of r).
      * intros [[H|H] (r & Hr & Hn)].
        -- split; [left; now destruct minInv|]. exists r. now rewrite Hn.
        -- split; [right; now destruct maxInv|]. exists r. now rewrite Hn.
    + intros x. now destruct (inventory_of x).
  - intros H. pose proof (inventory_of_missing row H) as E.
    split; [exact E|]. rewrite !inventory_filters.
    cbn [is_empty negb filter_opt]. rewrite E. repeat split.
Qed.

Lemma total_from_None (rows : list object) :
  fold_left (fun sum row => match sum, inventory_of row with
                            | Some t, Some n => Some (num_add t n)
                            | _, _ => None
                            end) rows None = None.
Proof. induction rows as [|r rows IH]; [reflexivity|]. cbn [fold_left]. exact IH. Qed.

Lemma total_from_NaN (rows : list object) (t : jsnum) :
  fold_left (fun sum row => match sum, inventory_of row with
                            | Some t, Some n => Some (num_add t n)
                            | _, _ => None
                            end) rows (Some NaN) = Some t -> t = NaN.
Proof.
  induction rows as [|r rows IH]; cbn [fold_left].
  - now intros [= <-].
  - destruct (inventory_of r) as [n|]; [exact IH|].
    rewrite total_from_None. discriminate.
Qed.

Lemma total_None (rows : list object) (a : jsnum) :
  fold_left (fun sum row => match sum, inventory_of row with
                            | Some t, Some n => Some (num_add t n)
                            | _, _ => None
                            end) rows (Some a) = None <->
  exists r, In r rows /\ inventory_of r = None.
Proof.
  revert a. induction rows as [|r rows IH]; intros a; cbn [fold_left].
  - split; [discriminate|]. now intros (r & [] & _).
  - destruct (inventory_of r) as [n|] eqn:E.
    + rewrite IH. split.
      * intros (x & Hx & Hn). exists x. split; [now right|exact Hn].
      * intros (x & [<-|Hx] & Hn); [congruence|]. eauto.
    + rewrite total_from_None. split; [|reflexivity]. intros _.
      exists r. split; [now left|exact E].
Qed.

(** X13. The inventory total adds [Number(row.inventory_quantity || 0)] row
    after row: it is 0 when no row has a quantity, and a single row whose
    quantity is not a number makes it NaN. It throws, as [Number] does,
    exactly when the quantity of a row is an object that cannot be turned
    into a primitive. *)
Theorem X13_inventory_total (rows : list object) (row : object) :
  totalInventory (rows ++ [row]) =
  match totalInventory rows, inventory_of row with
  | Some t, Some n => Some (num_add t n)
  | _, _ => None
  end /\
  (Forall (fun r => truthy (field r "inventory_quantity") = false) rows ->
   totalInventory rows = Some (Fin (Dec 0 0))) /\
  (In row rows -> inventory_of row = Some NaN ->
   forall t, totalInventory rows = Some t -> t = NaN) /\
  (totalInventory rows = None <-> exists r, In r rows /\ inventory_of r = None).
Proof.
  unfold totalInventory. split; [|split; [|split]].
  - now rewrite fold_left_app.
  - intros H. induction H as [|r rs Hr _ IH]; [reflexivity|].
    cbn [fold_left]. now rewrite (inventory_of_missing r Hr).
  - intros Hin Hn t. apply in_split in Hin. destruct Hin as (a & b & ->).
    rewrite fold_left_app. cbn [fold_left]. rewrite Hn.
    destruct (fold_left _ a _) as [s|].
    + replace (num_add s NaN) with NaN by now destruct s as [|[]|].
      apply total_from_NaN.
    + rewrite total_from_None. discriminate.
  - apply total_None.
Qed.

(* ===================================================================== *)
(** * NDJSON lines with white space around them *)
(* ===================================================================== *)

Lemma join_last (mid : list str) (y w : str) :
  join [NL] (mid ++ [y ++ w]) = join [NL] (mid ++ [y]) ++ w.
Proof.
  induction mid as [|m mid IH]; [reflexivity|].
  cbn [Datatypes.app].
  rewrite !join_cons_any by (destruct mid; discriminate).
  rewrite IH, <- app_assoc. reflexivity.
Qed.

Lemma join_edges (w1 x y w2 : str) (mid : list str) :
  join [NL] ((w1 ++ x) :: mid ++ [y ++ w2]) =
  w1 ++ join [NL] (x :: mid ++ [y]) ++ w2.
Proof.
  rewrite !join_cons_any by (destruct mid; discriminate).
  rewrite join_last, <- !app_assoc. reflexivity.
Qed.

Lemma number_end_space (c : ascii) (r : str) :
  is_js_space c = true -> number_end (c :: r) = true.
Proof.
  unfold number_end. destruct c as [[] [] [] [] [] [] [] []]; try discriminate;
    reflexivity.
Qed.

(** A JSON text followed by more that is not blank is not a JSON text. *)
Lemma parse_then_rest (v : value) (rest : str) :
  is_json v = true -> number_end rest = true -> not_blank rest = true ->
  JSON.parse (text v ++ rest) = None.
Proof.
  intros Hj Hn Hb. unfold JSON.parse.
  destruct (parse_text (2 * length (text v ++ rest) + 2)) as [Hv _].
  rewrite Hv; [|assumption|assumption|].
  - now rewrite skip_ws_not_blank.
  - pose proof (size_le_text v Hj). rewrite length_app. lia.
Qed.

Lemma padded_line_facts (it : str * value * str) :
  padding (fst (fst it)) && padding (snd it) = true ->
  json_object (snd (fst it)) = true ->
  no_newline (padded_line it) = true /\
  trim (padded_line it) = text (snd (fst it)).
Proof.
  destruct it as [[w1 o] w2]. cbn [fst snd]. unfold padding, padded_line.
  cbn [fst snd]. rewrite !andb_true_iff. intros [[H1 N1] [H2 N2]] Ho.
  unfold json_object in Ho. apply andb_true_iff in Ho. destruct Ho as [_ Ho].
  split.
  - rewrite !no_newline_app, N1, N2. unfold no_newline at 1.
    now rewrite text_no_newline.
  - apply trim_pad; auto using text_tight.
Qed.

Lemma padded_lines_facts (items : list (str * value * str)) :
  forallb (fun it => padding (fst (fst it)) && padding (snd it)) items = true ->
  forallb json_object (map (fun it => snd (fst it)) items) = true ->
  forallb no_newline (map padded_line items) = true /\
  map trim (map padded_line items) = map text (map (fun it => snd (fst it)) items).
Proof.
  induction items as [|it items IH]; [now split|].
  cbn [forallb map]. intros H1 H2.
  apply andb_true_iff in H1. destruct H1 as [Hp Hps].
  apply andb_true_iff in H2. destruct H2 as [Ho Hos].
  destruct (IH Hps Hos) as [-> ->].
  destruct (padded_line_facts it Hp Ho) as [-> ->]. now split.
Qed.

Lemma parsePossiblyMany_blank (s : str) :
  forallb is_js_space s = true -> parsePossiblyMany s = [].
Proof.
  intros H. unfold parsePossiblyMany. rewrite trim_blank by assumption.
  cbn [is_empty]. now rewrite orb_true_r.
Qed.

(** X14. Lines that each hold one well-formed JSON object with white space
    around its text (indentation, the carriage return of a CRLF line end),
    in a text that may start and end with white space and line feeds, are
    parsed back to the objects, in order, as long as the text of each of
    them but the last passes the bracket test. *)
Theorem X14_ndjson_padded_lines (lead trail : str)
    (items : list (str * value * str)) :
  let objs := map (fun it => snd (fst it)) items in
  forallb is_js_space lead = true -> forallb is_js_space trail = true ->
  forallb (fun it => padding (fst (fst it)) && padding (snd it)) items = true ->
  forallb json_object objs = true ->
  forallb (fun o => balanced (text o)) (removelast objs) = true ->
  parsePossiblyMany (lead ++ join [NL] (map padded_line items) ++ trail) = objs.
Proof.
  intros objs Hlead Htrail Hpad Hobj Hbal. subst objs.
  destruct items as [|[[w1 o1] w2] its].
  { cbn [map join Datatypes.app]. apply parsePossiblyMany_blank.
    now rewrite forallb_app, Hlead, Htrail. }
  pose proof Hobj as Hobj1. cbn [map forallb fst snd] in Hobj1.
  apply andb_true_iff in Hobj1. destruct Hobj1 as [Ho1 _].
  pose proof Ho1 as Hj1. unfold json_object in Hj1.
  apply andb_true_iff in Hj1. destruct Hj1 as [Hk1 Hj1].
  pose proof Hpad as Hpad1. cbn [forallb fst snd] in Hpad1.
  apply andb_true_iff in Hpad1. destruct Hpad1 as [Hp1 _].
  unfold padding in Hp1. rewrite !andb_true_iff in Hp1.
  destruct Hp1 as [[Hw1 Nw1] [Hw2 Nw2]].
  destruct its as [|it2 its].
  { (* one line *)
    cbn [map join fst snd]. unfold padded_line. cbn [fst snd].
    replace (lead ++ (w1 ++ text o1 ++ w2) ++ trail)
      with ((lead ++ w1) ++ text o1 ++ (w2 ++ trail))
      by (rewrite <- !app_assoc; reflexivity).
    rewrite parsePossiblyMany_pad;
      [|now rewrite forallb_app, Hlead, Hw1|now rewrite forallb_app, Hw2, Htrail
       |now apply text_tight].
    rewrite parse_single by assumption. now destruct o1. }
  (* several lines *)
  destruct (exists_last (l := it2 :: its) ltac:(discriminate))
    as (mid & [[wn1 on] wn2] & Eits).
  rewrite Eits in *. clear Eits it2 its.
  destruct (padded_lines_facts _ Hpad Hobj) as [Hnl Htrim].
  assert (Hlast : padding wn1 && padding wn2 = true /\ json_object on = true).
  { cbn [forallb] in Hpad. apply andb_true_iff in Hpad. destruct Hpad as [_ Hpad].
    rewrite forallb_app in Hpad. apply andb_true_iff in Hpad.
    destruct Hpad as [_ Hpad]. cbn [forallb fst snd] in Hpad.
    rewrite andb_true_r in Hpad.
    cbn [map forallb] in Hobj.
    apply andb_true_iff in Hobj. destruct Hobj as [_ Hobj].
    rewrite map_app, forallb_app in Hobj. apply andb_true_iff in Hobj.
    destruct Hobj as [_ Hobj]. cbn [map forallb fst snd] in Hobj.
    rewrite andb_true_r in Hobj. now split. }
  destruct Hlast as [Hpn Hon].
  unfold padding in Hpn. rewrite !andb_true_iff in Hpn.
  destruct Hpn as [[Hwn1 Nwn1] [Hwn2 Nwn2]].
  pose proof Hon as Hjn. unfold json_object in Hjn.
  apply andb_true_iff in Hjn. destruct Hjn as [_ Hjn].
  set (midl := map padded_line mid).
  set (x := text o1 ++ w2). set (y := wn1 ++ text on).
  set (t := join [NL] (x :: midl ++ [y])).
  assert (Ewhole : join [NL] (map padded_line ((w1, o1, w2) :: mid ++ [(wn1, on, wn2)])) =
                   w1 ++ t ++ wn2).
  { cbn [map]. rewrite map_app. cbn [map]. unfold padded_line at 1 3.
    cbn [fst snd]. fold midl.
    replace (wn1 ++ text on ++ wn2) with (y ++ wn2)
      by (unfold y; now rewrite <- app_assoc).
    apply join_edges. }
  assert (Et : t = text o1 ++ join [NL] (w2 :: midl ++ [wn1]) ++ text on).
  { unfold t, x, y. apply join_edges. }
  assert (Htight : tight t = true).
  { rewrite Et. apply tight_wrap; now apply text_tight. }
  rewrite Ewhole.
  replace (lead ++ (w1 ++ t ++ wn2) ++ trail)
    with ((lead ++ w1) ++ t ++ (wn2 ++ trail))
    by (rewrite <- !app_assoc; reflexivity).
  rewrite parsePossiblyMany_pad;
    [|now rewrite forallb_app, Hlead, Hw1|now rewrite forallb_app, Hwn2, Htrail
     |exact Htight].
  destruct (tight_trim _ Htight) as [Etrim Hne].
  assert (Hfail : JSON.parse t = None).
  { rewrite Et. apply parse_then_rest; [assumption| |].
    - rewrite join_cons_any by (destruct midl; discriminate).
      rewrite <- app_assoc. destruct w2 as [|c w2]; [reflexivity|].
      cbn [Datatypes.app]. apply number_end_space.
      cbn [forallb] in Hw2. now apply andb_true_iff in Hw2.
    - rewrite not_blank_app, (not_blank_tight _ (text_tight on Hjn)).
      apply orb_true_r. }
  unfold parsePossiblyMany. rewrite Etrim.
  destruct t as [|c0 t0] eqn:Ett; [congruence|]. cbn [is_empty orb].
  rewrite Hfail, <- Ett. unfold parse_ndjson.
  set (objs := map (fun it => snd (fst it)) ((w1, o1, w2) :: mid ++ [(wn1, on, wn2)])).
  assert (Hlines : ndjson_lines t = map text objs).
  { unfold t. rewrite ndjson_lines_join_any; [|discriminate|].
    - unfold objs. cbn [map fst snd]. rewrite !map_app. cbn [map fst snd].
      cbn [map] in Htrim. rewrite !map_app in Htrim. cbn [map fst snd] in Htrim.
      injection Htrim as _ Htrim. apply app_inj_tail in Htrim.
      destruct Htrim as [Hmid _]. fold midl in Hmid.
      rewrite Hmid.
      assert (Ex : trim x = text o1).
      { unfold x. apply (trim_pad [] (text o1) w2); auto using text_tight. }
      assert (Ey : trim y = text on).
      { unfold y. replace (wn1 ++ text on) with (wn1 ++ text on ++ [])
          by now rewrite app_nil_r.
        apply trim_pad; auto using text_tight. }
      rewrite Ex, Ey.
      change (text o1 :: map text (map (fun it => snd (fst it)) mid) ++ [text on])
        with (map text (o1 :: map (fun it => snd (fst it)) mid) ++ [text on]).
      replace (map text (o1 :: map (fun it => snd (fst it)) mid) ++ [text on])
        with (map text ((o1 :: map (fun it => snd (fst it)) mid) ++ [on]))
        by (rewrite map_app; reflexivity).
      destruct (objects_lines ((o1 :: map (fun it => snd (fst it)) mid) ++ [on]))
        as [_ Ht].
      { cbn [map fst snd] in Hobj. rewrite map_app in Hobj. exact Hobj. }
      apply forallb_filter_id. rewrite forallb_forall in Ht |- *.
      intros l Hl. destruct (tight_trim l (Ht l Hl)) as [_ Hne'].
      now destruct l.
    - cbn [map] in Hnl. rewrite map_app in Hnl. cbn [map forallb] in Hnl.
      apply andb_true_iff in Hnl. destruct Hnl as [_ Hnl].
      rewrite forallb_app in Hnl. apply andb_true_iff in Hnl.
      destruct Hnl as [Hmidnl _]. fold midl in Hmidnl.
      cbn [forallb]. rewrite forallb_app, Hmidnl. cbn [forallb].
      unfold x, y. rewrite !no_newline_app, Nw2, Nwn1.
      unfold no_newline. now rewrite !text_no_newline. }
  rewrite Hlines.
  apply (finish_objects objs []); assumption.
Qed.

Lemma X14_witness :
  let o := hd VNull tinyExample in
  let CR := [chr 13] in
  parsePossiblyMany (join [NL] [text o ++ CR; text o ++ CR; text o ++ CR] ++ [NL]) =
  [o; o; o].
Proof.
  intros o CR.
  exact (X14_ndjson_padded_lines [] [NL] [([], o, CR); ([], o, CR); ([], o, CR)]
           eq_refl eq_refl eq_refl eq_refl eq_refl).
Defined.

(* ===================================================================== *)
(** * The explorer's filters *)
(* ===================================================================== *)

Lemma filter_all {A} (xs : list A) : filter (fun _ => true) xs = xs.
Proof. induction xs as [|x xs IH]; [reflexivity|]. cbn [filter]. now rewrite IH. Qed.




(** X16. With the five inputs of the explorer empty every row is shown, and
    the five filters together keep what they keep one after the other: the
    text, then the vendor, then the availability, then the two price
    bounds. *)
Theorem X16_explorer_filters_compose (rows : list ProductRow)
    (t v a mn mx : str) :
  filteredRows rows [] [] [] [] [] = rows /\
  filteredRows rows t v a mn mx =
    filteredRows
      (filteredRows
         (filteredRows
            (filteredRows (filteredRows rows t [] [] [] []) [] v [] [] [])
            [] [] a [] [])
         [] [] [] mn [])
      [] [] [] [] mx.
Proof.
  split.
  - unfold filteredRows. cbn. apply filter_all.
  - unfold filteredRows.
    change (asNumber (VStr [])) with (Some (@None jsnum)).
    change (toLowerCase []) with (@nil ascii).
    cbn [is_empty orb andb]. rewrite !filter_filter.
    apply filter_ext. intros r.
    rewrite ?andb_true_r. cbn [andb].
    rewrite <- !andb_assoc. reflexivity.
Qed.
